(* ===== verification/_CoqProject ===== *)
-Q . S2P
Prelude.v
Errors.v
Wire.v
Extensions.v
Messages.v
Primitives.v
Transcript.v
Asn1.v
Protection.v
ProtectionGost.v
ProtectionCtrOmac.v
State.v
Layer.v
WireDebug.v
AlertText.v
Protectors.v
Suites.v
KeySetup.v
KeyTransport.v
KeyExchange.v
KexServer.v
Certs.v
Client.v
ClientProofs.v
ClientRun.v
Fatal.v
Flow.v
Accept.v
Conn.v
ConnProofs.v
ConnRun.v
Agreement.v
AgreementRun.v
Receive.v
Complete.v
ReceiveRun.v
Threads.v
ThreadProofs.v
ThreadOrder.v
ThreadProgress.v
ThreadRun.v
DialRace.v
DialRun.v
