(* ===== verification/Prelude.v ===== *)
(** * gostls: a verification of the TLS 1.2 client with GOST cipher suites

    The repository is a TLS 1.2 client in Go.  [conn.go] is the [net.Conn] an
    application holds; its first use runs the handshake of
    [internal/handshake/client.go], which exchanges messages
    ([messages.go], [extensions.go], [wire.go]) over the record layer of
    [internal/record/record.go], hashes them into a transcript
    ([transcript.go]), checks the server's certificate and signature
    ([cert_gost.go], [crypto.go]), runs a key exchange of [internal/ke], derives
    keys with [internal/suites] and installs a record protector of
    [internal/record].  [config.go] and [dialer*.go] sit in front.

    ** Files and what they model

    - [Prelude]: bytes ([Byte.byte]), Go's [len], slices and indices that panic
      out of range, big-endian integers, 16/32/64-bit wrap-around, the result
      type [res] (value, error, crash), the tactics and hint databases shared by
      all files ([tls] for safety, [len] for lengths).
    - [Errors]: the sentinel errors, [AlertError], [RecordError] and the alert
      codes of [internal/record/alerts.go].
    - [Wire], [Extensions], [Messages]: [wire.go], [extensions.go],
      [messages.go] and [types.go] of [internal/handshake]; one definition per
      reader, parser and marshaller, under the name of the source.
    - [Primitives]: what the code calls outside the repository (hashes, AES, GCM,
      ChaCha20-Poly1305, the GOST primitives of [gostcrypto]) as the class
      [Primitives] with the class [PrimitiveLaws] of documented behaviour; HMAC,
      CBC mode and [crypto/subtle] written out; the random source as a tape; a
      concrete instance [Toy].
    - [Transcript]: [transcript.go].
    - [Asn1]: the part of [encoding/asn1] the code uses, with encoders and decoders
      proved to be inverse: DER lengths, tags, object identifiers, integers.
    - [Protection], [ProtectionGost], [ProtectionCtrOmac]: the protectors of
      [internal/record], each as its struct with [Seal] and [Open].
    - [State]: Go methods as functions from a state to a result and a state
      ([M]), weakest preconditions for them ([wp]), and the transport ([world]:
      bytes to come, bytes written, a script of write failures, randomness).
    - [Layer]: [record.go] over the interface class [Protector]; what the layer
      needs of a protector is [ProtectorLaws], discharged in [Protectors] for
      every protector of the repository.
    - [WireDebug]: [wire_debug.go] and the two record operations with their calls
      of it; [AlertText]: the [Error] methods of [alerts.go].
    - [Suites], [KeySetup]: the suite tables and registry, PRF and key schedule of
      [internal/suites]; [buildProtector] and the handshake's key expansion.
    - [KeyTransport], [KeyExchange]: [internal/ke]; the envelopes of the GOST
      exchanges, and the exchanges over the class [KexLib] (bigmod, [crypto/ecdh],
      [crypto/rsa], VKO, KEG, kexp15) with [KexLaws].
    - [KexServer]: a reference for the server's side of every exchange, which the
      repository does not have outside its tests.
    - [Certs]: signature algorithms and certificate chains over the class [X509].
    - [Client], [ClientProofs], [ClientRun]: the handshake state machine, its
      proofs, and a complete run on the concrete instances.
    - [Fatal]: what a run of the client wrote, as a log of its records, and that a
      handshake that fails ends with an alert.
    - [Flow]: the message flow of RFC 5246 as an automaton, which a completed
      handshake refines: what the server sent and what the client wrote, not only
      what was hashed.
    - [Accept]: which first flights and which Finished the client accepts, both ways.
    - [Conn], [ConnProofs], [ConnRun]: [conn.go], [config.go] and the dialers as
      sequential calls, their proofs, and a connection in use.
    - [Agreement], [AgreementRun]: that server at the other end of a connection, and a
      session of the two on the concrete instances.
    - [Receive]: the data a server sends, from its writes to [Conn.Read]; [Complete]: a
      handshake with an honest server succeeds; [ReceiveRun]: both on the concrete
      instances.
    - [Threads]: the calls of [conn.go] by any number of goroutines, as a step
      function on a shared connection with its [Once], mutexes and atomic flags,
      and the relation of all interleavings with the network.  [ThreadProofs]: the
      invariant of lock ownership and the absence of races; [ThreadOrder]: the
      records on the wire; [ThreadProgress]: calls return, and a goroutine alone is
      the sequential call; [ThreadRun]: schedules on a concrete connection.
    - [DialRace], [DialRun]: [handshakeContext] of [dialer_default.go] as its two
      goroutines with their channels, and two schedules of it.

    A method [(c *T) F(x) (y, error)] is a definition [F : X -> M T Y]; [Err] is a
    returned error, [Crash Panic] a run-time panic, [Crash OutOfFuel] a loop whose
    bound was too small.  Sentinel errors keep their names; the text that
    [fmt.Errorf] adds is dropped, and an error that wraps two others is [EWrap].

    ** What the theorems show

    - Handshake (C1 to C3, C10, C11, C17 to C19): success means the certificate chain
      was verified, the key exchange parameters carry a signature that verifies under
      the leaf's own key with an algorithm the ClientHello on the wire offered and
      that is of the suite's kind ([params_signed], [signed_by]), the Finished
      messages cover the whole transcript, the keys in use are those of the
      negotiated suite; suite and extensions are among those of the ClientHello on
      the wire; the messages of both sides, on the wire, follow the flow of the RFC;
      client authentication happens exactly on request, with the first algorithm that
      suits the server and the key; message boundaries are independent of record
      boundaries; every run ends without a panic, and a failure after the ClientHello
      has one fatal alert as its last write.
    - Acceptance (C7 to C9): of all message sequences a server may send, the client
      accepts exactly those that pass the checks, and it ends exactly on a right
      Finished, so no check is stronger than stated either; with an honest server a
      handshake succeeds unless the client's own second flight fails.
    - Both ends (C4 to C6, C12): a server that holds the secret of what it sent recovers
      the client's pre-master secret in every key exchange, derives the same master
      secret and protectors, reads from the client's bytes its handshake and then
      exactly the data the application wrote, and the application reads exactly the
      data the server wrote, to its end.
    - Goroutines (C13 to C15, C24, C25): no data race in any interleaving of calls,
      a [Write] is atomic and close_notify last on the wire, the peer reads what
      concurrent writers sent, closing lets every call return even when the peer
      stalls, and one goroutine alone does what the sequential model does.
    - Connection (C20, C27 to C29): the chain is verified for the configured name, or
      the dialled one, under the roots of the configuration ([trust_anchors]), and
      without a name not at all; read errors are final, [Close] is final, every call
      returns.
    - Dialer (C16, C26, C30): the race between handshake and context has the
      outcomes of the sequential model and leaves no deadline and no goroutine
      behind, a context that ends ends the dial, and a dial gives a verified
      connection or none.
    - Record layer (C21 to C23): round trip over any sequence of records for any
      lawful protector; [ReadRecord] returns exactly the records that [record_read]
      describes in numbers; sequence numbers.
    - Protection (C31 to C36): the constant-time CBC code equals the plain
      definition; [Open] accepts exactly what [Seal] makes; the GOST MAC does not
      depend on how data is cut.
    - Messages (C37, C38): parsed messages are well-typed; what parsing makes of every
      marshalled message, which is the message itself but for the kinds whose
      [Marshal] loses something ([read_back]).
    - PRF and key setup (C39, C40): the PRF is that of RFC 5246; every registered
      suite has the protector that the tables of the RFCs give its code point
      ([rfcSuites]), in both directions.

    Theorems without a number say more of the same components (the transcript fails
    closed, nonces do not repeat, the plaintext dump never disturbs a connection), among
    them where the code departs from its comments ([dhe_rfc_secret],
    [dhe_floor_leading_zeros], [write_error_reuses_nonce], [verifyECDSASignature_iff]).

    Theorems with hypotheses are evaluated on concrete data by a lemma of the same
    name with the suffix [_witness].

    ** Bounds and fuel

    Loops that are not structural carry a [nat] bound, and a theorem or lemma shows
    that the bound the caller gives is never reached: parsers take the length of
    their input plus one (each turn consumes at least one byte);
    [readHandshakeLoop] takes the number of bytes still to come plus one (each turn
    reads a record, hence at least its five-byte header); the server flight takes
    three turns, as a fourth message is a duplicate or out of order; [readLoop] takes
    34 turns, one more than the empty records it tolerates; [writeLoop] the length
    of the data plus one; P_hash one turn per output byte; the CNT and IMIT loops the length
    of their data.

    The interleaving models need no fuel: a step is a function, an execution a
    chain of steps, and termination is shown with a measure of the work left
    ([work], [dialWork]) that every step of a goroutine lowers.

    ** Not modelled

    The texts of sentinel and wrapped errors; timing (constant-time code is
    modelled for its values, and the five seconds of the close_notify write as a
    write that returns); what happens inside
    [doHandshake] between goroutines, which is one step of [Threads], as no other
    goroutine may touch the layer meanwhile; the Go memory model below the level of
    locks, atomics and channels; code selected by other build tags. *)

From Stdlib Require Import ZArith Lia.
From Stdlib Require Import Strings.Byte.
From Stdlib Require Strings.String.
From stdpp Require Import base list numbers.

Open Scope Z_scope.

(** ** Bytes

    A Go [byte] is the standard library's 256-constructor type, so "is a byte"
    never has to be a hypothesis.  [b2z] is the conversion [int(b)], [z2b] the
    truncating conversion [byte(n)]. *)

Abbreviation byte := Init.Byte.byte.
Abbreviation bytes := (list byte).

Definition b2z (b : byte) : Z := Z.of_N (Byte.to_N b).

Definition z2b (z : Z) : byte :=
  match Byte.of_N (Z.to_N (z mod 256)) with
  | Some b => b
  | None => Byte.x00
  end.

(** A string constant converted to [[]byte]. *)
Definition strBytes (s : String.string) : bytes := String.list_byte_of_string s.

(** Go's [len]. *)
Definition len {A} (l : list A) : Z := Z.of_nat (length l).

(** ** Machine integers: the wrap-around of the unsigned widths in use. *)

Definition u16 (z : Z) : Z := z mod 2 ^ 16.
Definition u32 (z : Z) : Z := z mod 2 ^ 32.
Definition u64 (z : Z) : Z := z mod 2 ^ 64.

Definition maxUint64 : Z := 2 ^ 64 - 1.

(** Two's-complement reading of the low 32 bits, Go's [int32(x)]. *)
Definition i32 (z : Z) : Z :=
  let u := z mod 2 ^ 32 in if u <? 2 ^ 31 then u else u - 2 ^ 32.

(** Two's-complement reading of the low 8 bits, Go's [int8(x)]. *)
Definition i8 (z : Z) : Z :=
  let u := z mod 2 ^ 8 in if u <? 2 ^ 7 then u else u - 2 ^ 8.

(** ** Results

    [Ok] a value, [Err] a Go error value, [Crash] what Go code must never do:
    a run-time panic (an index or slice out of range, an explicit [panic]) or,
    for the loops that are modelled with fuel, running out of it. *)

Inductive crash := Panic | OutOfFuel.

Inductive res (E A : Type) :=
| Ok (a : A)
| Err (e : E)
| Crash (c : crash).
Arguments Ok {E A} a.
Arguments Err {E A} e.
Arguments Crash {E A} c.

Definition bind {E A B} (m : res E A) (k : A -> res E B) : res E B :=
  match m with
  | Ok a => k a
  | Err e => Err e
  | Crash c => Crash c
  end.

(** [safe r]: the computation neither panicked nor ran out of fuel. *)
Definition safe {E A} (r : res E A) : Prop :=
  match r with Crash _ => False | _ => True end.

Declare Scope res_scope.
Delimit Scope res_scope with res.
Notation "'let*' x ':=' m 'in' k" := (bind m (fun x => k))
  (at level 10, x pattern, m at level 100, k at level 200)
  : res_scope.
Open Scope res_scope.

(** Replace the error of a failed computation, as [fmt.Errorf] with a new
    sentinel does. *)
Definition map_err {E A} (f : E -> E) (m : res E A) : res E A :=
  match m with Err e => Err (f e) | r => r end.

(** ** Slices

    [slice b lo hi] is Go's [b[lo:hi]] and [index b i] is [b[i]]; out of range
    is a panic.  (Go bounds [hi] by the capacity, which is at least the length:
    whatever is safe here is safe in Go.) *)

Definition slice {E A} (b : list A) (lo hi : Z) : res E (list A) :=
  if (0 <=? lo) && (lo <=? hi) && (hi <=? len b)
  then Ok (take (Z.to_nat (hi - lo)) (drop (Z.to_nat lo) b))
  else Crash Panic.

Definition index {E A} (b : list A) (i : Z) : res E A :=
  if 0 <=? i
  then match b !! Z.to_nat i with Some x => Ok x | None => Crash Panic end
  else Crash Panic.

(** ** Big-endian integers ([encoding/binary.BigEndian]) *)

Definition beUint (b : bytes) : Z := foldl (fun acc x => acc * 256 + b2z x) 0 b.

Fixpoint bePut (n : nat) (v : Z) : bytes :=
  match n with
  | O => []
  | S n' => bePut n' (Z.shiftr v 8) ++ [z2b v]
  end.

Create HintDb tls.

(** * Generic lemmas *)

(** ** Lengths *)

Lemma len_nil {A} : len ([] : list A) = 0.
Proof. reflexivity. Qed.

Lemma len_cons {A} (x : A) l : len (x :: l) = 1 + len l.
Proof. unfold len; cbn [length]; lia. Qed.

Lemma len_app {A} (a b : list A) : len (a ++ b) = len a + len b.
Proof. unfold len; rewrite length_app; lia. Qed.

Lemma len_nonneg {A} (l : list A) : 0 <= len l.
Proof. unfold len; lia. Qed.

Lemma len_zero_nil {A} (l : list A) : len l = 0 -> l = [].
Proof. destruct l; [done|]. rewrite len_cons. pose proof (len_nonneg l); lia. Qed.

Lemma len_take {A} (l : list A) n : len (take n l) = Z.min (Z.of_nat n) (len l).
Proof. unfold len; rewrite length_take; lia. Qed.

Lemma len_drop {A} (l : list A) n : len (drop n l) = Z.max 0 (len l - Z.of_nat n).
Proof. unfold len; rewrite length_drop; lia. Qed.

Lemma len_map {A B} (f : A -> B) l : len (map f l) = len l.
Proof. unfold len; now rewrite length_map. Qed.

Lemma to_nat_len {A} (l : list A) : Z.to_nat (len l) = length l.
Proof. unfold len; lia. Qed.

Lemma length_as_len {A} (l : list A) n : length l = n <-> len l = Z.of_nat n.
Proof. unfold len; lia. Qed.

Create Rewrite HintDb len.
Create Rewrite HintDb byte.

#[export] Hint Rewrite @len_nil @len_cons @len_app @len_take @len_drop @len_map
  : len.

(** Normalise every [len] in the goal and in the hypotheses, remember that
    lengths are not negative, and let [lia] finish. *)
Ltac len_simp :=
  autorewrite with len in *.

Ltac len_pose :=
  repeat match goal with
  | |- context [len ?l] =>
      lazymatch goal with H : 0 <= len l |- _ => fail | _ => pose proof (len_nonneg l) end
  | H' : context [len ?l] |- _ =>
      lazymatch goal with H : 0 <= len l |- _ => fail | _ => pose proof (len_nonneg l) end
  end.

Ltac len_lia := len_simp; len_pose; lia.

(** Turn boolean tests of the source into propositions, on both sides. *)
Ltac z_bool :=
  repeat match goal with
  | H : (_ <? _) = true |- _ => apply Z.ltb_lt in H
  | H : (_ <? _) = false |- _ => apply Z.ltb_ge in H
  | H : (_ <=? _) = true |- _ => apply Z.leb_le in H
  | H : (_ <=? _) = false |- _ => apply Z.leb_gt in H
  | H : (_ =? _) = true |- _ => apply Z.eqb_eq in H
  | H : (_ =? _) = false |- _ => apply Z.eqb_neq in H
  | H : negb _ = true |- _ => apply negb_true_iff in H
  | H : negb _ = false |- _ => apply negb_false_iff in H
  | H : _ && _ = true |- _ => apply andb_true_iff in H; destruct H
  | H : _ || _ = false |- _ => apply orb_false_iff in H; destruct H
  end.

(** Decide the test of the first [if] whose value follows from the context. *)
Ltac z_if :=
  match goal with
  | |- context [if ?a <? ?b then _ else _] =>
      first [ replace (a <? b) with true by (symmetry; apply Z.ltb_lt; len_lia)
            | replace (a <? b) with false by (symmetry; apply Z.ltb_ge; len_lia) ]
  | |- context [if ?a <=? ?b then _ else _] =>
      first [ replace (a <=? b) with true by (symmetry; apply Z.leb_le; len_lia)
            | replace (a <=? b) with false by (symmetry; apply Z.leb_gt; len_lia) ]
  | |- context [if ?a =? ?b then _ else _] =>
      first [ replace (a =? b) with true by (symmetry; apply Z.eqb_eq; len_lia)
            | replace (a =? b) with false by (symmetry; apply Z.eqb_neq; len_lia) ]
  | |- context [if negb (?a =? ?b) then _ else _] =>
      first [ replace (a =? b) with true by (symmetry; apply Z.eqb_eq; len_lia)
            | replace (a =? b) with false by (symmetry; apply Z.eqb_neq; len_lia) ];
      cbn [negb]
  end.

(** ** Bytes *)

Lemma b2z_range b : 0 <= b2z b < 256.
Proof. unfold b2z. pose proof (Byte.to_N_bounded b). lia. Qed.

Lemma b2z_z2b z : b2z (z2b z) = z mod 256.
Proof.
  unfold b2z, z2b.
  pose proof (Z.mod_pos_bound z 256 ltac:(lia)) as Hb.
  destruct (Byte.of_N (Z.to_N (z mod 256))) as [b|] eqn:E.
  - apply Byte.to_of_N in E. rewrite E. lia.
  - apply Byte.of_N_None_iff in E. lia.
Qed.

Lemma z2b_b2z b : z2b (b2z b) = b.
Proof.
  unfold z2b, b2z. rewrite Z.mod_small by apply b2z_range.
  rewrite N2Z.id, Byte.of_to_N. reflexivity.
Qed.

Lemma b2z_inj a b : b2z a = b2z b -> a = b.
Proof. intros H. rewrite <- (z2b_b2z a), <- (z2b_b2z b). now rewrite H. Qed.

Lemma z2b_mod z : z2b (z mod 256) = z2b z.
Proof. apply b2z_inj. rewrite !b2z_z2b, Z.mod_mod; lia. Qed.

Lemma b2z_small z : 0 <= z < 256 -> b2z (z2b z) = z.
Proof. intros. rewrite b2z_z2b. now apply Z.mod_small. Qed.

#[export] Hint Rewrite b2z_z2b z2b_b2z z2b_mod : byte.

#[export] Instance byte_eq_dec : EqDecision byte.
Proof.
  intros a b. destruct (decide (b2z a = b2z b)) as [E|N].
  - left. now apply b2z_inj.
  - right. now intros ->.
Defined.

(** ** Big-endian integers *)

Lemma foldl_be acc b :
  foldl (fun acc x => acc * 256 + b2z x) acc b = acc * 256 ^ len b + beUint b.
Proof.
  unfold beUint. revert acc.
  induction b as [|x b IH]; intros acc; cbn [foldl].
  - rewrite len_nil. lia.
  - rewrite (IH (acc * 256 + b2z x)), (IH (0 * 256 + b2z x)), len_cons.
    rewrite Z.pow_add_r by len_lia. lia.
Qed.

Lemma beUint_cons x b : beUint (x :: b) = b2z x * 256 ^ len b + beUint b.
Proof. unfold beUint; cbn [foldl]. rewrite foldl_be. unfold beUint. lia. Qed.

Lemma beUint_app a b : beUint (a ++ b) = beUint a * 256 ^ len b + beUint b.
Proof. unfold beUint at 1. rewrite foldl_app. apply foldl_be. Qed.

Lemma beUint_nonneg b : 0 <= beUint b.
Proof.
  induction b as [|x b IH]; [done|]. rewrite beUint_cons.
  pose proof (b2z_range x). pose proof (Z.pow_pos_nonneg 256 (len b)).
  assert (0 < 256 ^ len b) by (apply Z.pow_pos_nonneg; len_lia). nia.
Qed.

Lemma beUint_range b : 0 <= beUint b < 256 ^ len b.
Proof.
  split; [apply beUint_nonneg|].
  induction b as [|x b IH]; [done|]. rewrite beUint_cons, len_cons.
  rewrite Z.pow_add_r by len_lia. pose proof (b2z_range x). nia.
Qed.

Lemma length_bePut n v : length (bePut n v) = n.
Proof.
  revert v; induction n as [|n IH]; intros v; cbn [bePut]; [done|].
  rewrite length_app, IH. cbn [length]; lia.
Qed.

Lemma len_bePut n v : len (bePut n v) = Z.of_nat n.
Proof. apply length_as_len, length_bePut. Qed.

#[export] Hint Rewrite @len_bePut : len.

Lemma beUint_bePut n v : beUint (bePut n v) = v mod 256 ^ Z.of_nat n.
Proof.
  revert v; induction n as [|n IH]; intros v; cbn [bePut].
  - change (256 ^ Z.of_nat 0) with 1. now rewrite Z.mod_1_r.
  - rewrite beUint_app, IH, beUint_cons. cbn [beUint foldl].
    rewrite len_cons, len_nil, b2z_z2b, Z.shiftr_div_pow2 by lia.
    change (2 ^ 8) with 256.
    replace (256 ^ Z.of_nat (S n)) with (256 * 256 ^ Z.of_nat n)
      by (rewrite Nat2Z.inj_succ, Z.pow_succ_r by lia; lia).
    rewrite Z.rem_mul_r by (try apply Z.pow_pos_nonneg; lia).
    change (256 ^ (1 + 0)) with 256. change (beUint []) with 0.
    change (256 ^ 0) with 1. lia.
Qed.

Lemma bePut_beUint b : bePut (length b) (beUint b) = b.
Proof.
  induction b as [|x b IH] using rev_ind; [done|].
  rewrite length_app, Nat.add_comm. cbn [length Nat.add bePut].
  rewrite beUint_app. change (len [x]) with 1. rewrite Z.pow_1_r.
  pose proof (b2z_range x).
  assert (Hx : beUint [x] = b2z x) by (unfold beUint; cbn [foldl]; lia).
  rewrite Hx, Z.shiftr_div_pow2 by lia. change (2 ^ 8) with 256.
  rewrite Z.div_add_l, Z.div_small, Z.add_0_r, IH by lia.
  f_equal. f_equal. rewrite <- z2b_mod, (Z.add_comm (_ * _)), Z.mod_add by lia.
  rewrite Z.mod_small by lia. apply z2b_b2z.
Qed.

Lemma beUint_inj a b : length a = length b -> beUint a = beUint b -> a = b.
Proof.
  intros Hl He. rewrite <- (bePut_beUint a), <- (bePut_beUint b). now rewrite Hl, He.
Qed.

Lemma bePut_inj n v w :
  0 <= v < 256 ^ Z.of_nat n -> 0 <= w < 256 ^ Z.of_nat n ->
  bePut n v = bePut n w -> v = w.
Proof.
  intros Hv Hw H. apply (f_equal beUint) in H. rewrite !beUint_bePut in H.
  now rewrite !Z.mod_small in H.
Qed.

Lemma beUint_put_small n v :
  0 <= v < 256 ^ Z.of_nat n -> beUint (bePut n v) = v.
Proof. intros. rewrite beUint_bePut. now apply Z.mod_small. Qed.

Lemma beUint1 a : beUint [a] = b2z a.
Proof. reflexivity. Qed.

Lemma beUint2 a b : beUint [a; b] = b2z a * 256 + b2z b.
Proof. unfold beUint; cbn [foldl]. lia. Qed.

Lemma beUint3 a b c : beUint [a; b; c] = b2z a * 65536 + b2z b * 256 + b2z c.
Proof. unfold beUint; cbn [foldl]. lia. Qed.

(** The shift-and-or spelling of a two-byte and a three-byte integer. *)
Lemma land_shift_small a b n :
  0 <= n -> 0 <= b < 2 ^ n -> Z.land (a * 2 ^ n) b = 0.
Proof.
  intros Hn Hb. apply Z.bits_inj'. intros i Hi. rewrite Z.land_spec, Z.bits_0.
  destruct (Z.ltb_spec i n).
  - now rewrite Z.mul_pow2_bits_low by lia.
  - rewrite <- (Z.mod_small b (2 ^ n)) by lia.
    rewrite Z.mod_pow2_bits_high by lia. apply andb_false_r.
Qed.

Lemma lor_shift_add a b n :
  0 <= n -> 0 <= b < 2 ^ n -> Z.lor (Z.shiftl a n) b = a * 2 ^ n + b.
Proof.
  intros Hn Hb. rewrite Z.shiftl_mul_pow2 by lia.
  pose proof (land_shift_small a b n Hn Hb) as H0.
  now rewrite <- Z.lxor_lor, <- Z.add_nocarry_lxor.
Qed.

Lemma lor_shift2 a b :
  Z.lor (Z.shiftl (b2z a) 8) (b2z b) = beUint [a; b].
Proof.
  pose proof (b2z_range b). rewrite lor_shift_add by lia. rewrite beUint2.
  change (2 ^ 8) with 256. lia.
Qed.

Lemma lor_shift3 a b c :
  Z.lor (Z.lor (Z.shiftl (b2z a) 16) (Z.shiftl (b2z b) 8)) (b2z c)
  = beUint [a; b; c].
Proof.
  pose proof (b2z_range a). pose proof (b2z_range b). pose proof (b2z_range c).
  rewrite beUint3.
  rewrite (Z.shiftl_mul_pow2 (b2z b)) by lia.
  rewrite (lor_shift_add (b2z a)) by (change (2 ^ 16) with 65536; change (2 ^ 8) with 256; lia).
  replace (b2z a * 2 ^ 16 + b2z b * 2 ^ 8)
    with (Z.shiftl (b2z a * 256 + b2z b) 8)
    by (rewrite Z.shiftl_mul_pow2 by lia; change (2 ^ 16) with 65536;
        change (2 ^ 8) with 256; lia).
  rewrite lor_shift_add by lia. change (2 ^ 8) with 256. lia.
Qed.

(** ** Results *)

Lemma bind_Ok {E A B} (m : res E A) (k : A -> res E B) x :
  bind m k = Ok x <-> exists a, m = Ok a /\ k a = Ok x.
Proof. destruct m; cbn; naive_solver. Qed.

Lemma bind_assoc {E A B C} (m : res E A) (k : A -> res E B) (h : B -> res E C) :
  bind (bind m k) h = bind m (fun a => bind (k a) h).
Proof. now destruct m. Qed.

Lemma safe_bind {E A B} (m : res E A) (k : A -> res E B) :
  safe m -> (forall a, m = Ok a -> safe (k a)) -> safe (bind m k).
Proof. destruct m; cbn; naive_solver. Qed.

Lemma safe_slice {E A} (b : list A) lo hi :
  0 <= lo -> lo <= hi -> hi <= len b -> safe (slice (E := E) b lo hi).
Proof.
  intros. unfold slice.
  rewrite !(proj2 (Z.leb_le _ _)) by lia. exact I.
Qed.

Lemma safe_index {E A} (b : list A) i :
  0 <= i < len b -> safe (index (E := E) b i).
Proof.
  intros [H0 H1]. unfold index. rewrite (proj2 (Z.leb_le _ _)) by lia.
  destruct (b !! Z.to_nat i) eqn:E0; [exact I|].
  apply lookup_ge_None in E0. unfold len in H1. lia.
Qed.

Lemma index_get {E A} (b : list A) i :
  0 <= i < len b -> exists x, index (E := E) b i = Ok x /\ b !! Z.to_nat i = Some x.
Proof.
  intros [H0 H1]. unfold index. rewrite (proj2 (Z.leb_le _ _)) by lia.
  destruct (b !! Z.to_nat i) as [x|] eqn:E0; [eauto|].
  apply lookup_ge_None in E0. unfold len in H1. lia.
Qed.

Lemma slice_Ok {E A} (b s : list A) lo hi :
  slice (E := E) b lo hi = Ok s ->
  0 <= lo /\ lo <= hi /\ hi <= len b /\ len s = hi - lo /\
  s = take (Z.to_nat (hi - lo)) (drop (Z.to_nat lo) b).
Proof.
  unfold slice. destruct (_ && _) eqn:C; [|done]. z_bool. intros [= <-].
  repeat split; try lia. len_lia.
Qed.

Lemma slice_to {E A} (b : list A) n :
  0 <= n <= len b -> slice (E := E) b 0 n = Ok (take (Z.to_nat n) b).
Proof.
  intros. unfold slice. rewrite !(proj2 (Z.leb_le _ _)) by lia.
  now rewrite Z.sub_0_r.
Qed.

Lemma slice_from {E A} (b : list A) n :
  0 <= n <= len b -> slice (E := E) b n (len b) = Ok (drop (Z.to_nat n) b).
Proof.
  intros. unfold slice. rewrite !(proj2 (Z.leb_le _ _)) by lia. cbn [andb].
  f_equal. apply take_ge. rewrite length_drop. unfold len. lia.
Qed.

Lemma slice_app_l {E A} (a b : list A) n :
  n = len a -> slice (E := E) (a ++ b) 0 n = Ok a.
Proof.
  intros ->. rewrite slice_to by len_lia. rewrite to_nat_len. f_equal.
  apply take_app_length.
Qed.

Lemma slice_app_r {E A} (a b : list A) n m :
  n = len a -> m = len a + len b -> slice (E := E) (a ++ b) n m = Ok b.
Proof.
  intros -> ->. rewrite <- len_app, slice_from by len_lia.
  rewrite to_nat_len. f_equal. apply drop_app_length.
Qed.

(** A middle segment of a concatenation. *)
Lemma slice_app_mid {E A} (a b c : list A) n m :
  n = len a -> m = len a + len b -> slice (E := E) (a ++ b ++ c) n m = Ok b.
Proof.
  intros -> ->. unfold slice. rewrite !(proj2 (Z.leb_le _ _)) by len_lia.
  cbn [andb]. f_equal. rewrite to_nat_len, drop_app_length.
  replace (len a + len b - len a) with (len b) by lia.
  rewrite to_nat_len. apply take_app_length.
Qed.

Lemma slice_all {E A} (b : list A) n : n = len b -> slice (E := E) b 0 n = Ok b.
Proof. intros ->. rewrite <- (app_nil_r b) at 1. now apply slice_app_l. Qed.

Lemma slice_split {E A} (b p s : list A) n :
  slice (E := E) b 0 n = Ok p -> slice (E := E) b n (len b) = Ok s -> b = p ++ s.
Proof.
  intros Hp Hs. apply slice_Ok in Hp as (? & ? & ? & ? & ->).
  rewrite slice_from in Hs by lia. injection Hs as <-.
  rewrite Z.sub_0_r. symmetry. apply take_drop.
Qed.

Lemma index_Ok {E A} (b : list A) i x :
  index (E := E) b i = Ok x -> 0 <= i < len b /\ b !! Z.to_nat i = Some x.
Proof.
  unfold index. destruct (0 <=? i) eqn:C; [|done]. z_bool.
  destruct (b !! Z.to_nat i) as [y|] eqn:L; [|done]. intros [= ->].
  split; [|done]. apply lookup_lt_Some in L. unfold len. lia.
Qed.

(** Every equation [_ = Ok _] in the context is taken apart: binds into their
    steps, tests into their outcome, slices into their length facts. *)
Ltac res_inv1 :=
  match goal with
  | H : Ok _ = Ok _ |- _ => injection H as H; try subst
  | H : Err _ = Ok _ |- _ => discriminate H
  | H : Crash _ = Ok _ |- _ => discriminate H
  | H : bind _ _ = Ok _ |- _ =>
      apply bind_Ok in H;
      let a := fresh "v" in let H1 := fresh "Hv" in destruct H as (a & H1 & H)
  | H : (if ?c then _ else _) = Ok _ |- _ =>
      let C := fresh "C" in destruct c eqn:C; try discriminate H
  | H : (let '(_, _) := ?p in _) = Ok _ |- _ => destruct p
  end.

Ltac res_inv := repeat (res_inv1; z_bool).

Ltac slice_facts :=
  repeat match goal with
  | H : slice _ _ _ = Ok ?s |- _ =>
      lazymatch goal with
      | _ : len s = _ |- _ => fail
      | _ => let F := fresh "F" in
             pose proof (slice_Ok _ _ _ _ H) as F;
             destruct F as (? & ? & ? & ? & _)
      end
  end.

(** Prove [safe] goals: structural steps, slices by arithmetic, calls by the
    hints of the [tls] database. *)
Ltac safe_side := z_bool; slice_facts; z_bool; len_lia.

Ltac safe_step :=
  match goal with
  | |- safe (Ok _) => exact I
  | |- safe (Err _) => exact I
  | |- safe (bind _ _) =>
      apply safe_bind; [|let a := fresh "a" in let H := fresh "Ha" in intros a H]
  | |- safe (if ?c then _ else _) => let C := fresh "C" in destruct c eqn:C
  | |- safe (let '(_, _) := ?p in _) => destruct p
  | |- safe (slice _ _ _) => apply safe_slice; safe_side
  | |- safe (index _ _) => apply safe_index; safe_side
  | |- safe (map_err _ ?m) => enough (safe m) by (destruct m; done)
  | |- safe _ => solve [eauto with tls]
  end.

Ltac safe_auto := repeat safe_step.
