(* ===== verification/Errors.v ===== *)
(** * Errors and alerts

    Go's [error] interface as one inductive type: a constructor per sentinel
    error of the packages (the text added by [fmt.Errorf] around a sentinel is
    dropped, [errors.Is] on the sentinel is what is kept), the two struct error
    types of [internal/record/alerts.go], the errors of [io] and of the
    transport, and the errors of libraries outside the repository.  The alert
    codes and the two-byte alert body of [alerts.go] follow. *)

From Stdlib Require Import ZArith Lia.
From stdpp Require Import base list strings.
From S2P Require Import Prelude.

Open Scope Z_scope.

(** [AlertError] of alerts.go: an error that carries a TLS alert. *)
Record AlertError := { Level : Z; Description : Z }.

(** [RecordError] of alerts.go: a record-layer error not tied to an alert. *)
Record RecordError := { Fatal : bool; Message : string }.

(** The libraries whose failures the code passes on. *)
Inductive library :=
| LibRand | LibAES | LibGCM | LibChaCha | LibOMAC | LibCTRACPKM
| LibX509Parse | LibX509Verify | LibX509GostParse | LibX509GostVerify
| LibVerifyPeer | LibRSA | LibECDSA | LibECDH | LibBigmod | LibCurve
| LibVKO | LibKeyWrap | LibKEG | LibKexp15 | LibASN1 | LibDial.

Inductive error :=
(* package io and the transport *)
| EOF | ErrUnexpectedEOF | ErrTransport (n : nat)
(* struct errors *)
| EAlert (a : AlertError)
| ERecord (r : RecordError)
| ELib (l : library)
(* two sentinels in one error: fmt.Errorf with two %w verbs *)
| EWrap (outer inner : error)
(* handshake/wire.go: truncated reads *)
| errTruncated1 | errTruncated2 | errPfxUint8 | errPfxUint16 | errPfxUint24
| errNeedBytes | errBodyShort
(* handshake/errors.go *)
| errNilHashFactory | errTranscriptOverflow | errMsgHeaderTruncated
| errMsgBodyTruncated | errUnknownMsgType | errExtHeaderTruncated
| errExtBodyTruncated | errExtUnknown | errDuplicateExtension
| errServerHelloNonEmptySNI | errSNITruncatedListLen | errSNIListLenExceeds
| errSNITruncatedEntry | errSNINameLenExceeds | errSNIUnsupportedNameType
| errSGTruncatedListLen | errSGListLenExceeds | errSGOddListLen
| errEPFTruncatedListLen | errEPFListLenExceeds | errSATruncatedListLen
| errSAListLenExceeds | errSAOddListLen | errEMSNonEmptyBody
| errRITruncatedBody | errRIDeclaredLenExceeds | errRINonEmpty
| errRITrailingBytes | errCHSessionIDTooLong | errCHCSOddByteCount
| errCHCSAtLeastOne | errCHCMAtLeastOne | errSHSessionIDTooLong
| errCertEntryZeroLen | errSHDNonEmptyBody | errHelloRequestNonEmptyBody
| errCRSAOddByteCount | errFinishedVerifyLen | errCHTrailingData
| errSHTrailingData | errCertTrailingData | errTrailingHandshakeBytes
| errMalformedCCS | errExpectedCCS | errExpectedFinished
| errFinishedMismatch | errExpectedServerHello | errBadVersion
| errSuiteNotOffered | errUnknownSuite | errNonNullCompression
| errUnexpectedEMS | errSHUnofferedExt | errExpectedCertificate
| errEmptyCertList | errDuplicateSKE | errSKEAfterCertReq
| errDuplicateCertReq | errUnexpectedFlightMsg | errSKERequired
| errUnexpectedSKE | errECDHESKETooShort | errECDHEUnsupportedCT
| errECDHEBodyTruncated | errECDHESigSectionShort | errECDHESigTruncated
| errDHESigSectionShort | errDHESigTruncated | errSKEUnadvertisedSigAlg
| errSKESigAuthMismatch | errU16PrefixTruncated | errU16BodyTruncated
| errCertNotRSA | errCertNotECDSA | errUnsupportedSigAlg | errRSAKeyExpected
| errUnknownKXKind | errUnsupportedHashAlg | errUnsupportedKeyType
| errKeyExpansionZero | errHSBodyTruncated | errAlertRecordTruncated
| errAlertReceived | errUnexpectedRecordType | errInterleavedHandshake
| errKeyExpansionZeroLocal | errECDSATrailingBytes | errECDSAVerifyFailed
| errUnsupportedAEAD | errUnsupportedMACLen | errUnsupportedCBCCipher
| errUnexpectedFinishedType | errUnexpectedSHType | errUnexpectedCertType
| errUnexpectedSKEType | errUnexpectedCertReqType | errGOSTNeedGOSTCert
| errGOSTUnexpectedKXKind | errGOST2018NeedGOSTCert | errGOST2018UnexpectedID
| errGOSTRootsWrongType | errGOSTIntermediatesWrongType
(* handshake/cert_gost.go *)
| ErrGOSTRootsRequired
(* suites/prf.go *)
| ErrEmptyLabel | ErrZeroLength
(* suites/keyschedule.go *)
| ErrInvalidRandomLen | ErrZeroKeyBlock
(* ke/dhe.go *)
| errDHETrailingBytes | errDHETooShort | errDHETruncated | errDHEPTooShort
| errDHEPEven | errDHEGTooSmall | errDHEYsLow | errDHEYsHigh
(* ke/ecdhe.go *)
| errECDHEUnsupportedCurve | errECDHEServerParamsTooShort
| errECDHEUnsupportedCurveType | errECDHEServerParamsTruncated
(* ke/vkogost.go *)
| errVKO2001CurveRequired | errVKO2001SpkiRequired | errVKO2001UKMTooShort
| errVKO2001BadPreMasterLen | errVKO2001BadKEKLen | errVKO2012CurveRequired
| errVKO2012SpkiRequired | errVKO2012UKMTooShort
(* ke/gost2018.go *)
| errGost2018CurveRequired | errGost2018SpkiAlgoRequired
| errGost2018ServerPubRequired | errGost2018UnknownVariant
| errGost2018RandomsLen | errGost2018Streebog256Len
(* config.go *)
| errRootCAsMutuallyExclusive | errRootCAPEMParseFailed | errRootCAPEMNoCerts
| errCertUnsupportedKeyType | errCertEmptyRaw
(* conn.go *)
| errConnClosed | errNoSuites | errAlertTruncated | errUnexpectedRecord
| errNoServerName | errTooManyEmptyRecords.

Abbreviation result := (res error).

(** ** alerts.go *)

Definition AlertLevelWarning : Z := 1.
Definition AlertLevelFatal : Z := 2.

Definition AlertCloseNotify : Z := 0.
Definition AlertUnexpectedMessage : Z := 10.
Definition AlertBadRecordMAC : Z := 20.
Definition AlertDecryptionFailed : Z := 21.
Definition AlertRecordOverflow : Z := 22.
Definition AlertHandshakeFailure : Z := 40.
Definition AlertBadCertificate : Z := 42.
Definition AlertIllegalParameter : Z := 47.
Definition AlertDecodeError : Z := 50.
Definition AlertDecryptError : Z := 51.
Definition AlertProtocolVersion : Z := 70.
Definition AlertUnsupportedExtension : Z := 110.
Definition AlertInternalError : Z := 80.
Definition AlertInsufficientSecurity : Z := 71.

Definition EncodeAlert (level description : Z) : bytes := [z2b level; z2b description].

Definition DecodeAlert (b : bytes) : result (Z * Z) :=
  let* l := index b 0 in
  let* d := index b 1 in
  Ok (b2z l, b2z d).

Definition NewFatalAlertError (description : Z) : error :=
  EAlert {| Level := AlertLevelFatal; Description := description |}.

Definition fatalRecordError (msg : string) : error :=
  ERecord {| Fatal := true; Message := msg |}.

(** A two-byte alert body survives encoding; longer bodies decode to their
    first two bytes. *)
Lemma DecodeAlert_EncodeAlert l d rest :
  0 <= l < 256 -> 0 <= d < 256 ->
  DecodeAlert (EncodeAlert l d ++ rest) = Ok (l, d).
Proof.
  intros. change (DecodeAlert (EncodeAlert l d ++ rest))
    with (Ok (E := error) (b2z (z2b l), b2z (z2b d))).
  now rewrite !b2z_small.
Qed.

Lemma DecodeAlert_safe b : 2 <= len b -> safe (DecodeAlert b).
Proof. intros. unfold DecodeAlert. safe_auto. Qed.
#[export] Hint Resolve DecodeAlert_safe : tls.
