(* ===== verification/Wire.v ===== *)
(** * Wire primitives of handshake messages ([internal/handshake/wire.go])

    The cursor-style readers ([readUint8] ... [readLenPrefixed24]), each
    returning the value and the rest of the buffer, and the [append...]
    writers.  A reader applied to what the matching writer produced gives the
    value back and leaves what follows; no reader panics on any input. *)

From Stdlib Require Import ZArith Lia.
From stdpp Require Import base list.
From S2P Require Import Prelude Errors.

Open Scope Z_scope.

(** ** Readers *)

Definition readUint8 (b : bytes) : result (byte * bytes) :=
  if len b <? 1 then Err errTruncated1
  else
    let* v := index b 0 in
    let* rest := slice b 1 (len b) in
    Ok (v, rest).

Definition readUint16 (b : bytes) : result (Z * bytes) :=
  if len b <? 2 then Err errTruncated2
  else
    let* v := slice b 0 2 in
    let* rest := slice b 2 (len b) in
    Ok (beUint v, rest).

Definition readBytes (b : bytes) (n : Z) : result (bytes * bytes) :=
  if len b <? n then Err errNeedBytes
  else
    let* v := slice b 0 n in
    let* rest := slice b n (len b) in
    Ok (v, rest).

Definition readLenPrefixed8 (b : bytes) : result (bytes * bytes) :=
  if len b <? 1 then Err errPfxUint8
  else
    let* b0 := index b 0 in
    let length := b2z b0 in
    let* b := slice b 1 (len b) in
    if len b <? length then Err errBodyShort
    else
      let* body := slice b 0 length in
      let* rest := slice b length (len b) in
      Ok (body, rest).

Definition readLenPrefixed16 (b : bytes) : result (bytes * bytes) :=
  if len b <? 2 then Err errPfxUint16
  else
    let* pfx := slice b 0 2 in
    let length := beUint pfx in
    let* b := slice b 2 (len b) in
    if len b <? length then Err errBodyShort
    else
      let* body := slice b 0 length in
      let* rest := slice b length (len b) in
      Ok (body, rest).

Definition readLenPrefixed24 (b : bytes) : result (bytes * bytes) :=
  if len b <? 3 then Err errPfxUint24
  else
    let* b0 := index b 0 in
    let* b1 := index b 1 in
    let* b2 := index b 2 in
    let length :=
      Z.lor (Z.lor (Z.shiftl (b2z b0) 16) (Z.shiftl (b2z b1) 8)) (b2z b2) in
    let* b := slice b 3 (len b) in
    if len b <? length then Err errBodyShort
    else
      let* body := slice b 0 length in
      let* rest := slice b length (len b) in
      Ok (body, rest).

(** ** Writers *)

Definition appendUint8 (dst : bytes) (v : byte) : bytes := dst ++ [v].

Definition appendUint16 (dst : bytes) (v : Z) : bytes :=
  dst ++ [z2b (Z.shiftr v 8); z2b v].

Definition appendUint24 (dst : bytes) (v : Z) : bytes :=
  dst ++ [z2b (Z.shiftr v 16); z2b (Z.shiftr v 8); z2b v].

Definition appendLenPrefixed8 (dst data : bytes) : bytes :=
  appendUint8 dst (z2b (len data)) ++ data.

Definition appendLenPrefixed16 (dst data : bytes) : bytes :=
  appendUint16 dst (u16 (len data)) ++ data.

(** ** The readers never panic *)

Lemma readUint8_safe b : safe (readUint8 b).
Proof. unfold readUint8. safe_auto. Qed.

Lemma readUint16_safe b : safe (readUint16 b).
Proof. unfold readUint16. safe_auto. Qed.

Lemma readBytes_safe b n : 0 <= n -> safe (readBytes b n).
Proof. intros. unfold readBytes. safe_auto. Qed.

Lemma readLenPrefixed8_safe b : safe (readLenPrefixed8 b).
Proof.
  unfold readLenPrefixed8. safe_auto; pose proof (b2z_range a); safe_auto.
Qed.

Lemma readLenPrefixed16_safe b : safe (readLenPrefixed16 b).
Proof.
  unfold readLenPrefixed16. safe_auto; pose proof (beUint_nonneg a); safe_auto.
Qed.

Lemma readLenPrefixed24_safe b : safe (readLenPrefixed24 b).
Proof.
  unfold readLenPrefixed24. safe_auto; rewrite ?lor_shift3 in *;
    pose proof (beUint_nonneg [a; a0; a1]); safe_auto.
Qed.

#[export] Hint Resolve readUint8_safe readUint16_safe readBytes_safe
  readLenPrefixed8_safe readLenPrefixed16_safe readLenPrefixed24_safe : tls.

(** ** Writers as big-endian encodings *)

Lemma appendUint16_be dst v : appendUint16 dst v = dst ++ bePut 2 v.
Proof. reflexivity. Qed.

Lemma appendUint24_be dst v : appendUint24 dst v = dst ++ bePut 3 v.
Proof.
  unfold appendUint24. cbn [bePut app]. now rewrite Z.shiftr_shiftr by lia.
Qed.

Lemma appendLenPrefixed8_be dst d : appendLenPrefixed8 dst d = dst ++ bePut 1 (len d) ++ d.
Proof.
  unfold appendLenPrefixed8, appendUint8. now rewrite <- app_assoc.
Qed.

Lemma bePut_mod n v m :
  0 <= m -> Z.of_nat n * 8 <= m -> bePut n (v mod 2 ^ m) = bePut n v.
Proof.
  intros Hm Hn. apply beUint_inj; [now rewrite !length_bePut|].
  rewrite !beUint_bePut. change 256 with (2 ^ 8). rewrite <- Z.pow_mul_r by lia.
  replace m with (8 * Z.of_nat n + (m - 8 * Z.of_nat n)) by lia.
  rewrite Z.pow_add_r by lia. apply Z.mod_mod_divide, Z.divide_factor_l.
Qed.

Lemma appendLenPrefixed16_be dst d :
  appendLenPrefixed16 dst d = dst ++ bePut 2 (len d) ++ d.
Proof.
  unfold appendLenPrefixed16. rewrite appendUint16_be, <- app_assoc.
  unfold u16. now rewrite bePut_mod by lia.
Qed.

Create Rewrite HintDb wire.

#[export] Hint Rewrite appendUint16_be appendUint24_be
  appendLenPrefixed8_be appendLenPrefixed16_be : wire.

(** ** Reading back what was written *)

Lemma readUint8_put v rest : readUint8 (v :: rest) = Ok (v, rest).
Proof.
  unfold readUint8. z_if. change (index (v :: rest) 0) with (Ok (E := error) v).
  cbn [bind]. now rewrite (slice_app_r [v] rest) by len_lia.
Qed.

Lemma readUint16_put v rest :
  0 <= v < 65536 -> readUint16 (bePut 2 v ++ rest) = Ok (v, rest).
Proof.
  intros. unfold readUint16. z_if.
  rewrite slice_app_l by len_lia. cbn [bind].
  rewrite slice_app_r by len_lia. cbn [bind].
  now rewrite beUint_put_small.
Qed.

Lemma readBytes_app d rest n : n = len d -> readBytes (d ++ rest) n = Ok (d, rest).
Proof.
  intros ->. unfold readBytes. z_if.
  rewrite slice_app_l by len_lia. cbn [bind].
  now rewrite slice_app_r by len_lia.
Qed.

Lemma readLenPrefixed8_put d rest :
  len d < 256 -> readLenPrefixed8 (bePut 1 (len d) ++ d ++ rest) = Ok (d, rest).
Proof.
  intros. unfold readLenPrefixed8. z_if. cbn [bePut app].
  change (index (z2b (len d) :: d ++ rest) 0) with (Ok (E := error) (z2b (len d))).
  cbn [bind]. rewrite (slice_app_r [z2b (len d)] (d ++ rest)) by len_lia. cbn [bind].
  rewrite b2z_small by len_lia. z_if.
  rewrite slice_app_l by len_lia. cbn [bind].
  now rewrite slice_app_r by len_lia.
Qed.

Lemma readLenPrefixed16_put d rest :
  len d < 65536 -> readLenPrefixed16 (bePut 2 (len d) ++ d ++ rest) = Ok (d, rest).
Proof.
  intros. unfold readLenPrefixed16. z_if.
  rewrite slice_app_l by len_lia. cbn [bind].
  rewrite slice_app_r by len_lia. cbn [bind].
  rewrite beUint_put_small by len_lia. z_if.
  rewrite slice_app_l by len_lia. cbn [bind].
  now rewrite slice_app_r by len_lia.
Qed.

(** A buffer of at least three bytes, its prefix named. *)
Lemma split3 (p rest : bytes) :
  len p = 3 -> exists a b c, p = [a; b; c].
Proof.
  destruct p as [|a [|b [|c [|? ?]]]]; try (intros; len_lia).
  intros _. eauto.
Qed.

Lemma readLenPrefixed24_put d rest :
  len d < 2 ^ 24 -> readLenPrefixed24 (bePut 3 (len d) ++ d ++ rest) = Ok (d, rest).
Proof.
  intros H. pose proof (len_nonneg d).
  assert (Hv : beUint (bePut 3 (len d)) = len d) by (apply beUint_put_small; lia).
  assert (Hl : len (bePut 3 (len d)) = 3) by len_lia.
  destruct (split3 (bePut 3 (len d)) [] Hl) as (a & b & c & E). rewrite E in *.
  unfold readLenPrefixed24. z_if.
  change (index ([a; b; c] ++ d ++ rest) 0) with (Ok (E := error) a).
  change (index ([a; b; c] ++ d ++ rest) 1) with (Ok (E := error) b).
  change (index ([a; b; c] ++ d ++ rest) 2) with (Ok (E := error) c).
  cbn [bind]. rewrite lor_shift3, Hv.
  rewrite slice_app_r by len_lia. cbn [bind]. z_if.
  rewrite slice_app_l by len_lia. cbn [bind].
  now rewrite slice_app_r by len_lia.
Qed.

(** ** What a successful read says about the buffer *)

Lemma index0_cons {E} (b : bytes) x :
  index (E := E) b 0 = Ok x -> exists t, b = x :: t.
Proof. destruct b as [|y t]; cbn; [discriminate|]. intros [= ->]. eauto. Qed.

Lemma readUint8_inv b v rest : readUint8 b = Ok (v, rest) -> b = v :: rest.
Proof.
  unfold readUint8. intros H. res_inv. apply index0_cons in Hv as [t ->].
  rewrite (slice_app_r [v] t) in Hv0 by len_lia. now injection Hv0 as ->.
Qed.

Lemma readUint16_inv b v rest :
  readUint16 b = Ok (v, rest) -> b = bePut 2 v ++ rest /\ 0 <= v < 65536.
Proof.
  unfold readUint16. intros H. res_inv.
  pose proof (slice_split _ _ _ _ Hv Hv0) as ->. slice_facts.
  pose proof (beUint_range v0) as Hr. split; [|].
  - rewrite <- (bePut_beUint v0) at 1. do 2 f_equal. apply length_as_len. lia.
  - replace (len v0) with 2 in Hr by lia. exact Hr.
Qed.

Lemma readBytes_inv b n d rest :
  readBytes b n = Ok (d, rest) -> b = d ++ rest /\ len d = n.
Proof.
  unfold readBytes. intros H. res_inv.
  pose proof (slice_split _ _ _ _ Hv Hv0) as ->. slice_facts. split; [done|lia].
Qed.

Lemma readLenPrefixed8_inv b d rest :
  readLenPrefixed8 b = Ok (d, rest) ->
  b = bePut 1 (len d) ++ d ++ rest /\ len d < 256.
Proof.
  unfold readLenPrefixed8. intros H. res_inv. apply index0_cons in Hv as [t ->].
  rewrite (slice_app_r [v] t) in Hv0 by len_lia. injection Hv0 as <-.
  pose proof (slice_split _ _ _ _ Hv1 Hv2) as ->. slice_facts.
  replace (len d) with (b2z v) by lia. cbn [bePut app]. rewrite z2b_b2z.
  split; [done|]. apply b2z_range.
Qed.

Lemma readLenPrefixed16_inv b d rest :
  readLenPrefixed16 b = Ok (d, rest) ->
  b = bePut 2 (len d) ++ d ++ rest /\ len d < 65536.
Proof.
  unfold readLenPrefixed16. intros H. res_inv.
  pose proof (slice_split _ _ _ _ Hv Hv0) as ->.
  pose proof (slice_split _ _ _ _ Hv1 Hv2) as ->. slice_facts.
  pose proof (beUint_range v) as Hr. replace (len v) with 2 in Hr by lia.
  replace (len d) with (beUint v) by lia. split; [|apply Hr].
  rewrite <- (bePut_beUint v) at 1. do 2 f_equal. apply length_as_len. lia.
Qed.

Lemma readLenPrefixed24_inv b d rest :
  readLenPrefixed24 b = Ok (d, rest) ->
  b = bePut 3 (len d) ++ d ++ rest /\ len d < 2 ^ 24.
Proof.
  unfold readLenPrefixed24. intros H. res_inv.
  destruct b as [|a0 [|a1 [|a2 t]]]; try len_lia.
  cbn in Hv, Hv0, Hv1. injection Hv as ->. injection Hv0 as ->. injection Hv1 as ->.
  rewrite (slice_app_r [v; v0; v1] t) in Hv2 by len_lia. injection Hv2 as <-.
  pose proof (slice_split _ _ _ _ Hv3 Hv4) as ->. slice_facts.
  rewrite lor_shift3 in *. pose proof (beUint_range [v; v0; v1]) as Hr.
  replace (len d) with (beUint [v; v0; v1]) by lia. split; [|apply Hr].
  change 3%nat with (length [v; v0; v1]). now rewrite bePut_beUint.
Qed.
