(* ===== verification/Extensions.v ===== *)
(** * Hello extensions ([internal/handshake/extensions.go])

    The six recognised extensions, their body parsers and marshallers, and the
    list parser [parseExtensions] with its duplicate and unknown-type checks.
    Go strings are byte sequences, so a host name is [bytes]; [uint8] values are
    [byte], [uint16] values are [Z].  The two loops carry fuel; the safety
    lemmas show that the fuel the callers give is never exhausted. *)

From Stdlib Require Import ZArith Lia.
From stdpp Require Import base list sets.
From S2P Require Import Prelude Errors Wire.

Open Scope Z_scope.

Definition extServerName : Z := 0x0000.
Definition extSupportedGroups : Z := 0x000A.
Definition extECPointFormats : Z := 0x000B.
Definition extSignatureAlgorithms : Z := 0x000D.
Definition extExtendedMasterSecret : Z := 0x0017.
Definition extRenegotiationInfo : Z := 0xFF01.

Definition sizeUint8 : Z := 1.
Definition sizeUint16 : Z := 2.
Definition sizeUint24 : Z := 3.
Definition sniMinEntry : Z := sizeUint8 + sizeUint16.
Definition extHeaderSize : Z := sizeUint16 + sizeUint16.
Definition sniHostNameType : byte := Byte.x00.
Definition pairSize : Z := 2.

(** [SigAndHash] of types.go. *)
Record SigAndHash := { Hash : byte; Sig : byte }.

Record parsedExtensions := {
  ServerName : bytes;
  SupportedGroups : list Z;
  ECPointFormats : bytes;
  SignatureAlgorithms : list SigAndHash;
  ExtendedMasterSecret : bool;
  RenegotiationInfo : bool
}.

Definition emptyExtensions : parsedExtensions :=
  {| ServerName := []; SupportedGroups := []; ECPointFormats := [];
     SignatureAlgorithms := []; ExtendedMasterSecret := false;
     RenegotiationInfo := false |}.

(** Field assignment, [out.F = v]. *)
Definition set_ServerName v (e : parsedExtensions) :=
  {| ServerName := v; SupportedGroups := SupportedGroups e;
     ECPointFormats := ECPointFormats e; SignatureAlgorithms := SignatureAlgorithms e;
     ExtendedMasterSecret := ExtendedMasterSecret e;
     RenegotiationInfo := RenegotiationInfo e |}.
Definition set_SupportedGroups v (e : parsedExtensions) :=
  {| ServerName := ServerName e; SupportedGroups := v;
     ECPointFormats := ECPointFormats e; SignatureAlgorithms := SignatureAlgorithms e;
     ExtendedMasterSecret := ExtendedMasterSecret e;
     RenegotiationInfo := RenegotiationInfo e |}.
Definition set_ECPointFormats v (e : parsedExtensions) :=
  {| ServerName := ServerName e; SupportedGroups := SupportedGroups e;
     ECPointFormats := v; SignatureAlgorithms := SignatureAlgorithms e;
     ExtendedMasterSecret := ExtendedMasterSecret e;
     RenegotiationInfo := RenegotiationInfo e |}.
Definition set_SignatureAlgorithms v (e : parsedExtensions) :=
  {| ServerName := ServerName e; SupportedGroups := SupportedGroups e;
     ECPointFormats := ECPointFormats e; SignatureAlgorithms := v;
     ExtendedMasterSecret := ExtendedMasterSecret e;
     RenegotiationInfo := RenegotiationInfo e |}.
Definition set_ExtendedMasterSecret v (e : parsedExtensions) :=
  {| ServerName := ServerName e; SupportedGroups := SupportedGroups e;
     ECPointFormats := ECPointFormats e; SignatureAlgorithms := SignatureAlgorithms e;
     ExtendedMasterSecret := v; RenegotiationInfo := RenegotiationInfo e |}.
Definition set_RenegotiationInfo v (e : parsedExtensions) :=
  {| ServerName := ServerName e; SupportedGroups := SupportedGroups e;
     ECPointFormats := ECPointFormats e; SignatureAlgorithms := SignatureAlgorithms e;
     ExtendedMasterSecret := ExtendedMasterSecret e; RenegotiationInfo := v |}.

(** ** Body parsers *)

(** The loop that fills a [[]uint16] from consecutive byte pairs; the callers
    have checked that the byte count is even. *)
Fixpoint uint16s (l : bytes) : list Z :=
  match l with
  | a :: b :: t => beUint [a; b] :: uint16s t
  | _ => []
  end.

(** The same for (hash, sig) pairs. *)
Fixpoint sigPairs (l : bytes) : list SigAndHash :=
  match l with
  | a :: b :: t => {| Hash := a; Sig := b |} :: sigPairs t
  | _ => []
  end.

(** The entry loop of [parseServerName]. *)
Fixpoint serverNameLoop (fuel : nat) (list hostName : bytes) : result bytes :=
  match fuel with
  | O => Crash OutOfFuel
  | S fuel =>
    if 0 <? len list then
      if len list <? sniMinEntry then Err errSNITruncatedEntry
      else
        let* nameType := index list 0 in
        let* nl := slice list sizeUint8 sniMinEntry in
        let nameLen := beUint nl in
        let* list := slice list sniMinEntry (len list) in
        if len list <? nameLen then Err errSNINameLenExceeds
        else
          let* name := slice list 0 nameLen in
          let* list := slice list nameLen (len list) in
          if negb (b2z nameType =? b2z sniHostNameType)
          then Err errSNIUnsupportedNameType
          else serverNameLoop fuel list name
    else Ok hostName
  end.

Definition parseServerName (b : bytes) : result bytes :=
  if len b =? 0 then Ok []
  else if len b <? sizeUint16 then Err errSNITruncatedListLen
  else
    let* pfx := slice b 0 sizeUint16 in
    let listLen := beUint pfx in
    let* b := slice b sizeUint16 (len b) in
    if len b <? listLen then Err errSNIListLenExceeds
    else
      let* list := slice b 0 listLen in
      serverNameLoop (S (length list)) list [].

Definition parseSupportedGroups (b : bytes) : result (list Z) :=
  if len b <? sizeUint16 then Err errSGTruncatedListLen
  else
    let* pfx := slice b 0 sizeUint16 in
    let listLen := beUint pfx in
    let* b := slice b sizeUint16 (len b) in
    if len b <? listLen then Err errSGListLenExceeds
    else if negb (listLen mod 2 =? 0) then Err errSGOddListLen
    else
      let* list := slice b 0 listLen in
      Ok (uint16s list).

Definition parseECPointFormats (b : bytes) : result bytes :=
  if len b <? 1 then Err errEPFTruncatedListLen
  else
    let* b0 := index b 0 in
    let listLen := b2z b0 in
    let* b := slice b 1 (len b) in
    if len b <? listLen then Err errEPFListLenExceeds
    else slice b 0 listLen.

Definition parseSignatureAlgorithms (b : bytes) : result (list SigAndHash) :=
  if len b <? sizeUint16 then Err errSATruncatedListLen
  else
    let* pfx := slice b 0 sizeUint16 in
    let listLen := beUint pfx in
    let* b := slice b sizeUint16 (len b) in
    if len b <? listLen then Err errSAListLenExceeds
    else if negb (listLen mod 2 =? 0) then Err errSAOddListLen
    else
      let* list := slice b 0 listLen in
      Ok (sigPairs list).

Definition parseExtendedMasterSecret (b : bytes) : result unit :=
  if negb (len b =? 0) then Err errEMSNonEmptyBody else Ok tt.

Definition parseRenegotiationInfo (b : bytes) : result unit :=
  if len b <? 1 then Err errRITruncatedBody
  else
    let* b0 := index b 0 in
    let riLen := b2z b0 in
    let* b := slice b 1 (len b) in
    if len b <? riLen then Err errRIDeclaredLenExceeds
    else if negb (riLen =? 0) then Err errRINonEmpty
    else if negb (len b =? riLen) then Err errRITrailingBytes
    else Ok tt.

(** The [switch extType] of [parseExtensions]. *)
Definition parseExtensionBody (extType : Z) (extBody : bytes) (out : parsedExtensions)
  : result parsedExtensions :=
  if extType =? extServerName then
    let* v := parseServerName extBody in Ok (set_ServerName v out)
  else if extType =? extSupportedGroups then
    let* v := parseSupportedGroups extBody in Ok (set_SupportedGroups v out)
  else if extType =? extECPointFormats then
    let* v := parseECPointFormats extBody in Ok (set_ECPointFormats v out)
  else if extType =? extSignatureAlgorithms then
    let* v := parseSignatureAlgorithms extBody in Ok (set_SignatureAlgorithms v out)
  else if extType =? extExtendedMasterSecret then
    let* _ := parseExtendedMasterSecret extBody in Ok (set_ExtendedMasterSecret true out)
  else if extType =? extRenegotiationInfo then
    let* _ := parseRenegotiationInfo extBody in Ok (set_RenegotiationInfo true out)
  else Err errExtUnknown.

Fixpoint parseExtensionsLoop (fuel : nat) (extData : bytes) (out : parsedExtensions)
  (seen : list Z) : result (parsedExtensions * list Z) :=
  match fuel with
  | O => Crash OutOfFuel
  | S fuel =>
    if 0 <? len extData then
      if len extData <? extHeaderSize then Err errExtHeaderTruncated
      else
        let* t := slice extData 0 sizeUint16 in
        let* l := slice extData sizeUint16 extHeaderSize in
        let extType := beUint t in
        let extLen := beUint l in
        if existsb (Z.eqb extType) seen then Err errDuplicateExtension
        else
          let* extData := slice extData extHeaderSize (len extData) in
          if len extData <? extLen then Err errExtBodyTruncated
          else
            let* extBody := slice extData 0 extLen in
            let* extData := slice extData extLen (len extData) in
            let* out := parseExtensionBody extType extBody out in
            parseExtensionsLoop fuel extData out (seen ++ [extType])
    else Ok (out, seen)
  end.

Definition parseExtensions (extData : bytes) : result (parsedExtensions * list Z) :=
  parseExtensionsLoop (S (length extData)) extData emptyExtensions [].

(** ** Marshallers *)

Definition marshalServerName (name : bytes) : bytes :=
  let entryLen := sniMinEntry + len name in
  let out := appendUint16 [] (u16 entryLen) in
  let out := appendUint8 out sniHostNameType in
  let out := appendUint16 out (u16 (len name)) in
  out ++ name.

Definition marshalSupportedGroups (groups : list Z) : bytes :=
  let out := appendUint16 [] (u16 (pairSize * len groups)) in
  foldl appendUint16 out groups.

Definition marshalECPointFormats (formats : bytes) : bytes :=
  appendUint8 [] (z2b (len formats)) ++ formats.

Definition marshalSignatureAlgorithms (pairs : list SigAndHash) : bytes :=
  let out := appendUint16 [] (u16 (pairSize * len pairs)) in
  foldl (fun out p => appendUint8 (appendUint8 out (Hash p)) (Sig p)) out pairs.

Definition appendExtension (dst : bytes) (extType : Z) (body : bytes) : bytes :=
  let dst := appendUint16 dst extType in
  let dst := appendUint16 dst (u16 (len body)) in
  dst ++ body.

(** The extension list without its length prefix. *)
Definition extensionList (ext : parsedExtensions) : bytes :=
  let e := [] in
  let e := if negb (len (ServerName ext) =? 0)
           then appendExtension e extServerName (marshalServerName (ServerName ext))
           else e in
  let e := if 0 <? len (SupportedGroups ext)
           then appendExtension e extSupportedGroups
                  (marshalSupportedGroups (SupportedGroups ext))
           else e in
  let e := if 0 <? len (ECPointFormats ext)
           then appendExtension e extECPointFormats
                  (marshalECPointFormats (ECPointFormats ext))
           else e in
  let e := if 0 <? len (SignatureAlgorithms ext)
           then appendExtension e extSignatureAlgorithms
                  (marshalSignatureAlgorithms (SignatureAlgorithms ext))
           else e in
  let e := if ExtendedMasterSecret ext
           then appendExtension e extExtendedMasterSecret [] else e in
  if RenegotiationInfo ext
  then appendExtension e extRenegotiationInfo [Byte.x00] else e.

(** [None] is Go's [nil]: no extension block at all. *)
Definition marshalExtensions (ext : parsedExtensions) : option bytes :=
  let extBytes := extensionList ext in
  if len extBytes =? 0 then None
  else Some (appendUint16 [] (u16 (len extBytes)) ++ extBytes).

(** ** No input makes a parser panic or loop *)

Lemma serverNameLoop_safe fuel list h :
  len list < Z.of_nat fuel -> safe (serverNameLoop fuel list h).
Proof.
  revert list h; induction fuel as [|fuel IH]; intros list h Hf; [len_lia|].
  cbn [serverNameLoop]. unfold sniMinEntry, sizeUint8, sizeUint16.
  safe_auto; pose proof (beUint_nonneg a0); safe_auto.
  apply IH. safe_side.
Qed.

Lemma parseServerName_safe b : safe (parseServerName b).
Proof.
  unfold parseServerName, sizeUint16. safe_auto; pose proof (beUint_nonneg a); safe_auto.
  apply serverNameLoop_safe. unfold len. lia.
Qed.

Lemma parseSupportedGroups_safe b : safe (parseSupportedGroups b).
Proof.
  unfold parseSupportedGroups, sizeUint16.
  safe_auto; pose proof (beUint_nonneg a); safe_auto.
Qed.

Lemma parseECPointFormats_safe b : safe (parseECPointFormats b).
Proof.
  unfold parseECPointFormats. safe_auto; pose proof (b2z_range a); safe_auto.
Qed.

Lemma parseSignatureAlgorithms_safe b : safe (parseSignatureAlgorithms b).
Proof.
  unfold parseSignatureAlgorithms, sizeUint16.
  safe_auto; pose proof (beUint_nonneg a); safe_auto.
Qed.

Lemma parseRenegotiationInfo_safe b : safe (parseRenegotiationInfo b).
Proof. unfold parseRenegotiationInfo. safe_auto. Qed.

#[export] Hint Resolve parseServerName_safe parseSupportedGroups_safe
  parseECPointFormats_safe parseSignatureAlgorithms_safe
  parseRenegotiationInfo_safe : tls.

Lemma parseExtensionBody_safe t b out : safe (parseExtensionBody t b out).
Proof. unfold parseExtensionBody, parseExtendedMasterSecret. safe_auto. Qed.

#[export] Hint Resolve parseExtensionBody_safe : tls.

Lemma parseExtensionsLoop_safe fuel d out seen :
  len d < Z.of_nat fuel -> safe (parseExtensionsLoop fuel d out seen).
Proof.
  revert d out seen; induction fuel as [|fuel IH]; intros d out seen Hf; [len_lia|].
  cbn [parseExtensionsLoop]. unfold extHeaderSize, sizeUint16.
  safe_auto; pose proof (beUint_nonneg a0); safe_auto.
  apply IH. safe_side.
Qed.

Lemma parseExtensions_safe d : safe (parseExtensions d).
Proof. unfold parseExtensions. apply parseExtensionsLoop_safe. unfold len. lia. Qed.

#[export] Hint Resolve parseExtensions_safe : tls.

(** ** Body round trips *)

Definition is_u16 (v : Z) : Prop := 0 <= v < 65536.

Lemma uint16s_put (g : list Z) :
  Forall is_u16 g -> uint16s (concat (map (bePut 2) g)) = g.
Proof.
  induction 1 as [|v g Hv _ IH]; [done|]. cbn [map concat].
  change (bePut 2 v ++ ?t) with (z2b (Z.shiftr v 8) :: z2b v :: t).
  cbn [uint16s app]. change [z2b (Z.shiftr v 8); z2b v] with (bePut 2 v).
  rewrite beUint_put_small by apply Hv. f_equal. apply IH.
Qed.

Lemma foldl_append16 dst g :
  foldl appendUint16 dst g = dst ++ concat (map (bePut 2) g).
Proof.
  revert dst; induction g as [|v g IH]; intros dst; cbn [foldl map concat].
  - now rewrite app_nil_r.
  - now rewrite IH, appendUint16_be, <- app_assoc.
Qed.

Lemma len_concat_put2 (g : list Z) : len (concat (map (bePut 2) g)) = 2 * len g.
Proof.
  induction g as [|v g IH]; [done|]. cbn [map concat].
  rewrite len_app, IH, len_cons, len_bePut. lia.
Qed.

Definition pairBytes (p : SigAndHash) : bytes := [Hash p; Sig p].

Lemma sigPairs_put ps : sigPairs (concat (map pairBytes ps)) = ps.
Proof.
  induction ps as [|[h s] ps IH]; [done|]. cbn [map concat pairBytes app sigPairs].
  now rewrite IH.
Qed.

Lemma foldl_appendPairs dst ps :
  foldl (fun out p => appendUint8 (appendUint8 out (Hash p)) (Sig p)) dst ps
  = dst ++ concat (map pairBytes ps).
Proof.
  revert dst; induction ps as [|p ps IH]; intros dst; cbn [foldl map concat].
  - now rewrite app_nil_r.
  - rewrite IH. unfold appendUint8. now rewrite <- !app_assoc.
Qed.

Lemma len_concat_pairs ps : len (concat (map pairBytes ps)) = 2 * len ps.
Proof.
  induction ps as [|p ps IH]; [done|]. cbn [map concat].
  rewrite len_app, IH, len_cons. unfold pairBytes. len_lia.
Qed.

#[export] Hint Rewrite len_concat_put2 len_concat_pairs : len.

Lemma even_mod2 n : (2 * n) mod 2 = 0.
Proof. rewrite Z.mul_comm. apply Z.mod_mul. lia. Qed.

(** One [server_name] list entry, and the value the entry loop keeps: the name
    of the last entry. *)
Definition sniEntry (name : bytes) : bytes := sniHostNameType :: bePut 2 (len name) ++ name.
Definition sniEntries (names : list bytes) : bytes := concat (map sniEntry names).

Lemma len_sniEntry n : len (sniEntry n) = 3 + len n.
Proof. unfold sniEntry. len_lia. Qed.
#[export] Hint Rewrite len_sniEntry : len.

Lemma serverNameLoop_entry fuel name rest h :
  len name < 65536 ->
  serverNameLoop (S fuel) (sniEntry name ++ rest) h = serverNameLoop fuel rest name.
Proof.
  intros H. cbn [serverNameLoop]. unfold sniMinEntry, sizeUint8, sizeUint16. z_if. z_if.
  change (index (sniEntry name ++ rest) 0) with (Ok (E := error) sniHostNameType).
  cbn [bind]. unfold sniEntry.
  change ((sniHostNameType :: bePut 2 (len name) ++ name) ++ rest)
    with ([sniHostNameType] ++ (bePut 2 (len name) ++ name) ++ rest).
  rewrite <- app_assoc, slice_app_mid by len_lia. cbn [bind].
  rewrite beUint_put_small by len_lia.
  rewrite app_assoc, slice_app_r by len_lia. cbn [bind]. z_if.
  rewrite slice_app_l by len_lia. cbn [bind].
  rewrite slice_app_r by len_lia. cbn [bind]. now rewrite Z.eqb_refl.
Qed.

Lemma serverNameLoop_entries fuel names h :
  Forall (fun n => len n < 65536) names -> len names < Z.of_nat fuel ->
  serverNameLoop fuel (sniEntries names) h = Ok (default h (last names)).
Proof.
  intros H. revert fuel h.
  induction H as [|n names Hn _ IH]; intros [|fuel] h Hf; try len_lia; [done|].
  unfold sniEntries. cbn [map concat]. rewrite serverNameLoop_entry by done.
  fold (sniEntries names). rewrite IH, last_cons by len_lia. now destruct (last names).
Qed.

Lemma len_sniEntries_ge names : len names <= len (sniEntries names).
Proof.
  induction names as [|n names IH]; [done|]. unfold sniEntries in *.
  cbn [map concat]. len_lia.
Qed.

Lemma parseServerName_entries names :
  Forall (fun n => len n < 65536) names -> len (sniEntries names) < 65536 ->
  parseServerName (bePut 2 (len (sniEntries names)) ++ sniEntries names)
  = Ok (default [] (last names)).
Proof.
  intros Hn Hl. unfold parseServerName, sizeUint16.
  z_if. z_if. rewrite slice_app_l by len_lia. cbn [bind].
  rewrite slice_app_r by len_lia. cbn [bind].
  rewrite beUint_put_small by len_lia. z_if. rewrite slice_all by len_lia. cbn [bind].
  apply serverNameLoop_entries; [done|].
  pose proof (len_sniEntries_ge names). unfold len in *. lia.
Qed.

Lemma parseServerName_marshal name :
  len name + 3 < 65536 -> parseServerName (marshalServerName name) = Ok name.
Proof.
  intros H. etransitivity; [|apply (parseServerName_entries [name])].
  - unfold marshalServerName, sniMinEntry, sizeUint8, sizeUint16, appendUint8, u16.
    rewrite !appendUint16_be, !bePut_mod by lia.
    unfold sniEntries. cbn [map concat]. rewrite app_nil_r, len_sniEntry.
    rewrite !app_nil_l, <- !app_assoc. reflexivity.
  - apply Forall_singleton. lia.
  - unfold sniEntries. cbn [map concat]. len_lia.
Qed.

Lemma parseSupportedGroups_marshal g :
  Forall is_u16 g -> 2 * len g < 65536 ->
  parseSupportedGroups (marshalSupportedGroups g) = Ok g.
Proof.
  intros Hg Hl. unfold marshalSupportedGroups, parseSupportedGroups, sizeUint16, pairSize.
  rewrite foldl_append16, appendUint16_be. unfold u16. rewrite bePut_mod, app_nil_l by lia.
  z_if. rewrite slice_app_l by len_lia. cbn [bind].
  rewrite slice_app_r by len_lia. cbn [bind].
  rewrite beUint_put_small by len_lia. z_if. rewrite even_mod2. cbn [negb Z.eqb].
  rewrite slice_all by len_lia. cbn [bind]. now rewrite uint16s_put.
Qed.

Lemma parseECPointFormats_marshal f :
  len f < 256 -> parseECPointFormats (marshalECPointFormats f) = Ok f.
Proof.
  intros Hl. unfold marshalECPointFormats, parseECPointFormats, appendUint8.
  cbn [app]. z_if. change (index (z2b (len f) :: f) 0) with (Ok (E := error) (z2b (len f))).
  cbn [bind]. rewrite (slice_app_r [z2b (len f)] f) by len_lia. cbn [bind].
  rewrite b2z_small by len_lia. z_if. now apply slice_all.
Qed.

Lemma parseSignatureAlgorithms_marshal ps :
  2 * len ps < 65536 ->
  parseSignatureAlgorithms (marshalSignatureAlgorithms ps) = Ok ps.
Proof.
  intros Hl. unfold marshalSignatureAlgorithms, parseSignatureAlgorithms, sizeUint16, pairSize.
  rewrite foldl_appendPairs, appendUint16_be. unfold u16. rewrite bePut_mod, app_nil_l by lia.
  z_if. rewrite slice_app_l by len_lia. cbn [bind].
  rewrite slice_app_r by len_lia. cbn [bind].
  rewrite beUint_put_small by len_lia. z_if. rewrite even_mod2. cbn [negb Z.eqb].
  rewrite slice_all by len_lia. cbn [bind]. now rewrite sigPairs_put.
Qed.

(** ** The list of extensions *)

Definition extItem (t : Z) (body : bytes) : bytes := bePut 2 t ++ bePut 2 (len body) ++ body.

(** The items a set of extensions is marshalled to, in the canonical order. *)
Definition extItems (ext : parsedExtensions) : list (Z * bytes) :=
  (if negb (len (ServerName ext) =? 0)
   then [(extServerName, marshalServerName (ServerName ext))] else [])
  ++ (if 0 <? len (SupportedGroups ext)
      then [(extSupportedGroups, marshalSupportedGroups (SupportedGroups ext))] else [])
  ++ (if 0 <? len (ECPointFormats ext)
      then [(extECPointFormats, marshalECPointFormats (ECPointFormats ext))] else [])
  ++ (if 0 <? len (SignatureAlgorithms ext)
      then [(extSignatureAlgorithms, marshalSignatureAlgorithms (SignatureAlgorithms ext))]
      else [])
  ++ (if ExtendedMasterSecret ext then [(extExtendedMasterSecret, [])] else [])
  ++ (if RenegotiationInfo ext then [(extRenegotiationInfo, [Byte.x00])] else []).

Definition itemsBytes (l : list (Z * bytes)) : bytes :=
  concat (map (fun i => extItem (fst i) (snd i)) l).

(** What the list parser computes, without the framing. *)
Fixpoint foldBodies (l : list (Z * bytes)) (out : parsedExtensions)
  : result parsedExtensions :=
  match l with
  | [] => Ok out
  | (t, b) :: l => let* out := parseExtensionBody t b out in foldBodies l out
  end.

(** The values the wire format can carry. *)
Record ext_wf (ext : parsedExtensions) : Prop := {
  wf_name : len (ServerName ext) + 5 < 65536;
  wf_groups : Forall is_u16 (SupportedGroups ext);
  wf_groups_len : 2 * len (SupportedGroups ext) + 2 < 65536;
  wf_formats : len (ECPointFormats ext) < 256;
  wf_sigs : 2 * len (SignatureAlgorithms ext) + 2 < 65536
}.

Lemma appendExtension_item dst t b : appendExtension dst t b = dst ++ extItem t b.
Proof.
  unfold appendExtension, extItem. rewrite !appendUint16_be, <- !app_assoc.
  unfold u16. now rewrite bePut_mod by lia.
Qed.

Lemma if_app_r {A} (c : bool) (e x : list A) :
  (if c then e ++ x else e) = e ++ (if c then x else []).
Proof. destruct c; [done|]. now rewrite app_nil_r. Qed.

Lemma itemsBytes_app a b : itemsBytes (a ++ b) = itemsBytes a ++ itemsBytes b.
Proof. unfold itemsBytes. now rewrite map_app, concat_app. Qed.

Lemma itemsBytes_if (c : bool) t b :
  itemsBytes (if c then [(t, b)] else []) = if c then extItem t b else [].
Proof. destruct c; [|done]. unfold itemsBytes. cbn [map concat fst snd]. apply app_nil_r. Qed.

Lemma extensionList_items ext : extensionList ext = itemsBytes (extItems ext).
Proof.
  unfold extensionList, extItems. rewrite !itemsBytes_app, !itemsBytes_if.
  rewrite !appendExtension_item, !if_app_r, app_nil_l, <- !app_assoc. reflexivity.
Qed.

Lemma existsb_eqb_false t seen : t ∉ seen -> existsb (Z.eqb t) seen = false.
Proof.
  intros H. apply not_true_iff_false. intros E. apply existsb_exists in E as (x & Hx & Ex).
  apply Z.eqb_eq in Ex as ->. apply H. now apply list_elem_of_In.
Qed.

Lemma parseExtensionsLoop_item fuel t b rest out seen :
  is_u16 t -> len b < 65536 -> t ∉ seen ->
  parseExtensionsLoop (S fuel) (extItem t b ++ rest) out seen
  = let* out := parseExtensionBody t b out in
    parseExtensionsLoop fuel rest out (seen ++ [t]).
Proof.
  intros Ht Hb Hs. cbn [parseExtensionsLoop]. unfold extItem, extHeaderSize, sizeUint16.
  rewrite <- !app_assoc. z_if. z_if. rewrite slice_app_l by len_lia. cbn [bind].
  rewrite slice_app_mid by len_lia. cbn [bind].
  rewrite !beUint_put_small by (first [apply Ht | len_lia]).
  rewrite existsb_eqb_false by done.
  rewrite app_assoc, slice_app_r by len_lia. cbn [bind]. z_if.
  rewrite slice_app_l by len_lia. cbn [bind]. now rewrite slice_app_r by len_lia.
Qed.

Lemma len_itemsBytes_le l : len l <= len (itemsBytes l).
Proof.
  induction l as [|i l IH]; [done|]. change (i :: l) with ([i] ++ l).
  rewrite itemsBytes_app, !len_app. unfold itemsBytes at 1. cbn [map concat].
  unfold extItem. len_lia.
Qed.

Lemma parseExtensionsLoop_items l out seen fuel :
  Forall (fun i => is_u16 (fst i) /\ len (snd i) < 65536) l ->
  NoDup (seen ++ map fst l) -> len l < Z.of_nat fuel ->
  parseExtensionsLoop fuel (itemsBytes l) out seen
  = let* out := foldBodies l out in Ok (out, seen ++ map fst l).
Proof.
  intros Hl. revert out seen fuel.
  induction Hl as [|[t b] l [Ht Hb] _ IH]; intros out seen fuel Hnd Hf;
    (destruct fuel as [|fuel]; [len_lia|]).
  - cbn. now rewrite app_nil_r.
  - unfold itemsBytes. cbn [map concat fst snd foldBodies].
    cbn [map fst] in Hnd. apply NoDup_app in Hnd as Hnd'. destruct Hnd' as (_ & Hd & _).
    rewrite parseExtensionsLoop_item; [|done..|].
    2:{ intros Hin. eapply Hd; [apply Hin|]. apply list_elem_of_here. }
    destruct (parseExtensionBody t b out) as [out'| |]; cbn [bind]; [|done..].
    fold (itemsBytes l). rewrite IH, <- app_assoc; [done| |len_lia].
    now rewrite <- app_assoc.
Qed.

(** Each item of a well-formed set parses back into its field. *)
Lemma foldBodies_if (c : bool) t b f l out :
  (c = true -> parseExtensionBody t b out = Ok (f out)) ->
  (c = false -> f out = out) ->
  foldBodies ((if c then [(t, b)] else []) ++ l) out = foldBodies l (f out).
Proof.
  destruct c; cbn [foldBodies app]; intros H1 H2; [now rewrite H1|]. now rewrite H2.
Qed.

Lemma foldBodies_items ext :
  ext_wf ext -> foldBodies (extItems ext) emptyExtensions = Ok ext.
Proof.
  intros [Hn Hg Hgl Hf Hs]. unfold extItems.
  rewrite (foldBodies_if _ _ _ (set_ServerName (ServerName ext))).
  2:{ intros _. unfold parseExtensionBody. cbn [Z.eqb extServerName].
      now rewrite parseServerName_marshal by lia. }
  2:{ intros E. z_bool. apply len_zero_nil in E. now rewrite E. }
  rewrite (foldBodies_if _ _ _ (set_SupportedGroups (SupportedGroups ext))).
  2:{ intros _. unfold parseExtensionBody. cbn [Z.eqb extServerName extSupportedGroups Pos.eqb].
      now rewrite parseSupportedGroups_marshal by (done || lia). }
  2:{ intros E. z_bool. rewrite (len_zero_nil (SupportedGroups ext)) by len_lia. done. }
  rewrite (foldBodies_if _ _ _ (set_ECPointFormats (ECPointFormats ext))).
  2:{ intros _. unfold parseExtensionBody. cbn [Z.eqb extServerName extECPointFormats
        extSupportedGroups Pos.eqb].
      now rewrite parseECPointFormats_marshal by lia. }
  2:{ intros E. z_bool. rewrite (len_zero_nil (ECPointFormats ext)) by len_lia. done. }
  rewrite (foldBodies_if _ _ _ (set_SignatureAlgorithms (SignatureAlgorithms ext))).
  2:{ intros _. unfold parseExtensionBody. cbn [Z.eqb extServerName extECPointFormats
        extSupportedGroups extSignatureAlgorithms Pos.eqb].
      now rewrite parseSignatureAlgorithms_marshal by lia. }
  2:{ intros E. z_bool. rewrite (len_zero_nil (SignatureAlgorithms ext)) by len_lia. done. }
  rewrite (foldBodies_if _ _ _ (set_ExtendedMasterSecret (ExtendedMasterSecret ext)))
    by now intros ->.
  rewrite <- (app_nil_r (if RenegotiationInfo ext then _ else _)).
  rewrite (foldBodies_if _ _ _ (set_RenegotiationInfo (RenegotiationInfo ext)))
    by now intros ->.
  now destruct ext.
Qed.

Lemma len_marshalServerName n : len (marshalServerName n) = len n + 5.
Proof.
  unfold marshalServerName, appendUint8. rewrite !appendUint16_be. len_lia.
Qed.

Lemma len_marshalSupportedGroups g : len (marshalSupportedGroups g) = 2 * len g + 2.
Proof.
  unfold marshalSupportedGroups. rewrite foldl_append16, appendUint16_be. len_lia.
Qed.

Lemma len_marshalECPointFormats f : len (marshalECPointFormats f) = len f + 1.
Proof. unfold marshalECPointFormats, appendUint8. len_lia. Qed.

Lemma len_marshalSignatureAlgorithms ps :
  len (marshalSignatureAlgorithms ps) = 2 * len ps + 2.
Proof.
  unfold marshalSignatureAlgorithms. rewrite foldl_appendPairs, appendUint16_be. len_lia.
Qed.

#[export] Hint Rewrite len_marshalServerName len_marshalSupportedGroups
  len_marshalECPointFormats len_marshalSignatureAlgorithms : len.

Lemma extItems_ok ext :
  ext_wf ext -> Forall (fun i => is_u16 (fst i) /\ len (snd i) < 65536) (extItems ext).
Proof.
  intros [Hn Hg Hgl Hf Hs]. unfold extItems.
  repeat first [apply Forall_app; split | case_match]; try apply Forall_nil_2;
    apply Forall_cons; (split; [|apply Forall_nil_2]); cbn [fst snd];
    (split; [unfold is_u16; compute; split; congruence|len_lia]).
Qed.

Lemma extItems_nodup ext : NoDup (map fst (extItems ext)).
Proof.
  unfold extItems.
  destruct (negb _), (0 <? _), (0 <? _), (0 <? _), (ExtendedMasterSecret ext),
    (RenegotiationInfo ext); cbn [app map fst];
    apply (bool_decide_unpack _); vm_compute; exact I.
Qed.

(** Parsing a marshalled extension list gives the extensions back, together
    with the list of their type codes in the order they were written. *)
Lemma parseExtensions_marshal ext :
  ext_wf ext ->
  parseExtensions (extensionList ext) = Ok (ext, map fst (extItems ext)).
Proof.
  intros H. unfold parseExtensions. rewrite extensionList_items.
  rewrite parseExtensionsLoop_items.
  - now rewrite foldBodies_items.
  - now apply extItems_ok.
  - apply extItems_nodup.
  - pose proof (len_itemsBytes_le (extItems ext)). unfold len in *. lia.
Qed.

(** ** What a successful parse guarantees *)

Definition recognised : list Z :=
  [extServerName; extSupportedGroups; extECPointFormats; extSignatureAlgorithms;
   extExtendedMasterSecret; extRenegotiationInfo].

Lemma parseExtensionBody_recognised t b out out' :
  parseExtensionBody t b out = Ok out' -> t ∈ recognised.
Proof.
  unfold parseExtensionBody. intros H. res_inv; subst; unfold recognised; set_solver.
Qed.

Lemma parseExtensionsLoop_seen fuel d out seen out' seen' :
  parseExtensionsLoop fuel d out seen = Ok (out', seen') ->
  NoDup seen -> Forall (fun t => t ∈ recognised) seen ->
  NoDup seen' /\ Forall (fun t => t ∈ recognised) seen'.
Proof.
  revert d out seen; induction fuel as [|fuel IH]; intros d out seen H Hn Hr; [done|].
  cbn [parseExtensionsLoop] in H. res_inv; [|naive_solver].
  eapply IH; [eassumption| |].
  - apply NoDup_app; split_and!; [done| |apply NoDup_singleton].
    intros x Hx ->%list_elem_of_singleton.
    apply not_true_iff_false in C1. apply C1, existsb_exists.
    exists (beUint v). split; [now apply list_elem_of_In|apply Z.eqb_refl].
  - apply Forall_app; split; [done|]. apply Forall_singleton.
    eapply parseExtensionBody_recognised; eassumption.
Qed.

(** The presence flags agree with the list of types seen. *)
Definition flags_ok (out : parsedExtensions) (seen : list Z) : Prop :=
  (ExtendedMasterSecret out = true <-> extExtendedMasterSecret ∈ seen) /\
  (RenegotiationInfo out = true <-> extRenegotiationInfo ∈ seen).

Lemma parseExtensionBody_flags t b out out' seen :
  parseExtensionBody t b out = Ok out' -> flags_ok out seen ->
  flags_ok out' (seen ++ [t]).
Proof.
  unfold parseExtensionBody, flags_ok. intros H [He Hr].
  assert (Happ : forall x, x ∈ seen ++ [t] <-> x ∈ seen \/ x = t) by set_solver.
  rewrite !Happ. res_inv; subst; cbn; rewrite ?He, ?Hr; split;
    intuition (try discriminate; auto).
Qed.

Lemma parseExtensionsLoop_flags fuel d out seen out' seen' :
  parseExtensionsLoop fuel d out seen = Ok (out', seen') ->
  flags_ok out seen -> flags_ok out' seen'.
Proof.
  revert d out seen; induction fuel as [|fuel IH]; intros d out seen H Hf; [done|].
  cbn [parseExtensionsLoop] in H. res_inv; [|now simplify_eq].
  eauto using parseExtensionBody_flags.
Qed.

Lemma parseExtensions_sound d ext seen :
  parseExtensions d = Ok (ext, seen) ->
  NoDup seen /\ Forall (fun t => t ∈ recognised) seen /\ flags_ok ext seen.
Proof.
  unfold parseExtensions. intros H.
  destruct (parseExtensionsLoop_seen _ _ _ _ _ _ H) as [Hn Hr];
    [constructor|constructor|].
  split_and!; [done|done|]. apply (parseExtensionsLoop_flags _ _ _ _ _ _ H).
  unfold flags_ok. cbn. set_solver.
Qed.

(** What is parsed is a sequence of extensions, and their types are the list returned. *)
Lemma parseExtensionsLoop_wire fuel d out seen out' seen' :
  parseExtensionsLoop fuel d out seen = Ok (out', seen') ->
  exists items, d = itemsBytes items /\ seen' = seen ++ map fst items.
Proof.
  revert d out seen; induction fuel as [|fuel IH]; intros d out seen H; [done|].
  cbn [parseExtensionsLoop] in H. unfold extHeaderSize, sizeUint16 in H. res_inv.
  2:{ exists []. rewrite app_nil_r. split; [|congruence]. rewrite (len_zero_nil d) by len_lia. done. }
  destruct (IH _ _ _ H) as (items & -> & ->). exists ((beUint v, v2) :: items).
  rewrite <- app_assoc. split; [|done]. cbn [itemsBytes map concat fst snd].
  destruct d as [|a [|b [|c' [|e d]]]]; [len_lia..|].
  rewrite (slice_app_l [a; b] (c' :: e :: d)) in Hv by len_lia. injection Hv as <-.
  rewrite (slice_app_mid [a; b] [c'; e] d) in Hv0 by len_lia. injection Hv0 as <-.
  rewrite (slice_app_r [a; b; c'; e] d) in Hv1 by len_lia. injection Hv1 as <-.
  pose proof (slice_split _ _ _ _ Hv2 Hv3) as Ed. slice_facts. pose proof (beUint_nonneg [c'; e]).
  unfold extItem. replace (len v2) with (beUint [c'; e]) by lia.
  change (bePut 2 (beUint [a; b])) with (bePut (length [a; b]) (beUint [a; b])).
  change (bePut 2 (beUint [c'; e])) with (bePut (length [c'; e]) (beUint [c'; e])).
  rewrite !bePut_beUint. cbn [app]. rewrite Ed at 1. done.
Qed.

Lemma parseExtensions_wire d ext seen :
  parseExtensions d = Ok (ext, seen) -> exists items, d = itemsBytes items /\ seen = map fst items.
Proof. apply parseExtensionsLoop_wire. Qed.

(** ** The ranges of parsed values *)

Record ext_typed (e : parsedExtensions) : Prop := {
  et_name : len (ServerName e) < 65536;
  et_groups : Forall is_u16 (SupportedGroups e);
  et_groups_len : len (SupportedGroups e) < 32768;
  et_formats : len (ECPointFormats e) < 256;
  et_algs : len (SignatureAlgorithms e) < 32768
}.

Lemma uint16s_range l : Forall is_u16 (uint16s l) /\ 2 * len (uint16s l) <= len l.
Proof.
  induction l as [l IH] using (induction_ltof1 _ (@length byte)). unfold ltof in IH.
  destruct l as [|a [|b t]]; [split; [constructor|done]..|]. cbn [uint16s].
  destruct (IH t) as [H1 H2]; [cbn; lia|]. split; [|len_lia].
  constructor; [|done]. exact (beUint_range [a; b]).
Qed.

Lemma sigPairs_range l : 2 * len (sigPairs l) <= len l.
Proof.
  induction l as [l IH] using (induction_ltof1 _ (@length byte)). unfold ltof in IH.
  destruct l as [|a [|b t]]; [done..|]. cbn [sigPairs]. specialize (IH t ltac:(cbn; lia)). len_lia.
Qed.

Lemma serverNameLoop_range fuel l h out :
  serverNameLoop fuel l h = Ok out -> len h < 65536 -> len out < 65536.
Proof.
  revert l h. induction fuel as [|fuel IH]; intros l h H Hh; [done|]. cbn [serverNameLoop] in H.
  unfold sniMinEntry, sizeUint8, sizeUint16 in *. res_inv; [|done].
  eapply IH; [eassumption|]. slice_facts. pose proof (beUint_range v0) as Hr.
  replace (len v0) with 2 in Hr by lia. change (256 ^ 2) with 65536 in Hr. lia.
Qed.

Lemma parseExtensionBody_typed t b out out' :
  parseExtensionBody t b out = Ok out' -> ext_typed out -> ext_typed out'.
Proof.
  unfold parseExtensionBody. intros H [Hn Hg Hgl Hf Ha]. res_inv; subst.
  - assert (len v < 65536); [|now split].
    unfold parseServerName in Hv. res_inv; [done|]. eapply serverNameLoop_range; [eassumption|done].
  - unfold parseSupportedGroups, sizeUint16 in Hv. res_inv. slice_facts.
    pose proof (beUint_range v0) as Hr. replace (len v0) with 2 in Hr by lia. change (256 ^ 2) with 65536 in Hr.
    destruct (uint16s_range v2) as [U1 U2]. split; cbn; try done. lia.
  - unfold parseECPointFormats in Hv. res_inv. slice_facts. pose proof (b2z_range v0).
    split; cbn; try done. lia.
  - unfold parseSignatureAlgorithms, sizeUint16 in Hv. res_inv. slice_facts.
    pose proof (beUint_range v0) as Hr. replace (len v0) with 2 in Hr by lia. change (256 ^ 2) with 65536 in Hr.
    pose proof (sigPairs_range v2). split; cbn; try done. lia.
  - now split.
  - now split.
Qed.

Lemma parseExtensionsLoop_typed fuel d out seen out' seen' :
  parseExtensionsLoop fuel d out seen = Ok (out', seen') -> ext_typed out -> ext_typed out'.
Proof.
  revert d out seen; induction fuel as [|fuel IH]; intros d out seen H Hf; [done|].
  cbn [parseExtensionsLoop] in H. res_inv; [|now simplify_eq].
  eauto using parseExtensionBody_typed.
Qed.

Lemma emptyExtensions_typed : ext_typed emptyExtensions.
Proof. split; cbn; (done || constructor). Qed.

Lemma parseExtensions_typed d ext seen : parseExtensions d = Ok (ext, seen) -> ext_typed ext.
Proof. intros H. eapply parseExtensionsLoop_typed; [exact H|apply emptyExtensions_typed]. Qed.

(** ** Properties *)

(** Whatever bytes arrive in the extension block of a hello, the parser
    [parseExtensions] returns (no slice out of range, no endless loop). *)
Theorem parseExtensions_total d :
  (exists r, parseExtensions d = Ok r) \/ (exists e, parseExtensions d = Err e).
Proof.
  pose proof (parseExtensions_safe d) as H.
  destruct (parseExtensions d); [eauto..|contradiction].
Qed.

(** A [server_name] list with several host names yields the name of the LAST
    entry, although the comment of [parseServerName] promises the first. *)
Theorem parseServerName_last_wins names n :
  Forall (fun n => len n < 65536) (names ++ [n]) ->
  len (sniEntries (names ++ [n])) < 65536 ->
  parseServerName (bePut 2 (len (sniEntries (names ++ [n]))) ++ sniEntries (names ++ [n]))
  = Ok n.
Proof.
  intros Hn Hl. rewrite parseServerName_entries by done. now rewrite last_snoc.
Qed.

Lemma parseServerName_last_wins_witness :
  parseServerName
    (bePut 2 (len (sniEntries [[Byte.x61]; [Byte.x62]])) ++ sniEntries [[Byte.x61]; [Byte.x62]])
  = Ok [Byte.x62].
Proof.
  apply (parseServerName_last_wins [[Byte.x61]] [Byte.x62]).
  - repeat constructor.
  - reflexivity.
Defined.
