(* ===== verification/Messages.v ===== *)
(** * Handshake messages ([internal/handshake/messages.go], [types.go])

    The message structs, [Marshal] and the [parse...] functions of each, the
    four-byte envelope ([MarshalMessage], [ParseMessage]).  [Certificate] keeps
    only [RawCerts], the field both directions use ([Certificates] is never
    filled by this package).  A message is parsed back from what it was
    marshalled to, and [ParseMessage] neither panics nor loops on any input. *)

From Stdlib Require Import ZArith Lia.
From stdpp Require Import base list sets strings pretty.
From S2P Require Import Prelude Errors Wire Extensions.

Open Scope Z_scope.

(** ** types.go: message types *)

Definition TypeHelloRequest : Z := 0.
Definition TypeClientHello : Z := 1.
Definition TypeServerHello : Z := 2.
Definition TypeCertificate : Z := 11.
Definition TypeServerKeyExchange : Z := 12.
Definition TypeCertificateRequest : Z := 13.
Definition TypeServerHelloDone : Z := 14.
Definition TypeCertificateVerify : Z := 15.
Definition TypeClientKeyExchange : Z := 16.
Definition TypeFinished : Z := 20.

(** [Type.String]. *)
Definition TypeString (t : Z) : string  := (
  if (t =? TypeHelloRequest)%Z then "HelloRequest"
  else if (t =? TypeClientHello)%Z then "ClientHello"
  else if (t =? TypeServerHello)%Z then "ServerHello"
  else if (t =? TypeCertificate)%Z then "Certificate"
  else if (t =? TypeServerKeyExchange)%Z then "ServerKeyExchange"
  else if (t =? TypeCertificateRequest)%Z then "CertificateRequest"
  else if (t =? TypeServerHelloDone)%Z then "ServerHelloDone"
  else if (t =? TypeCertificateVerify)%Z then "CertificateVerify"
  else if (t =? TypeClientKeyExchange)%Z then "ClientKeyExchange"
  else if (t =? TypeFinished)%Z then "Finished"
  else "Type(" +:+ pretty t +:+ ")")%string.

Definition hsEnvelopeSize : Z := 4.
Definition tlsRandomLen : Z := 32.
Definition maxSessionIDLen : Z := 32.
Definition certEntryOverhead : Z := sizeUint24.

(** ** Message structs *)

Record ClientHello := {
  ch_Version : Z;
  ch_Random : bytes;
  ch_SessionID : bytes;
  ch_CipherSuites : list Z;
  ch_CompressionMethods : bytes;
  ch_ServerName : bytes;
  ch_SupportedGroups : list Z;
  ch_ECPointFormats : bytes;
  ch_SignatureAlgorithms : list SigAndHash;
  ch_ExtendedMasterSecret : bool;
  ch_RenegotiationInfo : bool
}.

Record ServerHello := {
  sh_Version : Z;
  sh_Random : bytes;
  sh_SessionID : bytes;
  sh_CipherSuite : Z;
  sh_CompressionMethod : byte;
  sh_ExtendedMasterSecret : bool;
  sh_RenegotiationInfo : bool;
  sh_ExtensionTypes : list Z
}.

Record CertificateRequest := {
  cr_CertificateTypes : bytes;
  cr_SupportedSignatureAlgs : list SigAndHash;
  cr_CertificateAuthorities : list bytes
}.

Record CertificateVerify := {
  cv_Algorithm : SigAndHash;
  cv_Signature : bytes
}.

(** The implementations of the [Message] interface. *)
Inductive Message :=
| MHelloRequest
| MClientHello (m : ClientHello)
| MServerHello (m : ServerHello)
| MCertificate (RawCerts : list bytes)
| MServerKeyExchange (Body : bytes)
| MCertificateRequest (m : CertificateRequest)
| MServerHelloDone
| MClientKeyExchange (Body : bytes)
| MCertificateVerify (m : CertificateVerify)
| MFinished (VerifyData : bytes)
| RawMessage (MsgType : byte) (Body : bytes).

Definition MessageType (m : Message) : Z :=
  match m with
  | MHelloRequest => TypeHelloRequest
  | MClientHello _ => TypeClientHello
  | MServerHello _ => TypeServerHello
  | MCertificate _ => TypeCertificate
  | MServerKeyExchange _ => TypeServerKeyExchange
  | MCertificateRequest _ => TypeCertificateRequest
  | MServerHelloDone => TypeServerHelloDone
  | MClientKeyExchange _ => TypeClientKeyExchange
  | MCertificateVerify _ => TypeCertificateVerify
  | MFinished _ => TypeFinished
  | RawMessage t _ => b2z t
  end.

(** ** ClientHello *)

Definition appendExtBytes (out : bytes) (e : option bytes) : bytes :=
  match e with Some extBytes => out ++ extBytes | None => out end.

Definition ch_extensions (m : ClientHello) : parsedExtensions :=
  {| ServerName := ch_ServerName m;
     SupportedGroups := ch_SupportedGroups m;
     ECPointFormats := ch_ECPointFormats m;
     SignatureAlgorithms := ch_SignatureAlgorithms m;
     ExtendedMasterSecret := ch_ExtendedMasterSecret m;
     RenegotiationInfo := ch_RenegotiationInfo m |}.

Definition marshalClientHello (m : ClientHello) : bytes :=
  let out := appendUint16 [] (ch_Version m) in
  let out := out ++ ch_Random m in
  let out := appendLenPrefixed8 out (ch_SessionID m) in
  let csLen := u16 (pairSize * len (ch_CipherSuites m)) in
  let out := appendUint16 out csLen in
  let out := foldl appendUint16 out (ch_CipherSuites m) in
  let out := appendLenPrefixed8 out (ch_CompressionMethods m) in
  appendExtBytes out (marshalExtensions (ch_extensions m)).

Definition parseClientHello (b : bytes) : result ClientHello :=
  let* (v, b) := readUint16 b in
  let* (rawRandom, b) := readBytes b tlsRandomLen in
  let* (sid, b) := readLenPrefixed8 b in
  if maxSessionIDLen <? len sid then Err errCHSessionIDTooLong
  else
    let* (csBytes, b) := readLenPrefixed16 b in
    if negb (len csBytes mod 2 =? 0) then Err errCHCSOddByteCount
    else if len csBytes <? pairSize then Err errCHCSAtLeastOne
    else
      let* (cm, b) := readLenPrefixed8 b in
      if len cm =? 0 then Err errCHCMAtLeastOne
      else
        let* ext :=
          (if 0 <? len b then
             let* (extList, rest) := readLenPrefixed16 b in
             if negb (len rest =? 0) then Err errCHTrailingData
             else let* (ext, _) := parseExtensions extList in Ok ext
           else Ok emptyExtensions) in
        Ok {| ch_Version := v;
              ch_Random := rawRandom;
              ch_SessionID := sid;
              ch_CipherSuites := uint16s csBytes;
              ch_CompressionMethods := cm;
              ch_ServerName := ServerName ext;
              ch_SupportedGroups := SupportedGroups ext;
              ch_ECPointFormats := ECPointFormats ext;
              ch_SignatureAlgorithms := SignatureAlgorithms ext;
              ch_ExtendedMasterSecret := ExtendedMasterSecret ext;
              ch_RenegotiationInfo := RenegotiationInfo ext |}.

(** ** ServerHello *)

Definition sh_extensions (m : ServerHello) : parsedExtensions :=
  {| ServerName := []; SupportedGroups := []; ECPointFormats := [];
     SignatureAlgorithms := [];
     ExtendedMasterSecret := sh_ExtendedMasterSecret m;
     RenegotiationInfo := sh_RenegotiationInfo m |}.

Definition marshalServerHello (m : ServerHello) : bytes :=
  let out := appendUint16 [] (sh_Version m) in
  let out := out ++ sh_Random m in
  let out := appendLenPrefixed8 out (sh_SessionID m) in
  let out := appendUint16 out (sh_CipherSuite m) in
  let out := appendUint8 out (sh_CompressionMethod m) in
  appendExtBytes out (marshalExtensions (sh_extensions m)).

Definition parseServerHello (b : bytes) : result ServerHello :=
  let* (v, b) := readUint16 b in
  let* (rawRandom, b) := readBytes b tlsRandomLen in
  let* (sid, b) := readLenPrefixed8 b in
  if maxSessionIDLen <? len sid then Err errSHSessionIDTooLong
  else
    let* (cs, b) := readUint16 b in
    let* (cm, b) := readUint8 b in
    let* (ext, seen) :=
      (if 0 <? len b then
         let* (extList, rest) := readLenPrefixed16 b in
         if negb (len rest =? 0) then Err errSHTrailingData
         else
           let* (ext, seen) := parseExtensions extList in
           if negb (len (ServerName ext) =? 0) then Err errServerHelloNonEmptySNI
           else Ok (ext, seen)
       else Ok (emptyExtensions, [])) in
    Ok {| sh_Version := v;
          sh_Random := rawRandom;
          sh_SessionID := sid;
          sh_CipherSuite := cs;
          sh_CompressionMethod := cm;
          sh_ExtendedMasterSecret := ExtendedMasterSecret ext;
          sh_RenegotiationInfo := RenegotiationInfo ext;
          sh_ExtensionTypes := seen |}.

(** ** Certificate *)

Definition marshalCertificate (RawCerts : list bytes) : bytes :=
  let innerLen := foldl (fun n c => n + (certEntryOverhead + len c)) 0 RawCerts in
  let out := appendUint24 [] (u32 innerLen) in
  foldl (fun out c => appendUint24 out (u32 (len c)) ++ c) out RawCerts.

Fixpoint certificateLoop (fuel : nat) (listBytes : bytes) (acc : list bytes)
  : result (list bytes) :=
  match fuel with
  | O => Crash OutOfFuel
  | S fuel =>
    if 0 <? len listBytes then
      let* (certBytes, rest) := readLenPrefixed24 listBytes in
      if len certBytes =? 0 then Err errCertEntryZeroLen
      else certificateLoop fuel rest (acc ++ [certBytes])
    else Ok acc
  end.

Definition parseCertificate (b : bytes) : result (list bytes) :=
  let* (listBytes, rest) := readLenPrefixed24 b in
  if negb (len rest =? 0) then Err errCertTrailingData
  else certificateLoop (S (length listBytes)) listBytes [].

(** ** CertificateRequest *)

Fixpoint authoritiesLoop (fuel : nat) (casBytes : bytes) (acc : list bytes)
  : result (list bytes) :=
  match fuel with
  | O => Crash OutOfFuel
  | S fuel =>
    if 0 <? len casBytes then
      let* (dn, rest) := readLenPrefixed16 casBytes in
      authoritiesLoop fuel rest (acc ++ [dn])
    else Ok acc
  end.

Definition parseCertificateRequest (b : bytes) : result CertificateRequest :=
  let* (typesBytes, b) := readLenPrefixed8 b in
  let* (sigAlgsBytes, b) := readLenPrefixed16 b in
  if negb (len sigAlgsBytes mod 2 =? 0) then Err errCRSAOddByteCount
  else
    let* (casBytes, tail) := readLenPrefixed16 b in
    if negb (len tail =? 0) then Err errTrailingHandshakeBytes
    else
      let* cas := authoritiesLoop (S (length casBytes)) casBytes [] in
      Ok {| cr_CertificateTypes := typesBytes;
            cr_SupportedSignatureAlgs := sigPairs sigAlgsBytes;
            cr_CertificateAuthorities := cas |}.

(** ** CertificateVerify, Finished and the messages with a fixed body *)

Definition marshalCertificateVerify (m : CertificateVerify) : bytes :=
  let out := appendUint8 [] (Hash (cv_Algorithm m)) in
  let out := appendUint8 out (Sig (cv_Algorithm m)) in
  appendLenPrefixed16 out (cv_Signature m).

Definition parseCertificateVerify (b : bytes) : result CertificateVerify :=
  let* (hashByte, b) := readUint8 b in
  let* (sigByte, b) := readUint8 b in
  let* (sig, _) := readLenPrefixed16 b in
  Ok {| cv_Algorithm := {| Hash := hashByte; Sig := sigByte |}; cv_Signature := sig |}.

(** The bodies of the key exchange messages are kept as they are. *)
Definition parseServerKeyExchange (b : bytes) : bytes := b.
Definition parseClientKeyExchange (b : bytes) : bytes := b.

Definition parseFinished (b : bytes) : result bytes :=
  if negb (len b =? 12) && negb (len b =? 32) then Err errFinishedVerifyLen else Ok b.

Definition parseHelloRequest (b : bytes) : result unit :=
  if negb (len b =? 0) then Err errHelloRequestNonEmptyBody else Ok tt.

Definition parseServerHelloDone (b : bytes) : result unit :=
  if negb (len b =? 0) then Err errSHDNonEmptyBody else Ok tt.

(** The [Marshal] methods. *)
Definition Marshal (m : Message) : bytes :=
  match m with
  | MHelloRequest => []
  | MClientHello m => marshalClientHello m
  | MServerHello m => marshalServerHello m
  | MCertificate certs => marshalCertificate certs
  | MServerKeyExchange body => body
  | MCertificateRequest _ => []
  | MServerHelloDone => []
  | MClientKeyExchange body => body
  | MCertificateVerify m => marshalCertificateVerify m
  | MFinished vd => vd
  | RawMessage _ body => body
  end.

(** ** The envelope *)

Definition MarshalMessage (m : Message) : bytes :=
  let body := Marshal m in
  let out := [z2b (MessageType m)] in
  let out := appendUint24 out (u32 (len body)) in
  out ++ body.

(** The [switch msgType] of [ParseMessage]. *)
Definition parseBody (msgType : Z) (body : bytes) : result Message :=
  if msgType =? TypeHelloRequest then
    let* _ := parseHelloRequest body in Ok MHelloRequest
  else if msgType =? TypeClientHello then
    let* m := parseClientHello body in Ok (MClientHello m)
  else if msgType =? TypeServerHello then
    let* m := parseServerHello body in Ok (MServerHello m)
  else if msgType =? TypeCertificate then
    let* m := parseCertificate body in Ok (MCertificate m)
  else if msgType =? TypeServerKeyExchange then Ok (MServerKeyExchange (parseServerKeyExchange body))
  else if msgType =? TypeCertificateRequest then
    let* m := parseCertificateRequest body in Ok (MCertificateRequest m)
  else if msgType =? TypeServerHelloDone then
    let* _ := parseServerHelloDone body in Ok MServerHelloDone
  else if msgType =? TypeClientKeyExchange then Ok (MClientKeyExchange (parseClientKeyExchange body))
  else if msgType =? TypeCertificateVerify then
    let* m := parseCertificateVerify body in Ok (MCertificateVerify m)
  else if msgType =? TypeFinished then
    let* m := parseFinished body in Ok (MFinished m)
  else Err errUnknownMsgType.

Definition ParseMessage (data : bytes) : result (Message * bytes) :=
  if len data <? hsEnvelopeSize then Err errMsgHeaderTruncated
  else
    let* d0 := index data 0 in
    let* d1 := index data 1 in
    let* d2 := index data 2 in
    let* d3 := index data 3 in
    let msgType := b2z d0 in
    let bodyLen :=
      Z.lor (Z.lor (Z.shiftl (b2z d1) 16) (Z.shiftl (b2z d2) 8)) (b2z d3) in
    let* data := slice data hsEnvelopeSize (len data) in
    if u32 (len data) <? bodyLen then Err errMsgBodyTruncated
    else
      let* body := slice data 0 bodyLen in
      let* remaining := slice data bodyLen (len data) in
      let* msg := parseBody msgType body in
      Ok (msg, remaining).

(** ** Safety of the parsers *)

Lemma certificateLoop_safe fuel l acc :
  len l < Z.of_nat fuel -> safe (certificateLoop fuel l acc).
Proof.
  revert l acc; induction fuel as [|fuel IH]; intros l acc H; [len_lia|].
  cbn [certificateLoop]. safe_auto. apply IH.
  apply readLenPrefixed24_inv in Ha as [-> _]. len_lia.
Qed.

Lemma authoritiesLoop_safe fuel l acc :
  len l < Z.of_nat fuel -> safe (authoritiesLoop fuel l acc).
Proof.
  revert l acc; induction fuel as [|fuel IH]; intros l acc H; [len_lia|].
  cbn [authoritiesLoop]. safe_auto. apply IH.
  apply readLenPrefixed16_inv in Ha as [-> _]. len_lia.
Qed.

Lemma fuel_enough (l : bytes) : len l < Z.of_nat (S (length l)).
Proof. unfold len. lia. Qed.

#[export] Hint Resolve certificateLoop_safe authoritiesLoop_safe fuel_enough : tls.

Lemma parseClientHello_safe b : safe (parseClientHello b).
Proof.
  unfold parseClientHello. safe_auto; apply readBytes_safe; unfold tlsRandomLen; lia.
Qed.

Lemma parseServerHello_safe b : safe (parseServerHello b).
Proof.
  unfold parseServerHello. safe_auto; apply readBytes_safe; unfold tlsRandomLen; lia.
Qed.

Lemma parseCertificate_safe b : safe (parseCertificate b).
Proof. unfold parseCertificate. safe_auto. Qed.

Lemma parseCertificateRequest_safe b : safe (parseCertificateRequest b).
Proof. unfold parseCertificateRequest. safe_auto. Qed.

Lemma parseCertificateVerify_safe b : safe (parseCertificateVerify b).
Proof. unfold parseCertificateVerify. safe_auto. Qed.

#[export] Hint Resolve parseClientHello_safe parseServerHello_safe
  parseCertificate_safe parseCertificateRequest_safe parseCertificateVerify_safe : tls.

Lemma parseBody_safe t b : safe (parseBody t b).
Proof.
  unfold parseBody, parseHelloRequest, parseServerHelloDone, parseFinished. safe_auto.
Qed.

#[export] Hint Resolve parseBody_safe : tls.

(** ** Round trips of the bodies *)

Definition ext_block_ok (e : parsedExtensions) : Prop :=
  ext_wf e /\ len (extensionList e) < 65536.

Lemma appendExtBytes_app o e : appendExtBytes o e = o ++ appendExtBytes [] e.
Proof. destruct e; cbn [appendExtBytes app]; [done|]. now rewrite app_nil_r. Qed.

Lemma ext_block_cases e :
  ext_block_ok e ->
  (marshalExtensions e = None /\ e = emptyExtensions /\ extItems e = []) \/
  (marshalExtensions e
   = Some (bePut 2 (len (extensionList e)) ++ extensionList e)).
Proof.
  intros [Hw Hl]. unfold marshalExtensions. destruct (_ =? 0) eqn:E; z_bool.
  - left. pose proof (parseExtensions_marshal e Hw) as P.
    apply len_zero_nil in E. rewrite E in P. cbn in P. injection P as Pe Pi.
    split; [done|]. split; [done|]. now destruct (extItems e).
  - right. rewrite appendUint16_be. unfold u16. now rewrite bePut_mod by lia.
Qed.

Record ch_wf (m : ClientHello) : Prop := {
  chw_version : is_u16 (ch_Version m);
  chw_random : len (ch_Random m) = 32;
  chw_sid : len (ch_SessionID m) <= 32;
  chw_suites : Forall is_u16 (ch_CipherSuites m);
  chw_suites_len : 1 <= len (ch_CipherSuites m) < 32768;
  chw_comp : 1 <= len (ch_CompressionMethods m) < 256;
  chw_ext : ext_block_ok (ch_extensions m)
}.

Record sh_wf (m : ServerHello) : Prop := {
  shw_version : is_u16 (sh_Version m);
  shw_random : len (sh_Random m) = 32;
  shw_sid : len (sh_SessionID m) <= 32;
  shw_suite : is_u16 (sh_CipherSuite m)
}.

(** A ServerHello as its encoding has it: [Marshal] writes the extensions of the two
    flags, whatever [ExtensionTypes] lists. *)
Definition sh_encoded (m : ServerHello) : ServerHello :=
  {| sh_Version := sh_Version m; sh_Random := sh_Random m; sh_SessionID := sh_SessionID m;
     sh_CipherSuite := sh_CipherSuite m; sh_CompressionMethod := sh_CompressionMethod m;
     sh_ExtendedMasterSecret := sh_ExtendedMasterSecret m;
     sh_RenegotiationInfo := sh_RenegotiationInfo m;
     sh_ExtensionTypes := (if sh_ExtendedMasterSecret m then [0x0017] else []) ++
                          (if sh_RenegotiationInfo m then [0xff01] else []) |}.

Lemma parseClientHello_marshal m :
  ch_wf m -> parseClientHello (marshalClientHello m) = Ok m.
Proof.
  intros [Hv Hr Hs Hcs Hcl Hcm He]. unfold marshalClientHello.
  rewrite foldl_append16. autorewrite with wire. rewrite app_nil_l.
  unfold u16. rewrite bePut_mod by lia.
  rewrite appendExtBytes_app, <- !app_assoc. unfold parseClientHello, pairSize.
  rewrite readUint16_put by apply Hv. cbn [bind].
  rewrite readBytes_app by done. cbn [bind].
  rewrite readLenPrefixed8_put by lia. cbn [bind]. unfold maxSessionIDLen. z_if.
  replace (2 * len (ch_CipherSuites m))
    with (len (concat (map (bePut 2) (ch_CipherSuites m)))) by len_lia.
  rewrite readLenPrefixed16_put by len_lia. cbn [bind].
  rewrite len_concat_put2, even_mod2. cbn [Z.eqb negb]. z_if.
  rewrite readLenPrefixed8_put by lia. cbn [bind]. z_if.
  rewrite uint16s_put by done.
  destruct (ext_block_cases _ He) as [(E & E0 & _)|E]; rewrite E;
    cbn [appendExtBytes app]; z_if.
  - cbn [bind]. destruct m; unfold ch_extensions in E0; cbn in E0.
    now injection E0 as -> -> -> -> -> ->.
  - destruct He as [Hw Hl].
    rewrite <- (app_nil_r (extensionList _)) at 2.
    rewrite readLenPrefixed16_put by done. cbn [bind]. z_if.
    rewrite parseExtensions_marshal by done. cbn [bind]. now destruct m.
Qed.

Lemma sh_ext_ok m : ext_block_ok (sh_extensions m).
Proof.
  split.
  - split; first [apply Forall_nil_2 | reflexivity].
  - unfold sh_extensions. destruct (sh_ExtendedMasterSecret m), (sh_RenegotiationInfo m);
      vm_compute; reflexivity.
Qed.

Lemma parseServerHello_marshal m :
  sh_wf m -> parseServerHello (marshalServerHello m) = Ok (sh_encoded m).
Proof.
  intros [Hv Hr Hs Hcs].
  assert (Ht : sh_ExtensionTypes (sh_encoded m) = map fst (extItems (sh_extensions m)))
    by (destruct m; cbn; now destruct sh_ExtendedMasterSecret0, sh_RenegotiationInfo0).
  unfold marshalServerHello, appendUint8.
  autorewrite with wire. rewrite app_nil_l.
  rewrite appendExtBytes_app, <- !app_assoc. unfold parseServerHello.
  rewrite readUint16_put by apply Hv. cbn [bind].
  rewrite readBytes_app by done. cbn [bind].
  rewrite readLenPrefixed8_put by lia. cbn [bind]. unfold maxSessionIDLen. z_if.
  rewrite readUint16_put by apply Hcs. cbn [bind].
  cbn [app]. rewrite readUint8_put. cbn [bind].
  pose proof (sh_ext_ok m) as He.
  destruct (ext_block_cases _ He) as [(E & E0 & E1)|E]; rewrite E;
    cbn [appendExtBytes app]; z_if.
  - cbn [bind]. destruct m; unfold sh_extensions in E0; cbn in E0. now injection E0 as -> ->.
  - destruct He as [Hw Hl].
    rewrite <- (app_nil_r (extensionList _)) at 2.
    rewrite readLenPrefixed16_put by done. cbn [bind]. z_if.
    rewrite parseExtensions_marshal by done. cbn [bind]. z_if. cbn [bind].
    unfold sh_encoded in Ht |- *. cbn [sh_ExtensionTypes] in Ht. now rewrite Ht.
Qed.

(** A ServerHello on the wire (RFC 5246 §7.4.1.3): the extensions are absent or a
    block, and its types are the list. *)
Definition ext_block (items : list (Z * bytes)) (block : bytes) : Prop :=
  block = [] /\ items = [] \/
  block = bePut 2 (len (itemsBytes items)) ++ itemsBytes items.

Lemma parseServerHello_wire b m :
  parseServerHello b = Ok m ->
  exists items block,
    b = bePut 2 (sh_Version m) ++ sh_Random m ++ bePut 1 (len (sh_SessionID m)) ++ sh_SessionID m ++
        bePut 2 (sh_CipherSuite m) ++ [sh_CompressionMethod m] ++ block /\
    len (sh_Random m) = 32 /\ len (sh_SessionID m) <= 32 /\
    ext_block items block /\ sh_ExtensionTypes m = map fst items.
Proof.
  unfold parseServerHello. intros H.
  apply bind_Ok in H as ([v b1] & [-> _]%readUint16_inv & H).
  apply bind_Ok in H as ([rnd b2] & [-> Hr]%readBytes_inv & H).
  apply bind_Ok in H as ([sid b3] & [-> _]%readLenPrefixed8_inv & H).
  destruct (maxSessionIDLen <? len sid) eqn:Hs; [done|]. unfold maxSessionIDLen in Hs. z_bool.
  apply bind_Ok in H as ([cs b4] & [-> _]%readUint16_inv & H).
  apply bind_Ok in H as ([cm b5] & ->%readUint8_inv & H).
  apply bind_Ok in H as ([ext seen] & He & [= <-]). cbn.
  assert (Hx : exists items, ext_block items b5 /\ seen = map fst items).
  { destruct (0 <? len b5) eqn:E0; z_bool.
    - apply bind_Ok in He as ([l rest] & [-> _]%readLenPrefixed16_inv & He).
      destruct (len rest =? 0) eqn:E1; [|done]. z_bool. apply len_zero_nil in E1 as ->.
      apply bind_Ok in He as ([ext' seen'] & (items & -> & ->)%parseExtensions_wire & He).
      destruct (negb _); [done|]. injection He as <- <-. exists items. split; [|done].
      right. now rewrite app_nil_r.
    - injection He as _ <-. exists []. rewrite (len_zero_nil b5) by len_lia. split; [now left|done]. }
  destruct Hx as (items & Hb & ->). exists items, b5. split; [done|]. done.
Qed.

(** ** Certificate lists *)

Definition certEntry (c : bytes) : bytes := bePut 3 (len c) ++ c.
Definition certEntries (cs : list bytes) : bytes := concat (map certEntry cs).

Lemma foldl_certs out cs :
  foldl (fun out c => appendUint24 out (u32 (len c)) ++ c) out cs = out ++ certEntries cs.
Proof.
  revert out; induction cs as [|c cs IH]; intros out; unfold certEntries; cbn [foldl map concat].
  - now rewrite app_nil_r.
  - rewrite IH. unfold certEntries, certEntry. rewrite appendUint24_be, <- !app_assoc.
    unfold u32. now rewrite bePut_mod by lia.
Qed.

Lemma certEntries_cons c cs : certEntries (c :: cs) = certEntry c ++ certEntries cs.
Proof. reflexivity. Qed.

Lemma certEntries_app a b : certEntries (a ++ b) = certEntries a ++ certEntries b.
Proof. unfold certEntries. now rewrite map_app, concat_app. Qed.

Lemma len_certEntries_cons c cs :
  len (certEntries (c :: cs)) = 3 + len c + len (certEntries cs).
Proof. rewrite certEntries_cons. unfold certEntry. len_lia. Qed.
#[export] Hint Rewrite len_certEntries_cons : len.

Lemma foldl_certLen n cs :
  foldl (fun n c => n + (certEntryOverhead + len c)) n cs = n + len (certEntries cs).
Proof.
  revert n; induction cs as [|c cs IH]; intros n; cbn [foldl].
  - unfold certEntries; cbn [map concat]. len_lia.
  - rewrite IH. unfold certEntryOverhead, sizeUint24. len_lia.
Qed.

Lemma marshalCertificate_eq cs :
  marshalCertificate cs = bePut 3 (len (certEntries cs)) ++ certEntries cs.
Proof.
  unfold marshalCertificate. rewrite foldl_certs, foldl_certLen, appendUint24_be.
  unfold u32. rewrite bePut_mod by lia. cbn [app]. now rewrite Z.add_0_l.
Qed.

Definition certs_wf (cs : list bytes) : Prop :=
  Forall (fun c => c <> []) cs /\ len (certEntries cs) < 2 ^ 24.

Lemma certificateLoop_entries fuel cs acc :
  Forall (fun c => c <> []) cs -> len (certEntries cs) < 2 ^ 24 ->
  len cs < Z.of_nat fuel ->
  certificateLoop fuel (certEntries cs) acc = Ok (acc ++ cs).
Proof.
  intros H. revert fuel acc.
  induction H as [|c cs Hc _ IH]; intros [|fuel] acc Hl Hf; try len_lia.
  - cbn. now rewrite app_nil_r.
  - cbn [certificateLoop]. z_if. rewrite certEntries_cons. unfold certEntry.
    assert (len c <> 0) by (intros E; now apply len_zero_nil in E).
    rewrite <- app_assoc, readLenPrefixed24_put by len_lia. cbn [bind]. z_if.
    rewrite IH, <- app_assoc by len_lia. done.
Qed.

Lemma len_certEntries_ge cs : len cs <= len (certEntries cs).
Proof. induction cs as [|c cs IH]; [done|]. len_lia. Qed.

Lemma parseCertificate_marshal cs :
  certs_wf cs -> parseCertificate (marshalCertificate cs) = Ok cs.
Proof.
  intros [Hne Hl]. rewrite marshalCertificate_eq. unfold parseCertificate.
  rewrite <- (app_nil_r (certEntries cs)) at 2.
  rewrite readLenPrefixed24_put by done. cbn [bind]. z_if.
  apply (certificateLoop_entries _ cs []); [done|done|].
  pose proof (len_certEntries_ge cs). unfold len in *. lia.
Qed.

Lemma certificateLoop_inv fuel l acc out :
  certificateLoop fuel l acc = Ok out ->
  exists cs, out = acc ++ cs /\ l = certEntries cs /\ Forall (fun c => c <> []) cs.
Proof.
  revert l acc; induction fuel as [|fuel IH]; intros l acc H; [done|].
  cbn [certificateLoop] in H. res_inv.
  - apply readLenPrefixed24_inv in Hv as [-> _].
    apply IH in H as (cs & -> & -> & Hne). exists (l0 :: cs).
    rewrite <- app_assoc, certEntries_cons. unfold certEntry. rewrite <- app_assoc.
    split; [done|]. split; [done|]. constructor; [|done]. now intros ->.
  - exists []. rewrite app_nil_r. split; [done|]. split; [|done].
    rewrite (len_zero_nil l) by len_lia. done.
Qed.

Lemma parseCertificate_inv b cs :
  parseCertificate b = Ok cs -> b = marshalCertificate cs /\ certs_wf cs.
Proof.
  unfold parseCertificate. intros H. res_inv.
  apply readLenPrefixed24_inv in Hv as [-> Hl].
  apply certificateLoop_inv in H as (cs' & -> & -> & Hne). cbn [app].
  rewrite (len_zero_nil l0) by done. rewrite app_nil_r, marshalCertificate_eq.
  split; [done|]. now split.
Qed.

(** ** CertificateRequest

    The client never marshals this message; [encodeCertificateRequest] is the
    wire format of RFC 5246 §7.4.4 that the comment of the parser gives. *)

Definition dnEntry (d : bytes) : bytes := bePut 2 (len d) ++ d.
Definition dnEntries (ds : list bytes) : bytes := concat (map dnEntry ds).

Definition encodeCertificateRequest (m : CertificateRequest) : bytes :=
  bePut 1 (len (cr_CertificateTypes m)) ++ cr_CertificateTypes m ++
  bePut 2 (2 * len (cr_SupportedSignatureAlgs m)) ++
  concat (map pairBytes (cr_SupportedSignatureAlgs m)) ++
  bePut 2 (len (dnEntries (cr_CertificateAuthorities m))) ++
  dnEntries (cr_CertificateAuthorities m).

Record cr_wf (m : CertificateRequest) : Prop := {
  crw_types : len (cr_CertificateTypes m) < 256;
  crw_algs : len (cr_SupportedSignatureAlgs m) < 32768;
  crw_cas : len (dnEntries (cr_CertificateAuthorities m)) < 65536
}.

Lemma dnEntries_cons d ds : dnEntries (d :: ds) = dnEntry d ++ dnEntries ds.
Proof. reflexivity. Qed.

Lemma len_dnEntries_cons d ds :
  len (dnEntries (d :: ds)) = 2 + len d + len (dnEntries ds).
Proof. rewrite dnEntries_cons. unfold dnEntry. len_lia. Qed.
#[export] Hint Rewrite len_dnEntries_cons : len.

Lemma authoritiesLoop_entries fuel ds acc :
  len (dnEntries ds) < 65536 -> len ds < Z.of_nat fuel ->
  authoritiesLoop fuel (dnEntries ds) acc = Ok (acc ++ ds).
Proof.
  revert fuel acc; induction ds as [|d ds IH]; intros [|fuel] acc Hl Hf; try len_lia.
  - cbn. now rewrite app_nil_r.
  - cbn [authoritiesLoop]. z_if. rewrite dnEntries_cons. unfold dnEntry.
    rewrite <- app_assoc, readLenPrefixed16_put by len_lia. cbn [bind].
    rewrite IH, <- app_assoc by len_lia. done.
Qed.

Lemma len_dnEntries_ge ds : len ds <= len (dnEntries ds).
Proof. induction ds as [|d ds IH]; [done|]. len_lia. Qed.

Lemma parseCertificateRequest_encode m :
  cr_wf m -> parseCertificateRequest (encodeCertificateRequest m) = Ok m.
Proof.
  intros [Ht Ha Hc]. unfold encodeCertificateRequest, parseCertificateRequest.
  rewrite readLenPrefixed8_put by done. cbn [bind].
  replace (2 * len (cr_SupportedSignatureAlgs m))
    with (len (concat (map pairBytes (cr_SupportedSignatureAlgs m)))) by len_lia.
  rewrite readLenPrefixed16_put by len_lia. cbn [bind].
  rewrite len_concat_pairs, even_mod2. cbn [Z.eqb negb].
  rewrite <- (app_nil_r (dnEntries _)) at 2.
  rewrite readLenPrefixed16_put by done. cbn [bind]. z_if.
  rewrite authoritiesLoop_entries, sigPairs_put.
  - now destruct m.
  - done.
  - pose proof (len_dnEntries_ge (cr_CertificateAuthorities m)). unfold len in *. lia.
Qed.

(** ** CertificateVerify *)

Lemma parseCertificateVerify_app m junk :
  len (cv_Signature m) < 65536 ->
  parseCertificateVerify (marshalCertificateVerify m ++ junk) = Ok m.
Proof.
  intros H. unfold marshalCertificateVerify, parseCertificateVerify, appendUint8.
  rewrite appendLenPrefixed16_be, <- !app_assoc. cbn [app].
  rewrite !readUint8_put. cbn [bind]. rewrite readUint8_put. cbn [bind].
  rewrite readLenPrefixed16_put by done. cbn [bind]. now destruct m as [[] ].
Qed.

(** ** Every message *)

(** Messages whose fields are in the ranges of their types and length prefixes. *)
Definition msg_wf (m : Message) : Prop :=
  match m with
  | MClientHello m => ch_wf m
  | MServerHello m => sh_wf m
  | MCertificate cs => certs_wf cs
  | MCertificateVerify m => len (cv_Signature m) < 65536
  | MFinished vd => len vd = 12 \/ len vd = 32
  | MHelloRequest | MServerHelloDone | MServerKeyExchange _ | MClientKeyExchange _
  | MCertificateRequest _ | RawMessage _ _ => True
  end.

(** What the encoding of a message reads as.  [CertificateRequest] marshals to
    nothing, and nothing is no request; a [RawMessage] is any bytes behind a type. *)
Definition read_back (m : Message) : result Message :=
  match m with
  | MServerHello m => Ok (MServerHello (sh_encoded m))
  | MCertificateRequest _ => Err errPfxUint8
  | RawMessage t body => parseBody (b2z t) body
  | _ => Ok m
  end.

Lemma parseBody_marshal m : msg_wf m -> parseBody (MessageType m) (Marshal m) = read_back m.
Proof.
  destruct m; cbn [msg_wf MessageType Marshal read_back]; intros H; try done.
  - change (parseBody TypeClientHello ?b)
      with (let* m := parseClientHello b in Ok (MClientHello m)).
    now rewrite parseClientHello_marshal.
  - change (parseBody TypeServerHello ?b)
      with (let* m := parseServerHello b in Ok (MServerHello m)).
    now rewrite parseServerHello_marshal.
  - change (parseBody TypeCertificate ?b)
      with (let* m := parseCertificate b in Ok (MCertificate m)).
    now rewrite parseCertificate_marshal.
  - change (parseBody TypeCertificateVerify ?b)
      with (let* m := parseCertificateVerify b in Ok (MCertificateVerify m)).
    rewrite <- (app_nil_r (marshalCertificateVerify m)).
    now rewrite parseCertificateVerify_app.
  - change (parseBody TypeFinished ?b)
      with (let* m := parseFinished b in Ok (MFinished m)).
    unfold parseFinished. now destruct H as [-> | ->].
Qed.

(** ** Properties *)

(** The envelope of a body shorter than 2^24 bytes. *)
Lemma MarshalMessage_eq m :
  MarshalMessage m = z2b (MessageType m) :: bePut 3 (len (Marshal m)) ++ Marshal m.
Proof.
  unfold MarshalMessage. rewrite appendUint24_be. unfold u32. now rewrite bePut_mod by lia.
Qed.

Lemma MessageType_range m : 0 <= MessageType m < 256.
Proof. destruct m; try (compute; split; congruence). apply b2z_range. Qed.

(** [ParseMessage] on an envelope: its type byte and body go to [parseBody]. *)
Lemma ParseMessage_env t body rest :
  len body < 2 ^ 24 -> len body + len rest < 2 ^ 32 ->
  ParseMessage (t :: bePut 3 (len body) ++ body ++ rest)
  = let* m := parseBody (b2z t) body in Ok (m, rest).
Proof.
  intros Hb Hr. pose proof (len_nonneg body). pose proof (len_nonneg rest).
  assert (Hv : beUint (bePut 3 (len body)) = len body) by (apply beUint_put_small; lia).
  assert (Hl : len (bePut 3 (len body)) = 3) by len_lia.
  destruct (split3 (bePut 3 (len body)) [] Hl) as (a & b & c & E). rewrite E in *.
  unfold ParseMessage, hsEnvelopeSize. cbn [app]. z_if.
  change (index (t :: a :: b :: c :: body ++ rest) 0) with (Ok (E := error) t).
  change (index (t :: a :: b :: c :: body ++ rest) 1) with (Ok (E := error) a).
  change (index (t :: a :: b :: c :: body ++ rest) 2) with (Ok (E := error) b).
  change (index (t :: a :: b :: c :: body ++ rest) 3) with (Ok (E := error) c).
  cbn [bind]. rewrite lor_shift3, Hv.
  rewrite (slice_app_r [t; a; b; c] (body ++ rest)) by len_lia. cbn [bind].
  unfold u32. rewrite len_app, Z.mod_small by lia. z_if.
  rewrite slice_app_l by len_lia. cbn [bind].
  rewrite slice_app_r by len_lia. reflexivity.
Qed.

(** ** The types of parsed messages *)

Record ch_typed (m : ClientHello) : Prop := {
  cht_version : is_u16 (ch_Version m);
  cht_random : len (ch_Random m) = 32;
  cht_sid : len (ch_SessionID m) <= 32;
  cht_suites : Forall is_u16 (ch_CipherSuites m) /\ 1 <= len (ch_CipherSuites m) < 32768;
  cht_comp : 1 <= len (ch_CompressionMethods m) < 256;
  cht_ext : ext_typed (ch_extensions m)
}.

Record sh_typed (m : ServerHello) : Prop := {
  sht_version : is_u16 (sh_Version m);
  sht_random : len (sh_Random m) = 32;
  sht_sid : len (sh_SessionID m) <= 32;
  sht_suite : is_u16 (sh_CipherSuite m);
  sht_types : NoDup (sh_ExtensionTypes m) /\ Forall (fun t => t ∈ recognised) (sh_ExtensionTypes m);
  sht_flags : flags_ok (sh_extensions m) (sh_ExtensionTypes m)
}.

Record cr_typed (m : CertificateRequest) : Prop := {
  crt_types : len (cr_CertificateTypes m) < 256;
  crt_algs : len (cr_SupportedSignatureAlgs m) < 32768;
  crt_cas : Forall (fun d => len d < 65536) (cr_CertificateAuthorities m)
}.

(** [RawMessage] is never parsed. *)
Definition msg_typed (m : Message) : Prop :=
  match m with
  | MHelloRequest | MServerHelloDone => True
  | MServerKeyExchange b | MClientKeyExchange b => len b < 2 ^ 24
  | MClientHello m => ch_typed m
  | MServerHello m => sh_typed m
  | MCertificate cs => Forall (fun c => 0 < len c < 2 ^ 24) cs
  | MCertificateRequest m => cr_typed m
  | MCertificateVerify m => len (cv_Signature m) < 65536
  | MFinished vd => len vd = 12 \/ len vd = 32
  | RawMessage _ _ => False
  end.

Lemma uint16s_nonempty l : 2 <= len l -> 1 <= len (uint16s l).
Proof. destruct l as [|a [|b t]]; cbn [uint16s]; len_lia. Qed.

(** What each read says about the value read. *)
Ltac read_facts :=
  repeat match goal with
  | H : readUint16 _ = Ok _ |- _ => apply readUint16_inv in H as [_ H]
  | H : readBytes _ _ = Ok _ |- _ => apply readBytes_inv in H as [_ H]
  | H : readLenPrefixed8 _ = Ok _ |- _ => apply readLenPrefixed8_inv in H as [_ H]
  | H : readLenPrefixed16 _ = Ok _ |- _ => apply readLenPrefixed16_inv in H as [_ H]
  | H : readLenPrefixed24 _ = Ok _ |- _ => apply readLenPrefixed24_inv in H as [_ H]
  end.

Lemma parseClientHello_typed b m : parseClientHello b = Ok m -> ch_typed m.
Proof.
  unfold parseClientHello, tlsRandomLen, maxSessionIDLen. change pairSize with 2. intros H.
  assert (Hu : forall l : bytes, 2 <= len l < 65536 ->
    Forall is_u16 (uint16s l) /\ 1 <= len (uint16s l) < 32768).
  { intros l Hl. destruct (uint16s_range l) as [U1 U2]. pose proof (uint16s_nonempty l). split; [done|lia]. }
  assert (He : forall e e' : parsedExtensions, ext_typed e ->
    ServerName e' = ServerName e -> SupportedGroups e' = SupportedGroups e ->
    ECPointFormats e' = ECPointFormats e -> SignatureAlgorithms e' = SignatureAlgorithms e -> ext_typed e').
  { intros e e' [? ? ? ? ?] E1 E2 E3 E4. split; congruence. }
  res_inv; read_facts; repeat match goal with H : len _ <> 0 |- _ => apply not_eq_sym in H end.
  all: split; cbn; try done; try (apply Hu; lia);
    try (match goal with |- _ <= len ?l < _ => pose proof (len_nonneg l); lia end).
  eapply He; [eapply parseExtensions_typed; eassumption|done..].
Qed.

Lemma parseServerHello_typed b m : parseServerHello b = Ok m -> sh_typed m.
Proof.
  unfold parseServerHello, tlsRandomLen, maxSessionIDLen. intros H. res_inv; read_facts.
  - apply parseExtensions_sound in Hv6 as (S1 & S2 & S3). split; cbn; done.
  - split; cbn; try done; [split; constructor|]. unfold flags_ok. cbn. set_solver.
Qed.

Lemma authoritiesLoop_typed fuel l acc out :
  authoritiesLoop fuel l acc = Ok out -> Forall (fun d => len d < 65536) acc ->
  Forall (fun d => len d < 65536) out.
Proof.
  revert l acc; induction fuel as [|fuel IH]; intros l acc H Ha; [done|].
  cbn [authoritiesLoop] in H. res_inv; [|done]. read_facts. eapply IH; [eassumption|].
  apply Forall_app. split; [done|]. now constructor.
Qed.

Lemma certs_typed cs : certs_wf cs -> Forall (fun c => 0 < len c < 2 ^ 24) cs.
Proof.
  intros [Hne Hl]. induction cs as [|c cs IH]; [constructor|]. apply Forall_cons in Hne as [Hc Hne'].
  rewrite len_certEntries_cons in Hl. pose proof (len_nonneg c). pose proof (len_nonneg (certEntries cs)).
  constructor; [|apply IH; [done|lia]].
  split; [destruct c; [done|len_lia]|lia].
Qed.

Lemma parseBody_typed t body m :
  parseBody t body = Ok m -> len body < 2 ^ 24 -> msg_typed m /\ MessageType m = t.
Proof.
  unfold parseBody. intros H Hb. res_inv; subst; (split; [|reflexivity]); cbn [msg_typed]; try done.
  - eapply parseClientHello_typed; eassumption.
  - eapply parseServerHello_typed; eassumption.
  - apply certs_typed. now apply parseCertificate_inv in Hv as [_ ?].
  - unfold parseCertificateRequest in Hv. res_inv; read_facts.
    match goal with H : authoritiesLoop _ _ _ = Ok _ |- _ => apply authoritiesLoop_typed in H; [|constructor] end.
    split; cbn; try done.
    match goal with |- len (sigPairs ?l) < _ => pose proof (sigPairs_range l); lia end.
  - unfold parseCertificateVerify in Hv. res_inv; read_facts. done.
  - unfold parseFinished in Hv. destruct (Z.eqb_spec (len body) 12), (Z.eqb_spec (len body) 32); cbn in Hv;
      try discriminate; injection Hv as <-; auto.
Qed.

(** C37. What is parsed is well-typed: a message [ParseMessage] returns has the type
    its first byte says and fields in the ranges of their Go types and length
    prefixes (32-byte randoms, session IDs of at most 32 bytes, 16-bit versions and
    suites, at least one suite and one compression method, no extension twice, no
    empty certificate, 12 or 32 bytes of Finished); the bytes after its envelope are
    returned, and no others. *)
Theorem ParseMessage_typed data m rest :
  ParseMessage data = Ok (m, rest) ->
  msg_typed m /\
  exists t body, data = t :: bePut 3 (len body) ++ body ++ rest /\ b2z t = MessageType m /\ len body < 2 ^ 24.
Proof.
  unfold ParseMessage, hsEnvelopeSize. intros H. res_inv.
  destruct data as [|a [|a1 [|a2 [|a3 data]]]]; try len_lia.
  cbn in Hv, Hv0, Hv1, Hv2. injection Hv as <-. injection Hv0 as <-. injection Hv1 as <-. injection Hv2 as <-.
  rewrite (slice_app_r [a; a1; a2; a3] data) in Hv3 by len_lia. injection Hv3 as <-.
  pose proof (slice_split _ _ _ _ Hv4 Hv5) as ->. slice_facts. rewrite lor_shift3 in *.
  pose proof (beUint_range [a1; a2; a3]) as Hr. change (256 ^ len [a1; a2; a3]) with (2 ^ 24) in Hr.
  apply parseBody_typed in Hv6 as [Ht Et]; [|lia]. split; [done|].
  exists a, v4. split; [|split; [now symmetry|lia]].
  replace (len v4) with (beUint [a1; a2; a3]) by lia.
  change 3%nat with (length [a1; a2; a3]). now rewrite bePut_beUint.
Qed.


(** No byte string makes [ParseMessage] panic or loop: it returns a message or
    an error, whatever the peer sent. *)
Theorem ParseMessage_total data :
  (exists r, ParseMessage data = Ok r) \/ (exists e, ParseMessage data = Err e).
Proof.
  assert (H : safe (ParseMessage data)).
  { unfold ParseMessage, hsEnvelopeSize.
    safe_auto; rewrite ?lor_shift3 in *; pose proof (beUint_nonneg [a0; a1; a2]);
      z_bool; pose proof (Z.mod_le (len a3) (2 ^ 32) (len_nonneg a3) eq_refl);
      unfold u32 in *; safe_auto. }
  destruct (ParseMessage data); [eauto..|contradiction].
Qed.

(** [parseCertificate] accepts exactly the canonical encodings of lists of
    non-empty certificates: acceptance determines the bytes. *)
Theorem parseCertificate_canonical b certs :
  parseCertificate b = Ok certs <-> b = marshalCertificate certs /\ certs_wf certs.
Proof.
  split; [apply parseCertificate_inv|]. intros [-> H]. now apply parseCertificate_marshal.
Qed.

(** The client's reading of a [CertificateRequest] is the RFC 5246 §7.4.4
    encoding: parsing an encoded request gives the request, and one more byte
    after it is rejected. *)
Theorem parseCertificateRequest_rfc m x :
  cr_wf m ->
  parseCertificateRequest (encodeCertificateRequest m) = Ok m /\
  parseCertificateRequest (encodeCertificateRequest m ++ [x]) = Err errTrailingHandshakeBytes.
Proof.
  intros H. split; [now apply parseCertificateRequest_encode|].
  destruct H as [Ht Ha Hc]. unfold encodeCertificateRequest, parseCertificateRequest.
  rewrite <- !app_assoc. rewrite readLenPrefixed8_put by done. cbn [bind].
  replace (2 * len (cr_SupportedSignatureAlgs m))
    with (len (concat (map pairBytes (cr_SupportedSignatureAlgs m)))) by len_lia.
  rewrite readLenPrefixed16_put by len_lia. cbn [bind].
  rewrite len_concat_pairs, even_mod2. cbn [Z.eqb negb].
  now rewrite readLenPrefixed16_put by done.
Qed.

(** A [ServerHello] that parses lists each extension type at most once, only
    recognised types, and its two flags say exactly which of
    extended_master_secret and renegotiation_info were present. *)
Theorem parseServerHello_extensions b m :
  parseServerHello b = Ok m ->
  NoDup (sh_ExtensionTypes m) /\
  Forall (fun t => t ∈ recognised) (sh_ExtensionTypes m) /\
  (sh_ExtendedMasterSecret m = true <-> extExtendedMasterSecret ∈ sh_ExtensionTypes m) /\
  (sh_RenegotiationInfo m = true <-> extRenegotiationInfo ∈ sh_ExtensionTypes m).
Proof.
  unfold parseServerHello. intros H. res_inv; cbn [sh_ExtensionTypes
    sh_ExtendedMasterSecret sh_RenegotiationInfo].
  - apply parseExtensions_sound in Hv6 as (? & ? & ? & ?). auto.
  - split_and!; [constructor|constructor|cbn; set_solver..].
Qed.

(** [parseCertificateVerify] ignores whatever follows the signature: a message
    with trailing garbage is accepted (the other parsers reject it). *)
Theorem parseCertificateVerify_trailing m junk :
  len (cv_Signature m) < 65536 ->
  parseCertificateVerify (marshalCertificateVerify m ++ junk) = Ok m.
Proof. apply parseCertificateVerify_app. Qed.

(** ** Witnesses *)

Definition sampleServerHello : ServerHello :=
  {| sh_Version := 771; sh_Random := repeat Byte.x07 32; sh_SessionID := [Byte.x01];
     sh_CipherSuite := 49409; sh_CompressionMethod := Byte.x00;
     sh_ExtendedMasterSecret := true; sh_RenegotiationInfo := true;
     sh_ExtensionTypes := [extExtendedMasterSecret; extRenegotiationInfo] |}.

Lemma sampleServerHello_wf : sh_wf sampleServerHello.
Proof. split; [vm_compute; split; congruence|reflexivity|vm_compute; congruence|vm_compute; split; congruence]. Qed.


Lemma ParseMessage_typed_witness :
  msg_typed (MServerHello sampleServerHello) /\ sh_typed sampleServerHello.
Proof.
  assert (E : ParseMessage (MarshalMessage (MServerHello sampleServerHello) ++ [Byte.x0e])
    = Ok (MServerHello sampleServerHello, [Byte.x0e])) by (vm_compute; reflexivity).
  split; exact (proj1 (ParseMessage_typed _ _ _ E)).
Defined.

Lemma parseCertificateRequest_rfc_witness :
  let m := {| cr_CertificateTypes := [Byte.x01; Byte.x40];
              cr_SupportedSignatureAlgs := [{| Hash := Byte.x04; Sig := Byte.x01 |}];
              cr_CertificateAuthorities := [[Byte.x30; Byte.x00]; []] |} in
  parseCertificateRequest (encodeCertificateRequest m) = Ok m /\
  parseCertificateRequest (encodeCertificateRequest m ++ [Byte.x00])
  = Err errTrailingHandshakeBytes.
Proof.
  apply parseCertificateRequest_rfc. split; vm_compute; reflexivity.
Defined.

Lemma parseServerHello_extensions_witness :
  parseServerHello (marshalServerHello sampleServerHello) = Ok sampleServerHello /\
  NoDup (sh_ExtensionTypes sampleServerHello).
Proof.
  assert (H : parseServerHello (marshalServerHello sampleServerHello)
              = Ok sampleServerHello) by (vm_compute; reflexivity).
  split; [exact H|].
  exact (proj1 (parseServerHello_extensions _ _ H)).
Defined.

Lemma parseCertificateVerify_trailing_witness :
  let m := {| cv_Algorithm := {| Hash := Byte.x04; Sig := Byte.x03 |};
              cv_Signature := [Byte.xaa; Byte.xbb] |} in
  parseCertificateVerify (marshalCertificateVerify m ++ [Byte.xff]) = Ok m.
Proof. apply parseCertificateVerify_trailing. vm_compute. reflexivity. Defined.
