(* ===== verification/Primitives.v ===== *)
(** * Cryptographic primitives

    What the code calls outside the repository: the hash functions, AES, GCM,
    ChaCha20-Poly1305 and the GOST primitives of [github.com/bigbes/gostcrypto]
    are the fields of the class [Primitives]; what the code relies on of their
    documented behaviour (output lengths, decryption inverts encryption) are the
    fields of [PrimitiveLaws].  The constructions of the standard library that
    the code builds from them, HMAC ([crypto/hmac]) and CBC mode
    ([cipher.NewCBCEncrypter]), are defined here, with the byte-string xor and
    the random tape.  [Toy] is a concrete instance on which the theorems that
    assume the laws are evaluated. *)

From Stdlib Require Import ZArith Lia.
From stdpp Require Import base list strings.
From S2P Require Import Prelude Errors.

Open Scope Z_scope.

(** ** Xor of byte strings *)

Definition bxor (a b : byte) : byte := z2b (Z.lxor (b2z a) (b2z b)).

(** [for i := range dst { dst[i] = a[i] ^ b[i] }] over the common prefix. *)
Definition xorBytes (a b : bytes) : bytes := zip_with bxor a b.

Lemma lxor_byte a b : 0 <= Z.lxor (b2z a) (b2z b) < 256.
Proof.
  pose proof (b2z_range a). pose proof (b2z_range b).
  assert (0 <= Z.lxor (b2z a) (b2z b)) by (apply Z.lxor_nonneg; lia). split; [done|].
  destruct (decide (Z.lxor (b2z a) (b2z b) = 0)) as [->|]; [lia|].
  change 256 with (2 ^ 8). apply Z.log2_lt_pow2; [lia|].
  eapply Z.le_lt_trans; [apply Z.log2_lxor; lia|].
  apply Z.max_lub_lt; destruct (decide (b2z a = 0)), (decide (b2z b = 0));
    try (rewrite e; cbn; lia); try (rewrite e0; cbn; lia);
    apply Z.log2_lt_pow2; lia.
Qed.

Lemma b2z_bxor a b : b2z (bxor a b) = Z.lxor (b2z a) (b2z b).
Proof. unfold bxor. apply b2z_small, lxor_byte. Qed.

Lemma bxor_comm a b : bxor a b = bxor b a.
Proof. unfold bxor. now rewrite Z.lxor_comm. Qed.

Lemma bxor_assoc a b c : bxor (bxor a b) c = bxor a (bxor b c).
Proof. apply b2z_inj. now rewrite !b2z_bxor, Z.lxor_assoc. Qed.

Lemma bxor_nilpotent a : bxor a a = Byte.x00.
Proof. unfold bxor. now rewrite Z.lxor_nilpotent. Qed.

Lemma bxor_0_r a : bxor a Byte.x00 = a.
Proof. apply b2z_inj. now rewrite b2z_bxor, Z.lxor_0_r. Qed.

Lemma bxor_invol a k : bxor (bxor a k) k = a.
Proof. now rewrite bxor_assoc, bxor_nilpotent, bxor_0_r. Qed.

Lemma bxor_inj_l a b k : bxor a k = bxor b k -> a = b.
Proof. intros H. rewrite <- (bxor_invol a k), <- (bxor_invol b k). now rewrite H. Qed.

Lemma len_xorBytes a b : len (xorBytes a b) = Z.min (len a) (len b).
Proof. unfold len, xorBytes. rewrite length_zip_with. lia. Qed.
#[export] Hint Rewrite len_xorBytes : len.

Lemma xorBytes_invol a k : len a <= len k -> xorBytes (xorBytes a k) k = a.
Proof.
  unfold xorBytes. revert k; induction a as [|x a IH]; intros [|y k] H; cbn in *; [done|done| |].
  - rewrite len_cons in H. len_lia.
  - rewrite bxor_invol, IH; [done|]. rewrite !len_cons in H. lia.
Qed.

Lemma xorBytes_inj_l a b k :
  len a <= len k -> len b <= len k -> xorBytes a k = xorBytes b k -> a = b.
Proof.
  intros Ha Hb H. rewrite <- (xorBytes_invol a k), <- (xorBytes_invol b k) by done.
  now rewrite H.
Qed.

Lemma xorBytes_comm a b : xorBytes a b = xorBytes b a.
Proof. unfold xorBytes.
  revert b; induction a as [|x a IH]; intros [|y b]; cbn; [done..|].
  now rewrite bxor_comm, IH.
Qed.

Lemma xorBytes_app a b k l :
  length a = length k -> xorBytes (a ++ b) (k ++ l) = xorBytes a k ++ xorBytes b l.
Proof. intros. unfold xorBytes. now apply zip_with_app. Qed.

(** ** The primitives *)

(** The hash constructors passed around as [func() hash.Hash]. *)
Inductive HashName :=
| MD5 | SHA1 | SHA224 | SHA256 | SHA384 | SHA512
| GOSTR341194 | Streebog256 | IMITPlaceholder.

#[export] Instance HashName_eq_dec : EqDecision HashName.
Proof. solve_decision. Defined.

(** The S-boxes of GOST 28147-89 the code names. *)
Inductive Sbox := SboxCryptoProA | SboxTC26Z.

(** The two block ciphers of RFC 9367. *)
Inductive BlockCipher := Kuznyechik | Magma.

(** [gost.KuznyechikBlockSize] and [gost.MagmaBlockSize]. *)
Definition cipherBlockSize (c : BlockCipher) : Z :=
  match c with Kuznyechik => 16 | Magma => 8 end.

Class Primitives := {
  hashSize : HashName -> Z;
  hashBlockSize : HashName -> Z;
  digest : HashName -> bytes -> bytes;
  (* AES on one 16-byte block, by key *)
  aesEncrypt : bytes -> bytes -> bytes;
  aesDecrypt : bytes -> bytes -> bytes;
  (* key, nonce, plaintext or ciphertext, additional data *)
  gcmSeal : bytes -> bytes -> bytes -> bytes -> bytes;
  gcmOpen : bytes -> bytes -> bytes -> bytes -> option bytes;
  chachaSeal : bytes -> bytes -> bytes -> bytes -> bytes;
  chachaOpen : bytes -> bytes -> bytes -> bytes -> option bytes;
  (* GOST 28147-89 on one 8-byte block: 32 rounds and the 16-round MAC step *)
  g89Encrypt : Sbox -> bytes -> bytes -> bytes;
  g89Decrypt : Sbox -> bytes -> bytes -> bytes;
  g89SeqMAC : Sbox -> bytes -> bytes -> bytes;
  (* gost.NewOMAC(newBlock(key), tagSize); the MAC of all bytes written *)
  newOMAC : BlockCipher -> bytes -> Z -> option (bytes -> bytes);
  (* gost.NewCTRACPKM(newBlock, key, iv, section); the keystream by position *)
  newCTRACPKM : BlockCipher -> bytes -> bytes -> Z -> option (nat -> byte);
  (* gost.NewTLSTree...CTROMAC(key).Derive(seq) *)
  tlsTree : BlockCipher -> bytes -> Z -> bytes
}.

Definition aesBlockSize : Z := 16.
Definition aeadOverhead : Z := 16.

Class PrimitiveLaws (P : Primitives) : Prop := {
  hashSize_pos h : 0 < hashSize h;
  hashSize_SHA1 : hashSize SHA1 = 20;
  hashSize_SHA256 : hashSize SHA256 = 32;
  hashSize_SHA384 : hashSize SHA384 = 48;
  digest_len h m : len (digest h m) = hashSize h;
  aesEncrypt_len k b : len b = 16 -> len (aesEncrypt k b) = 16;
  aesDecrypt_Encrypt k b : len b = 16 -> aesDecrypt k (aesEncrypt k b) = b;
  aesDecrypt_len k b : len b = 16 -> len (aesDecrypt k b) = 16;
  gcmOpen_spec k n c ad p : gcmOpen k n c ad = Some p <-> c = gcmSeal k n p ad;
  gcmSeal_len k n p ad : len (gcmSeal k n p ad) = len p + 16;
  chachaOpen_spec k n c ad p : chachaOpen k n c ad = Some p <-> c = chachaSeal k n p ad;
  chachaSeal_len k n p ad : len (chachaSeal k n p ad) = len p + 16;
  g89Encrypt_len s k b : len b = 8 -> len (g89Encrypt s k b) = 8;
  g89Decrypt_len s k b : len b = 8 -> len (g89Decrypt s k b) = 8;
  g89SeqMAC_len s k b : len b = 8 -> len (g89SeqMAC s k b) = 8;
  tlsTree_len c k seq : len k = 32 -> len (tlsTree c k seq) = 32;
  newOMAC_ok c k :
    len k = 32 ->
    exists f, newOMAC c k (cipherBlockSize c) = Some f /\
              forall m, len (f m) = cipherBlockSize c;
  newCTRACPKM_ok c k iv s :
    len k = 32 -> len iv = cipherBlockSize c -> 0 < s -> s mod cipherBlockSize c = 0 ->
    exists f, newCTRACPKM c k iv s = Some f
}.

Lemma gcmOpen_Seal {P : Primitives} {L : PrimitiveLaws P} k n p ad :
  gcmOpen k n (gcmSeal k n p ad) ad = Some p.
Proof. now apply gcmOpen_spec. Qed.

Lemma chachaOpen_Seal {P : Primitives} {L : PrimitiveLaws P} k n p ad :
  chachaOpen k n (chachaSeal k n p ad) ad = Some p.
Proof. now apply chachaOpen_spec. Qed.

(** ** crypto/hmac

    A MAC object is the bytes written to it; [Sum] does not change it. *)

Section Hmac.
Context `{Primitives}.

Record hmacState := { hm_hash : HashName; hm_key : bytes; hm_data : bytes }.

Definition padKey (h : HashName) (key : bytes) : bytes :=
  let key := if hashBlockSize h <? len key then digest h key else key in
  key ++ replicate (Z.to_nat (hashBlockSize h - len key)) Byte.x00.

Definition hmac (h : HashName) (key msg : bytes) : bytes :=
  let k := padKey h key in
  let ipad := map (bxor (z2b 54)) k in
  let opad := map (bxor (z2b 92)) k in
  digest h (opad ++ digest h (ipad ++ msg)).

Definition hmacNew (h : HashName) (key : bytes) : hmacState :=
  {| hm_hash := h; hm_key := key; hm_data := [] |}.

Definition hmacWrite (s : hmacState) (b : bytes) : hmacState :=
  {| hm_hash := hm_hash s; hm_key := hm_key s; hm_data := hm_data s ++ b |}.

Definition hmacSum (s : hmacState) : bytes := hmac (hm_hash s) (hm_key s) (hm_data s).

Lemma hmac_len {L : PrimitiveLaws _} h k m : len (hmac h k m) = hashSize h.
Proof. apply digest_len. Qed.
End Hmac.

(** ** crypto/subtle *)

Definition ConstantTimeCompare (x y : bytes) : Z :=
  if negb (len x =? len y) then 0
  else
    let v := foldl Z.lor 0 (zip_with (fun a b => Z.lxor (b2z a) (b2z b)) x y) in
    if v =? 0 then 1 else 0.

(** [ConstantTimeSelect(v, x, y)] for [v] 1 or 0. *)
Definition ConstantTimeSelect (v x y : Z) : Z := if v =? 1 then x else y.

Lemma foldl_lor_zero acc l :
  foldl Z.lor acc l = 0 <-> acc = 0 /\ Forall (fun z => z = 0) l.
Proof.
  revert acc; induction l as [|z l IH]; intros acc; cbn [foldl].
  - rewrite Forall_nil. tauto.
  - rewrite IH, Z.lor_eq_0_iff, Forall_cons. tauto.
Qed.

Lemma ConstantTimeCompare_1 x y : ConstantTimeCompare x y = 1 <-> x = y.
Proof.
  unfold ConstantTimeCompare. destruct (len x =? len y) eqn:E; cbn [negb]; z_bool.
  - destruct (foldl _ _ _ =? 0) eqn:F; z_bool.
    + split; [intros _|done]. apply foldl_lor_zero in F as [_ F]. revert y E F.
      induction x as [|a x IH]; intros [|b y] E F; try len_lia; [done|].
      cbn in F. apply Forall_cons in F as [F0 F]. apply Z.lxor_eq, b2z_inj in F0.
      rewrite !len_cons in E. rewrite (IH y) by (lia || done). now subst.
    + split; [lia|]. intros ->. exfalso. apply F, foldl_lor_zero. split; [done|].
      clear. induction y as [|b y IH]; cbn; constructor; [apply Z.lxor_nilpotent|done].
  - split; [lia|]. now intros ->.
Qed.

Lemma ConstantTimeCompare_0 x y : ConstantTimeCompare x y = 1 \/ ConstantTimeCompare x y = 0.
Proof. unfold ConstantTimeCompare. do 2 (destruct (_ =? _); cbn; auto). Qed.

Lemma ConstantTimeCompare_eqb x y :
  (ConstantTimeCompare x y =? 1) = bool_decide (x = y).
Proof.
  destruct (Z.eqb_spec (ConstantTimeCompare x y) 1) as [E|E]; symmetry.
  - apply bool_decide_eq_true. now apply ConstantTimeCompare_1.
  - apply bool_decide_eq_false. intros F. apply E. now apply ConstantTimeCompare_1.
Qed.

(** ** crypto/rand

    The random source is a tape of bytes; reading past its end is the error
    [rand.Read] may return. *)

Definition tape := bytes.

Definition randRead (n : Z) (t : tape) : option (bytes * tape) :=
  if len t <? n then None
  else Some (take (Z.to_nat n) t, drop (Z.to_nat n) t).

Lemma randRead_len n t r t' : 0 <= n -> randRead n t = Some (r, t') -> len r = n.
Proof.
  unfold randRead. destruct (_ <? _) eqn:E; [done|]. z_bool. intros Hn [= <- _]. len_lia.
Qed.

(** ** CBC mode ([cipher.NewCBCEncrypter], [cipher.NewCBCDecrypter])

    [CryptBlocks] panics on an input that is not a whole number of blocks, the
    constructors on an IV that is not one block. *)

Fixpoint cbcEncBlocks (n : nat) (bs : nat) (E : bytes -> bytes) (iv src : bytes) : bytes :=
  match n with
  | O => []
  | S n => let c := E (xorBytes (take bs src) iv) in
           c ++ cbcEncBlocks n bs E c (drop bs src)
  end.

Fixpoint cbcDecBlocks (n : nat) (bs : nat) (D : bytes -> bytes) (iv src : bytes) : bytes :=
  match n with
  | O => []
  | S n => let c := take bs src in
           xorBytes (D c) iv ++ cbcDecBlocks n bs D c (drop bs src)
  end.

Definition cbcCrypt (core : nat -> nat -> (bytes -> bytes) -> bytes -> bytes -> bytes)
  (bs : Z) (F : bytes -> bytes) (iv src : bytes) : result bytes :=
  if negb (len iv =? bs) then Crash Panic
  else if negb (len src mod bs =? 0) then Crash Panic
  else Ok (core (Z.to_nat (len src / bs)) (Z.to_nat bs) F iv src).

Definition cbcEncrypt := cbcCrypt cbcEncBlocks.
Definition cbcDecrypt := cbcCrypt cbcDecBlocks.

Section Cbc.
Variables (bs : nat) (E D : bytes -> bytes).
Hypothesis E_len : forall b, length b = bs -> length (E b) = bs.
Hypothesis D_len : forall b, length b = bs -> length (D b) = bs.
Hypothesis DE : forall b, length b = bs -> D (E b) = b.

Lemma cbcEncBlocks_length n iv src :
  length iv = bs -> length src = (n * bs)%nat ->
  length (cbcEncBlocks n bs E iv src) = (n * bs)%nat.
Proof.
  revert iv src; induction n as [|n IH]; intros iv src Hi Hs; [done|]. cbn [cbcEncBlocks].
  assert (Hc : length (E (xorBytes (take bs src) iv)) = bs).
  { apply E_len. unfold xorBytes. rewrite length_zip_with, length_take. lia. }
  rewrite length_app, Hc, IH; [lia|done|]. rewrite length_drop. lia.
Qed.

Lemma cbcDecBlocks_length n iv src :
  length iv = bs -> length src = (n * bs)%nat ->
  length (cbcDecBlocks n bs D iv src) = (n * bs)%nat.
Proof.
  revert iv src; induction n as [|n IH]; intros iv src Hi Hs; [done|]. cbn [cbcDecBlocks].
  assert (Hc : length (take bs src) = bs) by (rewrite length_take; lia).
  rewrite length_app, IH; [|done|rewrite length_drop; lia].
  unfold xorBytes. rewrite length_zip_with, D_len by done. lia.
Qed.

Lemma cbcDecBlocks_Enc n iv src :
  length iv = bs -> length src = (n * bs)%nat ->
  cbcDecBlocks n bs D iv (cbcEncBlocks n bs E iv src) = src.
Proof.
  revert iv src; induction n as [|n IH]; intros iv src Hi Hs.
  { cbn. symmetry. now apply nil_length_inv. }
  cbn [cbcEncBlocks cbcDecBlocks].
  assert (Hx : length (xorBytes (take bs src) iv) = bs).
  { unfold xorBytes. rewrite length_zip_with, length_take. lia. }
  assert (Hc : length (E (xorBytes (take bs src) iv)) = bs) by now apply E_len.
  rewrite take_app_length', drop_app_length' by done.
  rewrite DE, IH by (done || rewrite length_drop; lia).
  rewrite xorBytes_invol by (unfold len; rewrite length_take; lia).
  apply take_drop.
Qed.
End Cbc.

(** ** A concrete instance

    Checksums in place of cryptography: enough to evaluate the model and to show
    that the laws can hold. *)

Module Toy.

Definition checksum (b : bytes) : Z := foldl (fun acc x => (acc * 31 + b2z x + 1) mod 65521) 7 b.

Definition seal (k n p ad : bytes) : bytes :=
  p ++ bePut 16 (checksum (k ++ n ++ ad ++ p)).

Definition open (k n c ad : bytes) : option bytes :=
  let cut := (length c - 16)%nat in
  let p := take cut c in
  if decide (drop cut c = bePut 16 (checksum (k ++ n ++ ad ++ p))) then Some p else None.

Definition block (k b : bytes) : bytes := map (bxor (default Byte.x2a (head k))) b.

Definition size (h : HashName) : Z :=
  match h with
  | MD5 => 16 | SHA1 => 20 | SHA224 => 28 | SHA384 => 48 | SHA512 => 64
  | IMITPlaceholder => 8 | _ => 32
  end.

#[export] Instance prims : Primitives := {|
  hashSize := size;
  hashBlockSize h := 64;
  digest h m := bePut (Z.to_nat (size h)) (checksum m);
  aesEncrypt := block;
  aesDecrypt := block;
  gcmSeal := seal; gcmOpen := open;
  chachaSeal := seal; chachaOpen := open;
  g89Encrypt s k b := block k b;
  g89Decrypt s k b := block k b;
  g89SeqMAC s k b := map (fun x => z2b (3 * b2z x + len k)) b;
  newOMAC c k n := Some (fun m => bePut (Z.to_nat n) (checksum (k ++ m)));
  newCTRACPKM c k iv s := Some (fun i => z2b (checksum (k ++ iv) + Z.of_nat i));
  tlsTree c k seq := bePut 32 (checksum (k ++ bePut 8 seq))
|}.

Lemma open_spec k n c ad p : open k n c ad = Some p <-> c = seal k n p ad.
Proof.
  unfold open, seal. case_decide as E; split.
  - intros [= <-]. rewrite <- E. symmetry. apply take_drop.
  - intros ->. f_equal. apply take_app_length'. rewrite length_app, length_bePut. lia.
  - done.
  - intros ->. destruct E. rewrite length_app, length_bePut.
    rewrite take_app_length' by lia. rewrite drop_app_length' by lia. done.
Qed.

Lemma seal_len k n p ad : len (seal k n p ad) = len p + 16.
Proof. unfold seal. len_lia. Qed.

Lemma block_invol k b : block k (block k b) = b.
Proof.
  unfold block. rewrite map_map. rewrite <- (map_id b) at 2. apply map_ext. intros x.
  now rewrite <- bxor_assoc, bxor_nilpotent, bxor_comm, bxor_0_r.
Qed.

#[export] Instance laws : PrimitiveLaws prims.
Proof.
  split; intros; cbn -[bePut].
  - now destruct h.
  - reflexivity.
  - reflexivity.
  - reflexivity.
  - rewrite len_bePut. now destruct h.
  - unfold block. len_lia.
  - apply block_invol.
  - unfold block. len_lia.
  - apply open_spec.
  - apply seal_len.
  - apply open_spec.
  - apply seal_len.
  - unfold block. len_lia.
  - unfold block. len_lia.
  - len_lia.
  - apply len_bePut.
  - eexists; split; [done|]. intros m. cbv beta. rewrite len_bePut. now destruct c.
  - eauto.
Qed.

End Toy.
