(* ===== verification/Transcript.v ===== *)
(** * The handshake transcript ([internal/handshake/transcript.go])

    An append-only buffer of handshake bytes with a cap of 256 KiB.  Once a
    write does not fit, nothing more is appended and [Sum] fails for good: a
    digest that [Sum] returns is always the digest of everything written. *)

From Stdlib Require Import ZArith Lia.
From stdpp Require Import base list.
From S2P Require Import Prelude Errors Primitives.

Open Scope Z_scope.

Definition maxTranscriptBytes : Z := 256 * 1024.

Record Transcript := { tr_buf : bytes; tr_overflow : bool }.

Definition NewTranscript : Transcript := {| tr_buf := []; tr_overflow := false |}.

Definition Write (t : Transcript) (msg : bytes) : Transcript :=
  if tr_overflow t || (maxTranscriptBytes <? len (tr_buf t) + len msg)
  then {| tr_buf := tr_buf t; tr_overflow := true |}
  else {| tr_buf := tr_buf t ++ msg; tr_overflow := tr_overflow t |}.

Definition Overflowed (t : Transcript) : bool := tr_overflow t.

Section Sum.
Context `{Primitives}.

(** [factory] is [None] for a nil function value. *)
Definition Sum (t : Transcript) (factory : option HashName) : result bytes :=
  match factory with
  | None => Err errNilHashFactory
  | Some h => if tr_overflow t then Err errTranscriptOverflow else Ok (digest h (tr_buf t))
  end.
End Sum.

(** ** Lemmas *)

(** Well-formed: within the cap. *)
Definition tr_wf (t : Transcript) : Prop := len (tr_buf t) <= maxTranscriptBytes.

Lemma Write_wf t msg : tr_wf t -> tr_wf (Write t msg).
Proof.
  unfold tr_wf, Write. destruct (_ || _) eqn:E; cbn; [done|]. z_bool. len_lia.
Qed.

Lemma Write_overflow_sticky t msgs :
  tr_overflow t = true -> foldl Write t msgs = t.
Proof.
  intros H. induction msgs as [|m ms IH]; [done|]. cbn [foldl].
  replace (Write t m) with t; [done|]. unfold Write. rewrite H. cbn. destruct t. cbn in *. now subst.
Qed.

(** What a sequence of writes does, on both sides of the cap. *)
Lemma foldl_Write t msgs :
  tr_overflow t = false ->
  if len (tr_buf t ++ concat msgs) <=? maxTranscriptBytes
  then foldl Write t msgs = {| tr_buf := tr_buf t ++ concat msgs; tr_overflow := false |}
  else tr_wf t -> tr_overflow (foldl Write t msgs) = true.
Proof.
  revert t; induction msgs as [|m ms IH]; intros t Ho; cbn [foldl concat].
  - rewrite app_nil_r. destruct (_ <=? _) eqn:E; z_bool.
    + destruct t; cbn in *; now subst.
    + unfold tr_wf. lia.
  - unfold Write at 2 4. rewrite Ho. cbn [orb].
    destruct (maxTranscriptBytes <? len (tr_buf t) + len m) eqn:E; z_bool.
    + z_if. intros _. now rewrite Write_overflow_sticky.
    + specialize (IH {| tr_buf := tr_buf t ++ m; tr_overflow := false |} eq_refl).
      cbn [tr_buf] in IH. rewrite <- app_assoc in IH.
      destruct (_ <=? _) eqn:F; [done|]. intros _. apply IH.
      unfold tr_wf. cbn. len_lia.
Qed.

Section Properties.
Context `{Primitives}.

(** [Sum] after any writes. *)
Lemma Sum_writes msgs h :
  Sum (foldl Write NewTranscript msgs) (Some h)
  = if len (concat msgs) <=? maxTranscriptBytes
    then Ok (digest h (concat msgs)) else Err errTranscriptOverflow.
Proof.
  pose proof (foldl_Write NewTranscript msgs eq_refl) as F. cbn [tr_buf app] in F.
  change (tr_buf NewTranscript ++ concat msgs) with (concat msgs) in F.
  destruct (_ <=? _).
  - now rewrite F.
  - unfold Sum. rewrite F; [done|]. now unfold tr_wf.
Qed.

(** The transcript fails closed: after any sequence of writes to a fresh
    transcript, [Sum] gives the digest of exactly the concatenation of all of
    them when that fits in 256 KiB, and the overflow error otherwise; a
    truncated transcript is never hashed. *)
Theorem Sum_fail_closed msgs h :
  Sum (foldl Write NewTranscript msgs) (Some h)
  = if len (concat msgs) <=? maxTranscriptBytes
    then Ok (digest h (concat msgs)) else Err errTranscriptOverflow.
Proof. apply Sum_writes. Qed.
End Properties.
