(* ===== verification/Asn1.v ===== *)
(** * DER ([encoding/asn1])

    What the code uses of the standard library's [encoding/asn1]: the header of an
    element, base-128 integers, object identifiers, integers, raw values and octet
    and bit strings.  The writers follow [marshal.go], the readers [asn1.go]; a
    reader takes the bytes from the offset on and returns what it leaves.  All
    errors of the package are [ELib LibASN1].

    The lemmas say that readers and writers are inverse in both directions: what is
    written is read back whatever follows it, and what is read is the writing of the
    value, so that an element has one encoding. *)

From Stdlib Require Import ZArith Lia.
From stdpp Require Import base list.
From S2P Require Import Prelude Errors.

Open Scope Z_scope.

(** ** Numbers in a base

    Most significant digit first, no leading zero, none for zero. *)

Fixpoint digits (base : Z) (fuel : nat) (n : Z) : list Z :=
  match fuel with
  | O => []
  | S fuel => if n =? 0 then [] else digits base fuel (n / base) ++ [n mod base]
  end.

Definition undigits (base acc : Z) (l : list Z) : Z := foldl (fun a d => a * base + d) acc l.

(** ** Writing *)

(** The length octets after the first, for a length above 127; a 64-bit length
    has at most eight. *)
Definition lengthBytes (n : Z) : bytes := map z2b (digits 256 8 n).

Definition derLength (n : Z) : bytes :=
  if n <? 128 then [z2b n]
  else let b := lengthBytes n in z2b (128 + len b) :: b.

(** An element with the identifier octet [tag]. *)
Definition derTLV (tag : Z) (content : bytes) : bytes :=
  z2b tag :: derLength (len content) ++ content.
Arguments derTLV : simpl never.

(** The identifier octet of a class, a tag below 31 and a form. *)
Definition identifier (class tag : Z) (compound : bool) : Z :=
  class * 64 + (if compound then 32 else 0) + tag.

Definition tagInteger : Z := 2.
Definition tagBitString : Z := 3.
Definition tagOctetString : Z := 4.
Definition tagOID : Z := 6.
Definition tagSequence : Z := 48.     (* 16, constructed *)
Definition tagContext0 : Z := 160.    (* [0], constructed *)

(** [appendBase128Int]: seven bits per byte, the high bit on all but the last. *)
Definition base128 (n : Z) : bytes :=
  map (fun d => z2b (128 + d)) (digits 128 9 (n / 128)) ++ [z2b (n mod 128)].

(** [makeObjectIdentifier] and [oidEncoder]. *)
Definition marshalOID (oid : list Z) : result bytes :=
  match oid with
  | a :: b :: rest =>
      if (2 <? a) || ((a <? 2) && (40 <=? b)) then Err (ELib LibASN1)
      else Ok (base128 (a * 40 + b) ++ concat (map base128 rest))
  | _ => Err (ELib LibASN1)
  end.

(** A bit string of whole bytes. *)
Definition marshalBitString (b : bytes) : bytes := derTLV tagBitString (Byte.x00 :: b).

(** ** Reading *)

Record tagAndLength := {
  tl_class : Z;
  tl_tag : Z;
  tl_length : Z;
  tl_isCompound : bool
}.

(** [parseBase128Int]; [shifted] bytes have been read. *)
Fixpoint base128Loop (shifted ret64 : Z) (b : bytes) : result (Z * bytes) :=
  match b with
  | [] => Err (ELib LibASN1)
  | x :: b =>
      if shifted =? 5 then Err (ELib LibASN1)
      else if (shifted =? 0) && (b2z x =? 128) then Err (ELib LibASN1)
      else
        let ret64 := Z.lor (Z.shiftl ret64 7) (Z.land (b2z x) 127) in
        if Z.land (b2z x) 128 =? 0 then
          if 2 ^ 31 - 1 <? ret64 then Err (ELib LibASN1) else Ok (ret64, b)
        else base128Loop (shifted + 1) ret64 b
  end.

Definition parseBase128Int (b : bytes) : result (Z * bytes) := base128Loop 0 0 b.

(** The loop over the [n] length octets of [parseTagAndLength]. *)
Fixpoint lengthLoop (n : nat) (length : Z) (b : bytes) : result (Z * bytes) :=
  match n with
  | O => Ok (length, b)
  | S n =>
    match b with
    | [] => Err (ELib LibASN1)
    | x :: b =>
        if 2 ^ 23 <=? length then Err (ELib LibASN1)
        else
          let length := Z.lor (Z.shiftl length 8) (b2z x) in
          if length =? 0 then Err (ELib LibASN1) else lengthLoop n length b
    end
  end.

Definition parseLength (b : bytes) : result (Z * bytes) :=
  match b with
  | [] => Err (ELib LibASN1)
  | x :: b =>
      if Z.land (b2z x) 128 =? 0 then Ok (Z.land (b2z x) 127, b)
      else
        let numBytes := Z.land (b2z x) 127 in
        if numBytes =? 0 then Err (ELib LibASN1)
        else
          let* (n, b) := lengthLoop (Z.to_nat numBytes) 0 b in
          if n <? 128 then Err (ELib LibASN1) else Ok (n, b)
  end.

Definition parseTagAndLength (b : bytes) : result (tagAndLength * bytes) :=
  match b with
  | [] => Err (ELib LibASN1)
  | x :: b =>
      let* (tag, b) :=
        (if Z.land (b2z x) 31 =? 31 then
           let* (tag, b) := parseBase128Int b in
           if tag <? 31 then Err (ELib LibASN1) else Ok (tag, b)
         else Ok (Z.land (b2z x) 31, b)) in
      let* (n, b) := parseLength b in
      Ok ({| tl_class := Z.shiftr (b2z x) 6; tl_tag := tag; tl_length := n;
             tl_isCompound := Z.land (b2z x) 32 =? 32 |}, b)
  end.

(** The content of an element and what follows it: the end of [parseField]. *)
Definition takeContent (t : tagAndLength) (b : bytes) : result (bytes * bytes) :=
  if len b <? tl_length t then Err (ELib LibASN1)
  else Ok (take (Z.to_nat (tl_length t)) b, drop (Z.to_nat (tl_length t)) b).

(** [parseField] of a field that is not optional and whose type has the class, tag
    and form given. *)
Definition parseField (class tag : Z) (compound : bool) (b : bytes) : result (bytes * bytes) :=
  let* (t, b) := parseTagAndLength b in
  if negb ((tl_class t =? class) && (tl_tag t =? tag) && Bool.eqb (tl_isCompound t) compound)
  then Err (ELib LibASN1)
  else takeContent t b.

(** [asn1.RawValue]: the content and the whole element. *)
Record RawValue := {
  rv_class : Z;
  rv_tag : Z;
  rv_isCompound : bool;
  rv_bytes : bytes;
  rv_full : bytes
}.

(** [parseField] of a [RawValue]. *)
Definition parseRawValue (b : bytes) : result (RawValue * bytes) :=
  let* (t, b1) := parseTagAndLength b in
  let* (c, rest) := takeContent t b1 in
  Ok ({| rv_class := tl_class t; rv_tag := tl_tag t; rv_isCompound := tl_isCompound t;
         rv_bytes := c; rv_full := take (length b - length rest) b |}, rest).

(** An optional one: absent at the end of the sequence. *)
Definition parseOptionalRaw (b : bytes) : result (option RawValue * bytes) :=
  match b with
  | [] => Ok (None, [])
  | _ => let* (v, rest) := parseRawValue b in Ok (Some v, rest)
  end.

(** The loop of [parseObjectIdentifier]; each turn takes a byte at least. *)
Fixpoint oidLoop (fuel : nat) (b : bytes) : result (list Z) :=
  match b with
  | [] => Ok []
  | _ =>
    match fuel with
    | O => Crash OutOfFuel
    | S fuel =>
        let* (v, b) := parseBase128Int b in
        let* vs := oidLoop fuel b in
        Ok (v :: vs)
    end
  end.

Definition parseObjectIdentifier (b : bytes) : result (list Z) :=
  if len b =? 0 then Err (ELib LibASN1)
  else
    let* (v, b) := parseBase128Int b in
    let (s0, s1) := if v <? 80 then (v / 40, v mod 40) else (2, v - 80) in
    let* s := oidLoop (length b) b in
    Ok (s0 :: s1 :: s).

(** [parseBigInt]: [checkInteger] and two's complement. *)
Definition parseBigInt (b : bytes) : result Z :=
  match b with
  | [] => Err (ELib LibASN1)
  | x :: rest =>
      let minimal := match rest with
                     | [] => true
                     | y :: _ => negb ((b2z x =? 0) && (Z.land (b2z y) 128 =? 0)) &&
                                 negb ((b2z x =? 255) && (Z.land (b2z y) 128 =? 128))
                     end in
      if negb minimal then Err (ELib LibASN1)
      else Ok (if Z.land (b2z x) 128 =? 128 then beUint b - 256 ^ len b else beUint b)
  end.

(** [parseBitString]; the first byte counts the unused bits of the last. *)
Definition parseBitString (b : bytes) : result bytes :=
  match b with
  | [] => Err (ELib LibASN1)
  | x :: rest =>
      let paddingBits := b2z x in
      if (7 <? paddingBits) || ((len b =? 1) && (0 <? paddingBits)) ||
         negb (Z.land (b2z (default x (last b))) (Z.shiftl 1 paddingBits - 1) =? 0)
      then Err (ELib LibASN1)
      else Ok rest
  end.

(** [asn1.Unmarshal] into a struct: the content of the sequence, and the rest. *)
Definition parseSequence (b : bytes) : result (bytes * bytes) := parseField 0 16 true b.
Definition parseOctetString (b : bytes) : result (bytes * bytes) := parseField 0 4 false b.

(** * Lemmas *)

(** ** Digits *)

Definition digit_list (base : Z) (l : list Z) : Prop := Forall (fun d => 0 <= d < base) l.

(** No leading zero. *)
Definition minimal (l : list Z) : Prop := match l with d :: _ => d <> 0 | [] => True end.

Lemma digit_list_snoc base l d :
  digit_list base (l ++ [d]) <-> digit_list base l /\ 0 <= d < base.
Proof.
  unfold digit_list. rewrite Forall_app, Forall_cons. split; [tauto|]. intros [? ?].
  split; [done|]. split; [done|constructor].
Qed.

Lemma undigits_snoc base acc l d : undigits base acc (l ++ [d]) = undigits base acc l * base + d.
Proof. unfold undigits. now rewrite foldl_app. Qed.

Lemma undigits_nonneg base acc l :
  0 <= base -> 0 <= acc -> digit_list base l -> 0 <= undigits base acc l.
Proof.
  intros Hb Ha Hl. induction l as [|d l IH] using rev_ind; [done|].
  apply digit_list_snoc in Hl as [Hl Hd].
  rewrite undigits_snoc. specialize (IH Hl).
  pose proof (Z.mul_nonneg_nonneg _ _ IH Hb). lia.
Qed.

Lemma digits_list base fuel n : 0 < base -> digit_list base (digits base fuel n).
Proof.
  intros Hb. revert n; induction fuel as [|fuel IH]; intros n; cbn; [constructor|].
  destruct (n =? 0); [constructor|]. apply digit_list_snoc.
  split; [apply IH|apply Z.mod_pos_bound; lia].
Qed.

Lemma digits_length base fuel n : (length (digits base fuel n) <= fuel)%nat.
Proof.
  revert n; induction fuel as [|fuel IH]; intros n; cbn; [lia|].
  destruct (n =? 0); cbn; [lia|]. rewrite length_app. cbn. specialize (IH (n / base)). lia.
Qed.

(** [digits] at a number that has [k] digits. *)
Lemma digits_bound base fuel k n :
  1 < base -> 0 <= n < base ^ Z.of_nat k -> (length (digits base fuel n) <= k)%nat.
Proof.
  intros Hb. revert k n; induction fuel as [|fuel IH]; intros k n Hn; cbn; [lia|].
  destruct (Z.eqb_spec n 0); cbn; [lia|]. rewrite length_app. cbn.
  destruct k as [|k]; [cbn in Hn; lia|].
  specialize (IH k (n / base)). rewrite Nat2Z.inj_succ, Z.pow_succ_r in Hn by lia.
  assert (0 <= n / base < base ^ Z.of_nat k); [|lia].
  split; [apply Z.div_pos; lia|apply Z.div_lt_upper_bound; lia].
Qed.

Lemma undigits_digits base fuel n :
  1 < base -> 0 <= n < base ^ Z.of_nat fuel -> undigits base 0 (digits base fuel n) = n.
Proof.
  intros Hb. revert n; induction fuel as [|fuel IH]; intros n Hn; cbn [digits].
  - change (base ^ Z.of_nat 0) with 1 in Hn. cbn. lia.
  - destruct (Z.eqb_spec n 0); [done|]. rewrite undigits_snoc, IH.
    + rewrite (Z.div_mod n base) at 3 by lia. lia.
    + rewrite Nat2Z.inj_succ, Z.pow_succ_r in Hn by lia.
      split; [apply Z.div_pos; lia|apply Z.div_lt_upper_bound; lia].
Qed.

Lemma undigits_pos base l d :
  1 < base -> digit_list base (d :: l) -> d <> 0 -> 0 < undigits base 0 (d :: l).
Proof.
  intros Hb Hl Hd. induction l as [|x l IH] using rev_ind.
  - apply Forall_cons in Hl as [Hl _]. unfold undigits. cbn. lia.
  - rewrite app_comm_cons in *. apply digit_list_snoc in Hl as [Hl Hx].
    rewrite undigits_snoc. specialize (IH Hl). nia.
Qed.

Lemma digits_undigits base fuel l :
  1 < base -> digit_list base l -> minimal l -> (length l <= fuel)%nat ->
  digits base fuel (undigits base 0 l) = l.
Proof.
  intros Hb. revert fuel; induction l as [|d l IH] using rev_ind; intros fuel Hl Hm Hn.
  - destruct fuel; reflexivity.
  - rewrite length_app in Hn. cbn in Hn. destruct fuel as [|fuel]; [lia|].
    apply digit_list_snoc in Hl as [Hl Hd].
    assert (Hm' : minimal l) by (destruct l; [done|exact Hm]).
    assert (Hp : undigits base 0 (l ++ [d]) <> 0).
    { destruct l as [|x l]; [cbn in *; unfold undigits; cbn; lia|].
      pose proof (undigits_pos base (l ++ [d]) x Hb). rewrite app_comm_cons in H.
      enough (0 < undigits base 0 ((x :: l) ++ [d])) by lia. apply H; [|exact Hm].
      now apply digit_list_snoc. }
    cbn [digits]. rewrite (proj2 (Z.eqb_neq _ _)) by exact Hp. rewrite undigits_snoc.
    rewrite Z.div_add_l, Z.div_small, Z.add_0_r by lia.
    rewrite Z.add_comm, Z.mod_add, Z.mod_small by lia. now rewrite IH by (done || lia).
Qed.
#[local] Hint Resolve digits_list : core.

Lemma digits_minimal base fuel n :
  1 < base -> 0 <= n < base ^ Z.of_nat fuel -> minimal (digits base fuel n).
Proof.
  intros Hb. revert n; induction fuel as [|fuel IH]; intros n Hn; cbn; [done|].
  destruct (Z.eqb_spec n 0); [done|].
  rewrite Nat2Z.inj_succ, Z.pow_succ_r in Hn by lia.
  assert (Hq : 0 <= n / base < base ^ Z.of_nat fuel)
    by (split; [apply Z.div_pos; lia|apply Z.div_lt_upper_bound; lia]).
  specialize (IH _ Hq). destruct (digits base fuel (n / base)) as [|x l] eqn:E; cbn; [|exact IH].
  pose proof (undigits_digits base fuel (n / base) Hb Hq) as H. rewrite E in H. cbn in H.
  intros Hm. apply n0. rewrite (Z.div_mod n base), Hm by lia. unfold undigits in H. cbn in H. lia.
Qed.

Lemma undigits_ge base acc l :
  1 < base -> 0 <= acc -> digit_list base l -> acc * base ^ len l <= undigits base acc l.
Proof.
  intros Hb Ha. induction l as [|d l IH] using rev_ind; intros Hl.
  - rewrite len_nil, Z.pow_0_r, Z.mul_1_r. reflexivity.
  - apply digit_list_snoc in Hl as [Hl Hd]. rewrite undigits_snoc, len_app, Z.pow_add_r by
      apply len_nonneg.
    change (len [d]) with 1. rewrite Z.pow_1_r. specialize (IH Hl). nia.
Qed.

Lemma undigits_acc base acc l :
  1 < base -> 0 <= acc -> digit_list base l -> acc <= undigits base acc l.
Proof.
  intros Hb Ha Hl. etransitivity; [|now apply undigits_ge].
  pose proof (len_nonneg l). assert (0 < base ^ len l) by (apply Z.pow_pos_nonneg; lia). nia.
Qed.

(** ** The bits of a byte the readers look at *)

Lemma land_128 x : Z.land (b2z x) 128 = if b2z x <? 128 then 0 else 128.
Proof. destruct x; reflexivity. Qed.

Lemma land_127 x : Z.land (b2z x) 127 = if b2z x <? 128 then b2z x else b2z x - 128.
Proof. destruct x; reflexivity. Qed.

Lemma high_bit x : (Z.land (b2z x) 128 =? 0) = (b2z x <? 128).
Proof. rewrite land_128. now destruct (b2z x <? 128). Qed.

Lemma z2b_high d : 0 <= d < 128 -> b2z (z2b (128 + d)) = 128 + d.
Proof. intros. apply b2z_small. lia. Qed.

(** A byte with the high bit is 128 plus a digit. *)
Lemma high_byte x : 128 <= b2z x -> exists d, 0 <= d < 128 /\ x = z2b (128 + d) /\ Z.land (b2z x) 127 = d.
Proof.
  intros Hx. pose proof (b2z_range x). exists (b2z x - 128). split; [lia|].
  rewrite land_127, (proj2 (Z.ltb_ge _ _)) by lia. split; [|lia].
  rewrite <- (z2b_b2z x) at 1. f_equal. lia.
Qed.

(** ** Lengths *)

Lemma lor_shift8 acc x : 0 <= acc -> Z.lor (Z.shiftl acc 8) (b2z x) = acc * 256 + b2z x.
Proof. intros. pose proof (b2z_range x). rewrite lor_shift_add by lia. reflexivity. Qed.

Lemma lengthLoop_put l acc rest :
  digit_list 256 l -> 0 <= acc -> (acc = 0 -> minimal l) -> undigits 256 acc l < 2 ^ 31 ->
  lengthLoop (length l) acc (map z2b l ++ rest) = Ok (undigits 256 acc l, rest).
Proof.
  revert acc; induction l as [|d l IH]; intros acc Hl Ha Hm Hu; [done|].
  apply Forall_cons in Hl as [Hd Hl]. cbn [length lengthLoop map app].
  assert (Ht : acc * 256 + d < 2 ^ 31).
  { change (undigits 256 acc (d :: l)) with (undigits 256 (acc * 256 + d) l) in Hu.
    eapply Z.le_lt_trans; [|exact Hu]. now apply undigits_acc; [lia..|]. }
  rewrite (proj2 (Z.leb_gt _ _)) by lia. rewrite lor_shift8, b2z_small by lia.
  assert (acc * 256 + d <> 0) by (destruct (decide (acc = 0)) as [E|]; [specialize (Hm E); cbn in Hm; lia|lia]).
  rewrite (proj2 (Z.eqb_neq _ _)) by done. apply IH; [done|lia|lia|exact Hu].
Qed.

Lemma lengthLoop_inv n acc b v rest :
  lengthLoop n acc b = Ok (v, rest) -> 0 <= acc < 2 ^ 31 ->
  exists l, length l = n /\ digit_list 256 l /\ b = map z2b l ++ rest /\
            v = undigits 256 acc l /\ 0 <= v < 2 ^ 31 /\ (acc = 0 -> minimal l).
Proof.
  revert acc b; induction n as [|n IH]; intros acc b H Ha; cbn [lengthLoop] in H.
  - injection H as -> ->. exists []. repeat split; [constructor|lia..].
  - destruct b as [|x b]; [done|]. destruct (_ <=? _) eqn:E1; [done|]. z_bool.
    rewrite lor_shift8 in H by lia. destruct (_ =? 0) eqn:E2; [done|]. z_bool.
    pose proof (b2z_range x).
    destruct (IH _ _ H) as (l & El & Hl & -> & -> & Hv & Hm); [lia|].
    exists (b2z x :: l). split; [cbn; lia|]. split; [now constructor|].
    split; [cbn; now rewrite z2b_b2z|]. split; [done|]. split; [done|]. intros ->. cbn. lia.
Qed.

Lemma parseLength_put n rest :
  0 <= n < 2 ^ 31 -> parseLength (derLength n ++ rest) = Ok (n, rest).
Proof.
  intros Hn. unfold derLength. destruct (n <? 128) eqn:E; z_bool; cbn [app parseLength].
  - rewrite high_bit, land_127, b2z_small by lia. now rewrite (proj2 (Z.ltb_lt _ _)) by lia.
  - unfold lengthBytes. set (l := digits 256 8 n).
    pose proof (digits_length 256 8 n : (length l <= 8)%nat) as Hlen.
    assert (Hu : undigits 256 0 l = n) by (apply undigits_digits; [lia|cbn; lia]).
    assert (Hl0 : length l <> O) by (intros E0; destruct l; [unfold undigits in Hu; cbn in Hu; lia|done]).
    rewrite len_map. unfold len. rewrite high_bit, land_127, z2b_high by lia.
    rewrite (proj2 (Z.ltb_ge _ 128)) by lia. rewrite (proj2 (Z.eqb_neq _ _)) by lia.
    replace (Z.to_nat (128 + Z.of_nat (length l) - 128)) with (length l) by lia.
    rewrite lengthLoop_put; [|now apply digits_list|lia|intros _; apply digits_minimal; [lia|cbn; lia]|lia].
    cbn [bind]. now rewrite Hu, (proj2 (Z.ltb_ge _ _)) by lia.
Qed.

Lemma parseLength_inv b n rest :
  parseLength b = Ok (n, rest) -> 0 <= n < 2 ^ 31 /\ b = derLength n ++ rest.
Proof.
  destruct b as [|x b]; [done|]. cbn [parseLength]. rewrite high_bit. pose proof (b2z_range x) as Hx.
  destruct (b2z x <? 128) eqn:E; z_bool.
  - rewrite land_127, (proj2 (Z.ltb_lt _ _)) by done. intros [= <- ->]. split; [lia|].
    unfold derLength. rewrite (proj2 (Z.ltb_lt _ _)) by done. now rewrite z2b_b2z.
  - destruct (high_byte x E) as (k & Hk & -> & ->). destruct (k =? 0) eqn:E0; [done|]. z_bool.
    intros H. apply bind_Ok in H as ([v b'] & Hv & H).
    destruct (v <? 128) eqn:Ev; [done|]. z_bool. injection H as -> ->.
    destruct (lengthLoop_inv _ _ _ _ _ Hv) as (l & El & Hl & -> & Hu & Hr & Hm); [lia|].
    split; [lia|]. unfold derLength, lengthBytes. rewrite (proj2 (Z.ltb_ge _ _)) by lia.
    assert (Hle : (length l <= 4)%nat).
    { rewrite <- (digits_undigits 256 (length l) l) by (done || lia || auto).
      apply digits_bound; [lia|]. rewrite <- Hu. cbn. lia. }
    rewrite Hu, digits_undigits by (done || lia || auto). rewrite len_map. unfold len.
    cbn [app]. f_equal. f_equal. lia.
Qed.

(** ** Base-128 integers *)

Definition contBytes (l : list Z) : bytes := map (fun d => z2b (128 + d)) l.

Lemma lor_shift7 acc x :
  0 <= acc -> Z.lor (Z.shiftl acc 7) (Z.land (b2z x) 127) = acc * 128 + Z.land (b2z x) 127.
Proof.
  intros. pose proof (b2z_range x). rewrite lor_shift_add; [reflexivity|lia|].
  rewrite land_127. destruct (b2z x <? 128) eqn:E; z_bool; change (2 ^ 7) with 128; lia.
Qed.

Lemma base128Loop_put l s acc x rest :
  digit_list 128 l -> 0 <= x < 128 -> 0 <= s -> s + len l < 5 -> 0 <= acc -> (s = 0 -> minimal l) ->
  base128Loop s acc (contBytes l ++ z2b x :: rest)
  = (let v := undigits 128 acc l * 128 + x in
     if 2 ^ 31 - 1 <? v then Err (ELib LibASN1) else Ok (v, rest)).
Proof.
  revert s acc; induction l as [|d l IH]; intros s acc Hl Hx Hs Hn Ha Hm; cbn [contBytes map app base128Loop].
  - rewrite len_nil in Hn. rewrite lor_shift7, high_bit, land_127, b2z_small by lia.
    rewrite (proj2 (Z.eqb_neq s 5)) by lia. rewrite (proj2 (Z.eqb_neq x 128)) by lia.
    rewrite andb_false_r. now rewrite (proj2 (Z.ltb_lt x 128)) by lia.
  - apply Forall_cons in Hl as [Hd Hl]. rewrite len_cons in Hn. pose proof (len_nonneg l).
    rewrite lor_shift7, high_bit, land_127, z2b_high by lia.
    rewrite (proj2 (Z.eqb_neq s 5)) by lia.
    replace ((s =? 0) && (128 + d =? 128)) with false.
    2:{ symmetry. apply andb_false_iff. destruct (Z.eqb_spec s 0) as [E|]; [right|now left].
        apply Z.eqb_neq. specialize (Hm E). cbn in Hm. lia. }
    rewrite (proj2 (Z.ltb_ge (128 + d) 128)) by lia.
    replace (128 + d - 128) with d by lia. apply IH; [done|done|lia..].
Qed.

Lemma base128Loop_inv s acc b v rest :
  base128Loop s acc b = Ok (v, rest) -> 0 <= s <= 5 -> 0 <= acc ->
  exists l x, digit_list 128 l /\ 0 <= x < 128 /\ s + len l < 5 /\ (s = 0 -> minimal l) /\
    b = contBytes l ++ z2b x :: rest /\ v = undigits 128 acc l * 128 + x /\ 0 <= v < 2 ^ 31.
Proof.
  revert s acc; induction b as [|y b IH]; intros s acc H Hs Ha; [done|]. cbn [base128Loop] in H.
  destruct (Z.eqb_spec s 5); [done|]. pose proof (b2z_range y).
  destruct ((s =? 0) && (b2z y =? 128)) eqn:Ef; [done|].
  rewrite lor_shift7, high_bit in H by lia. destruct (b2z y <? 128) eqn:Ey; z_bool.
  - rewrite land_127, (proj2 (Z.ltb_lt (b2z y) 128)) in H by done.
    destruct (_ <? _) eqn:Ev in H; [done|]. z_bool. injection H as <- ->.
    exists [], (b2z y). rewrite (z2b_b2z y). change (len []) with 0. change (undigits 128 acc []) with acc.
    split_and!; first [lia | done | constructor].
  - destruct (high_byte y Ey) as (d & Hd & Hy & El). rewrite El in H.
    destruct (IH _ _ H) as (l & x & Hl & Hx & Hn & _ & -> & -> & Hv); [lia..|].
    exists (d :: l), x. rewrite len_cons. split; [now constructor|]. split; [done|]. split; [lia|].
    split; [|split; [now rewrite Hy|done]].
    intros ->. cbn. intros ->. rewrite Hy in Ef. discriminate Ef.
Qed.

Lemma parseBase128Int_put n rest :
  0 <= n < 2 ^ 31 -> parseBase128Int (base128 n ++ rest) = Ok (n, rest).
Proof.
  intros Hn. unfold parseBase128Int, base128. rewrite <- app_assoc. cbn [app].
  assert (Hq : 0 <= n / 128 < 2 ^ 24) by (split; [apply Z.div_pos; lia|apply Z.div_lt_upper_bound; lia]).
  pose proof (Z.mod_pos_bound n 128 ltac:(lia)). fold (contBytes (digits 128 9 (n / 128))).
  rewrite base128Loop_put; [|now apply digits_list|done|lia| |lia|intros _; apply digits_minimal; [lia|cbn; lia]].
  - cbv zeta. rewrite undigits_digits by (cbn; lia).
    replace (n / 128 * 128 + n mod 128) with n by (rewrite (Z.div_mod n 128) at 1 by lia; lia).
    now rewrite (proj2 (Z.ltb_ge _ _)) by lia.
  - unfold len. pose proof (digits_bound 128 9 4 (n / 128)). cbn in *. lia.
Qed.

Lemma parseBase128Int_inv b n rest :
  parseBase128Int b = Ok (n, rest) -> 0 <= n < 2 ^ 31 /\ b = base128 n ++ rest.
Proof.
  intros H. apply base128Loop_inv in H as (l & x & Hl & Hx & Hn & Hm & -> & -> & Hv); [|lia..].
  split; [done|]. unfold base128. rewrite Z.div_add_l, Z.div_small, Z.add_0_r by lia.
  rewrite Z.add_comm, Z.mod_add, Z.mod_small by lia. rewrite <- app_assoc.
  rewrite digits_undigits; [done|lia|done|auto|unfold len in Hn; lia].
Qed.

Lemma base128_nonnil n : base128 n <> [].
Proof. unfold base128. now destruct (map _ _). Qed.

(** ** Object identifiers *)

(** What [parseObjectIdentifier] returns and [marshalOID] accepts. *)
Definition oid_ok (oid : list Z) : Prop :=
  match oid with
  | a :: b :: rest =>
      0 <= a <= 2 /\ 0 <= b /\ (a < 2 -> b < 40) /\ a * 40 + b < 2 ^ 31 /\
      Forall (fun v => 0 <= v < 2 ^ 31) rest
  | _ => False
  end.

(** The same as a test. *)
Definition oid_check (oid : list Z) : bool :=
  match oid with
  | a :: b :: rest =>
      (0 <=? a) && (a <=? 2) && (0 <=? b) && ((2 <=? a) || (b <? 40)) && (a * 40 + b <? 2 ^ 31) &&
      forallb (fun v => (0 <=? v) && (v <? 2 ^ 31)) rest
  | _ => false
  end.

Lemma oid_checks oid : oid_check oid = true -> oid_ok oid.
Proof.
  destruct oid as [|a [|b rest]]; [done..|]. cbn [oid_check oid_ok]. intros H. z_bool.
  split_and!; [lia..| |lia|].
  - apply orb_true_iff in H2 as [H2|H2]; z_bool; lia.
  - apply Forall_forall. intros v Hv%list_elem_of_In. rewrite forallb_forall in H0.
    specialize (H0 v Hv). z_bool. lia.
Qed.

Lemma marshalOID_ok oid : oid_ok oid -> exists o, marshalOID oid = Ok o.
Proof.
  destruct oid as [|a [|b l]]; [done..|]. intros (H1 & H2 & H3 & _). cbn [marshalOID].
  eexists. replace ((2 <? a) || ((a <? 2) && (40 <=? b))) with false; [reflexivity|].
  symmetry. apply orb_false_iff. split; [apply Z.ltb_ge; lia|].
  destruct (Z.ltb_spec a 2); [|done]. apply Z.leb_gt. auto.
Qed.

Lemma oidLoop_put vs fuel :
  Forall (fun v => 0 <= v < 2 ^ 31) vs -> (length (concat (map base128 vs)) <= fuel)%nat ->
  oidLoop fuel (concat (map base128 vs)) = Ok vs.
Proof.
  revert fuel; induction vs as [|v vs IH]; intros fuel Hv Hf; [now destruct fuel|].
  apply Forall_cons in Hv as [Hv Hvs]. cbn [map concat] in *. rewrite length_app in Hf.
  destruct (base128 v) as [|x l] eqn:E; [now destruct (base128_nonnil v)|]. cbn [length] in Hf.
  destruct fuel as [|fuel]; [lia|]. cbn [oidLoop app]. rewrite app_comm_cons, <- E.
  rewrite parseBase128Int_put by done. cbn [bind]. now rewrite IH by (done || lia).
Qed.

Lemma oidLoop_inv fuel b vs :
  oidLoop fuel b = Ok vs -> Forall (fun v => 0 <= v < 2 ^ 31) vs /\ b = concat (map base128 vs).
Proof.
  revert b vs; induction fuel as [|fuel IH]; intros [|x b] vs H; cbn [oidLoop] in H;
    try (injection H as <-; split; [constructor|done]); [done|].
  apply bind_Ok in H as ([v b'] & Hv & H). apply bind_Ok in H as (vs' & Hs & [= <-]).
  apply parseBase128Int_inv in Hv as [Hv ->]. apply IH in Hs as [Hs ->].
  split; [now constructor|done].
Qed.

Lemma parseBase128Int_shorter b n rest : parseBase128Int b = Ok (n, rest) -> (length rest < length b)%nat.
Proof.
  intros H. apply parseBase128Int_inv in H as [_ ->]. rewrite length_app.
  pose proof (base128_nonnil n). destruct (base128 n); cbn; [done|lia].
Qed.

Lemma base128Loop_safe s acc b : safe (base128Loop s acc b).
Proof.
  revert s acc; induction b as [|x b IH]; intros s acc; cbn [base128Loop]; [done|]. cbv zeta.
  safe_auto.
Qed.

Lemma oidLoop_safe fuel b : (length b <= fuel)%nat -> safe (oidLoop fuel b).
Proof.
  revert b; induction fuel as [|fuel IH]; intros [|x b] H; cbn [oidLoop]; try done; [cbn in H; lia|].
  apply safe_bind; [apply base128Loop_safe|]. intros [v b'] Hv.
  apply parseBase128Int_shorter in Hv. apply safe_bind; [apply IH; lia|]. done.
Qed.

Lemma parseObjectIdentifier_put oid b :
  oid_ok oid -> marshalOID oid = Ok b -> parseObjectIdentifier b = Ok oid.
Proof.
  intros Ho Hb. destruct oid as [|a [|c rest]]; [done..|]. destruct Ho as (Ha & Hc & Hac & Hv & Hr).
  cbn [marshalOID] in Hb. destruct (_ || _) in Hb; [done|]. injection Hb as <-.
  unfold parseObjectIdentifier. rewrite (proj2 (Z.eqb_neq _ 0)).
  2:{ pose proof (base128_nonnil (a * 40 + c)). destruct (base128 _); [done|]. len_lia. }
  rewrite parseBase128Int_put by lia. cbn [bind].
  destruct (a * 40 + c <? 80) eqn:E; z_bool; rewrite oidLoop_put by done; cbn [bind].
  - assert (c < 40) by (destruct (decide (a < 2)); [auto|lia]).
    rewrite Z.div_add_l, Z.div_small, Z.add_0_r by lia.
    now rewrite Z.add_comm, Z.mod_add, Z.mod_small by lia.
  - assert (a = 2) as -> by lia. now replace (2 * 40 + c - 80) with c by lia.
Qed.

Lemma parseObjectIdentifier_inv b oid :
  parseObjectIdentifier b = Ok oid -> oid_ok oid /\ marshalOID oid = Ok b.
Proof.
  unfold parseObjectIdentifier. destruct (len b =? 0); [done|]. intros H.
  apply bind_Ok in H as ([v b'] & Hv & H). apply parseBase128Int_inv in Hv as [Hv ->].
  destruct (v <? 80) eqn:E; z_bool; apply bind_Ok in H as (vs & Hs & [= <-]);
    apply oidLoop_inv in Hs as [Hs ->]; cbn [oid_ok marshalOID].
  - pose proof (Z.mod_pos_bound v 40 ltac:(lia)). pose proof (Z.div_mod v 40 ltac:(lia)).
    assert (0 <= v / 40 < 2) by (split; [apply Z.div_pos|apply Z.div_lt_upper_bound]; lia).
    split; [repeat split; [lia..|done]|].
    rewrite (proj2 (Z.ltb_ge 2 _)), (proj2 (Z.leb_gt 40 _)) by lia. rewrite andb_false_r. cbn [orb].
    now replace (v / 40 * 40 + v mod 40) with v by lia.
  - split; [repeat split; [lia..|done]|].
    change ((2 <? 2) || ((2 <? 2) && (40 <=? v - 80))) with false. cbv iota.
    now replace (2 * 40 + (v - 80)) with v by lia.
Qed.

Lemma parseObjectIdentifier_safe b : safe (parseObjectIdentifier b).
Proof.
  unfold parseObjectIdentifier. destruct (len b =? 0); [done|].
  apply safe_bind; [apply base128Loop_safe|]. intros [v b'] _.
  destruct (v <? 80); (apply safe_bind; [now apply oidLoop_safe|done]).
Qed.
#[export] Hint Resolve parseObjectIdentifier_safe base128Loop_safe : tls.

(** ** Elements *)

Lemma identifier_byte x :
  z2b (identifier (Z.shiftr (b2z x) 6) (Z.land (b2z x) 31) (Z.land (b2z x) 32 =? 32)) = x.
Proof. destruct x; reflexivity. Qed.

(** The octet's fields are what it was made of; one check for each of the 248. *)
Lemma identifier_bits class tag compound :
  0 <= class < 4 -> 0 <= tag < 31 ->
  Z.shiftr (identifier class tag compound) 6 = class /\
  Z.land (identifier class tag compound) 31 = tag /\
  (Z.land (identifier class tag compound) 32 =? 32) = compound.
Proof.
  intros Hc Ht.
  pose (ok c t := forallb (fun k => (Z.shiftr (identifier c t k) 6 =? c) &&
    (Z.land (identifier c t k) 31 =? t) && Bool.eqb (Z.land (identifier c t k) 32 =? 32) k) [true; false]).
  assert (H : forallb (fun c => forallb (ok c) (seqZ 0 31)) (seqZ 0 4) = true) by (vm_compute; reflexivity).
  rewrite forallb_forall in H. specialize (H class). rewrite <- list_elem_of_In, elem_of_seqZ in H.
  specialize (H ltac:(lia)). cbv beta in H.
  rewrite forallb_forall in H. specialize (H tag). rewrite <- list_elem_of_In, elem_of_seqZ in H.
  specialize (H ltac:(lia)). unfold ok in H. rewrite forallb_forall in H.
  specialize (H compound ltac:(destruct compound; cbn; auto)). z_bool. split_and!; [done..|now apply Bool.eqb_prop].
Qed.

(** The header of a tag octet that is not the escape to a long tag. *)
Definition headerOf (tag n : Z) : tagAndLength :=
  {| tl_class := Z.shiftr tag 6; tl_tag := Z.land tag 31; tl_length := n;
     tl_isCompound := Z.land tag 32 =? 32 |}.

Lemma parseTagAndLength_put tag n rest :
  0 <= tag < 256 -> Z.land tag 31 <> 31 -> 0 <= n < 2 ^ 31 ->
  parseTagAndLength (z2b tag :: derLength n ++ rest) = Ok (headerOf tag n, rest).
Proof.
  intros Ht Hl Hn. cbn [parseTagAndLength]. rewrite b2z_small by done.
  rewrite (proj2 (Z.eqb_neq _ 31)) by done. cbn [bind]. now rewrite parseLength_put.
Qed.

(** Whatever is read is a header followed by the rest; below tag 31 the header is
    the identifier octet and the length. *)
Lemma parseTagAndLength_inv b t rest :
  parseTagAndLength b = Ok (t, rest) ->
  0 <= tl_length t < 2 ^ 31 /\ (exists h, h <> [] /\ b = h ++ rest) /\
  (tl_tag t < 31 ->
   b = z2b (identifier (tl_class t) (tl_tag t) (tl_isCompound t)) :: derLength (tl_length t) ++ rest).
Proof.
  destruct b as [|x b]; [done|]. cbn [parseTagAndLength]. intros H.
  apply bind_Ok in H as ([tag b1] & Ht & H). apply bind_Ok in H as ([n b2] & Hn & [= <- <-]).
  apply parseLength_inv in Hn as [Hn ->]. cbn [tl_length tl_tag tl_class tl_isCompound].
  destruct (Z.eqb_spec (Z.land (b2z x) 31) 31) as [E|E].
  - apply bind_Ok in Ht as ([tag' b'] & Hp & Ht). apply parseBase128Int_inv in Hp as [_ ->].
    destruct (tag' <? 31) eqn:El; [done|]. z_bool. injection Ht as -> ->.
    split; [done|]. split; [|lia]. exists (x :: base128 tag ++ derLength n).
    split; [done|]. now rewrite <- app_comm_cons, <- app_assoc.
  - injection Ht as <- ->. split; [done|]. split; [now exists (x :: derLength n)|].
    intros _. now rewrite identifier_byte.
Qed.

Lemma parseLength_safe b : safe (parseLength b).
Proof.
  destruct b as [|x b]; [done|]. cbn [parseLength]. safe_auto.
  generalize 0 as acc, (Z.to_nat (Z.land (b2z x) 127)) as n. clear. intros acc n.
  revert acc b; induction n as [|n IH]; intros acc [|y b]; cbn [lengthLoop]; try done.
  cbv zeta. safe_auto.
Qed.

Lemma parseTagAndLength_safe b : safe (parseTagAndLength b).
Proof.
  destruct b as [|x b]; [done|]. cbn [parseTagAndLength].
  apply safe_bind; [unfold parseBase128Int; safe_auto|]. intros [tag b'] _.
  apply safe_bind; [apply parseLength_safe|now intros []].
Qed.
#[export] Hint Resolve parseTagAndLength_safe : tls.

Lemma takeContent_safe t b : safe (takeContent t b).
Proof. unfold takeContent. safe_auto. Qed.
#[export] Hint Resolve takeContent_safe : tls.

Lemma parseField_safe class tag compound b : safe (parseField class tag compound b).
Proof. unfold parseField. safe_auto. Qed.
#[export] Hint Resolve parseField_safe : tls.

Lemma parseRawValue_safe b : safe (parseRawValue b).
Proof. unfold parseRawValue. safe_auto. Qed.
#[export] Hint Resolve parseRawValue_safe : tls.

Lemma takeContent_put t c rest : tl_length t = len c -> takeContent t (c ++ rest) = Ok (c, rest).
Proof.
  intros Ht. unfold takeContent. rewrite Ht, (proj2 (Z.ltb_ge _ _)) by len_lia.
  rewrite to_nat_len. now rewrite take_app_length, drop_app_length.
Qed.

Lemma takeContent_inv t b c rest :
  0 <= tl_length t -> takeContent t b = Ok (c, rest) -> b = c ++ rest /\ len c = tl_length t.
Proof.
  unfold takeContent. destruct (_ <? _) eqn:E; [done|]. z_bool. intros Ht [= <- <-].
  split; [now rewrite take_drop|]. len_lia.
Qed.

(** An element of the expected identifier is read back whatever follows it. *)
Lemma parseField_put class tag compound c rest :
  0 <= class < 4 -> 0 <= tag < 31 -> len c < 2 ^ 31 ->
  parseField class tag compound (derTLV (identifier class tag compound) c ++ rest) = Ok (c, rest).
Proof.
  intros Hc Ht Hn. unfold parseField, derTLV. pose proof (len_nonneg c).
  assert (Hid : 0 <= identifier class tag compound < 256) by (unfold identifier; destruct compound; lia).
  destruct (identifier_bits class tag compound Hc Ht) as (H1 & H2 & H3). cbn [app].
  rewrite <- app_assoc, parseTagAndLength_put by (lia || done).
  unfold headerOf. rewrite H1, H2, H3. cbn [bind tl_class tl_tag tl_isCompound].
  rewrite !Z.eqb_refl, Bool.eqb_reflx. cbn [andb negb]. now apply takeContent_put.
Qed.

Lemma parseField_inv class tag compound b c rest :
  tag < 31 -> parseField class tag compound b = Ok (c, rest) ->
  b = derTLV (identifier class tag compound) c ++ rest /\ len c < 2 ^ 31.
Proof.
  unfold parseField. intros Ht H. apply bind_Ok in H as ([t b1] & Hp & H).
  destruct (negb _) eqn:E in H; [done|]. z_bool. apply Bool.eqb_prop in H1.
  apply parseTagAndLength_inv in Hp as (Hn & _ & Hb). apply takeContent_inv in H as [-> Hl]; [|lia].
  rewrite Hb by lia. unfold derTLV. cbn. rewrite <- app_assoc, Hl. subst. split; [done|lia].
Qed.

Lemma parseRawValue_put tag c rest :
  0 <= tag < 256 -> Z.land tag 31 <> 31 -> len c < 2 ^ 31 ->
  parseRawValue (derTLV tag c ++ rest)
  = Ok ({| rv_class := Z.shiftr tag 6; rv_tag := Z.land tag 31;
           rv_isCompound := Z.land tag 32 =? 32; rv_bytes := c; rv_full := derTLV tag c |}, rest).
Proof.
  intros Ht Hl Hn. pose proof (len_nonneg c). unfold parseRawValue, derTLV. cbn [app].
  rewrite <- app_assoc, parseTagAndLength_put by (lia || done). cbn [bind].
  rewrite takeContent_put by done. cbn [bind headerOf tl_class tl_tag tl_isCompound].
  repeat f_equal. rewrite (app_assoc _ c), app_comm_cons, length_app.
  replace (_ + length rest - length rest)%nat with (length (z2b tag :: derLength (len c) ++ c)) by lia.
  apply take_app_length.
Qed.

Lemma parseRawValue_inv b v rest :
  parseRawValue b = Ok (v, rest) -> b = rv_full v ++ rest /\ rv_full v <> [].
Proof.
  unfold parseRawValue. intros H. apply bind_Ok in H as ([t b1] & Hp & H).
  apply bind_Ok in H as ([c r] & Hc & [= <- <-]). cbn.
  apply parseTagAndLength_inv in Hp as (Hn & (h & Hh & ->) & _).
  apply takeContent_inv in Hc as [-> _]; [|lia].
  rewrite !length_app. replace (_ - _)%nat with (length (h ++ c)) by (rewrite length_app; lia).
  rewrite app_assoc, take_app_length. split; [done|]. now destruct h.
Qed.

(** Reading does not depend on what follows the element. *)
Lemma parseTagAndLength_app b t rest :
  parseTagAndLength b = Ok (t, rest) ->
  exists h, b = h ++ rest /\ forall r, parseTagAndLength (h ++ r) = Ok (t, r).
Proof.
  destruct b as [|x b]; [done|]. cbn [parseTagAndLength]. intros H.
  apply bind_Ok in H as ([tag b1] & Ht & H). apply bind_Ok in H as ([n b2] & Hn & [= <- <-]).
  apply parseLength_inv in Hn as [Hn ->].
  destruct (Z.land (b2z x) 31 =? 31) eqn:E.
  - apply bind_Ok in Ht as ([tag' b'] & Hp & Ht). apply parseBase128Int_inv in Hp as [Hr ->].
    destruct (tag' <? 31) eqn:El; [done|]. injection Ht as -> ->.
    exists (x :: base128 tag ++ derLength n). rewrite <- app_comm_cons, <- app_assoc. split; [done|].
    intros r. rewrite <- app_comm_cons, <- app_assoc. cbn [parseTagAndLength]. rewrite E.
    rewrite parseBase128Int_put by done. cbn [bind]. rewrite El. cbn [bind]. now rewrite parseLength_put.
  - injection Ht as <- ->. exists (x :: derLength n). split; [done|]. intros r.
    rewrite <- app_comm_cons. cbn [parseTagAndLength]. rewrite E. cbn [bind]. now rewrite parseLength_put.
Qed.

(** A raw value that was read, or could have been. *)
Definition raw_ok (v : RawValue) : Prop :=
  rv_full v <> [] /\ forall r, parseRawValue (rv_full v ++ r) = Ok (v, r).

Lemma parseRawValue_ok b v rest : parseRawValue b = Ok (v, rest) -> raw_ok v.
Proof.
  intros H. pose proof (parseRawValue_inv _ _ _ H) as [Hb Hne]. split; [done|]. intros r.
  unfold parseRawValue in H. apply bind_Ok in H as ([t b1] & Hp & H).
  apply bind_Ok in H as ([c r0] & Hc & [= Hv ->]).
  pose proof (parseTagAndLength_inv _ _ _ Hp) as (Hn & _).
  apply parseTagAndLength_app in Hp as (h & -> & Hp). apply takeContent_inv in Hc as [-> Hc]; [|lia].
  rewrite app_assoc in Hb. apply app_inv_tail in Hb. rewrite <- Hb, <- Hv, <- app_assoc.
  unfold parseRawValue. rewrite Hp. cbn [bind]. rewrite takeContent_put by done. cbn [bind].
  do 2 f_equal. subst v. cbn in Hb. rewrite !app_assoc, !(length_app (h ++ c)).
  replace (length (h ++ c) + length r - length r)%nat with (length (h ++ c)) by lia.
  replace (length (h ++ c) + length rest - length rest)%nat with (length (h ++ c)) by lia.
  now rewrite !take_app_length.
Qed.

Lemma derTLV_len tag c : len c < len (derTLV tag c).
Proof. unfold derTLV. len_lia. Qed.

Lemma parseBitString_put b : parseBitString (Byte.x00 :: b) = Ok b.
Proof.
  unfold parseBitString. change (b2z Byte.x00) with 0. change (Z.shiftl 1 0 - 1) with 0.
  rewrite Z.land_0_r. change (7 <? 0) with false. change (0 <? 0) with false.
  now rewrite andb_false_r.
Qed.

Lemma parseBitString_safe b : safe (parseBitString b).
Proof. destruct b; cbn [parseBitString]; [done|]. cbv zeta. safe_auto. Qed.
#[export] Hint Resolve parseBitString_safe : tls.

(** ** Integers

    An integer has one encoding: the shortest two's complement. *)

Lemma parseBigInt_safe b : safe (parseBigInt b).
Proof. destruct b; cbn [parseBigInt]; [done|]. cbv zeta. safe_auto. Qed.
#[export] Hint Resolve parseBigInt_safe : tls.

Lemma pow256_succ k : 0 <= k -> 256 ^ (1 + k) = 256 * 256 ^ k /\ 0 < 256 ^ k.
Proof. intros. rewrite Z.pow_add_r by lia. split; [lia|apply Z.pow_pos_nonneg; lia]. Qed.

(** A leading digit bounds the number. *)
Lemma digit_bound X P u lo hi : 0 <= u < P -> lo <= X <= hi -> lo * P <= X * P + u < (hi + 1) * P.
Proof. nia. Qed.

(** The value of a minimal encoding: the sign is the high bit of the first byte, and
    the first nine bits are not all equal. *)
Lemma parseBigInt_inv x l z :
  parseBigInt (x :: l) = Ok z ->
  ((b2z x < 128 /\ z = beUint (x :: l)) \/ (128 <= b2z x /\ z = beUint (x :: l) - 256 ^ len (x :: l))) /\
  match l with
  | [] => True
  | y :: _ => (b2z x = 0 -> 128 <= b2z y) /\ (b2z x = 255 -> b2z y < 128)
  end.
Proof.
  cbn [parseBigInt]. intros H. destruct (negb _) eqn:Hm in H; [done|]. z_bool. injection H as <-. split.
  - rewrite land_128. destruct (b2z x <? 128) eqn:E; z_bool; [left|right]; (split; [lia|reflexivity]).
  - destruct l as [|y l]; [done|]. rewrite !land_128 in Hm. apply andb_true_iff in Hm as [H1 H2].
    split; intros Hx; rewrite Hx in *; destruct (b2z y <? 128) eqn:E; z_bool; (lia || done).
Qed.

(** The value fits the bytes, and no fewer. *)
Lemma parseBigInt_range b z :
  parseBigInt b = Ok z ->
  1 <= len b /\ - 128 * 256 ^ (len b - 1) <= z < 128 * 256 ^ (len b - 1) /\
  (2 <= len b -> z < - 128 * 256 ^ (len b - 2) \/ 128 * 256 ^ (len b - 2) <= z).
Proof.
  destruct b as [|x l]; [done|]. intros H. apply parseBigInt_inv in H as [Hz Hm].
  pose proof (b2z_range x). pose proof (len_nonneg l). pose proof (beUint_range l) as Hu.
  rewrite beUint_cons, len_cons in *. destruct (pow256_succ (len l)) as [E Hp]; [lia|]. rewrite E in *.
  replace (1 + len l - 1) with (len l) by lia. split; [lia|]. split.
  { destruct Hz as [[Hx ->]|[Hx ->]].
    - pose proof (digit_bound (b2z x) _ _ 0 127 Hu). lia.
    - pose proof (digit_bound (b2z x) _ _ 128 255 Hu). lia. }
  intros _. destruct l as [|y l]; [len_lia|]. clear Hu.
  rewrite beUint_cons, len_cons in *. pose proof (b2z_range y). pose proof (len_nonneg l).
  pose proof (beUint_range l) as Hu. destruct (pow256_succ (len l)) as [E' Hp']; [lia|]. rewrite E' in *.
  replace (1 + (1 + len l) - 2) with (len l) by lia.
  pose proof (digit_bound (b2z y) _ _ 0 255 Hu ltac:(lia)) as Hy.
  destruct Hz as [[Hx ->]|[Hx ->]], Hm as [H0m Hm].
  - right. destruct (decide (b2z x = 0)) as [Ex|Ex].
    + rewrite Ex. pose proof (digit_bound (b2z y) _ _ 128 255 Hu). lia.
    + nia.
  - left. destruct (decide (b2z x = 255)) as [Ex|Ex].
    + rewrite Ex. pose proof (digit_bound (b2z y) _ _ 0 127 Hu). lia.
    + nia.
Qed.

Lemma parseBigInt_uint b z : parseBigInt b = Ok z -> beUint b = z mod 256 ^ len b.
Proof.
  destruct b as [|x l]; [done|]. intros H. apply parseBigInt_inv in H as [Hz _].
  pose proof (beUint_range (x :: l)). destruct Hz as [[_ ->]|[_ ->]].
  - now rewrite Z.mod_small.
  - apply (Z.mod_unique_pos _ _ (-1)); lia.
Qed.

(** The shorter of two encodings would not have room for the value. *)
Lemma parseBigInt_len a b z : parseBigInt a = Ok z -> parseBigInt b = Ok z -> len a <= len b.
Proof.
  intros Ha Hb. apply parseBigInt_range in Ha as (La & _ & Ha). apply parseBigInt_range in Hb as (Lb & Hb & _).
  destruct (decide (len a <= len b)) as [|Hl]; [done|]. exfalso. specialize (Ha ltac:(lia)).
  assert (256 ^ (len b - 1) <= 256 ^ (len a - 2)) by (apply Z.pow_le_mono_r; lia). lia.
Qed.

Lemma parseBigInt_inj a b z : parseBigInt a = Ok z -> parseBigInt b = Ok z -> a = b.
Proof.
  intros Ha Hb. assert (E : len a = len b).
  { pose proof (parseBigInt_len _ _ _ Ha Hb). pose proof (parseBigInt_len _ _ _ Hb Ha). lia. }
  apply beUint_inj; [unfold len in E; lia|].
  now rewrite (parseBigInt_uint _ _ Ha), (parseBigInt_uint _ _ Hb), E.
Qed.

(** X.690 §8.3: the content octets of an integer are its two's complement in as few
    octets as hold it. *)
Definition der_integer (b : bytes) (z : Z) : Prop :=
  1 <= len b /\ beUint b = z mod 256 ^ len b /\
  - 128 * 256 ^ (len b - 1) <= z < 128 * 256 ^ (len b - 1) /\
  (2 <= len b -> z < - 128 * 256 ^ (len b - 2) \/ 128 * 256 ^ (len b - 2) <= z).

Lemma der_integer_sign x l z :
  der_integer (x :: l) z ->
  z = if b2z x <? 128 then beUint (x :: l) else beUint (x :: l) - 256 ^ len (x :: l).
Proof.
  intros (_ & Hu & Hr & _). pose proof (len_nonneg l). pose proof (b2z_range x).
  rewrite beUint_cons, len_cons in *. pose proof (beUint_range l) as Hl.
  destruct (pow256_succ (len l)) as [E Hp]; [lia|]. rewrite E in *.
  replace (1 + len l - 1) with (len l) in Hr by lia.
  pose proof (Z.div_mod z (256 * 256 ^ len l) ltac:(lia)) as Hz. rewrite <- Hu in Hz.
  pose proof (digit_bound (b2z x) _ _ 0 255 Hl ltac:(lia)) as Hb.
  assert (Hq : z / (256 * 256 ^ len l) = 0 \/ z / (256 * 256 ^ len l) = -1).
  { assert (-1 <= z / (256 * 256 ^ len l)) by (apply Z.div_le_lower_bound; lia).
    assert (z / (256 * 256 ^ len l) < 1) by (apply Z.div_lt_upper_bound; lia). lia. }
  destruct (b2z x <? 128) eqn:Hx; z_bool.
  - pose proof (digit_bound (b2z x) _ _ 0 127 Hl ltac:(lia)). destruct Hq as [Hq|Hq]; rewrite Hq in Hz; lia.
  - pose proof (digit_bound (b2z x) _ _ 128 255 Hl ltac:(lia)). destruct Hq as [Hq|Hq]; rewrite Hq in Hz; lia.
Qed.

(** Fewer octets would do if the first nine bits were equal. *)
Lemma der_integer_minimal x y l z :
  der_integer (x :: y :: l) z -> (b2z x = 0 -> 128 <= b2z y) /\ (b2z x = 255 -> b2z y < 128).
Proof.
  intros H. pose proof (der_integer_sign _ _ _ H) as Hz. destruct H as (_ & _ & _ & Hm).
  rewrite !beUint_cons, !len_cons in *. pose proof (len_nonneg l). pose proof (b2z_range y).
  pose proof (beUint_range l) as Hl. specialize (Hm ltac:(lia)).
  replace (1 + (1 + len l) - 2) with (len l) in Hm by lia.
  destruct (pow256_succ (1 + len l)) as [E1 _]; [lia|].
  destruct (pow256_succ (len l)) as [E2 Hp]; [lia|]. rewrite E1, E2 in Hz.
  split; intros Hx; rewrite Hx in Hz; cbn [Z.ltb Z.compare Pos.compare Pos.compare_cont] in Hz.
  - destruct (Z.lt_ge_cases (b2z y) 128); [|lia].
    pose proof (digit_bound (b2z y) _ _ 0 127 Hl ltac:(lia)). lia.
  - destruct (Z.lt_ge_cases (b2z y) 128); [lia|].
    pose proof (digit_bound (b2z y) _ _ 128 255 Hl ltac:(lia)). lia.
Qed.

(** [parseBigInt] reads exactly these. *)
Lemma parseBigInt_iff b z : parseBigInt b = Ok z <-> der_integer b z.
Proof.
  split.
  - intros H. destruct (parseBigInt_range _ _ H) as (H1 & H2 & H3).
    split; [done|]. split; [now apply parseBigInt_uint|done].
  - intros H. destruct b as [|x l]; [destruct H as [H _]; len_lia|]. cbn [parseBigInt].
    assert (Hv : (if Z.land (b2z x) 128 =? 128 then beUint (x :: l) - 256 ^ len (x :: l) else beUint (x :: l)) = z).
    { rewrite (der_integer_sign _ _ _ H), land_128. now destruct (b2z x <? 128). }
    rewrite Hv. destruct l as [|y l]; [done|]. rewrite !land_128.
    destruct (der_integer_minimal _ _ _ _ H) as [H0 H255].
    destruct (Z.eqb_spec (b2z x) 0) as [E|_].
    { rewrite E. rewrite (proj2 (Z.ltb_ge _ _)) by auto. reflexivity. }
    destruct (Z.eqb_spec (b2z x) 255) as [E|_]; [|reflexivity].
    now rewrite (proj2 (Z.ltb_lt _ _)) by auto.
Qed.
