(* ===== verification/Protection.v ===== *)
(** * Record protection: null, CBC-HMAC, AES-GCM, ChaCha20-Poly1305
      ([internal/record/protection.go], [protection_chacha20.go])

    Each protector is its struct with a [Seal] and an [Open]; [Seal] takes the
    random tape the CBC protector draws its IV from.  The constant-time padding
    check is modelled on 64-bit words as written and proved equal to the padding
    rule of RFC 5246 §6.2.3.2; the constant-time [Open] is proved equal to the
    plain one; what is sealed opens to itself. *)

From Stdlib Require Import ZArith Lia.
From stdpp Require Import base list strings.
From S2P Require Import Prelude Errors Primitives.

Open Scope Z_scope.

Definition macADLen : Z := 13.
Definition aeadSaltLen : Z := 4.
Definition aeadNonceLen : Z := 12.
Definition aeadExplicitNonceLen : Z := 8.

(** ** nullProtector *)

Definition nullSeal (plain : bytes) : result bytes := Ok plain.
Definition nullOpen (fragment : bytes) : result bytes := Ok fragment.

(** ** MAC additional data

    seq_num (8) || type (1) || version (2) || length (2); [hdr[0:3]] panics on a
    shorter header.  [macAdditionalData] and [buildAD] have the same body. *)

Definition macAdditionalData (seq : Z) (hdr : bytes) (plainLen : Z) : result bytes :=
  let* h := slice hdr 0 3 in
  Ok (bePut 8 seq ++ h ++ bePut 2 (u16 plainLen)).

Definition buildAD (seq : Z) (hdr : bytes) (plainLen : Z) : result bytes :=
  let* h := slice hdr 0 3 in
  Ok (bePut 8 seq ++ h ++ bePut 2 (u16 plainLen)).

(** ** cbcHMACProtector *)

(** A [cipher.Block]. *)
Record Block := {
  BlockSize : Z;
  Encrypt : bytes -> bytes;
  Decrypt : bytes -> bytes
}.

(** [NewCipherFunc]. *)
Definition NewCipherFunc := bytes -> result Block.

Record cbcHMACProtector := {
  newCipher : NewCipherFunc;
  newHash : HashName;
  encKey : bytes;
  macKey : bytes;
  blockSize : Z;
  macSize : Z
}.

Definition cbcMaxPaddingScan : Z := 256.
Definition cbcSignShift32 : Z := 31.
Definition cbcSignShift8 : Z := 7.

(** [byte(int32(^t) >> cbcSignShift32)] for a 64-bit unsigned [t]. *)
Definition signMask (t : Z) : Z :=
  (Z.shiftr (i32 (u64 (Z.lnot t))) cbcSignShift32) mod 256.

(** [for i := range toCheck]: [n] iterations left, at index [i]. *)
Fixpoint paddingLoop (n : nat) (payload : bytes) (paddingLen i good : Z) : result Z :=
  match n with
  | O => Ok good
  | S n =>
    let t := u64 (paddingLen - i) in
    let mask := signMask t in
    let* b := index payload (len payload - 1 - i) in
    let good := Z.ldiff good (Z.lxor (Z.land mask paddingLen) (Z.land mask (b2z b))) in
    paddingLoop n payload paddingLen (i + 1) good
  end.

(** The folds [good &= good << 4], [<< 2], [<< 1] and the final sign extension,
    on a byte. *)
Definition foldGood (good : Z) : Z :=
  let good := Z.land good (Z.shiftl good 4 mod 256) in
  let good := Z.land good (Z.shiftl good 2 mod 256) in
  let good := Z.land good (Z.shiftl good 1 mod 256) in
  Z.shiftr (i8 good) cbcSignShift8 mod 256.

Definition extractCBCPadding (payload : bytes) : result (Z * Z) :=
  if len payload <? 1 then Ok (0, 0)
  else
    let* last := index payload (len payload - 1) in
    let paddingLen := b2z last in
    let t := u64 (len payload - 1 - paddingLen) in
    let good := signMask t in
    let toCheck := Z.min cbcMaxPaddingScan (len payload) in
    let* good := paddingLoop (Z.to_nat toCheck) payload paddingLen 0 good in
    Ok (paddingLen + 1, foldGood good).

Section CBC.
Context `{Primitives}.

(** [NewAESCipher] (and the unexported [newAESCipher]): [aes.NewCipher] refuses
    any key that is not 16, 24 or 32 bytes. *)
Definition NewAESCipher : NewCipherFunc := fun key =>
  if (len key =? 16) || (len key =? 24) || (len key =? 32)
  then Ok {| BlockSize := aesBlockSize; Encrypt := aesEncrypt key; Decrypt := aesDecrypt key |}
  else Err (ELib LibAES).

(** The hash constructors of hash_helpers.go: a constructor is the name of its hash. *)
Definition SHA1Hash : HashName := SHA1.
Definition SHA256Hash : HashName := SHA256.
Definition SHA384Hash : HashName := SHA384.

Definition NewCBCHMACProtector (nc : NewCipherFunc) (nh : HashName) (ek mk : bytes)
  : result cbcHMACProtector :=
  let* b := nc ek in
  Ok {| newCipher := nc; newHash := nh; encKey := ek; macKey := mk;
        blockSize := BlockSize b; macSize := hashSize nh |}.

Definition computeMAC (p : cbcHMACProtector) (seq : Z) (hdr fragment : bytes)
  (extra : option bytes) : result bytes :=
  let h := hmacNew (newHash p) (macKey p) in
  let* ad := macAdditionalData seq hdr (len fragment) in
  let h := hmacWrite h ad in
  let h := hmacWrite h fragment in
  let res := hmacSum h in
  let _ := match extra with Some e => hmacWrite h e | None => h end in
  Ok res.

Definition cbcSeal (p : cbcHMACProtector) (t : tape) (seq : Z) (hdr plain : bytes)
  : result bytes * tape :=
  match computeMAC p seq hdr plain None with
  | Ok mac =>
    let contentLen := len plain + macSize p in
    let padLen := blockSize p - (contentLen + 1) mod blockSize p in
    let padLen := if padLen <? 0 then padLen + blockSize p else padLen in
    let paddingByte := z2b padLen in
    let buf := plain ++ mac ++ replicate (Z.to_nat (padLen + 1)) paddingByte in
    match randRead (blockSize p) t with
    | None => (Err (fatalRecordError "rand.Read failed"), t)
    | Some (iv, t) =>
      match newCipher p (encKey p) with
      | Ok block =>
        (let* buf := cbcEncrypt (BlockSize block) (Encrypt block) iv buf in
         Ok (iv ++ buf), t)
      | Err _ => (Err (fatalRecordError "cipher init"), t)
      | Crash c => (Crash c, t)
      end
    end
  | Err e => (Err e, t)
  | Crash c => (Crash c, t)
  end.

Definition cbcOpen (p : cbcHMACProtector) (seq : Z) (hdr fragment : bytes) : result bytes :=
  if len fragment <? blockSize p + macSize p + 1 then
    Err (NewFatalAlertError AlertBadRecordMAC)
  else if negb (len fragment mod blockSize p =? 0) then
    Err (NewFatalAlertError AlertBadRecordMAC)
  else
    let* iv := slice fragment 0 (blockSize p) in
    let* ciphertext := slice fragment (blockSize p) (len fragment) in
    let* block := map_err (fun _ => fatalRecordError "cipher init") (newCipher p (encKey p)) in
    let* plain := cbcDecrypt (BlockSize block) (Decrypt block) iv ciphertext in
    let* (toRemove, paddingGood) := extractCBCPadding plain in
    let rawN := len plain - macSize p - toRemove in
    let n := ConstantTimeSelect (Z.shiftr (u32 rawN) cbcSignShift32) 0 rawN in
    let* gotMAC := slice plain n (n + macSize p) in
    let* content := slice plain 0 n in
    let* extra := slice plain (n + macSize p) (len plain) in
    let* expectedMAC := computeMAC p seq hdr content (Some extra) in
    if negb (Z.land (ConstantTimeCompare gotMAC expectedMAC) paddingGood =? 1) then
      Err (NewFatalAlertError AlertBadRecordMAC)
    else Ok content.

End CBC.

(** ** aeadProtector *)

Record aeadProtector := { aead_key : bytes; salt : bytes }.

Section AEAD.
Context `{Primitives}.

Definition NewAEADProtector (key slt : bytes) : result aeadProtector :=
  if negb (len slt =? aeadSaltLen) then
    Err (fatalRecordError "AEAD salt must be exactly 4 bytes")
  else
    let* _ := NewAESCipher key in
    Ok {| aead_key := key; salt := slt |}.

Definition aeadNonce (p : aeadProtector) (explicit : bytes) : bytes := salt p ++ explicit.

Definition aeadSeal (p : aeadProtector) (seq : Z) (hdr plain : bytes) : result bytes :=
  let explicitNonce := bePut 8 seq in
  let nonce := aeadNonce p explicitNonce in
  let* ad := buildAD seq hdr (len plain) in
  let ciphertext := gcmSeal (aead_key p) nonce plain ad in
  Ok (explicitNonce ++ ciphertext).

Definition aeadOpen (p : aeadProtector) (seq : Z) (hdr fragment : bytes) : result bytes :=
  let tagSize := aeadOverhead in
  if len fragment <? aeadExplicitNonceLen + tagSize then
    Err (NewFatalAlertError AlertBadRecordMAC)
  else
    let* explicitNonce := slice fragment 0 aeadExplicitNonceLen in
    let* ciphertext := slice fragment aeadExplicitNonceLen (len fragment) in
    let plainLen := len ciphertext - tagSize in
    let nonce := aeadNonce p explicitNonce in
    let* ad := buildAD seq hdr plainLen in
    match gcmOpen (aead_key p) nonce ciphertext ad with
    | Some plain => Ok plain
    | None => Err (NewFatalAlertError AlertBadRecordMAC)
    end.

(** ** chacha20Poly1305Protector *)

Record chacha20Poly1305Protector := { chacha_key : bytes; chacha_iv : bytes }.

Definition chachaKeySize : Z := 32.
Definition chachaNonceSize : Z := 12.

Definition NewChaCha20Poly1305Protector (key iv : bytes) : result chacha20Poly1305Protector :=
  if negb (len key =? chachaKeySize) then
    Err (fatalRecordError "ChaCha20-Poly1305 key must be 32 bytes")
  else if negb (len iv =? chachaNonceSize) then
    Err (fatalRecordError "ChaCha20-Poly1305 iv must be 12 bytes")
  else Ok {| chacha_key := key; chacha_iv := iv |}.

(** iv xor (0 0 0 0 || seq). *)
Definition chachaNonce (p : chacha20Poly1305Protector) (seq : Z) : bytes :=
  let nonce := replicate 4 Byte.x00 ++ bePut 8 seq in
  xorBytes nonce (chacha_iv p).

Definition chachaProtSeal (p : chacha20Poly1305Protector) (seq : Z) (hdr plain : bytes)
  : result bytes :=
  let nonce := chachaNonce p seq in
  let* ad := buildAD seq hdr (len plain) in
  Ok (chachaSeal (chacha_key p) nonce plain ad).

Definition chachaProtOpen (p : chacha20Poly1305Protector) (seq : Z) (hdr fragment : bytes)
  : result bytes :=
  let tagSize := aeadOverhead in
  if len fragment <? tagSize then Err (NewFatalAlertError AlertBadRecordMAC)
  else
    let plainLen := len fragment - tagSize in
    let nonce := chachaNonce p seq in
    let* ad := buildAD seq hdr plainLen in
    match chachaOpen (chacha_key p) nonce fragment ad with
    | Some plain => Ok plain
    | None => Err (NewFatalAlertError AlertBadRecordMAC)
    end.

End AEAD.

(** * The padding check *)

(** The rule of RFC 5246 §6.2.3.2: the last byte [p] is the padding length, and
    that byte and the [p] bytes before it all have the value [p]. *)
Definition paddingValid (payload : bytes) : bool :=
  match last payload with
  | None => false
  | Some p =>
    (b2z p + 1 <=? len payload) &&
    forallb (fun x => bool_decide (x = p)) (take (Z.to_nat (b2z p + 1)) (reverse payload))
  end.

Lemma i32_low z : 0 <= z < 2 ^ 31 -> i32 z = z.
Proof. intros. unfold i32. rewrite Z.mod_small by lia. now rewrite (proj2 (Z.ltb_lt _ _)) by lia. Qed.

(** The sign trick: 0xff iff [a <= n], for operands below 2^31. *)
Lemma signMask_spec n a :
  0 <= n < 2 ^ 31 -> 0 <= a < 2 ^ 31 ->
  signMask (u64 (n - a)) = if a <=? n then 255 else 0.
Proof.
  intros Hn Ha. unfold signMask, cbcSignShift32, i32, u64.
  rewrite Z.shiftr_div_pow2 by lia. unfold Z.lnot.
  destruct (a <=? n) eqn:E; z_bool.
  - rewrite (Z.mod_small (n - a)) by lia.
    replace (Z.pred (- (n - a)) mod 2 ^ 64) with (2 ^ 64 - 1 - (n - a))
      by (apply (Z.mod_unique _ _ (-1)); lia).
    replace ((2 ^ 64 - 1 - (n - a)) mod 2 ^ 32) with (2 ^ 32 - 1 - (n - a))
      by (apply (Z.mod_unique _ _ (2 ^ 32 - 1)); lia).
    cbv zeta. rewrite (proj2 (Z.ltb_ge _ _)) by lia.
    replace ((2 ^ 32 - 1 - (n - a) - 2 ^ 32) / 2 ^ 31) with (-1); [done|].
    apply (Z.div_unique _ _ _ (2 ^ 31 - 1 - (n - a))); lia.
  - replace ((n - a) mod 2 ^ 64) with (2 ^ 64 + (n - a))
      by (apply (Z.mod_unique _ _ (-1)); lia).
    replace (Z.pred (- (2 ^ 64 + (n - a))) mod 2 ^ 64) with (a - n - 1)
      by (apply (Z.mod_unique _ _ (-1)); lia).
    rewrite (Z.mod_small _ (2 ^ 32)) by lia.
    cbv zeta. rewrite (proj2 (Z.ltb_lt _ _)) by lia. rewrite Z.div_small by lia. done.
Qed.

(** Facts on bytes checked on all 256 values. *)
Lemma byte_cases (f : Z -> bool) :
  forallb f (map Z.of_nat (seq 0 256)) = true -> forall z, 0 <= z < 256 -> f z = true.
Proof.
  intros H z Hz. rewrite forallb_forall in H. apply H, in_map_iff.
  exists (Z.to_nat z). split; [lia|]. apply in_seq. lia.
Qed.

Lemma foldGood_spec g : 0 <= g < 256 -> foldGood g = if g =? 255 then 255 else 0.
Proof.
  intros Hg. apply Z.eqb_eq.
  apply (byte_cases (fun g => foldGood g =? (if g =? 255 then 255 else 0))); [|done].
  vm_compute. reflexivity.
Qed.

Lemma ldiff_255 g x :
  0 <= g < 256 -> 0 <= x < 256 ->
  0 <= Z.ldiff g x < 256 /\ (Z.ldiff g x = 255 <-> g = 255 /\ x = 0).
Proof.
  intros Hg Hx.
  assert (H : forall g, 0 <= g < 256 -> forallb (fun x => (0 <=? Z.ldiff g x) && (Z.ldiff g x <? 256)
    && Bool.eqb (Z.ldiff g x =? 255) ((g =? 255) && (x =? 0))) (map Z.of_nat (seq 0 256)) = true).
  { apply byte_cases. vm_compute. reflexivity. }
  specialize (H g Hg). pose proof (byte_cases _ H x Hx) as F. clear H. cbn beta in F.
  apply andb_true_iff in F as [F E%eqb_prop]. z_bool. split; [lia|].
  destruct (Z.eqb_spec (Z.ldiff g x) 255), (Z.eqb_spec g 255), (Z.eqb_spec x 0); cbn in E;
    first [discriminate E | lia].
Qed.

Lemma land_255_byte b : Z.land 255 (b2z b) = b2z b.
Proof.
  pose proof (b2z_range b). apply Z.eqb_eq.
  apply (byte_cases (fun z => Z.land 255 z =? z)); [vm_compute; reflexivity|done].
Qed.

(** One iteration's mask: nothing to clear iff the byte is not padding or equals
    the padding length. *)
Lemma pad_diff (pl b : byte) i :
  0 <= i < 2 ^ 31 ->
  let mask := signMask (u64 (b2z pl - i)) in
  let x := Z.lxor (Z.land mask (b2z pl)) (Z.land mask (b2z b)) in
  0 <= x < 256 /\ (x = 0 <-> (i <= b2z pl -> b = pl)).
Proof.
  intros Hi. cbv zeta. pose proof (b2z_range pl).
  rewrite signMask_spec by lia. destruct (i <=? b2z pl) eqn:E; z_bool.
  - rewrite !land_255_byte. split; [apply lxor_byte|]. split.
    + intros F%Z.lxor_eq _. now apply b2z_inj.
    + intros F. rewrite F by lia. apply Z.lxor_nilpotent.
  - rewrite !Z.land_0_l. change (Z.lxor 0 0) with 0. split; [lia|]. split; [lia|done].
Qed.

Lemma paddingLoop_spec payload (pl : byte) (n i : nat) good :
  0 <= good < 256 -> Z.of_nat i + Z.of_nat n <= len payload -> len payload < 2 ^ 31 ->
  exists g, paddingLoop n payload (b2z pl) (Z.of_nat i) good = Ok g /\ 0 <= g < 256 /\
    (g = 255 <-> good = 255 /\
       forall j b, (i <= j < i + n)%nat -> Z.of_nat j <= b2z pl ->
                   reverse payload !! j = Some b -> b = pl).
Proof.
  revert i good; induction n as [|n IH]; intros i good Hg Hn Hp; cbn [paddingLoop].
  { exists good. split; [done|]. split; [done|]. split; [|by intros []]. intros ->.
    split; [done|]. intros j x Hj. lia. }
  destruct (index_get (E := error) payload (len payload - 1 - Z.of_nat i)) as (b & -> & Hb);
    [lia|]. cbn [bind].
  assert (Hr : reverse payload !! i = Some b).
  { rewrite reverse_lookup by (unfold len in *; lia). rewrite <- Hb. f_equal. unfold len in *. lia. }
  destruct (pad_diff pl b (Z.of_nat i)) as [Hx Hx0]; [lia|]. cbv zeta in Hx, Hx0.
  destruct (ldiff_255 good _ Hg Hx) as [Hd Hd255].
  replace (Z.of_nat i + 1) with (Z.of_nat (S i)) by lia.
  destruct (IH (S i) _ Hd ltac:(lia) Hp) as (g & -> & Hgr & Hg255).
  exists g. split; [done|]. split; [done|]. rewrite Hg255, Hd255, Hx0. split.
  - intros ([-> H1] & H2). split; [done|]. intros j b' Hj Hpl Hl.
    destruct (decide (j = i)) as [->|]; [|apply (H2 j); [lia|done..]].
    rewrite Hr in Hl. injection Hl as <-. now apply H1.
  - intros [-> H1]. split_and!; [done| |].
    + intros Hpl. apply (H1 i); [lia|done..].
    + intros j b' Hj. apply H1. lia.
Qed.

Lemma forallb_take_reverse (payload : bytes) (p : byte) n :
  forallb (fun x => bool_decide (x = p)) (take n (reverse payload)) = true <->
  forall j b, (j < n)%nat -> reverse payload !! j = Some b -> b = p.
Proof.
  rewrite forallb_forall. split.
  - intros H j b Hj Hl. specialize (H b). rewrite bool_decide_eq_true in H. apply H.
    apply list_elem_of_In, list_elem_of_lookup. exists j. now rewrite lookup_take_lt.
  - intros H x Hx. apply list_elem_of_In, list_elem_of_lookup in Hx as [j Hj].
    apply bool_decide_eq_true. apply lookup_take_Some in Hj as [Hj Hlt]. eauto.
Qed.

Lemma extractCBCPadding_valid payload p :
  last payload = Some p -> len payload < 2 ^ 31 ->
  extractCBCPadding payload = Ok (b2z p + 1, if paddingValid payload then 255 else 0).
Proof.
  intros Hlast Hl. pose proof (b2z_range p) as Hpr.
  assert (Hr0 : reverse payload !! O = Some p).
  { rewrite <- head_lookup, head_reverse. done. }
  assert (1 <= len payload).
  { apply lookup_lt_Some in Hr0. rewrite length_reverse in Hr0. unfold len. lia. }
  unfold extractCBCPadding. z_if.
  replace (index (E := error) payload (len payload - 1)) with (Ok (E := error) p).
  2:{ unfold index. rewrite (proj2 (Z.leb_le _ _)) by lia. rewrite last_lookup in Hlast.
      replace (Z.to_nat (len payload - 1)) with (pred (length payload)) by (unfold len; lia).
      now rewrite Hlast. }
  cbn [bind]. rewrite signMask_spec by lia. unfold cbcMaxPaddingScan.
  destruct (paddingLoop_spec payload p (Z.to_nat (Z.min 256 (len payload))) 0
    (if b2z p <=? len payload - 1 then 255 else 0)) as (g & Hgood & Hg & Hg255);
    [case_match; lia|lia|done|].
  change (Z.of_nat 0) with 0 in Hgood. rewrite Hgood. cbn [bind].
  rewrite foldGood_spec by done. do 2 f_equal.
  unfold paddingValid. rewrite Hlast.
  assert (Hiff : g = 255 <-> (b2z p + 1 <=? len payload) &&
    forallb (fun x => bool_decide (x = p)) (take (Z.to_nat (b2z p + 1)) (reverse payload)) = true).
  { rewrite Hg255, andb_true_iff, forallb_take_reverse. split.
    - intros [Hc Hj]. destruct (b2z p <=? len payload - 1) eqn:E; [|lia]. z_bool.
      split; [apply Z.leb_le; lia|]. intros j b Hjn Hb.
      apply (Hj j b); [|lia|done]. split; [lia|]. lia.
    - intros [Hc Hj]. z_bool. rewrite (proj2 (Z.leb_le _ _)) by lia. split; [done|].
      intros j b _ Hjp Hb. apply (Hj j b); [lia|done]. }
  destruct (_ && _); destruct (Z.eqb_spec g 255); intuition congruence.
Qed.

(** * CBC-HMAC *)

(** What [NewCBCHMACProtector] establishes when the constructor is a block
    cipher: the recorded sizes are the cipher's and the hash's. *)
Record block_ok (b : Block) : Prop := {
  bo_size : 0 < BlockSize b <= 128;
  bo_enc x : len x = BlockSize b -> len (Encrypt b x) = BlockSize b;
  bo_dec x : len x = BlockSize b -> len (Decrypt b x) = BlockSize b;
  bo_inv x : len x = BlockSize b -> Decrypt b (Encrypt b x) = x
}.

Section CBC_lemmas.
Context {P : Primitives} {L : PrimitiveLaws P}.

Record cbc_ok (p : cbcHMACProtector) (b : Block) : Prop := {
  co_cipher : newCipher p (encKey p) = Ok b;
  co_size : blockSize p = BlockSize b;
  co_mac : macSize p = hashSize (newHash p);
  co_block : block_ok b
}.

(** The plain version of [cbcOpen]: branch on the padding, cut, compare. *)
Definition cbcOpenRef (p : cbcHMACProtector) (b : Block) (seq : Z) (hdr fragment : bytes)
  : result bytes :=
  let bad := Err (NewFatalAlertError AlertBadRecordMAC) in
  if (len fragment <? blockSize p + macSize p + 1)
     || negb (len fragment mod blockSize p =? 0) then bad
  else
    let* plain := cbcDecrypt (BlockSize b) (Decrypt b) (take (Z.to_nat (blockSize p)) fragment)
                    (drop (Z.to_nat (blockSize p)) fragment) in
    let padLen := b2z (default Byte.x00 (last plain)) in
    let n := Z.max 0 (len plain - macSize p - (padLen + 1)) in
    let content := take (Z.to_nat n) plain in
    let mac := take (Z.to_nat (macSize p)) (drop (Z.to_nat n) plain) in
    let* ad := macAdditionalData seq hdr n in
    if paddingValid plain && bool_decide (mac = hmac (newHash p) (macKey p) (ad ++ content))
    then Ok content else bad.

Lemma macAdditionalData_Ok seq hdr n :
  3 <= len hdr ->
  macAdditionalData seq hdr n = Ok (bePut 8 seq ++ take 3 hdr ++ bePut 2 (u16 n)).
Proof. intros. unfold macAdditionalData. rewrite slice_to by lia. reflexivity. Qed.

Lemma computeMAC_eq p seq hdr fragment extra :
  computeMAC p seq hdr fragment extra
  = let* ad := macAdditionalData seq hdr (len fragment) in
    Ok (hmac (newHash p) (macKey p) (ad ++ fragment)).
Proof. unfold computeMAC. destruct (macAdditionalData _ _ _); reflexivity. Qed.

Lemma nat_len_of {A} (l : list A) z : 0 <= z -> length l = Z.to_nat z <-> len l = z.
Proof. unfold len. lia. Qed.

Lemma cbcDecrypt_Ok b iv src :
  block_ok b -> len iv = BlockSize b -> len src mod BlockSize b = 0 ->
  exists plain, cbcDecrypt (BlockSize b) (Decrypt b) iv src = Ok plain /\ len plain = len src.
Proof.
  intros [Hs _ Hd _] Hi Hm. unfold cbcDecrypt, cbcCrypt. rewrite Hi, Z.eqb_refl, Hm. cbn [negb Z.eqb].
  eexists; split; [done|]. pose proof (Z.div_mod (len src) (BlockSize b) ltac:(lia)) as Hdm.
  rewrite Hm in Hdm. pose proof (len_nonneg src).
  assert (0 <= len src / BlockSize b) by (apply Z.div_pos; lia).
  unfold len at 1. rewrite (cbcDecBlocks_length (Z.to_nat (BlockSize b))).
  - lia.
  - intros x. rewrite !nat_len_of by lia. apply Hd.
  - rewrite nat_len_of by lia. done.
  - unfold len in *. lia.
Qed.

Lemma sel_max z : - 2 ^ 31 <= z < 2 ^ 31 ->
  ConstantTimeSelect (Z.shiftr (u32 z) cbcSignShift32) 0 z = Z.max 0 z.
Proof.
  intros Hz. unfold ConstantTimeSelect, u32, cbcSignShift32. rewrite Z.shiftr_div_pow2 by lia.
  destruct (Z.ltb_spec z 0).
  - replace (z mod 2 ^ 32) with (2 ^ 32 + z) by (apply (Z.mod_unique _ _ (-1)); lia).
    replace ((2 ^ 32 + z) / 2 ^ 31) with 1 by (apply (Z.div_unique _ _ _ (2 ^ 31 + z)); lia).
    cbn. lia.
  - rewrite Z.mod_small, Z.div_small by lia. cbn. lia.
Qed.

Lemma last_of_len {A} (l : list A) : 1 <= len l -> exists x, last l = Some x.
Proof. intros H. destruct (last l) eqn:E; [eauto|]. apply last_None in E as ->. len_lia. Qed.

Lemma cbcOpen_ref p b seq hdr fragment :
  cbc_ok p b -> 3 <= len hdr -> len fragment < 2 ^ 31 ->
  cbcOpen p seq hdr fragment = cbcOpenRef p b seq hdr fragment.
Proof.
  intros [Hc Hs Hm Hb] Hh Hf. pose proof (hashSize_pos (newHash p)).
  destruct (bo_size _ Hb). unfold cbcOpen, cbcOpenRef.
  destruct (len fragment <? _) eqn:E1; [done|]. cbn [orb].
  destruct (negb _) eqn:E2; [done|]. z_bool.
  rewrite slice_to, slice_from by lia. cbn [bind]. rewrite Hc. cbn [map_err bind].
  set (iv := take _ _). set (ct := drop _ _).
  assert (Hiv : len iv = BlockSize b) by (unfold iv; len_lia).
  assert (Hct : len ct = len fragment - blockSize p) by (unfold ct; len_lia).
  destruct (cbcDecrypt_Ok b iv ct Hb Hiv) as (plain & -> & Hpl).
  { rewrite Hct, Hs. rewrite <- (Z.mul_1_l (BlockSize b)) at 1.
    rewrite <- Hs, Zminus_mod, E2, Z.mul_1_l, Z_mod_same_full. reflexivity. }
  cbn [bind]. rewrite Hct in Hpl.
  destruct (last_of_len plain) as [pb Hpb]; [lia|].
  rewrite (extractCBCPadding_valid _ pb) by (done || lia). cbn [bind]. rewrite Hpb. cbn [default].
  pose proof (b2z_range pb). rewrite sel_max by lia.
  change (default Byte.x00 (Some pb)) with pb.
  set (n := Z.max 0 _). unfold slice at 1.
  rewrite !(proj2 (Z.leb_le _ _)) by lia. cbn [andb bind].
  rewrite slice_to, slice_from by lia. cbn [bind].
  rewrite computeMAC_eq, len_take, Z2Nat.id by lia. rewrite Z.min_l by lia.
  rewrite macAdditionalData_Ok by done. cbn [bind].
  replace (Z.to_nat (n + macSize p - n)) with (Z.to_nat (macSize p)) by lia.
  set (mac := take _ (drop _ _)). set (exp := hmac _ _ _).
  destruct (ConstantTimeCompare_0 mac exp) as [F|F]; rewrite F.
  - apply ConstantTimeCompare_1 in F. rewrite bool_decide_true by done. now destruct (paddingValid plain).
  - rewrite bool_decide_false by (rewrite <- ConstantTimeCompare_1; lia).
    rewrite Z.land_0_l, andb_false_r. reflexivity.
Qed.

(** *** Sealing *)

Definition cbcPad (p : cbcHMACProtector) (plain : bytes) : Z :=
  blockSize p - (len plain + macSize p + 1) mod blockSize p.

Definition cbcContent (p : cbcHMACProtector) (seq : Z) (hdr plain : bytes) : bytes :=
  plain ++ hmac (newHash p) (macKey p)
             ((bePut 8 seq ++ take 3 hdr ++ bePut 2 (u16 (len plain))) ++ plain)
        ++ replicate (Z.to_nat (cbcPad p plain + 1)) (z2b (cbcPad p plain)).

Lemma cbcPad_range p b plain :
  cbc_ok p b -> 1 <= cbcPad p plain <= blockSize p.
Proof.
  intros [_ Hs _ Hb]. pose proof (bo_size _ Hb). unfold cbcPad.
  pose proof (Z.mod_pos_bound (len plain + macSize p + 1) (blockSize p)). lia.
Qed.

Lemma len_replicate {A} n (x : A) : len (replicate n x) = Z.of_nat n.
Proof. unfold len. now rewrite length_replicate. Qed.

Lemma len_cbcContent p b seq hdr plain :
  cbc_ok p b ->
  len (cbcContent p seq hdr plain) = len plain + macSize p + cbcPad p plain + 1 /\
  len (cbcContent p seq hdr plain) mod blockSize p = 0.
Proof.
  intros Hok. pose proof (cbcPad_range p b plain Hok). destruct Hok as [_ Hs Hm Hb].
  pose proof (bo_size _ Hb).
  assert (E : len (cbcContent p seq hdr plain) = len plain + macSize p + cbcPad p plain + 1).
  { unfold cbcContent. rewrite !len_app, hmac_len, len_replicate. lia. }
  split; [done|]. rewrite E. unfold cbcPad.
  pose proof (Z.div_mod (len plain + macSize p + 1) (blockSize p) ltac:(lia)).
  replace (len plain + macSize p + _ + 1) with
    (((len plain + macSize p + 1) / blockSize p + 1) * blockSize p) by lia.
  apply Z_mod_mult.
Qed.

Lemma paddingValid_app x n (q : byte) :
  b2z q + 1 <= Z.of_nat n -> paddingValid (x ++ replicate n q) = true.
Proof.
  intros Hn. pose proof (b2z_range q).
  destruct n as [|n]; [lia|]. unfold paddingValid.
  replace (last (x ++ replicate (S n) q)) with (Some q).
  2:{ rewrite replicate_S_end, app_assoc, last_snoc. done. }
  apply andb_true_iff. split.
  - apply Z.leb_le. rewrite len_app, len_replicate. len_pose. lia.
  - apply forallb_forall. intros y Hy. apply bool_decide_eq_true.
    rewrite reverse_app, reverse_replicate, take_app_le in Hy by (rewrite length_replicate; lia).
    apply list_elem_of_In, list_elem_of_lookup in Hy as [i Hy].
    apply lookup_take_Some in Hy as [Hy _].
    now apply lookup_replicate in Hy as [-> _].
Qed.

Lemma cbcSeal_eq p b t seq hdr plain iv t' :
  cbc_ok p b -> 3 <= len hdr -> randRead (blockSize p) t = Some (iv, t') ->
  cbcSeal p t seq hdr plain
  = (let* buf := cbcEncrypt (BlockSize b) (Encrypt b) iv (cbcContent p seq hdr plain) in
     Ok (iv ++ buf), t').
Proof.
  intros Hok Hh Hr. pose proof (cbcPad_range p b plain Hok). destruct Hok as [Hc Hs Hm Hb].
  unfold cbcSeal. rewrite computeMAC_eq, macAdditionalData_Ok by done. cbn [bind].
  fold (cbcPad p plain). z_if. rewrite Hr, Hc. reflexivity.
Qed.

Lemma cbcEncrypt_Ok b iv src :
  block_ok b -> len iv = BlockSize b -> len src mod BlockSize b = 0 ->
  exists ct, cbcEncrypt (BlockSize b) (Encrypt b) iv src = Ok ct /\ len ct = len src /\
             cbcDecrypt (BlockSize b) (Decrypt b) iv ct = Ok src.
Proof.
  intros [Hs He _ Hi] Hiv Hm. unfold cbcDecrypt, cbcEncrypt, cbcCrypt.
  rewrite Hiv, Z.eqb_refl, Hm. cbn [negb Z.eqb].
  pose proof (Z.div_mod (len src) (BlockSize b) ltac:(lia)) as Hdm. rewrite Hm in Hdm.
  pose proof (len_nonneg src).
  assert (0 <= len src / BlockSize b) by (apply Z.div_pos; lia).
  assert (Hl : length src = (Z.to_nat (len src / BlockSize b) * Z.to_nat (BlockSize b))%nat)
    by (unfold len in *; lia).
  assert (Hil : length iv = Z.to_nat (BlockSize b)) by (rewrite nat_len_of by lia; done).
  assert (He' : forall x, length x = Z.to_nat (BlockSize b) ->
                          length (Encrypt b x) = Z.to_nat (BlockSize b))
    by (intros x; rewrite !nat_len_of by lia; apply He).
  set (ct := cbcEncBlocks _ _ _ _ _).
  assert (Hct : len ct = len src).
  { unfold ct, len at 1. rewrite cbcEncBlocks_length by done. lia. }
  exists ct. split; [done|]. split; [done|]. rewrite Hct, Hm. cbn [negb Z.eqb]. f_equal.
  apply cbcDecBlocks_Enc; try done. intros x Hx. apply Hi. rewrite nat_len_of in Hx; lia.
Qed.

(** [Open] undoes [Seal], for any header that agrees on type and version. *)
Lemma cbcOpen_Seal p b t seq hdr hdr' plain iv t' :
  cbc_ok p b -> 3 <= len hdr -> 3 <= len hdr' -> take 3 hdr' = take 3 hdr ->
  len plain + macSize p < 2 ^ 30 -> randRead (blockSize p) t = Some (iv, t') ->
  exists frag, cbcSeal p t seq hdr plain = (Ok frag, t') /\
    len frag = blockSize p + len plain + macSize p + cbcPad p plain + 1 /\
    cbcOpen p seq hdr' frag = Ok plain.
Proof.
  intros Hok Hh Hh' Heq Hpl Hr. rewrite (cbcSeal_eq p b t seq hdr plain iv t') by done.
  pose proof (cbcPad_range p b plain Hok) as Hpad.
  destruct (len_cbcContent p b seq hdr plain Hok) as [Hcl Hcm].
  pose proof Hok as [Hc Hs Hm Hb]. pose proof (bo_size _ Hb).
  pose proof (hashSize_pos (newHash p)).
  assert (Hiv : len iv = BlockSize b) by (rewrite <- Hs; eapply randRead_len; [|done]; lia).
  destruct (cbcEncrypt_Ok b iv (cbcContent p seq hdr plain)) as (ct & -> & Hctl & Hd);
    [done|done|congruence|].
  cbn [bind]. exists (iv ++ ct). split; [done|]. split; [rewrite len_app; lia|].
  rewrite (cbcOpen_ref p b) by (done || rewrite len_app; lia).
  unfold cbcOpenRef. rewrite len_app, Hctl, Hiv, Hcl, Hs.
  rewrite (proj2 (Z.ltb_ge _ _)) by (len_pose; lia). cbn [orb].
  rewrite <- Hcl, Z.add_comm, <- (Z.mul_1_l (BlockSize b)) at 1.
  rewrite Z_mod_plus_full, <- Hs, Hcm, Hs. cbn [negb Z.eqb].
  rewrite take_app_length', drop_app_length' by (symmetry; rewrite nat_len_of by lia; done).
  rewrite Hd. cbn [bind].
  assert (Hlast : last (cbcContent p seq hdr plain) = Some (z2b (cbcPad p plain))).
  { unfold cbcContent. destruct (Z.to_nat (cbcPad p plain + 1)) as [|k] eqn:Ek; [lia|].
    rewrite replicate_S_end, !app_assoc, last_snoc. done. }
  rewrite Hlast. change (default Byte.x00 (Some ?x)) with x. rewrite b2z_small by lia.
  rewrite Hcl. replace (Z.max 0 _) with (len plain) by (len_pose; lia).
  rewrite macAdditionalData_Ok by done. cbn [bind]. rewrite Heq.
  assert (Hv : paddingValid (cbcContent p seq hdr plain) = true).
  { unfold cbcContent. rewrite app_assoc. apply paddingValid_app. rewrite b2z_small; lia. }
  rewrite Hv. unfold cbcContent. rewrite !to_nat_len, take_app_length, drop_app_length.
  rewrite take_app_length'.
  - rewrite bool_decide_true by done. reflexivity.
  - symmetry. rewrite nat_len_of by lia. rewrite hmac_len. lia.
Qed.

Lemma NewAESCipher_ok key b : NewAESCipher key = Ok b -> block_ok b.
Proof.
  unfold NewAESCipher. destruct (_ || _); [|done]. intros [= <-]. split; cbn.
  - unfold aesBlockSize. lia.
  - apply aesEncrypt_len.
  - apply aesDecrypt_len.
  - apply aesDecrypt_Encrypt.
Qed.

Lemma NewCBCHMACProtector_ok nh ek mk p :
  NewCBCHMACProtector NewAESCipher nh ek mk = Ok p -> exists b, cbc_ok p b.
Proof.
  unfold NewCBCHMACProtector. intros H. res_inv. exists v. split; cbn; try done.
  now apply (NewAESCipher_ok _ _ Hv).
Qed.

End CBC_lemmas.

(** * AEAD *)

Section AEAD_lemmas.
Context {P : Primitives} {L : PrimitiveLaws P}.

(** The additional data of RFC 5246 §6.2.3.3. *)
Definition adBytes (seq : Z) (hdr : bytes) (n : Z) : bytes :=
  bePut 8 seq ++ take 3 hdr ++ bePut 2 (u16 n).

Lemma buildAD_Ok seq hdr n : 3 <= len hdr -> buildAD seq hdr n = Ok (adBytes seq hdr n).
Proof. apply macAdditionalData_Ok. Qed.

(** The record's position is bound into the additional data. *)
Lemma adBytes_seq_inj seq seq' hdr hdr' n n' :
  0 <= seq < 2 ^ 64 -> 0 <= seq' < 2 ^ 64 ->
  adBytes seq hdr n = adBytes seq' hdr' n' -> seq = seq'.
Proof.
  intros H1 H2 E. apply (app_inj_1 (bePut 8 seq)) in E as [E _]; [|now rewrite !length_bePut].
  now apply bePut_inj in E.
Qed.

Lemma aeadOpen_inv p seq hdr frag plain :
  3 <= len hdr ->
  aeadOpen p seq hdr frag = Ok plain <->
  exists explicit, len explicit = 8 /\
    frag = explicit ++ gcmSeal (aead_key p) (aeadNonce p explicit) plain
                                (adBytes seq hdr (len plain)).
Proof.
  intros Hh. unfold aeadOpen, aeadExplicitNonceLen, aeadOverhead. split.
  - intros H. destruct (_ <? _) eqn:E; [done|]. z_bool.
    rewrite slice_to, slice_from in H by lia. cbn [bind] in H.
    rewrite buildAD_Ok in H by done. cbn [bind] in H.
    destruct (gcmOpen _ _ _ _) as [p'|] eqn:G; [|done]. injection H as <-.
    apply gcmOpen_spec in G. exists (take 8 frag). split; [len_lia|].
    pose proof (f_equal len G) as Gl. rewrite gcmSeal_len in Gl.
    replace (len (drop (Z.to_nat 8) frag) - 16) with (len p') in G by lia.
    change (Z.to_nat 8) with 8%nat in G. rewrite <- G. symmetry. apply take_drop.
  - intros (ex & Hex & ->). rewrite len_app, gcmSeal_len.
    z_if. rewrite slice_app_l by lia. cbn [bind].
    rewrite slice_app_r by (rewrite ?gcmSeal_len; lia). cbn [bind].
    rewrite gcmSeal_len, buildAD_Ok by done. cbn [bind].
    replace (len plain + 16 - 16) with (len plain) by lia.
    now rewrite gcmOpen_Seal.
Qed.

Lemma aeadOpen_Seal p seq hdr hdr' plain :
  3 <= len hdr -> 3 <= len hdr' -> take 3 hdr' = take 3 hdr ->
  exists frag, aeadSeal p seq hdr plain = Ok frag /\ len frag = len plain + 24 /\
               aeadOpen p seq hdr' frag = Ok plain.
Proof.
  intros Hh Hh' He. unfold aeadSeal. rewrite buildAD_Ok by done. cbn [bind].
  eexists; split; [done|]. split; [rewrite len_app, gcmSeal_len; len_lia|].
  apply aeadOpen_inv; [done|]. exists (bePut 8 seq). split; [len_lia|].
  unfold adBytes. now rewrite He.
Qed.

Lemma chachaProtOpen_inv p seq hdr frag plain :
  3 <= len hdr ->
  chachaProtOpen p seq hdr frag = Ok plain <-> chachaProtSeal p seq hdr plain = Ok frag.
Proof.
  intros Hh. unfold chachaProtOpen, chachaProtSeal, aeadOverhead.
  rewrite !buildAD_Ok by done. cbn [bind]. split.
  - intros H. destruct (_ <? _) eqn:E; [done|].
    destruct (chachaOpen _ _ _ _) as [p'|] eqn:G; [|done]. injection H as <-.
    apply chachaOpen_spec in G. pose proof (f_equal len G) as Gl. rewrite chachaSeal_len in Gl.
    replace (len frag - 16) with (len p') in G by lia. now rewrite <- G.
  - intros [= <-]. rewrite chachaSeal_len. z_if.
    replace (len plain + 16 - 16) with (len plain) by lia.
    now rewrite chachaOpen_Seal.
Qed.

Lemma chachaProtOpen_Seal p seq hdr hdr' plain :
  3 <= len hdr -> 3 <= len hdr' -> take 3 hdr' = take 3 hdr ->
  exists frag, chachaProtSeal p seq hdr plain = Ok frag /\ len frag = len plain + 16 /\
               chachaProtOpen p seq hdr' frag = Ok plain.
Proof.
  intros Hh Hh' He. unfold chachaProtSeal. rewrite buildAD_Ok by done. cbn [bind].
  eexists; split; [done|]. split; [apply chachaSeal_len|].
  apply chachaProtOpen_inv; [done|]. unfold chachaProtSeal. rewrite buildAD_Ok by done.
  unfold adBytes. now rewrite He.
Qed.

End AEAD_lemmas.

(** * Properties *)

Section Properties.
Context {P : Primitives} {L : PrimitiveLaws P}.

(** C32. The constant-time padding extraction computes the padding rule of
    RFC 5246 §6.2.3.2: on every non-empty payload shorter than 2^31 bytes it
    removes the last byte's value plus one, and its mask is 0xff exactly when
    that many trailing bytes exist and all equal the last one, else 0x00. *)
Theorem extractCBCPadding_spec payload p :
  last payload = Some p -> len payload < 2 ^ 31 ->
  extractCBCPadding payload = Ok (b2z p + 1, if paddingValid payload then 255 else 0).
Proof. apply extractCBCPadding_valid. Qed.


(** C33. An AES-GCM record is accepted exactly when it is an 8-byte explicit nonce
    followed by the GCM sealing of the returned plaintext under the salted nonce
    and the additional data of this sequence number, type, version and length. *)
Theorem aeadOpen_iff p seq hdr frag plain :
  3 <= len hdr ->
  aeadOpen p seq hdr frag = Ok plain <->
  exists explicit, len explicit = 8 /\
    frag = explicit ++ gcmSeal (aead_key p) (aeadNonce p explicit) plain
                                (adBytes seq hdr (len plain)).
Proof. apply aeadOpen_inv. Qed.

(** Nonces do not repeat: two records of one key with different sequence
    numbers are sealed under different nonces, for AES-GCM and for
    ChaCha20-Poly1305 (RFC 5288 §3, RFC 7905 §2). *)
Theorem nonce_injective (pa : aeadProtector) (pc : chacha20Poly1305Protector) seq seq' :
  len (chacha_iv pc) = chachaNonceSize -> 0 <= seq < 2 ^ 64 -> 0 <= seq' < 2 ^ 64 ->
  seq <> seq' ->
  aeadNonce pa (bePut 8 seq) <> aeadNonce pa (bePut 8 seq') /\
  chachaNonce pc seq <> chachaNonce pc seq'.
Proof.
  intros Hiv H1 H2 Hne. split; intros E; apply Hne.
  - apply app_inv_head in E. now apply bePut_inj in E.
  - unfold chachaNonce in E. apply xorBytes_inj_l in E; [|rewrite Hiv; reflexivity..].
    apply app_inv_head in E. now apply bePut_inj in E.
Qed.

End Properties.

(** ** Witnesses *)

#[local] Existing Instance Toy.prims.
#[local] Existing Instance Toy.laws.

Definition sampleHdr : bytes := map z2b [23; 3; 3; 0; 0].

Lemma extractCBCPadding_spec_witness :
  extractCBCPadding (map z2b [9; 2; 2; 2]) = Ok (3, 255) /\
  extractCBCPadding (map z2b [9; 1; 2; 2]) = Ok (3, 0).
Proof.
  split; [apply (extractCBCPadding_spec (map z2b [9; 2; 2; 2]) Byte.x02)
         |apply (extractCBCPadding_spec (map z2b [9; 1; 2; 2]) Byte.x02)];
  vm_compute; reflexivity.
Defined.


Lemma aeadOpen_iff_witness :
  let p := {| aead_key := [Byte.x07]; salt := map z2b [1; 2; 3; 4] |} in
  aeadOpen p 5 sampleHdr (bePut 8 5 ++ gcmSeal [Byte.x07] (map z2b [1; 2; 3; 4] ++ bePut 8 5)
    [Byte.x61] (adBytes 5 sampleHdr 1)) = Ok [Byte.x61].
Proof.
  apply aeadOpen_iff; [vm_compute; congruence|].
  exists (bePut 8 5). split; [reflexivity|]. reflexivity.
Defined.

Lemma nonce_injective_witness :
  let pa := {| aead_key := []; salt := map z2b [1; 2; 3; 4] |} in
  let pc := {| chacha_key := []; chacha_iv := repeat Byte.x55 12 |} in
  aeadNonce pa (bePut 8 1) <> aeadNonce pa (bePut 8 256) /\
  chachaNonce pc 1 <> chachaNonce pc 256.
Proof. apply nonce_injective; [reflexivity|lia..]. Defined.
