(* ===== verification/ProtectionGost.v ===== *)
(** * GOST 28147-89 CNT + IMIT ([internal/record/protection_gost.go])

    The counter-mode stream [gostCNT], the cumulative MAC [gostIMIT], both with
    CryptoPro key meshing every 1024 bytes, and the protector built from them.
    A [*gost.GOST28147Cipher] is its key (with the S-box kept beside it).  The
    keystream and the MAC do not depend on how the data is cut into calls; what
    is sealed opens to itself, record after record. *)

From Stdlib Require Import ZArith Lia.
From stdpp Require Import base list strings.
From S2P Require Import Prelude Errors Primitives Protection.

Open Scope Z_scope.

Definition gostBlockSize : nat := 8.
Definition gostMACSize : Z := 4.
Definition gostKeySize : Z := 32.
Definition meshThreshold : Z := 1024.

Definition cryptoProKeyMeshingKey : bytes := map z2b
  [105; 0; 114; 34; 100; 201; 4; 35;
   141; 58; 219; 150; 70; 233; 42; 196;
   24; 254; 172; 148; 0; 237; 7; 18;
   192; 134; 220; 194; 239; 76; 169; 43].

(** ** CNT *)

Record gostCNT := {
  cnt_cipher : bytes;
  cnt_sbox : Sbox;
  cnt_iv : bytes;
  cnt_buf : bytes;
  cnt_num : nat;
  cnt_count : Z
}.

(** [uint32(b[0]) | uint32(b[1])<<8 | uint32(b[2])<<16 | uint32(b[3])<<24]. *)
Definition leWord (b0 b1 b2 b3 : byte) : Z :=
  Z.lor (Z.lor (Z.lor (b2z b0) (Z.shiftl (b2z b1) 8)) (Z.shiftl (b2z b2) 16))
        (Z.shiftl (b2z b3) 24).

(** [byte(g)], [byte(g >> 8)], [byte(g >> 16)], [byte(g >> 24)]. *)
Definition leBytes (g : Z) : bytes :=
  [z2b g; z2b (Z.shiftr g 8); z2b (Z.shiftr g 16); z2b (Z.shiftr g 24)].

Definition cntC2 : Z := 16843009. (* 0x01010101 *)
Definition cntC1 : Z := 16843012. (* 0x01010104 *)

(** [g += 0x01010101] on 32 bits. *)
Definition gammaLo (g : Z) : Z := u32 (g + cntC2).

(** [g2 += 0x01010104; if g2old > g2 { g2++ }] on 32 bits. *)
Definition gammaHi (g2old : Z) : Z :=
  let g2 := u32 (g2old + cntC1) in
  if g2 <? g2old then u32 (g2 + 1) else g2.

(** The two counter words of [buf1], stepped. *)
Definition stepCounter (buf1 : bytes) : bytes :=
  match buf1 with
  | [b0; b1; b2; b3; b4; b5; b6; b7] =>
      leBytes (gammaLo (leWord b0 b1 b2 b3)) ++ leBytes (gammaHi (leWord b4 b5 b6 b7))
  | _ => buf1
  end.

Section Operations.
Context `{Primitives}.

(** ECB decryption of the four blocks of the meshing constant. *)
Definition meshedKey (sbox : Sbox) (key : bytes) : bytes :=
  concat (map (fun j => g89Decrypt sbox key
                 (take gostBlockSize (drop (j * gostBlockSize) cryptoProKeyMeshingKey)))
              [0; 1; 2; 3]%nat).

Definition newGostCNT (key : bytes) (sbox : Sbox) (iv : bytes) : gostCNT :=
  {| cnt_cipher := key; cnt_sbox := sbox; cnt_iv := iv;
     cnt_buf := replicate gostBlockSize Byte.x00; cnt_num := 0; cnt_count := 0 |}.

Definition cntMeshKey (s : gostCNT) : gostCNT :=
  let newKey := meshedKey (cnt_sbox s) (cnt_cipher s) in
  {| cnt_cipher := newKey; cnt_sbox := cnt_sbox s;
     cnt_iv := g89Encrypt (cnt_sbox s) newKey (cnt_iv s);
     cnt_buf := cnt_buf s; cnt_num := cnt_num s; cnt_count := cnt_count s |}.

Definition nextGamma (s : gostCNT) : gostCNT :=
  let s := if cnt_count s =? meshThreshold then cntMeshKey s else s in
  let buf1 := if cnt_count s =? 0 then g89Encrypt (cnt_sbox s) (cnt_cipher s) (cnt_iv s)
              else cnt_iv s in
  let buf1 := stepCounter buf1 in
  {| cnt_cipher := cnt_cipher s; cnt_sbox := cnt_sbox s;
     cnt_iv := buf1;
     cnt_buf := g89Encrypt (cnt_sbox s) (cnt_cipher s) buf1;
     cnt_num := cnt_num s;
     cnt_count := cnt_count s mod meshThreshold + Z.of_nat gostBlockSize |}.

Definition setNum (s : gostCNT) (n : nat) : gostCNT :=
  {| cnt_cipher := cnt_cipher s; cnt_sbox := cnt_sbox s; cnt_iv := cnt_iv s;
     cnt_buf := cnt_buf s; cnt_num := n; cnt_count := cnt_count s |}.

(** [for s.num < gostBlockSize && i < len(src)]: output, rest of [src], [num]. *)
Fixpoint xorInner (buf : bytes) (num : nat) (src : bytes) : bytes * bytes * nat :=
  match src with
  | [] => ([], [], num)
  | x :: rest =>
    if decide (num < gostBlockSize)%nat then
      let '(o, r, n) := xorInner buf (S num) rest in
      (bxor x (default Byte.x00 (buf !! num)) :: o, r, n)
    else ([], src, num)
  end.

(** The outer loop: each turn consumes at least one byte, so [length src] turns
    are enough. *)
Fixpoint xorLoop (fuel : nat) (s : gostCNT) (src : bytes) : result (bytes * gostCNT) :=
  match src with
  | [] => Ok ([], s)
  | _ =>
    match fuel with
    | O => Crash OutOfFuel
    | S fuel =>
      let s := if decide (cnt_num s = 0%nat) then nextGamma s else s in
      let '(o, rest, n) := xorInner (cnt_buf s) (cnt_num s) src in
      let s := setNum s (if decide (n = gostBlockSize) then 0%nat else n) in
      let* (o', s) := xorLoop fuel s rest in
      Ok (o ++ o', s)
    end
  end.

Definition XORKeyStream (s : gostCNT) (src : bytes) : result (bytes * gostCNT) :=
  xorLoop (length src) s src.

(** ** IMIT *)

Record gostIMIT := {
  imit_cipher : bytes;
  imit_sbox : Sbox;
  imit_prev : bytes;
  imit_buf : bytes;
  imit_bufLen : nat;
  imit_count : Z
}.

Definition newGostIMIT (key : bytes) (sbox : Sbox) : gostIMIT :=
  {| imit_cipher := key; imit_sbox := sbox;
     imit_prev := replicate gostBlockSize Byte.x00;
     imit_buf := replicate gostBlockSize Byte.x00;
     imit_bufLen := 0; imit_count := 0 |}.

Definition setBuf (m : gostIMIT) (buf : bytes) (n : nat) : gostIMIT :=
  {| imit_cipher := imit_cipher m; imit_sbox := imit_sbox m; imit_prev := imit_prev m;
     imit_buf := buf; imit_bufLen := n; imit_count := imit_count m |}.

Definition imitMeshKey (m : gostIMIT) : gostIMIT :=
  {| imit_cipher := meshedKey (imit_sbox m) (imit_cipher m); imit_sbox := imit_sbox m;
     imit_prev := imit_prev m; imit_buf := imit_buf m; imit_bufLen := imit_bufLen m;
     imit_count := imit_count m |}.

Definition macBlockEncrypt (sbox : Sbox) (key block : bytes) : bytes :=
  g89SeqMAC sbox key block.

Definition processBlockMesh (m : gostIMIT) (block : bytes) : gostIMIT :=
  let m := if imit_count m =? meshThreshold then imitMeshKey m else m in
  let xored := xorBytes (imit_prev m) block in
  {| imit_cipher := imit_cipher m; imit_sbox := imit_sbox m;
     imit_prev := macBlockEncrypt (imit_sbox m) (imit_cipher m) xored;
     imit_buf := imit_buf m; imit_bufLen := imit_bufLen m;
     imit_count := imit_count m mod meshThreshold + Z.of_nat gostBlockSize |}.

(** [for m.bufLen < gostBlockSize && i < len(data)]: store bytes in [buf]. *)
Fixpoint fillBuf (buf : bytes) (n : nat) (data : bytes) : bytes * nat * bytes :=
  match data with
  | [] => (buf, n, [])
  | x :: rest =>
    if decide (n < gostBlockSize)%nat then fillBuf (<[n := x]> buf) (S n) rest
    else (buf, n, data)
  end.

(** [for len(data)-i > gostBlockSize]: process whole blocks but the last. *)
Fixpoint blockLoop (fuel : nat) (m : gostIMIT) (data : bytes) : result (gostIMIT * bytes) :=
  if decide (gostBlockSize < length data)%nat then
    match fuel with
    | O => Crash OutOfFuel
    | S fuel =>
      blockLoop fuel (processBlockMesh m (take gostBlockSize data)) (drop gostBlockSize data)
    end
  else Ok (m, data).

(** The part of [Write] after the buffered bytes are dealt with. *)
Definition writeBlocks (m : gostIMIT) (data : bytes) : result gostIMIT :=
  let* (m, rest) := blockLoop (length data) m data in
  match rest with
  | [] => Ok m
  | _ => Ok (setBuf m (rest ++ drop (length rest) (imit_buf m)) (length rest))
  end.

Definition imitWrite (m : gostIMIT) (data : bytes) : result gostIMIT :=
  if decide (0 < imit_bufLen m)%nat then
    let '(buf, n, rest) := fillBuf (imit_buf m) (imit_bufLen m) data in
    let m := setBuf m buf n in
    if decide (n < gostBlockSize)%nat then Ok m
    else match rest with
         | [] => Ok m
         | _ => writeBlocks (setBuf (processBlockMesh m (imit_buf m)) (imit_buf m) 0) rest
         end
  else writeBlocks m data.

(** [processSnap] of [Finalize]: a block on a snapshot of [prev] and [count];
    the meshed key is not kept. *)
Definition processSnap (m : gostIMIT) (prev : bytes) (count : Z) (block : bytes) : bytes * Z :=
  let key := if count =? meshThreshold then meshedKey (imit_sbox m) (imit_cipher m)
             else imit_cipher m in
  (macBlockEncrypt (imit_sbox m) key (xorBytes prev block),
   count mod meshThreshold + Z.of_nat gostBlockSize).

Definition zeroPad (b : bytes) : bytes := b ++ replicate (gostBlockSize - length b) Byte.x00.

Definition Finalize (m : gostIMIT) : bytes :=
  let prev := imit_prev m in
  let bufLen := imit_bufLen m in
  let count := imit_count m in
  let '(prev, count) :=
    if decide (0 < bufLen)%nat
    then processSnap m prev count (zeroPad (take bufLen (imit_buf m)))
    else (prev, count) in
  let '(prev, count) :=
    if (count =? 0) && bool_decide (0 < bufLen)%nat
    then processSnap m prev count (replicate gostBlockSize Byte.x00)
    else (prev, count) in
  take (Z.to_nat gostMACSize) prev.

(** ** The protector *)

Record gost28147Protector := { gp_cnt : gostCNT; gp_imit : gostIMIT }.

Definition NewGOST28147Protector (ek mk iv : bytes) (sbox : Sbox) : result gost28147Protector :=
  if negb (len ek =? gostKeySize) then
    Err (fatalRecordError "GOST28147 enc key must be 32 bytes")
  else if negb (len mk =? gostKeySize) then
    Err (fatalRecordError "GOST28147 mac key must be 32 bytes")
  else if negb (len iv =? Z.of_nat gostBlockSize) then
    Err (fatalRecordError "GOST28147 iv must be 8 bytes")
  else Ok {| gp_cnt := newGostCNT ek sbox iv; gp_imit := newGostIMIT mk sbox |}.

Definition computeGOSTMAC (m : gostIMIT) (seq : Z) (hdr plain : bytes)
  : result (bytes * gostIMIT) :=
  let* ad := macAdditionalData seq hdr (len plain) in
  let* m := imitWrite m ad in
  let* m := imitWrite m plain in
  Ok (Finalize m, m).

Definition gostSeal (p : gost28147Protector) (seq : Z) (hdr plain : bytes)
  : result (bytes * gost28147Protector) :=
  let* (mac, imit) := computeGOSTMAC (gp_imit p) seq hdr plain in
  let* (buf, cnt) := XORKeyStream (gp_cnt p) (plain ++ mac) in
  Ok (buf, {| gp_cnt := cnt; gp_imit := imit |}).

(** [Open] leaves the stream and the MAC advanced even when it fails: the
    protector after the call is returned in both cases. *)
Definition gostOpen (p : gost28147Protector) (seq : Z) (hdr fragment : bytes)
  : result bytes * gost28147Protector :=
  if len fragment <? gostMACSize then (Err (NewFatalAlertError AlertBadRecordMAC), p)
  else
    match XORKeyStream (gp_cnt p) fragment with
    | Ok (buf, cnt) =>
      let p := {| gp_cnt := cnt; gp_imit := gp_imit p |} in
      let plainEnd := len buf - gostMACSize in
      match slice buf 0 plainEnd, slice buf plainEnd (len buf) with
      | Ok plain, Ok gotMAC =>
        match computeGOSTMAC (gp_imit p) seq hdr plain with
        | Ok (expectedMAC, imit) =>
          let p := {| gp_cnt := cnt; gp_imit := imit |} in
          if negb (ConstantTimeCompare gotMAC expectedMAC =? 1)
          then (Err (NewFatalAlertError AlertBadRecordMAC), p)
          else (Ok plain, p)
        | Err e => (Err e, p)
        | Crash c => (Crash c, p)
        end
      | Crash c, _ | _, Crash c => (Crash c, p)
      | Err e, _ | _, Err e => (Err e, p)
      end
    | Err e => (Err e, p)
    | Crash c => (Crash c, p)
    end.

End Operations.

(** * CNT: the keystream, byte by byte *)

Section CNT_lemmas.
Context `{Primitives}.

Definition wrap8 (n : nat) : nat := if decide (n = gostBlockSize) then 0%nat else n.

(** Reference: a new gamma block when the old one is used up, then one byte. *)
Definition cntReady (s : gostCNT) : gostCNT :=
  if decide (cnt_num s = 0%nat) then nextGamma s else s.

Definition cntTake (s : gostCNT) (x : byte) : byte * gostCNT :=
  (bxor x (default Byte.x00 (cnt_buf s !! cnt_num s)), setNum s (wrap8 (S (cnt_num s)))).

Fixpoint cntBytes (s : gostCNT) (src : bytes) : bytes * gostCNT :=
  match src with
  | [] => ([], s)
  | x :: rest =>
    let '(k, s) := cntTake (cntReady s) x in
    let '(o, s) := cntBytes s rest in (k :: o, s)
  end.

Lemma nextGamma_num s : cnt_num (nextGamma s) = cnt_num s.
Proof. unfold nextGamma. cbn. now destruct (_ =? _). Qed.

Lemma cntReady_num s : cnt_num (cntReady s) = cnt_num s.
Proof. unfold cntReady. case_decide; [apply nextGamma_num|done]. Qed.

Lemma wrap8_lt n : (n < 8)%nat -> (wrap8 (S n) < 8)%nat.
Proof. unfold wrap8, gostBlockSize. case_decide; lia. Qed.

Lemma xorInner_bytes rest s x o r n :
  (cnt_num s < 8)%nat -> xorInner (cnt_buf s) (cnt_num s) (x :: rest) = (o, r, n) ->
  (length r <= length rest)%nat /\ (wrap8 n < 8)%nat /\
  (let '(k, s1) := cntTake s x in let '(o1, s2) := cntBytes s1 rest in (k :: o1, s2))
  = (let '(o2, s2) := cntBytes (setNum s (wrap8 n)) r in (o ++ o2, s2)).
Proof.
  revert s x o r n. induction rest as [|y rest IH]; intros s x o r n Hs Hx.
  { cbn in Hx. rewrite decide_True in Hx by done. injection Hx as <- <- <-.
    split; [done|]. split; [now apply wrap8_lt|]. reflexivity. }
  cbn [xorInner] in Hx. rewrite decide_True in Hx by done.
  destruct (decide (S (cnt_num s) < gostBlockSize)%nat) as [Hlt|Hge].
  - unfold gostBlockSize in Hlt. cbn [cntTake].
    assert (Hw : wrap8 (S (cnt_num s)) = S (cnt_num s))
      by (unfold wrap8, gostBlockSize; case_decide; lia).
    destruct (xorInner (cnt_buf s) (S (cnt_num s)) (y :: rest)) as [[o' r'] n'] eqn:Ex.
    cbn [xorInner] in Ex. rewrite decide_True in Ex by done. rewrite Ex in Hx.
    injection Hx as <- <- <-.
    destruct (IH (setNum s (S (cnt_num s))) y o' r' n') as (Hr & Hn & IHeq); [done| |].
    { cbn. rewrite decide_True by done. exact Ex. }
    split; [cbn; lia|]. split; [done|]. cbn [cntBytes].
    rewrite Hw. replace (cntReady (setNum s (S (cnt_num s)))) with (setNum s (S (cnt_num s)))
      by (unfold cntReady; now rewrite decide_False).
    destruct (cntTake (setNum s (S (cnt_num s))) y) as [k s1].
    destruct (cntBytes s1 rest) as [o1 s2].
    change (setNum (setNum s (S (cnt_num s))) (wrap8 n')) with (setNum s (wrap8 n')) in IHeq.
    destruct (cntBytes (setNum s (wrap8 n')) r') as [o2 s3]. now injection IHeq as -> ->.
  - unfold gostBlockSize in Hge. assert (Hn : cnt_num s = 7%nat) by lia.
    injection Hx as <- <- <-.
    split; [done|]. rewrite Hn. split; [apply (wrap8_lt 7); lia|]. unfold cntTake. rewrite Hn.
    change (wrap8 8) with 0%nat. destruct (cntBytes (setNum s 0) (y :: rest)). reflexivity.
Qed.

Lemma xorLoop_bytes fuel s src :
  (cnt_num s < 8)%nat -> (length src <= fuel)%nat ->
  xorLoop fuel s src = Ok (cntBytes s src).
Proof.
  revert s src; induction fuel as [|fuel IH]; intros s [|x rest] Hs Hf;
    [done|cbn in Hf; lia|done|].
  cbn [xorLoop]. fold (cntReady s). cbn [cntBytes].
  destruct (xorInner (cnt_buf (cntReady s)) (cnt_num (cntReady s)) (x :: rest)) as [[o r] n] eqn:Ex.
  destruct (xorInner_bytes rest (cntReady s) x o r n) as (Hr & Hn & Heq);
    [now rewrite cntReady_num|done|].
  fold (wrap8 n). rewrite IH by (done || (cbn in Hf; lia)). cbn [bind].
  destruct (cntTake (cntReady s) x) as [k s1].
  destruct (cntBytes s1 rest) as [o1 s2].
  destruct (cntBytes (setNum (cntReady s) (wrap8 n)) r) as [o2 s3].
  now injection Heq as -> ->.
Qed.

Lemma XORKeyStream_eq s src :
  (cnt_num s < 8)%nat -> XORKeyStream s src = Ok (cntBytes s src).
Proof. intros. now apply xorLoop_bytes. Qed.

Lemma cntBytes_app s a b :
  cntBytes s (a ++ b)
  = let '(o1, s1) := cntBytes s a in let '(o2, s2) := cntBytes s1 b in (o1 ++ o2, s2).
Proof.
  revert s; induction a as [|x a IH]; intros s; cbn [cntBytes app].
  { now destruct (cntBytes s b). }
  destruct (cntTake (cntReady s) x) as [k s1]. rewrite IH.
  destruct (cntBytes s1 a) as [o1 s2]. now destruct (cntBytes s2 b) as [o2 s3].
Qed.

(** Decryption is encryption: the state does not depend on the data. *)
Lemma cntBytes_invol s src o s' :
  cntBytes s src = (o, s') -> cntBytes s o = (src, s').
Proof.
  revert s o s'; induction src as [|x src IH]; intros s o s'; cbn [cntBytes].
  { now intros [= <- <-]. }
  unfold cntTake. set (r := cntReady s). set (s1 := setNum r _).
  destruct (cntBytes s1 src) as [o1 s2] eqn:E. intros [= <- <-].
  cbn [cntBytes cntTake]. fold r. fold s1. rewrite (IH _ _ _ E). now rewrite bxor_invol.
Qed.

Lemma cntBytes_length s src : length (fst (cntBytes s src)) = length src.
Proof.
  revert s; induction src as [|x src IH]; intros s; cbn [cntBytes]; [done|].
  destruct (cntTake _ x) as [k s1]. specialize (IH s1).
  destruct (cntBytes s1 src). cbn in *. lia.
Qed.

Lemma cntBytes_num s src : (cnt_num s < 8)%nat -> (cnt_num (snd (cntBytes s src)) < 8)%nat.
Proof.
  revert s; induction src as [|x src IH]; intros s Hs; cbn [cntBytes]; [done|].
  cbn [cntTake]. specialize (IH (setNum (cntReady s) (wrap8 (S (cnt_num (cntReady s)))))).
  destruct (cntBytes _ src). cbn in *. apply IH, wrap8_lt. now rewrite cntReady_num.
Qed.

End CNT_lemmas.

(** The counter step of RFC 5830 §6: the low word is added modulo 2^32, the high
    word modulo 2^32 - 1 (with 2^32 - 1 standing for 0 as the standard has it). *)
Lemma gammaHi_mod g :
  0 <= g < 2 ^ 32 ->
  0 <= gammaHi g < 2 ^ 32 /\ gammaHi g mod (2 ^ 32 - 1) = (g + cntC1) mod (2 ^ 32 - 1).
Proof.
  intros Hg. unfold gammaHi, u32, cntC1. cbv zeta.
  destruct (Z.ltb_spec (g + 16843012) (2 ^ 32)) as [Hlt|Hge].
  - rewrite (Z.mod_small (g + 16843012)) by lia. rewrite (proj2 (Z.ltb_ge _ _)) by lia.
    split; [lia|done].
  - replace ((g + 16843012) mod 2 ^ 32) with (g + 16843012 - 2 ^ 32)
      by (apply (Z.mod_unique _ _ 1); lia).
    rewrite (proj2 (Z.ltb_lt _ _)) by lia. rewrite (Z.mod_small (_ + 1)) by lia.
    split; [lia|]. replace (g + 16843012) with (g + 16843012 - 2 ^ 32 + 1 + 1 * (2 ^ 32 - 1)) at 2 by lia.
    now rewrite Z_mod_plus_full.
Qed.

(** * IMIT: the MAC of a byte stream

    The bytes of [buf] past [bufLen] are stale: two states that differ only
    there are equivalent, and [Write] and [Finalize] respect the equivalence. *)

Section IMIT_lemmas.
Context `{Primitives}.

Definition imitNorm (m : gostIMIT) : gostIMIT :=
  setBuf m (take (imit_bufLen m) (imit_buf m)) (imit_bufLen m).

#[export] Instance imit_equiv : Equiv gostIMIT := fun m m' => imitNorm m = imitNorm m'.

#[export] Instance imit_equivalence : Equivalence (≡@{gostIMIT}).
Proof. split; unfold equiv, imit_equiv; congruence. Qed.

Record imit_wf (m : gostIMIT) : Prop := {
  iw_buf : length (imit_buf m) = 8%nat;
  iw_len : (imit_bufLen m <= 8)%nat
}.

(** Reference: one byte at a time; a full block is processed when a further
    byte arrives. *)
Definition absorbByte (m : gostIMIT) (x : byte) : gostIMIT :=
  if decide (imit_bufLen m = gostBlockSize)
  then setBuf (processBlockMesh m (imit_buf m)) [x] 1
  else setBuf m (imit_buf m ++ [x]) (S (imit_bufLen m)).

Lemma process_setBuf m b n x :
  processBlockMesh (setBuf m b n) x = setBuf (processBlockMesh m x) b n.
Proof. unfold processBlockMesh. cbn. now destruct (_ =? _). Qed.

Lemma setBuf_setBuf m b n b' n' : setBuf (setBuf m b n) b' n' = setBuf m b' n'.
Proof. reflexivity. Qed.

Lemma absorb_short d m :
  (imit_bufLen m + length d <= 8)%nat ->
  foldl absorbByte m d = setBuf m (imit_buf m ++ d) (imit_bufLen m + length d).
Proof.
  revert m; induction d as [|x d IH]; intros m Hl; cbn [foldl].
  - rewrite app_nil_r, Nat.add_0_r. now destruct m.
  - cbn [length] in Hl. unfold absorbByte at 2. unfold gostBlockSize.
    rewrite decide_False by lia. rewrite IH by (cbn; lia). cbn [imit_bufLen imit_buf setBuf length].
    rewrite setBuf_setBuf, <- app_assoc. f_equal. lia.
Qed.

(** A full pending block, then more data: the block is processed first. *)
Lemma absorb_block m b y d :
  length b = 8%nat ->
  foldl absorbByte (setBuf m b 8) (y :: d)
  = foldl absorbByte (setBuf (processBlockMesh m b) [] 0) (y :: d).
Proof.
  intros Hb. cbn [foldl]. f_equal. unfold absorbByte, gostBlockSize. cbn [imit_bufLen setBuf].
  rewrite decide_True, decide_False by done. cbn [imit_buf setBuf].
  now rewrite process_setBuf, !setBuf_setBuf.
Qed.

Lemma blockLoop_absorb fuel m data :
  (length data <= fuel)%nat ->
  exists m' rest, blockLoop fuel m data = Ok (m', rest) /\ (length rest <= 8)%nat /\
    imit_buf m' = imit_buf m /\ imit_bufLen m' = imit_bufLen m /\
    (data <> [] -> rest <> []) /\
    foldl absorbByte (setBuf m [] 0) data = setBuf m' rest (length rest).
Proof.
  revert m data; induction fuel as [|fuel IH]; intros m data Hf; unfold blockLoop; fold blockLoop.
  { rewrite decide_False by (unfold gostBlockSize; lia). destruct data; [|cbn in Hf; lia].
    exists m, []. split_and!; (done || cbn; lia). }
  case_decide as Hlt.
  - unfold gostBlockSize in *.
    destruct (IH (processBlockMesh m (take 8 data)) (drop 8 data)) as (m' & rest & -> & Hr & Hb & Hn & Hne & E);
      [rewrite length_drop; lia|].
    exists m', rest. assert (Hd : drop 8 data <> []).
    { intros F%(f_equal length). rewrite length_drop in F. cbn in F. lia. }
    split_and!; try done.
    + rewrite Hb. unfold processBlockMesh. cbn. now destruct (_ =? _).
    + rewrite Hn. unfold processBlockMesh. cbn. now destruct (_ =? _).
    + auto.
    + rewrite <- E. rewrite <- (take_drop 8 data) at 1. rewrite foldl_app, (absorb_short (take 8 data)).
      2:{ cbn [imit_bufLen setBuf imitNorm]. rewrite length_take. lia. }
      cbn [imit_buf setBuf app imit_bufLen]. rewrite setBuf_setBuf, length_take.
      replace (0 + min 8 (length data))%nat with 8%nat by lia.
      destruct (drop 8 data) as [|y d]; [done|]. apply absorb_block. rewrite length_take. lia.
  - unfold gostBlockSize in *. exists m, data. split_and!; try done; try lia.
    rewrite absorb_short by (cbn; lia). reflexivity.
Qed.

Lemma writeBlocks_absorb m data :
  imit_wf m -> imit_bufLen m = 0%nat ->
  exists m', writeBlocks m data = Ok m' /\ imit_wf m' /\
             imitNorm m' = foldl absorbByte (imitNorm m) data.
Proof.
  intros [Hb Hl] H0. unfold writeBlocks.
  destruct (blockLoop_absorb (length data) m data) as (m' & rest & -> & Hr & Hb' & Hn' & Hne & E);
    [done|].
  cbn [bind]. unfold imitNorm at 2. rewrite H0, take_0, E.
  destruct rest as [|x rest].
  - exists m'. split; [done|]. split; [split; congruence|]. unfold imitNorm. now rewrite Hn', H0.
  - eexists. split; [done|]. split.
    + split; cbn [imit_buf imit_bufLen setBuf]; [|done].
      rewrite length_app, length_drop. cbn [length] in *. rewrite Hb', Hb. lia.
    + unfold imitNorm. cbn [imit_buf imit_bufLen setBuf]. rewrite setBuf_setBuf. f_equal.
      now rewrite take_app_length.
Qed.

Lemma fillBuf_spec data buf n buf' n' rest :
  length buf = 8%nat -> (n <= 8)%nat -> fillBuf buf n data = (buf', n', rest) ->
  length buf' = 8%nat /\ n' = min 8 (n + length data) /\ rest = drop (8 - n) data /\
  take n' buf' = take n buf ++ take (8 - n) data.
Proof.
  revert buf n; induction data as [|x data IH]; intros buf n Hb Hn Hf; cbn [fillBuf] in Hf.
  { injection Hf as <- <- <-. rewrite drop_nil, take_nil, app_nil_r. cbn [length].
    split; [done|]. split; [lia|]. done. }
  case_decide as Hlt; unfold gostBlockSize in Hlt.
  - apply IH in Hf as (H1 & H2 & H3 & H4); [|now rewrite length_insert|lia].
    replace (8 - n)%nat with (S (8 - S n)) by lia. cbn [length take drop].
    split_and!; try done; [lia|]. rewrite H4.
    rewrite (take_S_r _ _ x) by (apply list_lookup_insert_eq; lia).
    rewrite take_insert_ge by lia. now rewrite <- app_assoc.
  - assert (n = 8)%nat as -> by lia. injection Hf as <- <- <-. cbn [Nat.sub take drop].
    rewrite app_nil_r. cbn [length]. split_and!; (done || lia).
Qed.

Lemma imitWrite_absorb m data :
  imit_wf m -> exists m', imitWrite m data = Ok m' /\ imit_wf m' /\
                          imitNorm m' = foldl absorbByte (imitNorm m) data.
Proof.
  intros Hw. unfold imitWrite. case_decide as H0; [|apply writeBlocks_absorb; [done|lia]].
  destruct Hw as [Hb Hl].
  destruct (fillBuf (imit_buf m) (imit_bufLen m) data) as [[buf n] rest] eqn:Hf.
  apply fillBuf_spec in Hf as (Hb' & Hn & Hr & Ht); [|done..].
  assert (Hpre : (length data <= 8 - imit_bufLen m)%nat ->
    foldl absorbByte (imitNorm m) data = imitNorm (setBuf m buf n)).
  { intros Hs. rewrite absorb_short by (cbn; lia). unfold imitNorm.
    cbn [imit_buf imit_bufLen setBuf]. rewrite !setBuf_setBuf, Ht, (take_ge data) by done.
    f_equal. lia. }
  case_decide as Hlt; unfold gostBlockSize in *.
  { exists (setBuf m buf n). split; [done|]. split; [split; [done|cbn; lia]|].
    symmetry. apply Hpre. lia. }
  assert (Hge : (8 <= imit_bufLen m + length data)%nat) by lia.
  assert (Hn8 : n = 8%nat) by lia. clear Hn. subst n.
  destruct rest as [|y rest'].
  { exists (setBuf m buf 8). split; [done|]. split; [split; [done|cbn; lia]|].
    symmetry. apply Hpre. symmetry in Hr. apply (f_equal length) in Hr.
    rewrite length_drop in Hr. cbn in Hr. lia. }
  rewrite take_ge in Ht by lia.
  destruct (writeBlocks_absorb
    (setBuf (processBlockMesh (setBuf m buf 8) (imit_buf (setBuf m buf 8)))
       (imit_buf (setBuf m buf 8)) 0) (y :: rest')) as (m' & -> & Hw' & Ha);
    [split; [done|cbn; lia]|done|].
  exists m'. split; [done|]. split; [done|]. rewrite Ha.
  unfold imitNorm. cbn [imit_buf imit_bufLen setBuf]. rewrite take_0, process_setBuf, !setBuf_setBuf.
  rewrite <- (absorb_block m buf y rest') by done.
  rewrite <- (take_drop (8 - imit_bufLen m) data), <- Hr, foldl_app. f_equal.
  rewrite absorb_short.
  2:{ cbn [imit_bufLen setBuf imitNorm]. rewrite length_take. lia. }
  cbn [imit_buf imit_bufLen setBuf]. rewrite setBuf_setBuf, Ht. f_equal.
  rewrite length_take. lia.
Qed.

Lemma Finalize_norm m : Finalize (imitNorm m) = Finalize m.
Proof.
  unfold Finalize, imitNorm. cbn [imit_prev imit_bufLen imit_count imit_buf setBuf].
  now rewrite take_take, Nat.min_id.
Qed.

#[export] Instance Finalize_proper : Proper ((≡@{gostIMIT}) ==> eq) Finalize.
Proof. intros m m' E. rewrite <- Finalize_norm, <- (Finalize_norm m'). now rewrite E. Qed.

Lemma imitWrite_proper m m' data :
  imit_wf m -> imit_wf m' -> m ≡ m' ->
  exists r r', imitWrite m data = Ok r /\ imitWrite m' data = Ok r' /\ r ≡ r'.
Proof.
  intros Hm Hm' E.
  destruct (imitWrite_absorb m data Hm) as (r & Hr & _ & Ha).
  destruct (imitWrite_absorb m' data Hm') as (r' & Hr' & _ & Ha').
  exists r, r'. split_and!; try done. unfold equiv, imit_equiv in *. now rewrite Ha, Ha', E.
Qed.

(** Writes one after the other. *)
Fixpoint imitWrites (m : gostIMIT) (chunks : list bytes) : result gostIMIT :=
  match chunks with
  | [] => Ok m
  | c :: cs => let* m := imitWrite m c in imitWrites m cs
  end.

Lemma imitWrites_absorb chunks m :
  imit_wf m -> exists m', imitWrites m chunks = Ok m' /\ imit_wf m' /\
                          imitNorm m' = foldl absorbByte (imitNorm m) (concat chunks).
Proof.
  revert m; induction chunks as [|c cs IH]; intros m Hm; cbn [imitWrites concat].
  { exists m. done. }
  destruct (imitWrite_absorb m c Hm) as (m1 & -> & Hw & Ha). cbn [bind].
  destruct (IH m1 Hw) as (m2 & -> & Hw2 & Ha2). exists m2. split_and!; try done.
  now rewrite Ha2, Ha, foldl_app.
Qed.

(** *** Counters *)

(** The assertion of the reference engine: whole blocks, at most 1024 bytes. *)
Definition count_ok (c : Z) : Prop := 0 <= c <= meshThreshold /\ c mod 8 = 0.

Lemma count_ok_step c : count_ok c -> count_ok (c mod meshThreshold + Z.of_nat gostBlockSize).
Proof.
  unfold count_ok, meshThreshold, gostBlockSize. intros [Hr Hm].
  destruct (Z.eq_dec c 1024) as [->|]; [vm_compute; repeat split; congruence|]. rewrite Z.mod_small by lia.
  apply Z.mod_divide in Hm as [k ->]; [|lia]. change (Z.of_nat 8) with 8.
  split; [lia|]. replace (k * 8 + 8) with ((k + 1) * 8) by lia. apply Z_mod_mult.
Qed.

End IMIT_lemmas.

(** * The protector *)

Section Protector_lemmas.
Context {P : Primitives} {L : PrimitiveLaws P}.

Record imit_inv (m : gostIMIT) : Prop := {
  ii_wf : imit_wf m;
  ii_prev : len (imit_prev m) = 8;
  ii_count : count_ok (imit_count m)
}.

Record cnt_inv (s : gostCNT) : Prop := {
  ci_num : (cnt_num s < 8)%nat;
  ci_iv : len (cnt_iv s) = 8;
  ci_count : count_ok (cnt_count s)
}.

Definition gp_inv (p : gost28147Protector) : Prop := cnt_inv (gp_cnt p) /\ imit_inv (gp_imit p).

Lemma len_stepCounter b : len (stepCounter b) = len b.
Proof. do 9 (destruct b as [|? b]; [reflexivity|]). reflexivity. Qed.

Lemma nextGamma_inv s : cnt_inv s -> cnt_inv (nextGamma s).
Proof.
  intros [Hn Hi Hc]. split; [now rewrite nextGamma_num|..]; unfold nextGamma;
    cbn [cnt_iv cnt_count].
  - rewrite len_stepCounter. destruct (cnt_count s =? meshThreshold);
      cbn [cntMeshKey cnt_count cnt_iv cnt_cipher cnt_sbox];
      destruct (_ =? 0); rewrite ?g89Encrypt_len; rewrite ?g89Encrypt_len; done.
  - destruct (_ =? meshThreshold); cbn [cntMeshKey cnt_count]; now apply count_ok_step.
Qed.

Lemma cntBytes_inv s src : cnt_inv s -> cnt_inv (snd (cntBytes s src)).
Proof.
  revert s; induction src as [|x src IH]; intros s Hs; cbn [cntBytes]; [done|].
  assert (Hr : cnt_inv (cntReady s)) by (unfold cntReady; case_decide; [now apply nextGamma_inv|done]).
  cbn [cntTake]. specialize (IH (setNum (cntReady s) (wrap8 (S (cnt_num (cntReady s)))))).
  destruct (cntBytes _ src). cbn [snd] in *. apply IH. destruct Hr.
  split; cbn; [now apply wrap8_lt|done..].
Qed.

Lemma len_meshedKey s k : len (meshedKey s k) = 32.
Proof.
  unfold meshedKey. cbn [map concat]. rewrite !len_app, !g89Decrypt_len by reflexivity. done.
Qed.

Lemma processBlockMesh_inv m b :
  len (imit_prev m) = 8 -> count_ok (imit_count m) -> len b = 8 ->
  len (imit_prev (processBlockMesh m b)) = 8 /\ count_ok (imit_count (processBlockMesh m b)).
Proof.
  intros Hp Hc Hb. unfold processBlockMesh, macBlockEncrypt.
  destruct (_ =? _); cbn [imit_prev imit_count imitMeshKey].
  all: split; [apply g89SeqMAC_len; rewrite len_xorBytes; lia|now apply count_ok_step].
Qed.

(** Absorbing keeps the chaining block and the counter in range. *)
Lemma absorb_inv data m :
  len (imit_prev m) = 8 -> count_ok (imit_count m) -> length (imit_buf m) = imit_bufLen m ->
  (imit_bufLen m <= 8)%nat ->
  let m' := foldl absorbByte m data in
  len (imit_prev m') = 8 /\ count_ok (imit_count m').
Proof.
  revert m; induction data as [|x data IH]; intros m Hp Hc Hb Hl; cbn [foldl]; [done|].
  unfold absorbByte at 2 4. case_decide as E; unfold gostBlockSize in E.
  - destruct (processBlockMesh_inv m (imit_buf m) Hp Hc) as [Hp' Hc']; [unfold len; lia|].
    apply IH; cbn; (done || lia).
  - apply IH; cbn; try done; [rewrite length_app; cbn; lia|lia].
Qed.

Lemma imitWrite_inv m data :
  imit_inv m -> exists m', imitWrite m data = Ok m' /\ imit_inv m' /\
                           imitNorm m' = foldl absorbByte (imitNorm m) data.
Proof.
  intros [Hw Hp Hc]. destruct (imitWrite_absorb m data Hw) as (m' & -> & Hw' & Ha).
  exists m'. split; [done|]. split; [|done].
  destruct (absorb_inv data (imitNorm m)) as [Hp' Hc']; try done.
  - cbn. rewrite length_take. destruct Hw. lia.
  - apply Hw.
  - rewrite <- Ha in Hp', Hc'. now split.
Qed.

Lemma len_Finalize m : imit_inv m -> len (Finalize m) = 4.
Proof.
  intros [Hw Hp Hc]. unfold Finalize, gostMACSize.
  assert (Hz : forall b, (length b <= 8)%nat -> len (zeroPad b) = 8).
  { intros b Hb. unfold zeroPad, gostBlockSize. rewrite len_app, len_replicate. unfold len. lia. }
  assert (Hs : forall pr c b, len pr = 8 -> len b = 8 -> len (fst (processSnap m pr c b)) = 8).
  { intros pr c b H1 H2. unfold processSnap, macBlockEncrypt. cbn [fst].
    apply g89SeqMAC_len. rewrite len_xorBytes. lia. }
  assert (Hb : len (zeroPad (take (imit_bufLen m) (imit_buf m))) = 8)
    by (apply Hz; rewrite length_take; destruct Hw; lia).
  case_decide.
  - pose proof (Hs _ (imit_count m) _ Hp Hb) as H1.
    destruct (processSnap m _ _ _) as [pr c]. cbn [fst] in H1. destruct (_ && _).
    + pose proof (Hs _ c (replicate gostBlockSize Byte.x00) H1 eq_refl) as H2.
      destruct (processSnap m pr _ _). cbn [fst] in H2. rewrite len_take. lia.
    + rewrite len_take. lia.
  - destruct (_ && _) eqn:E; [|rewrite len_take; lia].
    apply andb_true_iff in E as [_ E%bool_decide_eq_true]. done.
Qed.

Lemma computeGOSTMAC_Ok m seq hdr plain :
  imit_inv m -> 3 <= len hdr ->
  exists tag m', computeGOSTMAC m seq hdr plain = Ok (tag, m') /\ len tag = 4 /\ imit_inv m'.
Proof.
  intros Hm Hh. unfold computeGOSTMAC. rewrite macAdditionalData_Ok by done. cbn [bind].
  destruct (imitWrite_inv m (bePut 8 seq ++ take 3 hdr ++ bePut 2 (u16 (len plain))) Hm)
    as (m1 & -> & H1 & _). cbn [bind].
  destruct (imitWrite_inv m1 plain H1) as (m2 & -> & H2 & _). cbn [bind].
  exists (Finalize m2), m2. split_and!; [done|now apply len_Finalize|done].
Qed.

Lemma computeGOSTMAC_hdr m seq hdr hdr' plain :
  3 <= len hdr -> 3 <= len hdr' -> take 3 hdr' = take 3 hdr ->
  computeGOSTMAC m seq hdr' plain = computeGOSTMAC m seq hdr plain.
Proof. intros. unfold computeGOSTMAC. rewrite !macAdditionalData_Ok by done. now rewrite H1. Qed.

Lemma gostSeal_Ok p seq hdr plain :
  gp_inv p -> 3 <= len hdr ->
  exists frag p', gostSeal p seq hdr plain = Ok (frag, p') /\
                  len frag = len plain + 4 /\ gp_inv p'.
Proof.
  intros [Hc Hi] Hh. unfold gostSeal.
  destruct (computeGOSTMAC_Ok (gp_imit p) seq hdr plain Hi Hh) as (tag & m' & -> & Ht & Hm').
  cbn [bind]. rewrite XORKeyStream_eq by apply Hc. cbn [bind].
  pose proof (cntBytes_inv (gp_cnt p) (plain ++ tag) Hc) as Hc'.
  pose proof (cntBytes_length (gp_cnt p) (plain ++ tag)) as Hl.
  destruct (cntBytes (gp_cnt p) (plain ++ tag)) as [o s']. cbn [fst snd] in *.
  eexists _, _. split; [done|]. split; [|done]. unfold len in *.
  rewrite Hl, length_app. lia.
Qed.

(** Opening accepts exactly what sealing produces, and both sides step alike. *)
Lemma gostOpen_inv p seq hdr frag plain p' :
  gp_inv p -> 3 <= len hdr ->
  gostOpen p seq hdr frag = (Ok plain, p') <-> gostSeal p seq hdr plain = Ok (frag, p').
Proof.
  intros [Hc Hi] Hh. unfold gostOpen, gostSeal, gostMACSize.
  rewrite XORKeyStream_eq by apply Hc.
  destruct (cntBytes (gp_cnt p) frag) as [buf s'] eqn:Eb.
  pose proof (cntBytes_length (gp_cnt p) frag) as Hl. rewrite Eb in Hl. cbn [fst] in Hl.
  assert (Hbl : len buf = len frag) by (unfold len; lia).
  apply cntBytes_invol in Eb as Ei. split.
  - destruct (_ <? _) eqn:E; [done|]. z_bool.
    rewrite slice_to, slice_from by lia. cbn [gp_imit].
    set (pl := take _ _). set (mac := drop _ _). intros H.
    destruct (computeGOSTMAC_Ok (gp_imit p) seq hdr pl Hi Hh) as (tag & m' & Hmac & Ht & Hm').
    rewrite Hmac in H. rewrite ConstantTimeCompare_eqb in H.
    destruct (bool_decide (mac = tag)) eqn:B; [|done]. cbn [negb] in H.
    apply bool_decide_eq_true in B. injection H as <- <-. rewrite Hmac. cbn [bind].
    rewrite XORKeyStream_eq by apply Hc. rewrite <- B.
    unfold pl, mac. rewrite take_drop, Ei. reflexivity.
  - intros H. destruct (computeGOSTMAC_Ok (gp_imit p) seq hdr plain Hi Hh)
      as (tag & m' & Hmac & Ht & Hm').
    rewrite Hmac in H. cbn [bind] in H. rewrite XORKeyStream_eq in H by apply Hc.
    destruct (cntBytes (gp_cnt p) (plain ++ tag)) as [o s2] eqn:Es. cbn [bind] in H.
    injection H as -> <-. pose proof (cntBytes_invol _ _ _ _ Es) as Ex. rewrite Eb in Ex.
    injection Ex as -> ->. rewrite <- Hbl, len_app. len_pose. z_if.
    rewrite slice_app_l by lia. rewrite slice_app_r by lia. cbn [gp_imit].
    rewrite Hmac, ConstantTimeCompare_eqb, bool_decide_true by done. reflexivity.
Qed.

Lemma gostOpen_Seal p seq hdr hdr' plain :
  gp_inv p -> 3 <= len hdr -> 3 <= len hdr' -> take 3 hdr' = take 3 hdr ->
  exists frag p', gostSeal p seq hdr plain = Ok (frag, p') /\ len frag = len plain + 4 /\
                  gostOpen p seq hdr' frag = (Ok plain, p') /\ gp_inv p'.
Proof.
  intros Hp Hh Hh' He. destruct (gostSeal_Ok p seq hdr plain Hp Hh) as (frag & p' & Hs & Hl & Hp').
  exists frag, p'. split_and!; try done. apply gostOpen_inv; [done..|].
  unfold gostSeal in *. rewrite (computeGOSTMAC_hdr _ _ hdr hdr') by done. done.
Qed.

Lemma gostOpen_keeps p seq hdr frag :
  gp_inv p -> 3 <= len hdr ->
  gp_inv (snd (gostOpen p seq hdr frag)) /\ safe (fst (gostOpen p seq hdr frag)).
Proof.
  intros [Hc Hi] Hh. unfold gostOpen, gostMACSize.
  destruct (_ <? _) eqn:E; [done|]. z_bool. rewrite XORKeyStream_eq by apply Hc.
  pose proof (cntBytes_inv (gp_cnt p) frag Hc) as Hc'.
  pose proof (cntBytes_length (gp_cnt p) frag) as Hl.
  destruct (cntBytes (gp_cnt p) frag) as [buf s']. cbn [fst snd] in *.
  assert (len buf = len frag) by (unfold len; lia).
  rewrite slice_to, slice_from by lia. cbn [gp_imit].
  destruct (computeGOSTMAC_Ok (gp_imit p) seq hdr (take (Z.to_nat (len buf - 4)) buf) Hi Hh)
    as (tag & m' & -> & _ & Hm').
  destruct (negb _); cbn [fst snd]; split; done.
Qed.

Lemma NewGOST28147Protector_inv ek mk iv sbox p :
  NewGOST28147Protector ek mk iv sbox = Ok p -> gp_inv p.
Proof.
  assert (H0 : count_ok 0) by (vm_compute; repeat split; congruence).
  unfold NewGOST28147Protector. intros H. res_inv. split; split; cbn; try done.
  - lia.
  - split; cbn; [done|lia].
Qed.

End Protector_lemmas.

(** * Properties *)

Section Properties.
Context {P : Primitives} {L : PrimitiveLaws P}.

(** The CNT keystream is a stream: cutting the data into two calls in any way
    gives the same bytes and the same final state as one call, and applying the
    stream again from the same state restores the data; no call runs out of its
    loop. *)
Theorem XORKeyStream_stream s a b :
  (cnt_num s < 8)%nat ->
  exists oa sa ob sb,
    XORKeyStream s a = Ok (oa, sa) /\ XORKeyStream sa b = Ok (ob, sb) /\
    XORKeyStream s (a ++ b) = Ok (oa ++ ob, sb) /\
    XORKeyStream s (oa ++ ob) = Ok (a ++ b, sb).
Proof.
  intros Hs. pose proof (cntBytes_num s a Hs) as Ha.
  rewrite !XORKeyStream_eq by done.
  pose proof (cntBytes_app s a b) as E.
  destruct (cntBytes s a) as [oa sa] eqn:Ea. cbn [snd] in Ha.
  destruct (cntBytes sa b) as [ob sb] eqn:Eb.
  exists oa, sa, ob, sb. rewrite !XORKeyStream_eq by done. rewrite E, Eb.
  split_and!; try done. now rewrite (cntBytes_invol _ _ _ _ E).
Qed.

(** C36. The IMIT tag depends only on the bytes written, not on how they were cut
    into [Write] calls: writing any list of chunks gives, up to stale buffer
    bytes, the state that one call with their concatenation gives, hence the same
    tag. *)
Theorem imitWrite_chunking m chunks :
  imit_wf m ->
  exists m1 m2, imitWrites m chunks = Ok m1 /\ imitWrite m (concat chunks) = Ok m2 /\
                m1 ≡ m2 /\ Finalize m1 = Finalize m2.
Proof.
  intros Hm. destruct (imitWrites_absorb chunks m Hm) as (m1 & -> & _ & H1).
  destruct (imitWrite_absorb m (concat chunks) Hm) as (m2 & -> & _ & H2).
  assert (E : m1 ≡ m2) by (unfold equiv, imit_equiv; congruence).
  exists m1, m2. split_and!; try done. now rewrite E.
Qed.

(** C34. GOST CNT/IMIT records: from any state both directions share, opening a
    fragment gives a plaintext exactly when sealing that plaintext gives the
    fragment, and both leave the two sides in the same next state, so the pair
    stays in step over any number of records. *)
Theorem gostOpen_iff_Seal p seq hdr frag plain p' :
  gp_inv p -> 3 <= len hdr ->
  gostOpen p seq hdr frag = (Ok plain, p') <-> gostSeal p seq hdr plain = Ok (frag, p').
Proof. apply gostOpen_inv. Qed.

(** Key meshing happens on time: the byte counters of the stream and of the
    MAC stay multiples of 8 not above 1024 (the assertion of the reference
    engine), from construction on and through every [Seal] and [Open], failed
    ones included; neither operation panics. *)
Theorem gost_counters_bounded ek mk iv sbox p0 :
  NewGOST28147Protector ek mk iv sbox = Ok p0 ->
  (count_ok (cnt_count (gp_cnt p0)) /\ count_ok (imit_count (gp_imit p0)) /\ gp_inv p0) /\
  forall p seq hdr data, gp_inv p -> 3 <= len hdr ->
    (exists frag p', gostSeal p seq hdr data = Ok (frag, p') /\ gp_inv p' /\
       count_ok (cnt_count (gp_cnt p')) /\ count_ok (imit_count (gp_imit p'))) /\
    (safe (fst (gostOpen p seq hdr data)) /\ gp_inv (snd (gostOpen p seq hdr data)) /\
       count_ok (cnt_count (gp_cnt (snd (gostOpen p seq hdr data)))) /\
       count_ok (imit_count (gp_imit (snd (gostOpen p seq hdr data))))).
Proof.
  intros H. apply NewGOST28147Protector_inv in H. split; [by destruct H as [[] []]|].
  intros p seq hdr data Hp Hh. split.
  - destruct (gostSeal_Ok p seq hdr data Hp Hh) as (frag & p' & Hs & _ & Hp').
    exists frag, p'. split; [done|]. split; [done|]. by destruct Hp' as [[] []].
  - destruct (gostOpen_keeps p seq hdr data Hp Hh) as [Hi Hs].
    split; [done|]. split; [done|]. by destruct Hi as [[] []].
Qed.

(** The trailing zero block of [Finalize] is never fed: for a MAC input of one
    to eight bytes the tag is the first four bytes of the single padded data
    block's MAC, whatever the comment on short inputs says, because the counter
    is already 8 when it is compared with 0. *)
Theorem Finalize_short_input key sbox data :
  1 <= len data <= 8 ->
  exists m, imitWrite (newGostIMIT key sbox) data = Ok m /\
    Finalize m = take 4 (g89SeqMAC sbox key
                   (xorBytes (replicate 8 Byte.x00) (zeroPad data))).
Proof.
  intros Hd. destruct (imitWrite_absorb (newGostIMIT key sbox) data) as (m & -> & _ & Ha);
    [split; cbn; lia|].
  exists m. split; [done|]. rewrite <- Finalize_norm, Ha, absorb_short by (cbn; unfold len in Hd; lia).
  unfold Finalize. cbn [imit_bufLen imitNorm newGostIMIT setBuf imit_buf imit_prev imit_count].
  rewrite decide_True by (unfold len in Hd; lia).
  rewrite take_0. cbn [app processSnap imit_sbox imit_cipher setBuf].
  change (0 =? meshThreshold) with false. cbn [andb Z.eqb].
  rewrite take_ge by (cbn; lia). reflexivity.
Qed.

(** The counter words of CNT step as RFC 5830 §6 has it: the low word adds
    0x01010101 modulo 2^32, the high word adds 0x01010104 modulo 2^32 - 1, the
    carry folded back in. *)
Theorem gamma_counter_step g :
  0 <= g < 2 ^ 32 ->
  gammaLo g = (g + 16843009) mod 2 ^ 32 /\
  0 <= gammaHi g < 2 ^ 32 /\
  gammaHi g mod (2 ^ 32 - 1) = (g + 16843012) mod (2 ^ 32 - 1).
Proof. intros H. split; [done|]. now apply gammaHi_mod. Qed.

End Properties.

(** ** Witnesses *)

#[local] Existing Instance Toy.prims.
#[local] Existing Instance Toy.laws.

Definition sampleGost : gost28147Protector :=
  {| gp_cnt := newGostCNT (repeat Byte.x11 32) SboxTC26Z (repeat Byte.x22 8);
     gp_imit := newGostIMIT (repeat Byte.x33 32) SboxTC26Z |}.

Lemma sampleGost_new :
  NewGOST28147Protector (repeat Byte.x11 32) (repeat Byte.x33 32) (repeat Byte.x22 8) SboxTC26Z
  = Ok sampleGost.
Proof. reflexivity. Qed.

Lemma XORKeyStream_stream_witness :
  exists oa sa ob sb,
    let s := gp_cnt sampleGost in let a := repeat Byte.x61 11 in let b := repeat Byte.x62 6 in
    XORKeyStream s a = Ok (oa, sa) /\ XORKeyStream sa b = Ok (ob, sb) /\
    XORKeyStream s (a ++ b) = Ok (oa ++ ob, sb) /\
    XORKeyStream s (oa ++ ob) = Ok (a ++ b, sb).
Proof. apply XORKeyStream_stream. cbn. lia. Defined.

Lemma imitWrite_chunking_witness :
  let chunks := [repeat Byte.x61 3; []; repeat Byte.x62 13; [Byte.x63]] in
  exists m1 m2, imitWrites (gp_imit sampleGost) chunks = Ok m1 /\
    imitWrite (gp_imit sampleGost) (concat chunks) = Ok m2 /\
    m1 ≡ m2 /\ Finalize m1 = Finalize m2.
Proof. apply imitWrite_chunking. split; cbn; lia. Defined.

Lemma gostOpen_iff_Seal_witness :
  exists frag p', gostSeal sampleGost 1 sampleHdr [Byte.x61; Byte.x62] = Ok (frag, p') /\
                  gostOpen sampleGost 1 sampleHdr frag = (Ok [Byte.x61; Byte.x62], p').
Proof.
  eexists _, _. split; [reflexivity|].
  apply gostOpen_iff_Seal; [exact (NewGOST28147Protector_inv _ _ _ _ _ sampleGost_new)
    |vm_compute; congruence|reflexivity].
Defined.

Lemma gost_counters_bounded_witness :
  count_ok (imit_count (gp_imit sampleGost)) /\
  safe (fst (gostOpen sampleGost 0 sampleHdr [Byte.x00])).
Proof.
  destruct (gost_counters_bounded _ _ _ _ _ sampleGost_new) as [(_ & Hi & Hp) H].
  split; [exact Hi|]. apply (H sampleGost 0 sampleHdr [Byte.x00] Hp).
  vm_compute. congruence.
Defined.

Lemma Finalize_short_input_witness :
  exists m, imitWrite (newGostIMIT [Byte.x05] SboxCryptoProA) (repeat Byte.x61 5) = Ok m /\
    Finalize m = take 4 (g89SeqMAC SboxCryptoProA [Byte.x05]
                   (xorBytes (replicate 8 Byte.x00) (zeroPad (repeat Byte.x61 5)))).
Proof. apply Finalize_short_input. vm_compute. split; congruence. Defined.

Lemma gamma_counter_step_witness :
  gammaLo 4294967295 = 16843008 /\ gammaHi 4294967295 mod (2 ^ 32 - 1) = 16843012.
Proof.
  pose proof (gamma_counter_step 4294967295 ltac:(lia)) as (H1 & _ & H2).
  rewrite H1, H2. split; reflexivity.
Defined.
