(* ===== verification/ProtectionCtrOmac.v ===== *)
(** * Kuznyechik and Magma CTR-OMAC ([internal/record/protection_ctromac_gost.go])

    The RFC 9367 protectors: per-record keys from TLSTREE, a counter built from
    the fixed IV and the sequence number ([adjustIV]), OMAC over the plaintext,
    then CTR over plaintext and tag.  No state is kept between records. *)

From Stdlib Require Import ZArith Lia.
From stdpp Require Import base list strings.
From S2P Require Import Prelude Errors Primitives Protection.

Open Scope Z_scope.

Definition kuznyechikKeySize : Z := 32.
Definition magmaKeySize : Z := 32.
Definition kuznyechikIVLen : Z := 8.
Definition magmaIVLen : Z := 4.
Definition kuznyechikACPKMSection : Z := 4096.
Definition magmaACPKMSection : Z := 1024.
Definition seqBytesLen : Z := 8.
Definition byteCarryShift : Z := 8.
Definition byteMask : Z := 255.

(** [newBlock] is the block cipher; a [*gost.TLSTree] is its root key. *)
Record ctrOMACProtector := {
  newBlock : BlockCipher;
  co_blockSize : Z;
  tagSize : Z;
  origIV : bytes;
  encTree : bytes;
  macTree : bytes;
  acpkmSection : Z
}.

Definition NewKuznyechikCTROMACProtector (ek mk iv : bytes) : result ctrOMACProtector :=
  if negb (len ek =? kuznyechikKeySize) then
    Err (fatalRecordError "KuznyechikCTROMAC enc key must be 32 bytes")
  else if negb (len mk =? kuznyechikKeySize) then
    Err (fatalRecordError "KuznyechikCTROMAC mac key must be 32 bytes")
  else if negb (len iv =? kuznyechikIVLen) then
    Err (fatalRecordError "KuznyechikCTROMAC iv must be 8 bytes")
  else
    Ok {| newBlock := Kuznyechik;
          co_blockSize := cipherBlockSize Kuznyechik;
          tagSize := cipherBlockSize Kuznyechik;
          origIV := iv; encTree := ek; macTree := mk;
          acpkmSection := kuznyechikACPKMSection |}.

Definition NewMagmaCTROMACProtector (ek mk iv : bytes) : result ctrOMACProtector :=
  if negb (len ek =? magmaKeySize) then
    Err (fatalRecordError "MagmaCTROMAC enc key must be 32 bytes")
  else if negb (len mk =? magmaKeySize) then
    Err (fatalRecordError "MagmaCTROMAC mac key must be 32 bytes")
  else if negb (len iv =? magmaIVLen) then
    Err (fatalRecordError "MagmaCTROMAC iv must be 4 bytes")
  else
    Ok {| newBlock := Magma;
          co_blockSize := cipherBlockSize Magma;
          tagSize := cipherBlockSize Magma;
          origIV := iv; encTree := ek; macTree := mk;
          acpkmSection := magmaACPKMSection |}.

(** [for j := origIVLen - 1; j >= 0; j--] of [adjustIV]; [S j] indices left. *)
Fixpoint adjustLoop (j : nat) (out seqBytes : bytes) (seqStart carry : Z) : result bytes :=
  match j with
  | O => Ok out
  | S j =>
    let* o := index out (Z.of_nat j) in
    let* s := index seqBytes (seqStart + Z.of_nat j) in
    let v := b2z o + b2z s + carry in
    let carry := Z.shiftr v byteCarryShift in
    adjustLoop j (<[j := z2b (Z.land v byteMask)]> out) seqBytes seqStart carry
  end.

Definition adjustIV (p : ctrOMACProtector) (seq : Z) : result bytes :=
  let out := origIV p ++ replicate (Z.to_nat (co_blockSize p - len (origIV p))) Byte.x00 in
  let seqBytes := bePut 8 seq in
  let origIVLen := len (origIV p) in
  let seqStart := seqBytesLen - origIVLen in
  adjustLoop (length (origIV p)) out seqBytes seqStart 0.

Definition macHeaderForOMAC (hdr : bytes) (plainLen : Z) : result bytes :=
  let* h0 := index hdr 0 in
  let* h1 := index hdr 1 in
  let* h2 := index hdr 2 in
  Ok ([h0; h1; h2] ++ bePut 2 (u16 plainLen)).

(** [XORKeyStream] of a fresh CTR-ACPKM stream. *)
Definition xorStream (ks : nat -> byte) (buf : bytes) : bytes :=
  imap (fun i x => bxor x (ks i)) buf.

Section Operations.
Context `{Primitives}.

Definition ctrOMACSeal (p : ctrOMACProtector) (seq : Z) (hdr plain : bytes) : result bytes :=
  let encKey := tlsTree (newBlock p) (encTree p) seq in
  let macKey := tlsTree (newBlock p) (macTree p) seq in
  match newOMAC (newBlock p) macKey (tagSize p) with
  | None => Err (fatalRecordError "ctrOMACProtector Seal OMAC init")
  | Some omac =>
    let seqBytes := bePut 8 seq in
    let* macHdr := macHeaderForOMAC hdr (len plain) in
    let tag := omac (seqBytes ++ macHdr ++ plain) in
    let* iv := adjustIV p seq in
    match newCTRACPKM (newBlock p) encKey iv (acpkmSection p) with
    | None => Err (fatalRecordError "ctrOMACProtector Seal CTR init")
    | Some ctr => Ok (xorStream ctr (plain ++ tag))
    end
  end.

Definition ctrOMACOpen (p : ctrOMACProtector) (seq : Z) (hdr fragment : bytes) : result bytes :=
  if len fragment <? tagSize p then Err (NewFatalAlertError AlertBadRecordMAC)
  else
    let encKey := tlsTree (newBlock p) (encTree p) seq in
    let macKey := tlsTree (newBlock p) (macTree p) seq in
    let* iv := adjustIV p seq in
    match newCTRACPKM (newBlock p) encKey iv (acpkmSection p) with
    | None => Err (fatalRecordError "ctrOMACProtector Open CTR init")
    | Some ctr =>
      let buf := xorStream ctr fragment in
      let plainEnd := len buf - tagSize p in
      let* plain := slice buf 0 plainEnd in
      let* gotTag := slice buf plainEnd (len buf) in
      match newOMAC (newBlock p) macKey (tagSize p) with
      | None => Err (fatalRecordError "ctrOMACProtector Open OMAC init")
      | Some omac =>
        let seqBytes := bePut 8 seq in
        let* macHdr := macHeaderForOMAC hdr plainEnd in
        let expectedTag := omac (seqBytes ++ macHdr ++ plain) in
        if negb (ConstantTimeCompare gotTag expectedTag =? 1)
        then Err (NewFatalAlertError AlertBadRecordMAC)
        else Ok plain
      end
    end.

End Operations.

(** The loop does not look behind the sequence bytes it adds. *)
Lemma adjustLoop_indep n (pre sp t out : bytes) carry :
  (n <= length sp)%nat ->
  adjustLoop n out (pre ++ sp ++ t) (len pre) carry = adjustLoop n out (pre ++ sp) (len pre) carry.
Proof.
  rewrite app_assoc. revert out carry. induction n as [|n IHn]; intros out c Hle; [done|].
  cbn [adjustLoop].
  replace (index (E := error) ((pre ++ sp) ++ t) (len pre + Z.of_nat n))
    with (index (E := error) (pre ++ sp) (len pre + Z.of_nat n)).
  2:{ unfold index. rewrite (proj2 (Z.leb_le _ _)) by (len_pose; lia).
      rewrite (lookup_app_l (pre ++ sp)); [done|]. rewrite length_app. unfold len. lia. }
  destruct (index out _); [|done..]. cbn [bind].
  destruct (index (pre ++ sp) _); [|done..]. cbn [bind]. apply IHn. lia.
Qed.

(** * The per-record counter *)

Lemma adjustLoop_spec (a sp pre tail : bytes) carry :
  length a = length sp -> 0 <= carry ->
  adjustLoop (length a) (a ++ tail) (pre ++ sp) (len pre) carry
  = Ok (bePut (length a) (beUint a + beUint sp + carry) ++ tail).
Proof.
  revert sp tail carry. induction a as [|x a IH] using rev_ind; intros sp tail carry Hl Hc.
  { reflexivity. }
  destruct sp as [|y sp _] using rev_ind; [rewrite length_app in Hl; cbn in Hl; lia|].
  assert (Hl' : length a = length sp) by (rewrite !length_app in Hl; cbn in Hl; lia).
  rewrite !length_app. cbn [length]. rewrite Nat.add_1_r.
  cbn [adjustLoop bePut]. rewrite <- app_assoc.
  replace (index (E := error) (a ++ [x] ++ tail) (Z.of_nat (length a))) with (Ok (E := error) x).
  2:{ unfold index. rewrite (proj2 (Z.leb_le _ _)) by lia. rewrite Nat2Z.id.
      cbn [app]. now rewrite list_lookup_middle. }
  cbn [bind]. rewrite app_assoc.
  replace (index (E := error) ((pre ++ sp) ++ [y]) (len pre + Z.of_nat (length a)))
    with (Ok (E := error) y).
  2:{ unfold index. rewrite (proj2 (Z.leb_le _ _)) by (len_pose; lia).
      replace (Z.to_nat (len pre + Z.of_nat (length a))) with (length (pre ++ sp))
        by (rewrite length_app; unfold len; lia). now rewrite list_lookup_middle. }
  cbn [bind]. set (v := b2z x + b2z y + carry).
  pose proof (b2z_range x). pose proof (b2z_range y).
  rewrite insert_app_r_alt, Nat.sub_diag by lia. cbn [app insert list_insert].
  rewrite <- app_assoc. unfold byteCarryShift.
  rewrite adjustLoop_indep by lia.
  rewrite IH by (done || apply Z.shiftr_nonneg; lia). f_equal.
  rewrite !beUint_app. change (len [x]) with 1. change (len [y]) with 1. rewrite !Z.pow_1_r.
  rewrite !beUint1, <- app_assoc.
  rewrite !Z.shiftr_div_pow2 by lia. change (2 ^ 8) with 256. f_equal.
  - f_equal. replace (_ + carry) with (v + (beUint a + beUint sp) * 256) by (unfold v; lia).
    rewrite Z.div_add by lia. lia.
  - cbn [app]. f_equal. apply b2z_inj. rewrite !b2z_z2b. unfold byteMask.
    change 255 with (Z.ones 8). rewrite Z.land_ones by lia. change (2 ^ 8) with 256.
    rewrite Z.mod_mod by lia.
    replace (_ + carry) with (v + (beUint a + beUint sp) * 256) by (unfold v; lia).
    now rewrite Z_mod_plus_full.
Qed.

(** What the two constructors establish. *)
Record ctr_ok (p : ctrOMACProtector) : Prop := {
  ck_block : co_blockSize p = cipherBlockSize (newBlock p);
  ck_tag : tagSize p = cipherBlockSize (newBlock p);
  ck_iv : 2 * len (origIV p) = cipherBlockSize (newBlock p);
  ck_enc : len (encTree p) = 32;
  ck_mac : len (macTree p) = 32;
  ck_section : 0 < acpkmSection p /\ acpkmSection p mod cipherBlockSize (newBlock p) = 0
}.

Lemma NewKuznyechik_ok ek mk iv p : NewKuznyechikCTROMACProtector ek mk iv = Ok p -> ctr_ok p.
Proof.
  unfold NewKuznyechikCTROMACProtector, kuznyechikIVLen, kuznyechikKeySize. intros H. res_inv.
  split; cbn; try done; lia.
Qed.

Lemma NewMagma_ok ek mk iv p : NewMagmaCTROMACProtector ek mk iv = Ok p -> ctr_ok p.
Proof.
  unfold NewMagmaCTROMACProtector, magmaIVLen, magmaKeySize. intros H. res_inv.
  split; cbn; try done; lia.
Qed.

Lemma bePut_split n m v : bePut (n + m) v = bePut n (Z.shiftr v (8 * Z.of_nat m)) ++ bePut m v.
Proof.
  revert v; induction m as [|m IH]; intros v.
  - rewrite Nat.add_0_r, app_nil_r. now rewrite Z.shiftr_0_r.
  - rewrite Nat.add_succ_r. cbn [bePut]. rewrite IH, Z.shiftr_shiftr by lia.
    replace (8 * Z.of_nat (S m)) with (8 + 8 * Z.of_nat m) by lia. now rewrite app_assoc.
Qed.

Lemma bePut_mod_eq n v w :
  v mod 256 ^ Z.of_nat n = w mod 256 ^ Z.of_nat n -> bePut n v = bePut n w.
Proof.
  intros E. apply beUint_inj; [now rewrite !length_bePut|]. now rewrite !beUint_bePut.
Qed.

Lemma adjustIV_eq p seq :
  len (origIV p) <= 8 ->
  adjustIV p seq
  = Ok (bePut (length (origIV p)) (beUint (origIV p) + seq)
        ++ replicate (Z.to_nat (co_blockSize p - len (origIV p))) Byte.x00).
Proof.
  intros Hl. unfold adjustIV, seqBytesLen.
  set (n := length (origIV p)). assert (Hn : (n <= 8)%nat) by (unfold n, len in *; lia).
  replace (bePut 8 seq) with (bePut (8 - n) (Z.shiftr seq (8 * Z.of_nat n)) ++ bePut n seq)
    by (rewrite <- bePut_split; f_equal; lia).
  replace (8 - len (origIV p)) with (len (bePut (8 - n) (Z.shiftr seq (8 * Z.of_nat n))))
    by (rewrite len_bePut; unfold n, len; lia).
  unfold n at 1. rewrite adjustLoop_spec; [|now rewrite length_bePut|lia]. fold n.
  do 2 f_equal. apply bePut_mod_eq. rewrite Z.add_0_r, beUint_bePut.
  rewrite Z.add_mod_idemp_r; [done|]. apply Z.pow_nonzero; lia.
Qed.

Lemma xorStream_invol ks b : xorStream ks (xorStream ks b) = b.
Proof.
  unfold xorStream. revert ks; induction b as [|x b IH]; intros ks; [done|]. cbn.
  rewrite bxor_invol. f_equal. apply (IH (fun i => ks (S i))).
Qed.

Lemma len_xorStream ks b : len (xorStream ks b) = len b.
Proof. unfold len, xorStream. now rewrite length_imap. Qed.

Section Lemmas.
Context {P : Primitives} {L : PrimitiveLaws P}.

Lemma macHeaderForOMAC_Ok hdr n :
  3 <= len hdr -> macHeaderForOMAC hdr n = Ok (take 3 hdr ++ bePut 2 (u16 n)).
Proof. intros H. do 3 (destruct hdr as [|? hdr]; [len_lia|]). reflexivity. Qed.

(** The pieces a record is made of exist. *)
Lemma ctr_pieces p seq :
  ctr_ok p ->
  exists omac iv ctr,
    newOMAC (newBlock p) (tlsTree (newBlock p) (macTree p) seq) (tagSize p) = Some omac /\
    (forall m, len (omac m) = tagSize p) /\ adjustIV p seq = Ok iv /\
    newCTRACPKM (newBlock p) (tlsTree (newBlock p) (encTree p) seq) iv (acpkmSection p) = Some ctr.
Proof.
  intros [Hb Ht Hi He Hm [Hs1 Hs2]].
  assert (Hbs : cipherBlockSize (newBlock p) <= 16) by (destruct (newBlock p); cbn; lia).
  destruct (newOMAC_ok (newBlock p) (tlsTree (newBlock p) (macTree p) seq)) as (omac & Ho & Hlen);
    [now apply tlsTree_len|].
  pose proof (adjustIV_eq p seq ltac:(lia)) as Hiv.
  edestruct (newCTRACPKM_ok (newBlock p) (tlsTree (newBlock p) (encTree p) seq)) as [ctr Hc];
    [now apply tlsTree_len| |exact Hs1|exact Hs2|].
  2:{ exists omac; eexists; exists ctr. rewrite Ht. split_and!; [done|done|exact Hiv|exact Hc]. }
  rewrite len_app, len_bePut, len_replicate, Hb. unfold len in *. lia.
Qed.

Lemma ctrOMACOpen_inv p seq hdr frag plain :
  ctr_ok p -> 3 <= len hdr ->
  ctrOMACOpen p seq hdr frag = Ok plain <-> ctrOMACSeal p seq hdr plain = Ok frag.
Proof.
  intros Hp Hh. destruct (ctr_pieces p seq Hp) as (omac & iv & ctr & Ho & Hol & Hiv & Hc).
  assert (Ht : 0 < tagSize p) by (rewrite (ck_tag _ Hp); destruct (newBlock p); cbn; lia).
  unfold ctrOMACOpen, ctrOMACSeal. rewrite Hiv, Ho. cbn [bind].
  rewrite macHeaderForOMAC_Ok by done. cbn [bind]. rewrite Hc. split.
  - destruct (_ <? _) eqn:E; [done|]. z_bool. rewrite len_xorStream.
    rewrite slice_to by (rewrite len_xorStream; lia). cbn [bind].
    rewrite <- (len_xorStream ctr frag), slice_from by (rewrite len_xorStream; lia). cbn [bind].
    rewrite macHeaderForOMAC_Ok by done. cbn [bind].
    rewrite ConstantTimeCompare_eqb. destruct (bool_decide _) eqn:B; [|done].
    apply bool_decide_eq_true in B. intros [= <-].
    rewrite !len_take, !len_xorStream, Z2Nat.id, Z.min_l in * by lia.
    rewrite <- B, take_drop, xorStream_invol. done.
  - intros [= <-]. rewrite !len_xorStream, len_app, Hol. len_pose. z_if.
    rewrite xorStream_invol.
    replace (len plain + tagSize p - tagSize p) with (len plain) by lia.
    rewrite slice_app_l by done. cbn [bind].
    rewrite slice_app_r by (rewrite ?Hol; done). cbn [bind].
    rewrite macHeaderForOMAC_Ok by done. cbn [bind].
    rewrite ConstantTimeCompare_eqb, bool_decide_true by done. reflexivity.
Qed.

Lemma ctrOMACOpen_Seal p seq hdr hdr' plain :
  ctr_ok p -> 3 <= len hdr -> 3 <= len hdr' -> take 3 hdr' = take 3 hdr ->
  exists frag, ctrOMACSeal p seq hdr plain = Ok frag /\ len frag = len plain + tagSize p /\
               ctrOMACOpen p seq hdr' frag = Ok plain.
Proof.
  intros Hp Hh Hh' He. destruct (ctr_pieces p seq Hp) as (omac & iv & ctr & Ho & Hol & Hiv & Hc).
  assert (Hs : ctrOMACSeal p seq hdr' plain = ctrOMACSeal p seq hdr plain).
  { unfold ctrOMACSeal. now rewrite !macHeaderForOMAC_Ok, He by done. }
  destruct (ctrOMACSeal p seq hdr plain) as [frag| |] eqn:E.
  - exists frag. split; [done|]. split; [|apply ctrOMACOpen_inv; done].
    unfold ctrOMACSeal in E. rewrite Ho, Hiv, macHeaderForOMAC_Ok in E by done. cbn [bind] in E.
    rewrite Hc in E. injection E as <-. rewrite len_xorStream, len_app, Hol. done.
  - exfalso. unfold ctrOMACSeal in E. rewrite Ho, Hiv, macHeaderForOMAC_Ok in E by done.
    cbn [bind] in E. now rewrite Hc in E.
  - exfalso. unfold ctrOMACSeal in E. rewrite Ho, Hiv, macHeaderForOMAC_Ok in E by done.
    cbn [bind] in E. now rewrite Hc in E.
Qed.

(** No fragment makes [Open] panic. *)
Lemma ctrOMACOpen_safe p seq hdr frag :
  ctr_ok p -> 3 <= len hdr -> safe (ctrOMACOpen p seq hdr frag).
Proof.
  intros Hp Hh. destruct (ctr_pieces p seq Hp) as (omac & iv & ctr & Ho & Hol & Hiv & Hc).
  assert (Ht : 0 < tagSize p) by (rewrite (ck_tag _ Hp); destruct (newBlock p); cbn; lia).
  unfold ctrOMACOpen. rewrite Hiv, Ho. cbn [bind]. rewrite Hc.
  destruct (_ <? _) eqn:E; [done|]. z_bool. rewrite len_xorStream.
  rewrite slice_to by (rewrite len_xorStream; lia). cbn [bind].
  rewrite <- (len_xorStream ctr frag), slice_from by (rewrite len_xorStream; lia). cbn [bind].
  rewrite macHeaderForOMAC_Ok by done. cbn [bind]. now destruct (negb _).
Qed.

End Lemmas.

(** * Properties *)

Section Properties.
Context {P : Primitives} {L : PrimitiveLaws P}.

(** [adjustIV]'s byte-wise carry loop is big-endian addition: the counter is
    the fixed IV plus the sequence number modulo 256^n on the n IV bytes,
    followed by zero bytes up to the block; so the counters of two records
    whose sequence numbers differ modulo 256^n differ. *)
Theorem adjustIV_addition p seq :
  ctr_ok p -> 0 <= seq < 2 ^ 64 ->
  let n := length (origIV p) in
  exists iv, adjustIV p seq = Ok iv /\ len iv = co_blockSize p /\
    beUint (take n iv) = (beUint (origIV p) + seq) mod 256 ^ Z.of_nat n /\
    drop n iv = replicate n Byte.x00 /\
    forall seq' iv', 0 <= seq' < 2 ^ 64 -> adjustIV p seq' = Ok iv' ->
      seq mod 256 ^ Z.of_nat n <> seq' mod 256 ^ Z.of_nat n -> iv <> iv'.
Proof.
  intros Hp Hs n. assert (Hl : len (origIV p) <= 8).
  { pose proof (ck_iv _ Hp). destruct (newBlock p); cbn in *; lia. }
  rewrite adjustIV_eq by done. fold n. eexists. split; [done|].
  assert (Hb : co_blockSize p = 2 * len (origIV p)) by (rewrite (ck_block _ Hp), (ck_iv _ Hp); done).
  split; [rewrite len_app, len_bePut, len_replicate, Hb; unfold n, len; lia|].
  rewrite take_app_length' by now rewrite length_bePut.
  rewrite drop_app_length' by now rewrite length_bePut.
  split; [apply beUint_bePut|].
  split; [f_equal; rewrite Hb; unfold n, len; lia|].
  intros seq' iv' Hs'. rewrite adjustIV_eq by done. fold n. intros [= <-] Hne E.
  apply app_inv_tail in E. apply (f_equal beUint) in E. rewrite !beUint_bePut in E.
  apply Hne.
  assert (F : ((beUint (origIV p) + seq) - beUint (origIV p)) mod 256 ^ Z.of_nat n
            = ((beUint (origIV p) + seq') - beUint (origIV p)) mod 256 ^ Z.of_nat n)
    by (now rewrite Zminus_mod, E, <- Zminus_mod).
  replace (beUint (origIV p) + seq - beUint (origIV p)) with seq in F by lia.
  now replace (beUint (origIV p) + seq' - beUint (origIV p)) with seq' in F by lia.
Qed.

(** C35. CTR-OMAC records: [Open] returns a plaintext exactly when [Seal] of that
    plaintext at the same sequence number and header gives the fragment, and no
    fragment makes it panic. *)
Theorem ctrOMACOpen_iff_Seal p seq hdr frag plain :
  ctr_ok p -> 3 <= len hdr ->
  (ctrOMACOpen p seq hdr frag = Ok plain <-> ctrOMACSeal p seq hdr plain = Ok frag) /\
  safe (ctrOMACOpen p seq hdr frag).
Proof. intros. split; [now apply ctrOMACOpen_inv|now apply ctrOMACOpen_safe]. Qed.

End Properties.

(** ** Witnesses *)

#[local] Existing Instance Toy.prims.
#[local] Existing Instance Toy.laws.

Definition sampleMagma : ctrOMACProtector :=
  {| newBlock := Magma; co_blockSize := 8; tagSize := 8; origIV := repeat Byte.xff 4;
     encTree := repeat Byte.x01 32; macTree := repeat Byte.x02 32; acpkmSection := 1024 |}.

Lemma sampleMagma_ok : ctr_ok sampleMagma.
Proof. split; try reflexivity. split; reflexivity. Qed.

Lemma adjustIV_addition_witness :
  exists iv, adjustIV sampleMagma 3 = Ok iv /\ beUint (take 4 iv) = 2.
Proof.
  destruct (adjustIV_addition sampleMagma 3 sampleMagma_ok ltac:(lia)) as (iv & H & _ & Hv & _).
  exists iv. split; [exact H|]. exact Hv.
Defined.

Lemma ctrOMACOpen_iff_Seal_witness :
  exists frag, ctrOMACSeal sampleMagma 1 sampleHdr [Byte.x61] = Ok frag /\
               ctrOMACOpen sampleMagma 1 sampleHdr frag = Ok [Byte.x61].
Proof.
  eexists. split; [reflexivity|].
  apply (ctrOMACOpen_iff_Seal sampleMagma 1 sampleHdr); [exact sampleMagma_ok|vm_compute; congruence|].
  reflexivity.
Defined.
