(* ===== verification/State.v ===== *)
(** * State and errors

    Go methods that mutate their receiver and may fail: a function from the
    state to a result and the state after the call, which is there whether the
    call succeeded or not.  The transport ([io.ReadWriter]) the record layer
    works on is the state at the bottom. *)

From Stdlib Require Import ZArith Lia.
From stdpp Require Import base list strings.
From S2P Require Import Prelude Errors Primitives.

Open Scope Z_scope.

(** ** The monad *)

Definition M (S A : Type) : Type := S -> result A * S.

Definition ret {S A} (a : A) : M S A := fun s => (Ok a, s).
Definition fail {S A} (e : error) : M S A := fun s => (Err e, s).
Definition lift {S A} (r : result A) : M S A := fun s => (r, s).
Definition get {S} : M S S := fun s => (Ok s, s).
Definition modify {S} (f : S -> S) : M S unit := fun s => (Ok tt, f s).

Definition bindM {S A B} (m : M S A) (k : A -> M S B) : M S B := fun s =>
  match m s with
  | (Ok a, s) => k a s
  | (Err e, s) => (Err e, s)
  | (Crash c, s) => (Crash c, s)
  end.

(** [if err != nil { ...h... }]: run [h] on the error. *)
Definition catch {S A} (m : M S A) (h : error -> M S A) : M S A := fun s =>
  match m s with
  | (Err e, s) => h e s
  | r => r
  end.

(** Run an operation of a part of the state. *)
Definition zoom {S T A} (proj : S -> T) (upd : T -> S -> S) (m : M T A) : M S A := fun s =>
  let '(r, t) := m (proj s) in (r, upd t s).

Declare Scope state_scope.
Delimit Scope state_scope with state.
Notation "'let!' x ':=' m 'in' k" := (bindM m (fun x => k))
  (at level 10, x pattern, m at level 100, k at level 200) : state_scope.
Notation "m ';;' k" := (bindM m (fun _ => k))
  (at level 100, right associativity) : state_scope.
Open Scope state_scope.

(** ** Reasoning

    [mspec P m Q E]: from a state in [P], [m] neither panics nor loops, ends in
    [Q] with its result, or fails in [E] with its error. *)

Definition mspec {S A} (P : S -> Prop) (m : M S A) (Q : A -> S -> Prop) (E : error -> S -> Prop)
  : Prop :=
  forall s, P s ->
    match m s with
    | (Ok a, s') => Q a s'
    | (Err e, s') => E e s'
    | (Crash _, _) => False
    end.

Lemma mspec_ret {S A} (P : S -> Prop) (a : A) (Q : A -> S -> Prop) E :
  (forall s, P s -> Q a s) -> mspec P (ret a) Q E.
Proof. intros H s Hs. now apply H. Qed.

Lemma mspec_fail {S A} (P : S -> Prop) e (Q : A -> S -> Prop) (E : error -> S -> Prop) :
  (forall s, P s -> E e s) -> mspec P (fail e) Q E.
Proof. intros H s Hs. now apply H. Qed.

Lemma mspec_lift {S A} (P : S -> Prop) (r : result A) (Q : A -> S -> Prop) E :
  safe r -> (forall a s, r = Ok a -> P s -> Q a s) -> (forall e s, r = Err e -> P s -> E e s) ->
  mspec P (lift r) Q E.
Proof. intros Hr HQ HE s Hs. unfold lift. destruct r; cbn; eauto. Qed.

Lemma mspec_bind {S A B} (P : S -> Prop) (m : M S A) (k : A -> M S B) (R : A -> S -> Prop) Q E :
  mspec P m R E -> (forall a, mspec (R a) (k a) Q E) -> mspec P (bindM m k) Q E.
Proof.
  intros Hm Hk s Hs. specialize (Hm s Hs). unfold bindM.
  destruct (m s) as [[a|e|c] s']; [|done..]. now apply Hk.
Qed.

Lemma mspec_catch {S A} (P : S -> Prop) (m : M S A) h Q (R : error -> S -> Prop) E :
  mspec P m Q R -> (forall e, mspec (R e) (h e) Q E) -> mspec P (catch m h) Q E.
Proof.
  intros Hm Hk s Hs. specialize (Hm s Hs). unfold catch.
  destruct (m s) as [[a|e|c] s']; [done| |done]. now apply Hk.
Qed.

Lemma mspec_weaken {S A} (P P' : S -> Prop) (m : M S A) (Q Q' : A -> S -> Prop)
  (E E' : error -> S -> Prop) :
  mspec P' m Q' E' -> (forall s, P s -> P' s) -> (forall a s, Q' a s -> Q a s) ->
  (forall e s, E' e s -> E e s) -> mspec P m Q E.
Proof.
  intros Hm HP HQ HE s Hs. specialize (Hm s (HP s Hs)).
  destruct (m s) as [[a|e|c] s']; eauto.
Qed.

Lemma bindM_Ok {S A B} (m : M S A) (k : A -> M S B) s b s' :
  bindM m k s = (Ok b, s') <-> exists a s1, m s = (Ok a, s1) /\ k a s1 = (Ok b, s').
Proof. unfold bindM. destruct (m s) as [[] ?]; naive_solver. Qed.

(** [wp m Q E s]: [mspec] at one state. *)
Definition wp {S A} (m : M S A) (Q : A -> S -> Prop) (E : error -> S -> Prop) (s : S) : Prop :=
  match m s with
  | (Ok a, s') => Q a s'
  | (Err e, s') => E e s'
  | (Crash _, _) => False
  end.

Section Wp.
Context {S : Type}.
Implicit Types s : S.

Lemma wp_mono {A} (m : M S A) (Q Q' : A -> S -> Prop) (E E' : error -> S -> Prop) s :
  wp m Q' E' s -> (forall a s', Q' a s' -> Q a s') -> (forall e s', E' e s' -> E e s') ->
  wp m Q E s.
Proof. unfold wp. intros H HQ HE. destruct (m s) as [[] ?]; eauto. Qed.

Lemma wp_ret {A} (a : A) (Q : A -> S -> Prop) E s : Q a s -> wp (ret a) Q E s.
Proof. done. Qed.

Lemma wp_fail {A} e (Q : A -> S -> Prop) (E : error -> S -> Prop) s : E e s -> wp (fail e) Q E s.
Proof. done. Qed.

Lemma wp_get (Q : S -> S -> Prop) E s : Q s s -> wp get Q E s.
Proof. done. Qed.

Lemma wp_modify f (Q : unit -> S -> Prop) E s : Q tt (f s) -> wp (modify f) Q E s.
Proof. done. Qed.

Lemma wp_lift {A} (r : result A) (Q : A -> S -> Prop) (E : error -> S -> Prop) s :
  safe r -> (forall a, r = Ok a -> Q a s) -> (forall e, r = Err e -> E e s) -> wp (lift r) Q E s.
Proof. unfold wp, lift. destruct r; cbn; eauto. Qed.

Lemma wp_index {A} (l : list A) i (Q : A -> S -> Prop) E s :
  0 <= i < len l -> (forall a, index (E := error) l i = Ok a -> Q a s) -> wp (lift (index l i)) Q E s.
Proof.
  intros Hi HQ. destruct (index_get (E := error) l i Hi) as (x & Hx & _).
  apply wp_lift; [now rewrite Hx|done|congruence].
Qed.

Lemma wp_slice {A} (l : list A) lo hi (Q : list A -> S -> Prop) E s :
  0 <= lo -> lo <= hi -> hi <= len l -> (forall a, slice (E := error) l lo hi = Ok a -> Q a s) ->
  wp (lift (slice l lo hi)) Q E s.
Proof.
  intros H1 H2 H3 HQ. apply wp_lift; [now apply safe_slice|done|].
  intros e He. unfold slice in He. now destruct (_ && _).
Qed.

Lemma wp_bind {A B} (m : M S A) (k : A -> M S B) (Q : B -> S -> Prop) E s :
  wp m (fun a s' => wp (k a) Q E s') E s -> wp (bindM m k) Q E s.
Proof. unfold wp, bindM. now destruct (m s) as [[] ?]. Qed.

Lemma wp_catch {A} (m : M S A) h (Q : A -> S -> Prop) (E : error -> S -> Prop) s :
  wp m Q (fun e s' => wp (h e) Q E s') s -> wp (catch m h) Q E s.
Proof. unfold wp, catch. now destruct (m s) as [[] ?]. Qed.

Lemma wp_zoom {T A} (proj : S -> T) upd (m : M T A) (Q : A -> S -> Prop) (E : error -> S -> Prop) s :
  wp m (fun a t => Q a (upd t s)) (fun e t => E e (upd t s)) (proj s) -> wp (zoom proj upd m) Q E s.
Proof. unfold wp, zoom. now destruct (m (proj s)) as [[] ?]. Qed.

(** The outcome is the run's own. *)
Lemma wp_run {A} (m : M S A) (Q : A -> S -> Prop) (E : error -> S -> Prop) s :
  wp m Q E s ->
  wp m (fun a s' => m s = (Ok a, s') /\ Q a s') (fun e s' => m s = (Err e, s') /\ E e s') s.
Proof. unfold wp. destruct (m s) as [[] ?]; auto. Qed.

Lemma wp_Ok {A} (m : M S A) (Q : A -> S -> Prop) E s a s' : m s = (Ok a, s') -> wp m Q E s -> Q a s'.
Proof. unfold wp. now intros ->. Qed.

Lemma wp_cases {A} (m : M S A) (Q : A -> S -> Prop) (E : error -> S -> Prop) s :
  wp m Q E s ->
  (exists a s', m s = (Ok a, s') /\ Q a s') \/ (exists e s', m s = (Err e, s') /\ E e s').
Proof. unfold wp. destruct (m s) as [[a|e|c] s']; [left|right|done]; eauto. Qed.

Lemma wp_ext {A} (m m' : M S A) (Q : A -> S -> Prop) E s : m s = m' s -> wp m' Q E s -> wp m Q E s.
Proof. unfold wp. now intros ->. Qed.

End Wp.

Lemma bindM_lift_Ok {S A B} (r : result A) a (k : A -> M S B) s :
  r = Ok a -> bindM (lift r) k s = k a s.
Proof. now intros ->. Qed.

(** Runs of a sequence. *)
Lemma bind_run {S A B} (m : M S A) (k : A -> M S B) c a c1 :
  m c = (Ok a, c1) -> bindM m k c = k a c1.
Proof. unfold bindM. now intros ->. Qed.

Lemma bindM_assoc {S A B D} (m : M S A) (k : A -> M S B) (h : B -> M S D) c :
  bindM (bindM m k) h c = bindM m (fun a => bindM (k a) h) c.
Proof. unfold bindM. now destruct (m c) as [[] ?]. Qed.

Lemma bindM_ret {S A B} (a : A) (k : A -> M S B) c : bindM (ret a) k c = k a c.
Proof. reflexivity. Qed.

Lemma bindM_ext {S A B} (m : M S A) (k h : A -> M S B) c :
  (forall a c1, k a c1 = h a c1) -> bindM m k c = bindM m h c.
Proof. intros H. unfold bindM. destruct (m c) as [[] ?]; auto. Qed.

(** [msafe m]: [m] neither panics nor runs out of fuel, from any state. *)
Definition msafe {S A} (m : M S A) : Prop := forall s, safe (fst (m s)).

Lemma msafe_ret {S A} (a : A) : msafe (S := S) (ret a).
Proof. intros s. exact I. Qed.

Lemma msafe_fail {S A} e : msafe (S := S) (A := A) (fail e).
Proof. intros s. exact I. Qed.

Lemma msafe_lift {S A} (r : result A) : safe r -> msafe (S := S) (lift r).
Proof. intros H s. exact H. Qed.

Lemma msafe_bind {S A B} (m : M S A) (k : A -> M S B) :
  msafe m -> (forall a s s', m s = (Ok a, s') -> msafe (k a)) -> msafe (bindM m k).
Proof.
  intros Hm Hk s. specialize (Hm s). unfold bindM.
  destruct (m s) as [[a|e|c] s'] eqn:E; [|done..]. exact (Hk _ _ _ E s').
Qed.

Lemma msafe_bind_lift {S A B} (r : result A) (k : A -> M S B) :
  safe r -> (forall a, r = Ok a -> msafe (k a)) -> msafe (bindM (lift r) k).
Proof.
  intros Hr Hk. apply msafe_bind; [now apply msafe_lift|]. intros a s s' [= E _]. now apply Hk.
Qed.

Lemma mspec_msafe {S A} (m : M S A) :
  msafe m -> mspec (fun _ => True) m (fun _ _ => True) (fun _ _ => True).
Proof. intros Hm s _. specialize (Hm s). now destruct (m s) as [[] ?]. Qed.

Ltac msafe_step :=
  match goal with
  | |- msafe (ret _) => apply msafe_ret
  | |- msafe (fail _) => apply msafe_fail
  | |- msafe (bindM (lift _) _) =>
      apply msafe_bind_lift; [safe_auto|let a := fresh "a" in let H := fresh "Ha" in intros a H]
  | |- msafe (bindM _ _) =>
      apply msafe_bind; [|let a := fresh "a" in let s := fresh "s" in let s' := fresh "s'" in
                          let H := fresh "Hr" in intros a s s' H]
  | |- msafe (lift _) => apply msafe_lift; safe_auto
  | |- msafe (if ?c then _ else _) => let C := fresh "C" in destruct c eqn:C
  | |- msafe (let '(_, _) := ?p in _) => destruct p
  | |- msafe (match ?p with (_, _) => _ end) => destruct p
  | |- msafe (match ?o with Some _ => _ | None => _ end) => destruct o eqn:?
  | |- msafe _ => solve [eauto with tls]
  end.

Ltac msafe_auto := repeat msafe_step.

(** Take apart every successful run in the context. *)
Ltac run_inv1 :=
  match goal with
  | H : bindM _ _ _ = (Ok _, _) |- _ =>
      apply bindM_Ok in H;
      let a := fresh "v" in let s := fresh "s" in let H1 := fresh "Hr" in
      destruct H as (a & s & H1 & H)
  | H : ret _ _ = (Ok _, _) |- _ => injection H as H; try subst
  | H : fail _ _ = (Ok _, _) |- _ => discriminate H
  | H : lift _ _ = (Ok _, _) |- _ => unfold lift in H; injection H as H; try subst
  | H : get _ = (Ok _, _) |- _ => injection H as H; try subst
  | H : modify _ _ = (Ok _, _) |- _ => injection H as H; try subst
  | H : (if ?c then _ else _) _ = (Ok _, _) |- _ =>
      let C := fresh "C" in destruct c eqn:C; try discriminate H
  | H : (let '(_, _) := ?p in _) _ = (Ok _, _) |- _ => destruct p
  end.

Ltac run_inv := repeat (run_inv1; z_bool).

(** ** The transport

    [rx] is what the peer's bytes still to be read are, [rxEnd] what a read
    returns after them ([io.EOF] or a transport error), [tx] what was written,
    [wscript] the outcome of each coming [Write] call ([Some (n, e)]: [n] bytes
    go out, then [e]; nothing or [None]: all go out), [rnd] the tape of
    [crypto/rand]. *)

Record world := {
  rx : bytes;
  rxEnd : error;
  tx : bytes;
  wscript : list (option (nat * error));
  rnd : tape
}.

Definition set_rx (b : bytes) (w : world) : world :=
  {| rx := b; rxEnd := rxEnd w; tx := tx w; wscript := wscript w; rnd := rnd w |}.
Definition set_tx (b : bytes) (s : list (option (nat * error))) (w : world) : world :=
  {| rx := rx w; rxEnd := rxEnd w; tx := b; wscript := s; rnd := rnd w |}.
Definition set_rnd (t : tape) (w : world) : world :=
  {| rx := rx w; rxEnd := rxEnd w; tx := tx w; wscript := wscript w; rnd := t |}.

Definition isEOF (e : error) : bool := match e with EOF => true | _ => false end.

(** [io.ReadFull]: [ErrUnexpectedEOF] when the stream ends inside the buffer,
    the reader's own error when it ends before. *)
Definition readFull (n : Z) : M world bytes := fun w =>
  if n <=? len (rx w) then
    (Ok (take (Z.to_nat n) (rx w)), set_rx (drop (Z.to_nat n) (rx w)) w)
  else
    (Err (if (0 <? len (rx w)) && isEOF (rxEnd w) then ErrUnexpectedEOF else rxEnd w),
     set_rx [] w).

(** [rw.Write]. *)
Definition rwWrite (b : bytes) : M world unit := fun w =>
  match wscript w with
  | Some (n, e) :: s => (Err e, set_tx (tx w ++ take n b) s w)
  | s => (Ok tt, set_tx (tx w ++ b) (tail s) w)
  end.

Lemma readFull_Ok n w b w' :
  0 <= n -> readFull n w = (Ok b, w') -> rx w = b ++ rx w' /\ len b = n /\ w' = set_rx (rx w') w.
Proof.
  unfold readFull. intros Hn. destruct (_ <=? _) eqn:E; [|done]. z_bool. intros [= <- <-].
  cbn. split; [symmetry; apply take_drop|]. split; [len_lia|done].
Qed.

Lemma readFull_app b rest w :
  rx w = b ++ rest -> readFull (len b) w = (Ok b, set_rx rest w).
Proof.
  intros E. unfold readFull. rewrite E, len_app. rewrite (proj2 (Z.leb_le _ _)) by len_lia.
  now rewrite to_nat_len, take_app_length, drop_app_length.
Qed.

Lemma rwWrite_Ok b w w' :
  rwWrite b w = (Ok tt, w') -> w' = set_tx (tx w ++ b) (tail (wscript w)) w.
Proof. unfold rwWrite. destruct (wscript w) as [|[[]|] ?]; [|done|]; now intros [= <-]. Qed.

Lemma rwWrite_quiet b w :
  Forall (fun o => o = None) (wscript w) ->
  rwWrite b w = (Ok tt, set_tx (tx w ++ b) (tail (wscript w)) w).
Proof. unfold rwWrite. destruct (wscript w) as [|[[]|] ?]; [done| |done]. now inversion 1. Qed.
