(* ===== verification/Layer.v ===== *)
(** * The record layer ([internal/record/record.go])

    [Layer] over any [Protector]: the interface of protection.go is the class
    [Protector], and what the layer relies on of an implementation is
    [ProtectorLaws], discharged for every protector of the repository in
    [Protectors].  A record that is written is read back by a peer in the same
    state, record after record; sequence numbers never wrap. *)

From Stdlib Require Import ZArith Lia.
From stdpp Require Import base list strings.
From S2P Require Import Prelude Errors Primitives State.

Open Scope Z_scope.

(** ** Constants *)

Definition ContentTypeChangeCipherSpec : Z := 20.
Definition ContentTypeAlert : Z := 21.
Definition ContentTypeHandshake : Z := 22.
Definition ContentTypeApplicationData : Z := 23.

Definition tlsVersion : Z := 771. (* 0x0303 *)
Definition tlsMaxPlaintextLen : Z := 2 ^ 14.
Definition tlsMaxCiphertextOverhead : Z := 2048.
Definition tlsVersionHi : byte := z2b (Z.shiftr tlsVersion 8).
Definition tlsVersionLo : byte := z2b (Z.land tlsVersion 255).
Definition maxFragmentLen : Z := tlsMaxPlaintextLen + tlsMaxCiphertextOverhead.
Definition recordHeaderLen : Z := 5.
Definition recordVersionMajor : Z := 3.
Definition recordVersionMinTLS10 : Z := 1.
Definition recordVersionByteShift : Z := 8.

Definition isAcceptedRecordVersion (ver : Z) : bool :=
  (Z.shiftr ver recordVersionByteShift mod 256 =? recordVersionMajor) &&
  (recordVersionMinTLS10 <=? ver mod 256) &&
  (ver mod 256 <=? b2z tlsVersionLo).

Definition isKnownContentType (ct : Z) : bool :=
  (ct =? ContentTypeChangeCipherSpec) || (ct =? ContentTypeAlert) ||
  (ct =? ContentTypeHandshake) || (ct =? ContentTypeApplicationData).

(** ** The Protector interface *)

Class Protector (P : Type) := {
  nullProtector : P;
  Seal : P -> tape -> Z -> bytes -> bytes -> result bytes * P * tape;
  Open : P -> Z -> bytes -> bytes -> result bytes * P
}.

(** What the layer relies on.  Both directions of a connection hold the same
    protector state; [Open] of a sealed fragment, under a header with the same
    type and version, gives the plaintext back and the state [Seal] left. *)
Class ProtectorLaws (P : Type) `{Protector P} := {
  prot_ok : P -> Prop;
  null_ok : prot_ok nullProtector;
  Seal_law p t seq hdr plain :
    prot_ok p -> len hdr = 5 -> len plain <= tlsMaxPlaintextLen ->
    let '(r, p', t') := Seal p t seq hdr plain in
    prot_ok p' /\
    match r with
    | Ok frag =>
        len frag <= maxFragmentLen /\
        forall hdr', len hdr' = 5 -> take 3 hdr' = take 3 hdr ->
                     Open p seq hdr' frag = (Ok plain, p')
    | Err _ => True
    | Crash _ => False
    end;
  Open_law p seq hdr frag :
    prot_ok p -> len hdr = 5 -> len frag <= maxFragmentLen ->
    safe (fst (Open p seq hdr frag)) /\ prot_ok (snd (Open p seq hdr frag))
}.

(** ** Layer *)

Record Layer (P : Type) := {
  rw : world;
  sendSeq : Z;
  recvSeq : Z;
  sendProt : P;
  recvProt : P
}.
Arguments rw {P} l.
Arguments sendSeq {P} l.
Arguments recvSeq {P} l.
Arguments sendProt {P} l.
Arguments recvProt {P} l.

Section Operations.
Context {P : Type} `{Protector P}.

Definition set_rw (w : world) (l : Layer P) : Layer P :=
  {| rw := w; sendSeq := sendSeq l; recvSeq := recvSeq l;
     sendProt := sendProt l; recvProt := recvProt l |}.
Definition set_send (n : Z) (p : P) (l : Layer P) : Layer P :=
  {| rw := rw l; sendSeq := n; recvSeq := recvSeq l; sendProt := p; recvProt := recvProt l |}.
Definition set_recv (n : Z) (p : P) (l : Layer P) : Layer P :=
  {| rw := rw l; sendSeq := sendSeq l; recvSeq := n; sendProt := sendProt l; recvProt := p |}.

Definition NewLayerWithSeq (w : world) (initialSeq : Z) : Layer P :=
  {| rw := w; sendSeq := initialSeq; recvSeq := initialSeq;
     sendProt := nullProtector; recvProt := nullProtector |}.

Definition NewLayer (w : world) : Layer P := NewLayerWithSeq w 0.

(** [None] is a nil [Protector]. *)
Definition ChangeCipherSpec (send recv : option P) (l : Layer P) : Layer P :=
  let l := match send with Some p => set_send 0 p l | None => l end in
  match recv with Some p => set_recv 0 p l | None => l end.

Definition onWorld {A} : M world A -> M (Layer P) A := zoom rw set_rw.

(** [l.sendProt.Seal(l.sendSeq, hdr, payload)]. *)
Definition sealRecord (hdr payload : bytes) : M (Layer P) bytes := fun l =>
  let '(r, p, t) := Seal (sendProt l) (rnd (rw l)) (sendSeq l) hdr payload in
  (r, set_rw (set_rnd t (rw l)) (set_send (sendSeq l) p l)).

(** [l.recvProt.Open(l.recvSeq, hdr, fragment)]. *)
Definition openRecord (hdr fragment : bytes) : M (Layer P) bytes := fun l =>
  let '(r, p) := Open (recvProt l) (recvSeq l) hdr fragment in
  (r, set_recv (recvSeq l) p l).

Definition recordHeader (contentType : Z) (n : Z) : bytes :=
  [z2b contentType; tlsVersionHi; tlsVersionLo] ++ bePut 2 (u16 n).

Definition WriteRecord (contentType : Z) (payload : bytes) : M (Layer P) unit :=
  if negb (isKnownContentType contentType) then fail (fatalRecordError "unknown content type")
  else if tlsMaxPlaintextLen <? len payload then
    fail (fatalRecordError "plaintext payload exceeds 2^14 bytes")
  else
    let! l := get in
    if sendSeq l =? maxUint64 then fail (fatalRecordError "sequence number overflow")
    else
      let! fragment := sealRecord (recordHeader contentType 0) payload in
      onWorld (rwWrite (recordHeader contentType (len fragment))) ;;
      onWorld (rwWrite fragment) ;;
      modify (fun l => set_send (u64 (sendSeq l + 1)) (sendProt l) l).

Definition ReadRecord : M (Layer P) (Z * bytes) :=
  let! l := get in
  if recvSeq l =? maxUint64 then fail (fatalRecordError "sequence number overflow")
  else
    let! hdr := onWorld (readFull recordHeaderLen) in
    let! h0 := lift (index hdr 0) in
    let! vb := lift (slice hdr 1 3) in
    let! lb := lift (slice hdr 3 5) in
    let ct := b2z h0 in
    let ver := beUint vb in
    let length := beUint lb in
    if negb (isKnownContentType ct) then fail (NewFatalAlertError AlertIllegalParameter)
    else if negb (isAcceptedRecordVersion ver) then fail (NewFatalAlertError AlertProtocolVersion)
    else if maxFragmentLen <? length then fail (NewFatalAlertError AlertRecordOverflow)
    else
      let! fragment := onWorld (readFull length) in
      let! plain := openRecord hdr fragment in
      if tlsMaxPlaintextLen <? len plain then fail (NewFatalAlertError AlertRecordOverflow)
      else
        modify (fun l => set_recv (u64 (recvSeq l + 1)) (recvProt l) l) ;;
        ret (ct, plain).

End Operations.

(** * Lemmas *)

Lemma len_recordHeader ct n : len (recordHeader ct n) = 5.
Proof. unfold recordHeader. rewrite len_app, len_bePut. reflexivity. Qed.

Lemma recordHeader_take ct n m : take 3 (recordHeader ct n) = take 3 (recordHeader ct m).
Proof. reflexivity. Qed.

Lemma isKnownContentType_range ct : isKnownContentType ct = true <-> 20 <= ct <= 23.
Proof.
  unfold isKnownContentType, ContentTypeChangeCipherSpec, ContentTypeAlert,
    ContentTypeHandshake, ContentTypeApplicationData.
  rewrite !orb_true_iff, !Z.eqb_eq. lia.
Qed.

(** The accepted versions: TLS 1.0, 1.1 and 1.2. *)
Lemma isAcceptedRecordVersion_spec ver :
  0 <= ver < 65536 ->
  isAcceptedRecordVersion ver = true <-> ver = 769 \/ ver = 770 \/ ver = 771.
Proof.
  intros Hv. unfold isAcceptedRecordVersion, recordVersionByteShift, recordVersionMajor,
    recordVersionMinTLS10. change (b2z tlsVersionLo) with 3.
  rewrite !andb_true_iff, Z.eqb_eq, !Z.leb_le, Z.shiftr_div_pow2 by lia. change (2 ^ 8) with 256.
  rewrite (Z.mod_small (ver / 256)) by (split; [apply Z.div_pos|apply Z.div_lt_upper_bound]; lia).
  pose proof (Z.div_mod ver 256 ltac:(lia)). split; [lia|].
  intros [-> | [-> | ->]]; vm_compute; repeat split; congruence.
Qed.

Lemma isAcceptedRecordVersion_range b :
  len b <= 2 -> isAcceptedRecordVersion (beUint b) = true <-> 0x0301 <= beUint b <= 0x0303.
Proof.
  intros Hb. pose proof (beUint_range b) as Hr.
  pose proof (Z.pow_le_mono_r 256 (len b) 2 ltac:(lia) Hb). rewrite isAcceptedRecordVersion_spec by lia. lia.
Qed.

Section Lemmas.
Context {P : Type} `{PL : ProtectorLaws P}.

(** Both protectors in good state, sequence numbers 64-bit. *)
Record layer_ok (l : Layer P) : Prop := {
  lo_send : prot_ok (sendProt l);
  lo_recv : prot_ok (recvProt l);
  lo_sendSeq : 0 <= sendSeq l <= maxUint64;
  lo_recvSeq : 0 <= recvSeq l <= maxUint64
}.

(** The next record of the stream [b] under the sender's state. *)
Definition sent (ct : Z) (frag : bytes) : bytes := recordHeader ct (len frag) ++ frag.

(** Past the checks, [WriteRecord] is sealing and two writes. *)
Lemma WriteRecord_eq ct payload l r p' t' :
  isKnownContentType ct = true -> len payload <= tlsMaxPlaintextLen -> sendSeq l < maxUint64 ->
  Seal (sendProt l) (rnd (rw l)) (sendSeq l) (recordHeader ct 0) payload = (r, p', t') ->
  WriteRecord ct payload l
  = bindM (lift r) (fun fragment =>
      onWorld (rwWrite (recordHeader ct (len fragment))) ;;
      onWorld (rwWrite fragment) ;;
      modify (fun l => set_send (u64 (sendSeq l + 1)) (sendProt l) l))
    (set_rw (set_rnd t' (rw l)) (set_send (sendSeq l) p' l)).
Proof.
  intros Hct Hpl Hseq HS. unfold WriteRecord. rewrite Hct. cbn [negb].
  rewrite (proj2 (Z.ltb_ge _ _)) by lia. unfold bindM at 1. cbn [get].
  rewrite (proj2 (Z.eqb_neq _ _)) by lia.
  unfold bindM at 1. unfold sealRecord. rewrite HS. now destruct r.
Qed.

Lemma take_app_head {A} k (a b : list A) : exists n, take k a = take n (a ++ b).
Proof.
  exists (k `min` length a)%nat. rewrite take_app_le by lia. now rewrite <- take_take, firstn_all.
Qed.

(** [WriteRecord] as one step. *)
Lemma WriteRecord_step ct payload l :
  isKnownContentType ct = true -> len payload <= tlsMaxPlaintextLen -> sendSeq l < maxUint64 ->
  layer_ok l ->
  exists r p' t',
    Seal (sendProt l) (rnd (rw l)) (sendSeq l) (recordHeader ct 0) payload = (r, p', t') /\
    prot_ok p' /\
    match r with
    | Ok frag =>
        len frag <= maxFragmentLen /\
        (forall n, Open (sendProt l) (sendSeq l) (recordHeader ct n) frag = (Ok payload, p')) /\
        match WriteRecord ct payload l with
        | (Ok _, l') =>
            tx (rw l') = tx (rw l) ++ sent ct frag /\ rx (rw l') = rx (rw l) /\
            rxEnd (rw l') = rxEnd (rw l) /\ rnd (rw l') = t' /\
            wscript (rw l') = tail (tail (wscript (rw l))) /\
            sendSeq l' = sendSeq l + 1 /\ sendProt l' = p' /\
            recvSeq l' = recvSeq l /\ recvProt l' = recvProt l
        | (Err _, l') => sendSeq l' = sendSeq l /\ recvSeq l' = recvSeq l /\
                         recvProt l' = recvProt l /\ sendProt l' = p' /\
                         ~ Forall (fun o => o = None) (wscript (rw l)) /\
                         exists k, tx (rw l') = tx (rw l) ++ take k (sent ct frag)
        | (Crash _, _) => False
        end
    | Err e => exists l', WriteRecord ct payload l = (Err e, l') /\ tx (rw l') = tx (rw l) /\
                 sendSeq l' = sendSeq l /\ recvSeq l' = recvSeq l /\ recvProt l' = recvProt l /\
                 sendProt l' = p'
    | Crash _ => False
    end.
Proof.
  intros Hct Hpl Hseq Hok.
  destruct (Seal (sendProt l) (rnd (rw l)) (sendSeq l) (recordHeader ct 0) payload)
    as [[r p'] t'] eqn:HS.
  pose proof (Seal_law (sendProt l) (rnd (rw l)) (sendSeq l) (recordHeader ct 0) payload
    (lo_send _ Hok) (len_recordHeader ct 0) Hpl) as HL. rewrite HS in HL. destruct HL as [Hp' HL].
  exists r, p', t'. split; [done|]. split; [done|].
  rewrite (WriteRecord_eq ct payload l r p' t') by done.
  destruct r as [frag|e|c]; [|by eexists|done].
  destruct HL as [Hl HO]. split; [done|].
  split; [intros n; apply HO; [apply len_recordHeader|apply recordHeader_take]|].
  unfold bindM, onWorld, zoom, rwWrite. cbn.
  destruct Hok as [_ _ Hs _].
  destruct (wscript (rw l)) as [|[[k e]|] s]; cbn.
  - unfold sent, modify, u64. cbn. rewrite Z.mod_small by (unfold maxUint64 in *; lia).
    rewrite <- app_assoc. split_and!; done.
  - split_and!; try done; [rewrite Forall_cons; now intros [F _]|].
    destruct (take_app_head k (recordHeader ct (len frag)) frag) as [n Hn].
    exists n. exact (f_equal (app (tx (rw l))) Hn).
  - destruct s as [|[[k e]|] s]; cbn.
    + unfold sent, u64. rewrite Z.mod_small by (unfold maxUint64 in *; lia).
      rewrite <- app_assoc. split_and!; done.
    + split_and!; try done; [rewrite !Forall_cons; now intros (_ & F & _)|].
      exists (length (recordHeader ct (len frag)) + k)%nat.
      rewrite <- app_assoc. exact (f_equal (app (tx (rw l))) (eq_sym (take_app_add (recordHeader ct (len frag)) frag k))).
    + unfold sent, u64. rewrite Z.mod_small by (unfold maxUint64 in *; lia).
      rewrite <- app_assoc. split_and!; done.
Qed.

(** [ReadRecord] on a stream that starts with a header and a fragment it accepts. *)
Lemma ReadRecord_bytes ct hdr frag payload p' rest l :
  len hdr = 5 -> b2z (default Byte.x00 (hdr !! 0%nat)) = ct -> isKnownContentType ct = true ->
  isAcceptedRecordVersion (beUint (take 2 (drop 1 hdr))) = true ->
  beUint (drop 3 hdr) = len frag -> len frag <= maxFragmentLen ->
  len payload <= tlsMaxPlaintextLen -> 0 <= recvSeq l < maxUint64 ->
  rx (rw l) = hdr ++ frag ++ rest ->
  Open (recvProt l) (recvSeq l) hdr frag = (Ok payload, p') ->
  ReadRecord l = (Ok (ct, payload), set_recv (recvSeq l + 1) p' (set_rw (set_rx rest (rw l)) l)).
Proof.
  intros Hh Hc Hct Hv Hn Hf Hp Hs Hrx HO. unfold ReadRecord. unfold bindM at 1. cbn [get].
  rewrite (proj2 (Z.eqb_neq _ _)) by lia.
  unfold bindM at 1. unfold onWorld at 1, zoom at 1.
  change recordHeaderLen with 5. rewrite <- Hh, (readFull_app _ _ _ Hrx).
  destruct hdr as [|h0 [|h1 [|h2 [|h3 [|h4 [|h5 hdr]]]]]]; [len_lia..| |len_lia].
  rewrite (bindM_lift_Ok _ h0), (bindM_lift_Ok _ [h1; h2]), (bindM_lift_Ok _ [h3; h4]) by reflexivity.
  cbn [take drop lookup list_lookup default] in Hc, Hv, Hn. change (b2z h0 = ct) in Hc.
  rewrite Hc, Hct. cbn [negb]. rewrite Hv. cbn [negb].
  rewrite Hn, (proj2 (Z.ltb_ge _ _)) by done.
  unfold bindM at 1. unfold onWorld, zoom. rewrite (readFull_app frag rest) by reflexivity.
  unfold bindM at 1. unfold openRecord. cbn [recvProt recvSeq set_rw]. rewrite HO.
  rewrite (proj2 (Z.ltb_ge _ _)) by lia. unfold bindM, modify, ret. cbn. unfold u64.
  rewrite Z.mod_small by (unfold maxUint64 in *; lia). reflexivity.
Qed.

(** A record as [WriteRecord] puts it on the stream. *)
Lemma ReadRecord_sent ct frag payload p' rest l :
  isKnownContentType ct = true -> len frag <= maxFragmentLen ->
  len payload <= tlsMaxPlaintextLen -> 0 <= recvSeq l < maxUint64 ->
  rx (rw l) = sent ct frag ++ rest ->
  Open (recvProt l) (recvSeq l) (recordHeader ct (len frag)) frag = (Ok payload, p') ->
  ReadRecord l = (Ok (ct, payload), set_recv (recvSeq l + 1) p' (set_rw (set_rx rest (rw l)) l)).
Proof.
  intros Hct Hf Hp Hs Hrx HO. unfold sent in Hrx. rewrite <- app_assoc in Hrx.
  apply (ReadRecord_bytes ct (recordHeader ct (len frag)) frag); try done.
  - cbn. rewrite b2z_small; [done|]. apply isKnownContentType_range in Hct. lia.
  - change (drop 3 (recordHeader ct (len frag))) with (bePut 2 (u16 (len frag))).
    unfold maxFragmentLen, tlsMaxPlaintextLen, tlsMaxCiphertextOverhead in Hf.
    pose proof (len_nonneg frag). unfold u16. rewrite Z.mod_small by lia.
    rewrite beUint_put_small; [done|]. cbn. lia.
Qed.

Lemma layer_ok_ext (l l' : Layer P) :
  layer_ok l -> prot_ok (sendProt l') -> prot_ok (recvProt l') ->
  0 <= sendSeq l' <= maxUint64 -> 0 <= recvSeq l' <= maxUint64 -> layer_ok l'.
Proof. now split. Qed.

(** [WriteRecord] never panics and keeps the layer well-formed. *)
Lemma WriteRecord_ok ct payload :
  mspec layer_ok (WriteRecord ct payload) (fun _ => layer_ok) (fun _ => layer_ok).
Proof.
  intros l Hl. destruct (isKnownContentType ct) eqn:Hct.
  2:{ unfold WriteRecord. rewrite Hct. done. }
  destruct (Z.ltb_spec tlsMaxPlaintextLen (len payload)) as [Hbig|Hsmall].
  { unfold WriteRecord. rewrite Hct. cbn [negb]. now rewrite (proj2 (Z.ltb_lt _ _)). }
  pose proof Hl as [? ? [? ?] ?].
  destruct (Z.eqb_spec (sendSeq l) maxUint64) as [Hmax|Hmax].
  { unfold WriteRecord. rewrite Hct. cbn [negb]. rewrite (proj2 (Z.ltb_ge _ _)) by lia.
    unfold bindM at 1. cbn [get]. now rewrite (proj2 (Z.eqb_eq _ _)). }
  destruct (WriteRecord_step ct payload l Hct Hsmall ltac:(lia) Hl) as (r & p' & t' & _ & Hp' & HW).
  destruct r as [frag|e|c]; [|destruct HW as (l' & -> & ? & E1 & E2 & E3 & E4)|done].
  - destruct HW as (_ & _ & HW). destruct (WriteRecord ct payload l) as [[[]|e|c] l']; [| |done].
    + destruct HW as (_ & _ & _ & _ & _ & E1 & E2 & E3 & E4).
      split; rewrite ?E1, ?E2, ?E3, ?E4; (done || lia).
    + destruct HW as (E1 & E2 & E3 & E4 & _). split; rewrite ?E1, ?E2, ?E3, ?E4; (done || lia).
  - split; rewrite ?E1, ?E2, ?E3, ?E4; (done || lia).
Qed.

(** A record at the front of the stream and what is left of it, in the numbers of
    RFC 5246 §6.2: one of the four content types, the version of TLS 1.0, 1.1 or 1.2,
    the length of the fragment, a fragment of at most 2^14 + 2048 bytes that opens at
    the current sequence number to at most 2^14 bytes. *)
Definition record_read (l : Layer P) (r : Z * bytes) (l' : Layer P) : Prop :=
  exists hdr frag,
    rx (rw l) = hdr ++ frag ++ rx (rw l') /\
    len hdr = 5 /\ len frag <= 2 ^ 14 + 2048 /\
    beUint (drop 3 hdr) = len frag /\
    b2z (default Byte.x00 (hdr !! 0%nat)) = fst r /\ 20 <= fst r <= 23 /\
    0x0301 <= beUint (take 2 (drop 1 hdr)) <= 0x0303 /\
    Open (recvProt l) (recvSeq l) hdr frag = (Ok (snd r), recvProt l') /\
    len (snd r) <= 2 ^ 14 /\
    recvSeq l' = recvSeq l + 1 /\ recvSeq l < 2 ^ 64 - 1.

(** The parts of the layer a read does not touch. *)
Definition send_side (l : Layer P) : Z * P * bytes * list (option (nat * error)) * tape :=
  (sendSeq l, sendProt l, tx (rw l), wscript (rw l), rnd (rw l)).

Lemma ReadRecord_ok l :
  layer_ok l ->
  match ReadRecord l with
  | (Ok r, l') => record_read l r l' /\ layer_ok l' /\ send_side l' = send_side l
  | (Err _, l') => layer_ok l' /\ send_side l' = send_side l /\ recvSeq l' = recvSeq l
  | (Crash _, _) => False
  end.
Proof.
  intros Hl. pose proof Hl as [Hs Hr Hss Hrs]. unfold ReadRecord. unfold bindM at 1. cbn [get].
  destruct (recvSeq l =? maxUint64) eqn:Hmax; [done|]. z_bool.
  unfold bindM at 1. unfold onWorld at 1, zoom at 1.
  destruct (readFull recordHeaderLen (rw l)) as [[hdr|e|c] w1] eqn:R1.
  2:{ unfold readFull in R1. destruct (_ <=? _); [done|]. injection R1 as _ <-. done. }
  2:{ unfold readFull in R1. now destruct (_ <=? _). }
  apply readFull_Ok in R1 as (E1 & L1 & W1); [|unfold recordHeaderLen; lia].
  unfold recordHeaderLen in L1.
  destruct (index_get (E := error) hdr 0) as (h0 & I0 & I0'); [lia|].
  unfold bindM at 1. cbn [lift]. rewrite I0.
  unfold bindM at 1. cbn [lift]. unfold slice at 1.
  rewrite L1. cbn [Z.leb andb Z.compare Pos.compare Pos.compare_cont].
  unfold bindM at 1. cbn [lift]. unfold slice at 1. rewrite L1. cbn [Z.leb andb Z.compare Pos.compare Pos.compare_cont].
  change (Z.to_nat (3 - 1)) with 2%nat. change (Z.to_nat 1) with 1%nat.
  change (Z.to_nat (5 - 3)) with 2%nat. change (Z.to_nat 3) with 3%nat.
  rewrite (take_ge (drop 3 hdr)) by (rewrite length_drop; unfold len in L1; lia).
  assert (Hok1 : layer_ok (set_rw w1 l)) by (split; done).
  assert (Hside1 : send_side (set_rw w1 l) = send_side l) by (unfold send_side; cbn; now rewrite W1).
  destruct (isKnownContentType (b2z h0)) eqn:Hct; [|done]. cbn [negb].
  destruct (isAcceptedRecordVersion _) eqn:Hv; [|done]. cbn [negb].
  destruct (maxFragmentLen <? beUint (drop 3 hdr)) eqn:Hlen; [done|]. z_bool.
  unfold bindM at 1. unfold onWorld, zoom. cbn [rw set_rw].
  destruct (readFull (beUint (drop 3 hdr)) w1) as [[frag|e|c] w2] eqn:R2.
  2:{ unfold readFull in R2. destruct (_ <=? _); [done|]. injection R2 as _ <-. cbn.
      split; [split; done|]. split; [|done]. unfold send_side; cbn. now rewrite W1. }
  2:{ unfold readFull in R2. now destruct (_ <=? _). }
  apply readFull_Ok in R2 as (E2 & L2 & W2); [|apply beUint_nonneg].
  unfold bindM at 1. unfold openRecord. cbn [recvProt recvSeq set_rw].
  destruct (Open_law (recvProt l) (recvSeq l) hdr frag Hr L1 ltac:(lia)) as [HO1 HO2].
  destruct (Open (recvProt l) (recvSeq l) hdr frag) as [[plain|e|c] p'] eqn:HO; cbn [fst snd] in *; [| |done].
  2:{ split; [split; done|]. split; [|done]. unfold send_side; cbn. now rewrite W2, W1. }
  destruct (tlsMaxPlaintextLen <? len plain) eqn:Hp; z_bool.
  { split; [split; done|]. split; [|done]. unfold send_side; cbn. now rewrite W2, W1. }
  unfold bindM, modify, ret. cbn. unfold u64.
  rewrite Z.mod_small by (unfold maxUint64 in *; lia). split; [|split].
  - change (Z.to_nat 0) with 0%nat in I0'. exists hdr, frag. cbn [rw rx set_recv fst snd].
    rewrite E1, E2, I0', L2. apply isKnownContentType_range in Hct.
    apply isAcceptedRecordVersion_range in Hv; [|len_lia].
    unfold maxFragmentLen, tlsMaxPlaintextLen, tlsMaxCiphertextOverhead, maxUint64 in *.
    split_and!; try done; try lia.
  - split; cbn; (done || lia).
  - unfold send_side; cbn. now rewrite W2, W1.
Qed.

(** A record at the front of the stream is read. *)
Lemma record_read_run l r l' :
  layer_ok l -> record_read l r l' ->
  ReadRecord l
  = (Ok r, set_recv (recvSeq l + 1) (recvProt l') (set_rw (set_rx (rx (rw l')) (rw l)) l)).
Proof.
  intros Hl (hdr & frag & Hrx & Hh & Hf & Hn & Hct & Hk & Hv & HO & Hp & _ & Hm).
  destruct (lo_recvSeq _ Hl), r as [ct payload].
  apply (ReadRecord_bytes ct hdr frag); try done.
  - now apply isKnownContentType_range.
  - apply isAcceptedRecordVersion_range; [len_lia|done].
Qed.

(** ** Whole flights *)

Fixpoint writeAll (rs : list (Z * bytes)) : M (Layer P) unit :=
  match rs with
  | [] => ret tt
  | (ct, payload) :: rs => WriteRecord ct payload ;; writeAll rs
  end.

Fixpoint readAll (n : nat) : M (Layer P) (list (Z * bytes)) :=
  match n with
  | O => ret []
  | S n => let! r := ReadRecord in let! rs := readAll n in ret (r :: rs)
  end.

(** The guards of [WriteRecord], seen from a success. *)
Lemma WriteRecord_guards ct payload l l' :
  WriteRecord ct payload l = (Ok tt, l') ->
  isKnownContentType ct = true /\ len payload <= tlsMaxPlaintextLen /\ sendSeq l <> maxUint64.
Proof.
  unfold WriteRecord. destruct (isKnownContentType ct); [|done]. cbn [negb].
  destruct (_ <? _) eqn:E; [done|]. z_bool. unfold bindM at 1. cbn [get].
  destruct (_ =? _) eqn:F; [done|]. z_bool. done.
Qed.

Lemma writeAll_readAll rs l l' :
  layer_ok l -> writeAll rs l = (Ok tt, l') ->
  exists wire, tx (rw l') = tx (rw l) ++ wire /\
    forall r rest, recvProt r = sendProt l -> recvSeq r = sendSeq l -> rx (rw r) = wire ++ rest ->
      exists r', readAll (length rs) r = (Ok rs, r') /\ rx (rw r') = rest /\
                 recvProt r' = sendProt l' /\ recvSeq r' = sendSeq l'.
Proof.
  revert l; induction rs as [|[ct payload] rs IH]; intros l Hl Hw.
  { injection Hw as <-. exists []. rewrite app_nil_r. split; [done|].
    intros r rest H1 H2 H3. exists r. done. }
  cbn [writeAll] in Hw. apply bindM_Ok in Hw as ([] & l1 & Hw1 & Hw).
  pose proof (WriteRecord_guards _ _ _ _ Hw1) as (Hct & Hpl & Hne).
  pose proof (WriteRecord_ok ct payload l Hl) as Hok1. rewrite Hw1 in Hok1.
  destruct (lo_sendSeq _ Hl) as [Hs0 Hs1].
  destruct (WriteRecord_step ct payload l Hct Hpl ltac:(lia) Hl) as (sr & p' & t' & _ & Hp' & HW).
  destruct sr as [frag|e|c]; [|destruct HW as (? & F & _); congruence|done].
  rewrite Hw1 in HW. destruct HW as (Hfl & HO & Htx & _ & _ & _ & _ & Hss & Hsp & _ & _).
  destruct (IH l1 Hok1 Hw) as (wire & Htx' & Hread).
  exists (sent ct frag ++ wire). split; [rewrite Htx', Htx, <- app_assoc; done|].
  intros r rest H1 H2 H3. rewrite <- app_assoc in H3.
  pose proof (ReadRecord_sent ct frag payload p' (wire ++ rest) r Hct Hfl Hpl ltac:(lia) H3) as HR.
  rewrite H1, H2 in HR. specialize (HR (HO _)).
  edestruct Hread as (r' & Hr' & E1 & E2 & E3); cycle 3.
  - exists r'. split; [|done]. cbn [length readAll]. unfold bindM at 1. rewrite HR.
    unfold bindM at 1. rewrite Hr'. reflexivity.
  - cbn. now rewrite Hsp.
  - cbn. lia.
  - reflexivity.
Qed.

(** The send sequence number and the receive side over a write. *)
Lemma WriteRecord_seq ct payload l :
  layer_ok l ->
  match WriteRecord ct payload l with
  | (Ok _, l') => sendSeq l' = sendSeq l + 1 /\ sendSeq l' <= maxUint64 /\
                  recvSeq l' = recvSeq l /\ recvProt l' = recvProt l
  | (Err _, l') => sendSeq l' = sendSeq l /\ (sendSeq l = maxUint64 -> l' = l) /\
                   recvSeq l' = recvSeq l /\ recvProt l' = recvProt l
  | (Crash _, _) => False
  end.
Proof.
  intros Hl. pose proof Hl as [? ? [? ?] ?].
  pose proof (WriteRecord_ok ct payload l Hl) as Hok.
  destruct (isKnownContentType ct) eqn:Hct.
  2:{ unfold WriteRecord. rewrite Hct. done. }
  destruct (Z.ltb_spec tlsMaxPlaintextLen (len payload)) as [Hbig|Hsmall].
  { unfold WriteRecord. rewrite Hct. cbn [negb]. now rewrite (proj2 (Z.ltb_lt _ _)). }
  destruct (Z.eqb_spec (sendSeq l) maxUint64) as [Hmax|Hmax].
  { unfold WriteRecord. rewrite Hct. cbn [negb]. rewrite (proj2 (Z.ltb_ge _ _)) by lia.
    unfold bindM at 1. cbn [get]. now rewrite (proj2 (Z.eqb_eq _ _)). }
  destruct (WriteRecord_step ct payload l Hct Hsmall ltac:(lia) Hl) as (r & p' & t' & _ & _ & HW).
  destruct r as [frag|e|c]; [|destruct HW as (l' & -> & ? & E1 & E2 & E3 & E4)|done].
  - destruct HW as (_ & _ & HW). destruct (WriteRecord ct payload l) as [[[]|e|c] l']; [| |done].
    + destruct HW as (_ & _ & _ & _ & _ & E1 & _ & E3 & E4). split_and!; (done || lia).
    + destruct HW as (E1 & E2 & E3 & _). split_and!; (done || lia).
  - split_and!; (done || lia).
Qed.

(** What was written from [l0] to [l]: a peer in step with [l0] reads exactly the
    records [rs] and is then in step with [l]. *)
Definition delivered (l0 : Layer P) (rs : list (Z * bytes)) (l : Layer P) : Prop :=
  exists wire, tx (rw l) = tx (rw l0) ++ wire /\
    forall r rest, recvProt r = sendProt l0 -> recvSeq r = sendSeq l0 -> rx (rw r) = wire ++ rest ->
      exists r', readAll (length rs) r = (Ok rs, r') /\ rx (rw r') = rest /\
                 recvProt r' = sendProt l /\ recvSeq r' = sendSeq l.

Lemma delivered_nil l : delivered l [] l.
Proof. exists []. rewrite app_nil_r. split; [done|]. intros r rest H1 H2 H3. exists r. done. Qed.

(** What a sender's state says of the next record. *)
Definition send_view (l : Layer P) : Z * P * bytes := (sendSeq l, sendProt l, tx (rw l)).

(** Delivery looks at the send side only. *)
Lemma delivered_ext l0 l0' rs l l' :
  send_view l0' = send_view l0 -> send_view l' = send_view l ->
  delivered l0 rs l -> delivered l0' rs l'.
Proof. intros [= E1 E2 E3] [= F1 F2 F3]. unfold delivered. now rewrite E1, E2, E3, F1, F2, F3. Qed.

Lemma readAll_app n m l rs l1 ss l2 :
  readAll n l = (Ok rs, l1) -> readAll m l1 = (Ok ss, l2) -> readAll (n + m) l = (Ok (rs ++ ss), l2).
Proof.
  revert l rs. induction n as [|n IH]; intros l rs H1 H2.
  - injection H1 as <- <-. exact H2.
  - cbn [readAll] in H1. apply bindM_Ok in H1 as (y & l3 & H3 & H1).
    apply bindM_Ok in H1 as (ys & l4 & H4 & H1). injection H1 as <- <-.
    cbn [Nat.add readAll]. unfold bindM at 1. rewrite H3. unfold bindM at 1. now rewrite (IH _ _ H4 H2).
Qed.

Lemma delivered_app l0 rs l rs' l' :
  delivered l0 rs l -> delivered l rs' l' -> delivered l0 (rs ++ rs') l'.
Proof.
  intros (w & Htx & Hread) (w' & Htx' & Hread'). exists (w ++ w').
  split; [now rewrite Htx', Htx, app_assoc|]. intros r rest H1 H2 H3. rewrite <- app_assoc in H3.
  destruct (Hread r (w' ++ rest) H1 H2 H3) as (r1 & R1 & E1 & E2 & E3).
  destruct (Hread' r1 rest E2 E3 E1) as (r2 & R2 & F).
  exists r2. split; [|exact F]. rewrite length_app. eapply readAll_app; eauto.
Qed.

Lemma writeAll_delivered rs l l' : layer_ok l -> writeAll rs l = (Ok tt, l') -> delivered l rs l'.
Proof. apply writeAll_readAll. Qed.

Lemma delivered_write ct payload l l' :
  layer_ok l -> WriteRecord ct payload l = (Ok tt, l') -> delivered l [(ct, payload)] l'.
Proof.
  intros Hl HW. apply writeAll_delivered; [done|]. cbn [writeAll]. unfold bindM. now rewrite HW.
Qed.

Lemma delivered_snoc l0 rs l ct payload l' :
  delivered l0 rs l -> layer_ok l -> WriteRecord ct payload l = (Ok tt, l') ->
  delivered l0 (rs ++ [(ct, payload)]) l'.
Proof. intros Hd Hl HW. eapply delivered_app; [exact Hd|now apply delivered_write]. Qed.

(** ** The receive side

    What a receiver's state says of the records to come; a write leaves it alone, and a
    record is read from it. *)
Definition recv_view (l : Layer P) : Z * P * bytes := (recvSeq l, recvProt l, rx (rw l)).

Lemma WriteRecord_recv ct payload l l' :
  layer_ok l -> WriteRecord ct payload l = (Ok tt, l') -> recv_view l' = recv_view l.
Proof.
  intros Hl HW. destruct (WriteRecord_guards _ _ _ _ HW) as (Hct & Hpl & Hne).
  destruct (lo_sendSeq _ Hl) as [Hs0 Hs1].
  destruct (WriteRecord_step ct payload l Hct Hpl ltac:(lia) Hl) as (r & p' & t' & _ & _ & HS).
  destruct r as [frag|e|c]; [|destruct HS as (? & F & _); congruence|done].
  rewrite HW in HS. destruct HS as (_ & _ & _ & E1 & _ & _ & _ & _ & _ & E2 & E3).
  unfold recv_view. now rewrite E1, E2, E3.
Qed.

(** Two layers with the same view read the same records. *)
Lemma ReadRecord_recv l m r l' :
  recv_view m = recv_view l -> layer_ok l -> ReadRecord l = (Ok r, l') ->
  exists m', ReadRecord m = (Ok r, m') /\ recv_view m' = recv_view l'.
Proof.
  intros [= Es Ep Ex] Hl HR. pose proof (ReadRecord_ok l Hl) as HS. rewrite HR in HS.
  destruct HS as ((hdr & frag & Hrx & Hh & Hf & Hn & Hct & Hk & Hv & HO & Hp & Hq & Hm) & _ & _).
  rewrite <- Ex in Hrx. rewrite <- Es, <- Ep in HO. destruct (lo_recvSeq _ Hl).
  destruct r as [ct payload]. apply isKnownContentType_range in Hk.
  apply isAcceptedRecordVersion_range in Hv; [|len_lia].
  rewrite (ReadRecord_bytes ct hdr frag payload (recvProt l') (rx (rw l')) m)
    by (done || unfold maxUint64; lia).
  eexists. split; [reflexivity|]. unfold recv_view. cbn. now rewrite Hq, Es.
Qed.

(** A write that keeps the receive side: [rs] were delivered and nothing was read. *)
Definition sends (l0 : Layer P) (rs : list (Z * bytes)) (l : Layer P) : Prop :=
  delivered l0 rs l /\ recv_view l = recv_view l0.

Lemma sends_nil l : sends l [] l.
Proof. split; [apply delivered_nil|done]. Qed.

Lemma sends_app l0 rs l rs' l' : sends l0 rs l -> sends l rs' l' -> sends l0 (rs ++ rs') l'.
Proof. intros [D E] [D' E']. split; [eapply delivered_app; eauto|congruence]. Qed.

Lemma sends_write ct payload l l' :
  layer_ok l -> WriteRecord ct payload l = (Ok tt, l') -> sends l [(ct, payload)] l'.
Proof. intros Hl HW. split; [now apply delivered_write|now apply (WriteRecord_recv ct payload)]. Qed.

(** The randomness plays no part in it. *)
Lemma sends_ext l0 l0' rs l :
  send_view l0' = send_view l0 -> recv_view l0' = recv_view l0 -> sends l0 rs l -> sends l0' rs l.
Proof. intros V R [D E]. split; [eapply delivered_ext, D; done|congruence]. Qed.

End Lemmas.

(** * Properties *)

Section Properties.
Context {P : Type} `{PL : ProtectorLaws P}.

(** C21. The record layer delivers: when a sequence of records has been written,
    a peer whose receive side is in the sender's starting state and whose stream
    begins with the bytes written reads exactly those records, in order and of
    the same types, consumes exactly those bytes, and ends in the sender's final
    protector state and sequence number. *)
Theorem layer_roundtrip rs (l l' : Layer P) :
  layer_ok l -> writeAll rs l = (Ok tt, l') ->
  exists wire, tx (rw l') = tx (rw l) ++ wire /\
    forall r rest, recvProt r = sendProt l -> recvSeq r = sendSeq l -> rx (rw r) = wire ++ rest ->
      exists r', readAll (length rs) r = (Ok rs, r') /\ rx (rw r') = rest /\
                 recvProt r' = sendProt l' /\ recvSeq r' = sendSeq l'.
Proof. apply writeAll_readAll. Qed.

(** C22. [ReadRecord] on any incoming bytes returns a record or an error and never
    panics, and it returns a record exactly when there is one: a 5-byte header with
    content type 20 to 23, version 0x0301 to 0x0303 (TLS 1.0 to 1.2) and a length of
    at most 2^14 + 2048, that many bytes behind it that [Open] accepts at the current
    sequence number, below 2^64 - 1, with at most 2^14 bytes of plaintext.  Then the
    header and the fragment are consumed and the sequence number grows by one;
    otherwise it stays.  Nothing on the send side changes. *)
Theorem ReadRecord_checked (l : Layer P) :
  layer_ok l ->
  match ReadRecord l with
  | (Ok r, l') => record_read l r l' /\ layer_ok l' /\ send_side l' = send_side l
  | (Err _, l') => ~ (exists r l1, record_read l r l1) /\
                   layer_ok l' /\ send_side l' = send_side l /\ recvSeq l' = recvSeq l
  | (Crash _, _) => False
  end.
Proof.
  intros Hl. pose proof (ReadRecord_ok l Hl) as HR. destruct (ReadRecord l) as [[r|e|k] l'] eqn:E; [done| |done].
  split; [|done]. intros (r & l1 & Hr). rewrite (record_read_run l r l1 Hl Hr) in E. discriminate E.
Qed.

(** C23. The write sequence number never wraps: it grows by one on each success; at
    2^64 - 1 [WriteRecord] fails and changes nothing; a failure never advances
    it, and the receive side is untouched. *)
Theorem WriteRecord_sequence ct payload (l : Layer P) :
  layer_ok l ->
  match WriteRecord ct payload l with
  | (Ok _, l') => sendSeq l' = sendSeq l + 1 /\ sendSeq l' <= maxUint64 /\
                  recvSeq l' = recvSeq l /\ recvProt l' = recvProt l
  | (Err _, l') => sendSeq l' = sendSeq l /\ (sendSeq l = maxUint64 -> l' = l) /\
                   recvSeq l' = recvSeq l /\ recvProt l' = recvProt l
  | (Crash _, _) => False
  end.
Proof. apply WriteRecord_seq. Qed.

End Properties.
