(* ===== verification/WireDebug.v ===== *)
(** * The plaintext record dump ([internal/record/wire_debug.go])

    [dumpPlaintext], the package variables it keeps, and [WriteRecord] and
    [ReadRecord] with their calls of it.  The mutex makes one call one step.  The
    record layer does the same with the dump as without it, and the log can be
    read back. *)

From Stdlib Require Import ZArith Lia.
From stdpp Require Import base list strings.
From S2P Require Import Prelude Errors State Layer.

Open Scope Z_scope.

(** ** Formatting *)

Definition space : byte := Byte.x20.
Definition newline : byte := Byte.x0a.

(** A digit of base 10 or 16, in lower case. *)
Definition digit (d : Z) : byte := z2b (if d <? 10 then 48 + d else 87 + d).

(** [%d] of a number that is not negative: the digits from the last one on; a
    [uint64] has at most 20. *)
Fixpoint decLoop (fuel : nat) (n : Z) (acc : bytes) : bytes :=
  match fuel with
  | O => acc
  | S fuel =>
    let acc := digit (n mod 10) :: acc in
    if n <? 10 then acc else decLoop fuel (n / 10) acc
  end.

Definition dec (n : Z) : bytes := decLoop 20 n [].

(** [%x] of a byte slice. *)
Definition hexByte (b : byte) : bytes := [digit (b2z b / 16); digit (b2z b mod 16)].
Definition hex (b : bytes) : bytes := concat (map hexByte b).

(** [%04x] of a [uint16]: always four digits. *)
Definition hex4 (v : Z) : bytes := hex (bePut 2 v).

(** What is dumped of a record. *)
Record dumped := {
  dm_dir : string;
  dm_seq : Z;
  dm_type : Z;
  dm_version : Z;
  dm_payload : bytes
}.

Definition dumpLine (d : dumped) : bytes :=
  strBytes (dm_dir d) ++ strBytes " seq=" ++ dec (dm_seq d) ++ strBytes " type=" ++ dec (dm_type d) ++
  strBytes " ver=" ++ hex4 (dm_version d) ++ strBytes " len=" ++ dec (len (dm_payload d)) ++
  strBytes " hex=" ++ hex (dm_payload d) ++ [newline].

(** ** The dump *)

(** The operating system: whether [os.OpenFile] of a path succeeds, and what a file
    holds after a write to it ([O_APPEND]; a write that fails may be partial). *)
Class Files := {
  openFile : bytes -> bool;
  appendFile : bytes -> bytes -> bytes
}.

(** [os.Getenv("TLS_DEBUG_WIRE_LOG")], the package variables (the file by what was
    appended to it) and the diagnostics on stderr, counted. *)
Record wireDebug := {
  wd_path : bytes;
  wireDebugFile : option bytes;
  wireDebugOpenFail : bool;
  wd_stderr : nat
}.

Section Dump.
Context {F : Files}.

Definition dumpPlaintext (r : dumped) (d : wireDebug) : wireDebug :=
  if len (wd_path d) =? 0 then d
  else
    let write d :=
      match wireDebugFile d with
      | None => d
      | Some f =>
          {| wd_path := wd_path d; wireDebugFile := Some (appendFile f (dumpLine r));
             wireDebugOpenFail := wireDebugOpenFail d; wd_stderr := wd_stderr d |}
      end in
    match wireDebugFile d, wireDebugOpenFail d with
    | None, false =>
        if openFile (wd_path d) then
          write {| wd_path := wd_path d; wireDebugFile := Some []; wireDebugOpenFail := false;
                   wd_stderr := wd_stderr d |}
        else {| wd_path := wd_path d; wireDebugFile := None; wireDebugOpenFail := true;
                wd_stderr := S (wd_stderr d) |}
    | _, true => d
    | Some _, false => write d
    end.

Context {P : Type} `{Protector P}.

(** The layer and the dump side by side. *)
Definition dlayer : Type := Layer P * wireDebug.

Definition onDLayer {A} (m : M (Layer P) A) : M dlayer A := zoom fst (fun l s => (l, snd s)) m.
Definition dump (r : dumped) : M dlayer unit := modify (fun s => (fst s, dumpPlaintext r (snd s))).

Definition WriteRecordDump (contentType : Z) (payload : bytes) : M dlayer unit :=
  if negb (isKnownContentType contentType) then fail (fatalRecordError "unknown content type")
  else if tlsMaxPlaintextLen <? len payload then
    fail (fatalRecordError "plaintext payload exceeds 2^14 bytes")
  else
    let! s := get in
    let l := fst s in
    if sendSeq l =? maxUint64 then fail (fatalRecordError "sequence number overflow")
    else
      dump {| dm_dir := "send"; dm_seq := sendSeq l; dm_type := contentType; dm_version := tlsVersion;
              dm_payload := payload |} ;;
      let! fragment := onDLayer (sealRecord (recordHeader contentType 0) payload) in
      onDLayer (onWorld (rwWrite (recordHeader contentType (len fragment)))) ;;
      onDLayer (onWorld (rwWrite fragment)) ;;
      onDLayer (modify (fun l => set_send (u64 (sendSeq l + 1)) (sendProt l) l)).

Definition ReadRecordDump : M dlayer (Z * bytes) :=
  let! s := get in
  if recvSeq (fst s) =? maxUint64 then fail (fatalRecordError "sequence number overflow")
  else
    let! hdr := onDLayer (onWorld (readFull recordHeaderLen)) in
    let! h0 := lift (index hdr 0) in
    let! vb := lift (slice hdr 1 3) in
    let! lb := lift (slice hdr 3 5) in
    let ct := b2z h0 in
    let ver := beUint vb in
    let length := beUint lb in
    if negb (isKnownContentType ct) then fail (NewFatalAlertError AlertIllegalParameter)
    else if negb (isAcceptedRecordVersion ver) then fail (NewFatalAlertError AlertProtocolVersion)
    else if maxFragmentLen <? length then fail (NewFatalAlertError AlertRecordOverflow)
    else
      let! fragment := onDLayer (onWorld (readFull length)) in
      let! plain := onDLayer (openRecord hdr fragment) in
      if tlsMaxPlaintextLen <? len plain then fail (NewFatalAlertError AlertRecordOverflow)
      else
        let! s := get in
        dump {| dm_dir := "recv"; dm_seq := recvSeq (fst s); dm_type := ct; dm_version := ver;
                dm_payload := plain |} ;;
        onDLayer (modify (fun l => set_recv (u64 (recvSeq l + 1)) (recvProt l) l)) ;;
        ret (ct, plain).

End Dump.

(** ** Nothing but the dump changes *)

Section Transparent.
Context {F : Files} {P : Type} `{Protector P}.

(** [m'] is [m] and leaves the dump alone. *)
Definition quiet {A} (m' : M dlayer A) (m : M (Layer P) A) : Prop :=
  forall l d, m' (l, d) = (fst (m l), (snd (m l), d)).

Lemma quiet_bind {A B} (m' : M dlayer A) m (k' : A -> M dlayer B) k :
  quiet m' m -> (forall a, quiet (k' a) (k a)) -> quiet (bindM m' k') (bindM m k).
Proof.
  intros Hm Hk l d. unfold bindM. rewrite Hm. destruct (m l) as [[a|e|c] l']; cbn; [apply Hk|done..].
Qed.

Lemma quiet_layer {A} (m : M (Layer P) A) : quiet (onDLayer m) m.
Proof. intros l d. unfold onDLayer, zoom. cbn. now destruct (m l). Qed.

Lemma quiet_ret {A} (a : A) : quiet (ret a) (ret a).
Proof. done. Qed.

Lemma bindM_get {S A} (k : S -> M S A) s : bindM get k s = k s s.
Proof. reflexivity. Qed.

Lemma bindM_dump {A} r (k : unit -> M dlayer A) (l : Layer P) d :
  bindM (dump r) k (l, d) = k tt (l, dumpPlaintext r d).
Proof. reflexivity. Qed.

Definition sendDump (ct : Z) (payload : bytes) (l : Layer P) : dumped :=
  {| dm_dir := "send"; dm_seq := sendSeq l; dm_type := ct; dm_version := tlsVersion; dm_payload := payload |}.

(** A record that passes the checks of [WriteRecord] is dumped, once. *)
Lemma WriteRecordDump_eq ct payload l d :
  WriteRecordDump ct payload (l, d)
  = (fst (WriteRecord ct payload l), (snd (WriteRecord ct payload l),
      if isKnownContentType ct && (len payload <=? tlsMaxPlaintextLen) && negb (sendSeq l =? maxUint64)
      then dumpPlaintext (sendDump ct payload l) d else d)).
Proof.
  unfold WriteRecordDump, WriteRecord. destruct (isKnownContentType ct); [cbn [negb andb]|done].
  rewrite Z.leb_antisym. destruct (tlsMaxPlaintextLen <? len payload); [done|cbn [negb andb]].
  rewrite !bindM_get. cbn [fst].
  destruct (sendSeq l =? maxUint64); [done|]. cbn [negb]. rewrite bindM_dump.
  apply (quiet_bind _ (sealRecord (recordHeader ct 0) payload)); [apply quiet_layer|intros fragment].
  do 2 (apply quiet_bind; [apply quiet_layer|intros _]). apply quiet_layer.
Qed.

(** The result of a read and the dump it makes: of the record it returns, once, at
    the sequence number [seq]; nothing on a failure. *)
Definition read_dumps (seq : Z) (r : result (Z * bytes)) (d d' : wireDebug) : Prop :=
  match r with
  | Ok (ct, plain) => exists ver, 0 <= ver < 65536 /\
      d' = dumpPlaintext {| dm_dir := "recv"; dm_seq := seq; dm_type := ct; dm_version := ver;
                            dm_payload := plain |} d
  | _ => d' = d
  end.

Definition dumps_read (seq : Z) (m' : M dlayer (Z * bytes)) (m : M (Layer P) (Z * bytes)) : Prop :=
  forall l d, recvSeq l = seq -> exists d', m' (l, d) = (fst (m l), (snd (m l), d')) /\ read_dumps seq (fst (m l)) d d'.

(** Before the dump: steps that leave it and the sequence number alone. *)
Lemma dumps_bind {A} seq (m : M (Layer P) A) k' k :
  (forall l, recvSeq (snd (m l)) = recvSeq l) -> (forall a l, fst (m l) = Ok a -> dumps_read seq (k' a) (k a)) ->
  dumps_read seq (bindM (onDLayer m) k') (bindM m k).
Proof.
  intros Hm Hk l d Hl. unfold bindM. rewrite quiet_layer.
  specialize (Hm l). pose proof (fun a => Hk a l) as Hk'. destruct (m l) as [[a|e|c] l']; cbn in *; [|eauto..].
  apply Hk'; [done|congruence].
Qed.

Lemma dumps_lift {A} seq (r : result A) k' k :
  (forall a, r = Ok a -> dumps_read seq (k' a) (k a)) -> dumps_read seq (bindM (lift r) k') (bindM (lift r) k).
Proof. intros Hk l d Hl. unfold bindM, lift. destruct r; cbn; [now apply Hk|eauto..]. Qed.

Lemma dumps_fail seq e : dumps_read seq (fail e) (fail e).
Proof. intros l d Hl. exists d. done. Qed.

Lemma readFull_recvSeq n (l : Layer P) : recvSeq (snd (onWorld (readFull n) l)) = recvSeq l.
Proof. unfold onWorld, zoom. now destruct (readFull n (rw l)). Qed.

Lemma openRecord_recvSeq hdr frag (l : Layer P) : recvSeq (snd (openRecord hdr frag l)) = recvSeq l.
Proof. unfold openRecord. now destruct (Open _ _ _ _). Qed.

Lemma ReadRecordDump_eq l d :
  exists d', ReadRecordDump (l, d) = (fst (ReadRecord l), (snd (ReadRecord l), d')) /\
    read_dumps (recvSeq l) (fst (ReadRecord l)) d d'.
Proof.
  unfold ReadRecordDump, ReadRecord. rewrite !bindM_get. cbn [fst].
  destruct (recvSeq l =? maxUint64) eqn:Emax; [now exists d|].
  match goal with |- exists d', ?m' (l, d) = (fst (?m l), _) /\ _ =>
    assert (HD : dumps_read (recvSeq l) m' m); [|now apply HD] end.
  apply dumps_bind; [apply readFull_recvSeq|intros hdr _ _].
  apply dumps_lift; intros h0 _. apply dumps_lift; intros vb Hvb. apply dumps_lift; intros lb _.
  assert (Hver : 0 <= beUint vb < 65536).
  { apply slice_Ok in Hvb as (_ & _ & _ & Hlen & _). pose proof (beUint_range vb) as Hr.
    rewrite Hlen in Hr. exact Hr. }
  destruct (negb _); [apply dumps_fail|]. destruct (negb _); [apply dumps_fail|].
  destruct (_ <? _); [apply dumps_fail|].
  apply dumps_bind; [apply readFull_recvSeq|intros fragment _ _].
  apply dumps_bind; [apply openRecord_recvSeq|intros plain _ _].
  destruct (_ <? _); [apply dumps_fail|]. intros l1 d1 Hl1. rewrite bindM_get, bindM_dump. cbn [fst].
  eexists. split; [apply (quiet_bind _ (modify _)); [apply quiet_layer|intros _; apply quiet_ret]|].
  cbn. exists (beUint vb). rewrite Hl1. done.
Qed.

End Transparent.

(** ** The log can be read back *)

Definition isDigit (b : byte) : Prop := b <> space /\ b <> newline.

Definition digitVal (b : byte) : Z := if b2z b <? 87 then b2z b - 48 else b2z b - 87.

Lemma digit_b2z d : 0 <= d < 16 -> b2z (digit d) = if d <? 10 then 48 + d else 87 + d.
Proof. intros Hd. unfold digit. apply b2z_small. destruct (d <? 10) eqn:E; z_bool; lia. Qed.

Lemma digitVal_digit d : 0 <= d < 16 -> digitVal (digit d) = d.
Proof.
  intros Hd. unfold digitVal. rewrite digit_b2z by done.
  destruct (d <? 10) eqn:E; z_bool; [rewrite (proj2 (Z.ltb_lt _ _)) by lia|rewrite (proj2 (Z.ltb_ge _ _)) by lia]; lia.
Qed.

Lemma digit_isDigit d : 0 <= d < 16 -> isDigit (digit d).
Proof.
  intros Hd. pose proof (digit_b2z d Hd) as E.
  split; intros F; rewrite F in E; [change (b2z space) with 32 in E|change (b2z newline) with 10 in E];
    destruct (d <? 10); lia.
Qed.

Definition decVal (b : bytes) : Z := fold_left (fun a c => a * 10 + digitVal c) b 0.

Lemma decLoop_spec fuel n acc :
  0 <= n < 10 ^ Z.of_nat fuel ->
  exists ds, decLoop fuel n acc = ds ++ acc /\ decVal ds = n /\ Forall isDigit ds.
Proof.
  revert n acc. induction fuel as [|fuel IH]; intros n acc Hn.
  { exists []. split_and!; [done|cbn in *; lia|constructor]. }
  cbn [decLoop]. pose proof (Z.mod_pos_bound n 10 ltac:(lia)) as Hm.
  assert (Hdig : isDigit (digit (n mod 10))) by (apply digit_isDigit; lia).
  destruct (n <? 10) eqn:E; z_bool.
  - exists [digit (n mod 10)]. split_and!; [done| |constructor; [exact Hdig|constructor]].
    unfold decVal. cbn. rewrite digitVal_digit by lia. rewrite Z.mod_small; lia.
  - rewrite Nat2Z.inj_succ, Z.pow_succ_r in Hn by lia.
    destruct (IH (n / 10) (digit (n mod 10) :: acc)) as (ds & -> & Hv & Hf).
    { split; [apply Z.div_pos; lia|]. apply Z.div_lt_upper_bound; lia. }
    exists (ds ++ [digit (n mod 10)]). split_and!; [now rewrite <- app_assoc| |].
    + unfold decVal in *. rewrite fold_left_app. cbn. rewrite Hv, digitVal_digit by lia.
      pose proof (Z.div_mod n 10 ltac:(lia)). lia.
    + apply Forall_app. split; [done|constructor; [exact Hdig|constructor]].
Qed.

Lemma dec_spec n : 0 <= n < 10 ^ 20 -> decVal (dec n) = n /\ Forall isDigit (dec n).
Proof.
  intros Hn. destruct (decLoop_spec 20 n [] Hn) as (ds & E & Hv & Hf). unfold dec.
  rewrite E, app_nil_r. done.
Qed.

Lemma hex_digits b : Forall isDigit (hex b).
Proof.
  induction b as [|x b IH]; [constructor|]. unfold hex in *. cbn [map concat].
  apply Forall_app. split; [|done]. pose proof (b2z_range x).
  constructor; [|constructor; [|constructor]]; apply digit_isDigit;
    [split; [apply Z.div_pos; lia|apply Z.div_lt_upper_bound; lia]|apply Z.mod_pos_bound; lia].
Qed.

Lemma hexByte_inj x y : hexByte x = hexByte y -> x = y.
Proof.
  unfold hexByte. intros E. injection E as E1 E2. pose proof (b2z_range x). pose proof (b2z_range y).
  apply (f_equal digitVal) in E1, E2.
  assert (forall z, 0 <= z < 256 -> 0 <= z / 16 < 16) as Hd
    by (intros z Hz; split; [apply Z.div_pos; lia|apply Z.div_lt_upper_bound; lia]).
  rewrite !digitVal_digit in E1 by (apply Hd; lia).
  rewrite !digitVal_digit in E2 by (apply Z.mod_pos_bound; lia).
  apply b2z_inj. rewrite (Z.div_mod (b2z x) 16), (Z.div_mod (b2z y) 16) by lia. congruence.
Qed.

Lemma hex_inj a b : hex a = hex b -> a = b.
Proof.
  revert b. induction a as [|x a IH]; intros [|y b] E; try done. unfold hex in *. cbn [map concat] in E.
  apply app_inj_1 in E as [E1 E2]; [|done]. f_equal; [now apply hexByte_inj|auto].
Qed.

(** Text up to a separator it does not contain. *)
Lemma sep_inj (c : byte) a a' x x' :
  Forall (fun b => b <> c) a -> Forall (fun b => b <> c) a' -> a ++ c :: x = a' ++ c :: x' -> a = a' /\ x = x'.
Proof.
  intros Ha. revert a'. induction Ha as [|b a Hb _ IH]; intros a' Ha' E; destruct Ha' as [|b' a' Hb' Ha'];
    cbn in E; injection E; intros; subst; try done.
  destruct (IH a' Ha') as [-> ->]; done.
Qed.

Lemma digits_space a : Forall isDigit a -> Forall (fun b => b <> space) a.
Proof. intros H. eapply Forall_impl; [exact H|]. now intros b [Hb _]. Qed.
Lemma digits_newline a : Forall isDigit a -> Forall (fun b => b <> newline) a.
Proof. intros H. eapply Forall_impl; [exact H|]. now intros b [_ Hb]. Qed.

(** What [WriteRecord] and [ReadRecord] dump. *)
Record dumped_ok (d : dumped) : Prop := {
  do_dir : dm_dir d = "send" \/ dm_dir d = "recv";
  do_seq : 0 <= dm_seq d <= maxUint64;
  do_type : 0 <= dm_type d < 256;
  do_version : 0 <= dm_version d < 65536;
  do_payload : len (dm_payload d) <= tlsMaxPlaintextLen
}.

(** A field and its separator. *)
Lemma field_inj (label : bytes) a a' x x' :
  Forall isDigit a -> Forall isDigit a' ->
  label ++ a ++ space :: x = label ++ a' ++ space :: x' -> a = a' /\ x = x'.
Proof. intros Ha Ha' E. apply app_inv_head in E. apply sep_inj in E; auto using digits_space. Qed.

Lemma dec_inj n m : 0 <= n < 10 ^ 20 -> 0 <= m < 10 ^ 20 -> dec n = dec m -> n = m.
Proof. intros Hn Hm E. rewrite <- (proj1 (dec_spec n Hn)), <- (proj1 (dec_spec m Hm)). now rewrite E. Qed.

Lemma dumpLine_inj r r' x x' :
  dumped_ok r -> dumped_ok r' -> dumpLine r ++ x = dumpLine r' ++ x' -> r = r' /\ x = x'.
Proof.
  intros [D1 S1 T1 V1 P1] [D2 S2 T2 V2 P2]. unfold dumpLine. rewrite <- !app_assoc. intros E.
  assert (Hmax : forall n, 0 <= n <= maxUint64 -> 0 <= n < 10 ^ 20)
    by (unfold maxUint64; intros; split; [lia|]; apply Z.le_lt_trans with (2 ^ 64 - 1); [lia|reflexivity]).
  pose proof (len_nonneg (dm_payload r)). pose proof (len_nonneg (dm_payload r')).
  unfold tlsMaxPlaintextLen in *.
  assert (Hs : forall n, 0 <= n <= maxUint64 -> Forall isDigit (dec n)) by (intros; apply dec_spec; auto).
  assert (Hb : forall n, 0 <= n < 65536 -> 0 <= n <= maxUint64) by (unfold maxUint64; lia).
  apply (sep_inj space (strBytes (dm_dir r)) (strBytes (dm_dir r'))) in E as [E1 E];
    [|destruct D1 as [-> | ->]; repeat constructor; discriminate
     |destruct D2 as [-> | ->]; repeat constructor; discriminate].
  apply (field_inj (strBytes "seq=")) in E as [E2 E]; [|auto..].
  apply (field_inj (strBytes "type=")) in E as [E3 E]; [|apply Hs, Hb; lia..].
  apply (field_inj (strBytes "ver=")) in E as [E4 E]; [|apply hex_digits..].
  apply (field_inj (strBytes "len=")) in E as [_ E]; [|apply Hs, Hb; lia..].
  apply (app_inv_head (strBytes "hex=")) in E. cbn [app] in E.
  apply sep_inj in E as [E5 E]; [|apply digits_newline, hex_digits..].
  split; [|done]. apply dec_inj in E2; [|auto..]. apply dec_inj in E3; [|apply Hmax, Hb; lia..].
  apply hex_inj in E4, E5. apply (bePut_inj 2) in E4; [|first [exact V1|exact V2]..].
  assert (dm_dir r = dm_dir r') by (destruct D1 as [F1|F1], D2 as [F2|F2]; rewrite F1, F2 in *; done).
  destruct r, r'. cbn in *. congruence.
Qed.

Lemma dumpLine_nonempty r x : dumpLine r ++ x <> [].
Proof. unfold dumpLine. intros E. apply (f_equal length) in E. rewrite !length_app in E. cbn in E. lia. Qed.

Lemma dumpLines_inj rs rs' :
  Forall dumped_ok rs -> Forall dumped_ok rs' ->
  concat (map dumpLine rs) = concat (map dumpLine rs') -> rs = rs'.
Proof.
  intros Hf. revert rs'. induction Hf as [|r rs Hr _ IH]; intros rs' Hf' E; destruct Hf' as [|r' rs' Hr' Hf'];
    cbn [map concat] in E; [done|now apply eq_sym, dumpLine_nonempty in E|now apply dumpLine_nonempty in E|].
  apply dumpLine_inj in E as [-> E]; [|done..]. f_equal. auto.
Qed.

(** ** A life of the dump *)

Section Log.
Context {F : Files}.

Definition dumpAll (rs : list dumped) (d : wireDebug) : wireDebug := fold_left (fun d r => dumpPlaintext r d) rs d.

(** Before the first call. *)
Definition wireDebugStart (path : bytes) : wireDebug :=
  {| wd_path := path; wireDebugFile := None; wireDebugOpenFail := false; wd_stderr := 0 |}.

Lemma dumpAll_cons r rs d : dumpAll (r :: rs) d = dumpAll rs (dumpPlaintext r d).
Proof. reflexivity. Qed.

Lemma dump_first r path :
  path <> [] ->
  dumpPlaintext r (wireDebugStart path)
  = if openFile path
    then {| wd_path := path; wireDebugFile := Some (appendFile [] (dumpLine r)); wireDebugOpenFail := false;
            wd_stderr := 0 |}
    else {| wd_path := path; wireDebugFile := None; wireDebugOpenFail := true; wd_stderr := 1 |}.
Proof.
  intros Hp. unfold dumpPlaintext. cbn [wd_path wireDebugStart wireDebugFile wireDebugOpenFail wd_stderr].
  destruct path; [done|]. rewrite (proj2 (Z.eqb_neq _ _)) by len_lia. now destruct (openFile _).
Qed.

Lemma dumpAll_failed rs d : wireDebugOpenFail d = true -> dumpAll rs d = d.
Proof.
  intros Hd. unfold dumpAll. induction rs as [|r rs IH]; [done|]. cbn [fold_left].
  assert (dumpPlaintext r d = d) as ->; [|done]. unfold dumpPlaintext. rewrite Hd.
  now destruct (_ =? 0), (wireDebugFile d).
Qed.

Lemma dumpAll_open rs path f e :
  (forall a b, appendFile a b = a ++ b) -> path <> [] ->
  dumpAll rs {| wd_path := path; wireDebugFile := Some f; wireDebugOpenFail := false; wd_stderr := e |}
  = {| wd_path := path; wireDebugFile := Some (f ++ concat (map dumpLine rs)); wireDebugOpenFail := false;
       wd_stderr := e |}.
Proof.
  intros Happ Hp. assert (Hl : len path =? 0 = false) by (destruct path; [done|apply Z.eqb_neq; len_lia]).
  revert f. induction rs as [|r rs IH]; intros f; [cbn; now rewrite app_nil_r|].
  unfold dumpAll in *. cbn [fold_left]. unfold dumpPlaintext at 2. cbn [wd_path]. rewrite Hl. cbn.
  rewrite Happ, IH, app_assoc. done.
Qed.

End Log.

(** * Properties *)

Section Properties.
Context {F : Files} {P : Type} `{Protector P}.

(** The dump never disturbs the connection and misses nothing: whatever
    [TLS_DEBUG_WIRE_LOG] says, whether the file opens and whatever its writes do,
    [WriteRecord] and [ReadRecord] with their calls of [dumpPlaintext] return the
    same result and leave the same layer as without them; a record is dumped, once
    and with its sequence number, exactly when it passed the checks of
    [WriteRecord] or is returned by [ReadRecord]. *)
Theorem dump_transparent ct payload (l : Layer P) (d : wireDebug) :
  WriteRecordDump ct payload (l, d)
  = (fst (WriteRecord ct payload l), (snd (WriteRecord ct payload l),
      if isKnownContentType ct && (len payload <=? tlsMaxPlaintextLen) && negb (sendSeq l =? maxUint64)
      then dumpPlaintext (sendDump ct payload l) d else d)) /\
  exists d', ReadRecordDump (l, d) = (fst (ReadRecord l), (snd (ReadRecord l), d')) /\
    read_dumps (recvSeq l) (fst (ReadRecord l)) d d'.
Proof. split; [apply WriteRecordDump_eq|apply ReadRecordDump_eq]. Qed.

(** The dump keeps every record: without a path it does nothing; when the file
    cannot be opened it prints one diagnostic, once, and nothing else ever; and
    when it opens, on a file system whose appends succeed, the file holds one line
    per record from which the records, their direction, sequence number, type,
    version and bytes, can be recovered. *)
Theorem dump_complete path rs :
  Forall dumped_ok rs -> rs <> [] ->
  let d := dumpAll rs (wireDebugStart path) in
  (path = [] -> d = wireDebugStart path) /\
  (path <> [] -> openFile path = false -> wireDebugFile d = None /\ wd_stderr d = 1%nat) /\
  (path <> [] -> openFile path = true -> (forall a b, appendFile a b = a ++ b) ->
     exists log, wireDebugFile d = Some log /\ wd_stderr d = 0%nat /\
       forall rs', Forall dumped_ok rs' -> concat (map dumpLine rs') = log -> rs' = rs).
Proof.
  intros Hok Hne. destruct rs as [|r rs]; [done|]. cbn zeta. rewrite dumpAll_cons.
  split_and!.
  - intros ->. clear. cbn. induction rs as [|r' rs IH]; [done|exact IH].
  - intros Hp Ho. rewrite dump_first, Ho by done. now rewrite dumpAll_failed.
  - intros Hp Ho Happ. rewrite dump_first, Ho by done. rewrite dumpAll_open by done.
    exists (concat (map dumpLine (r :: rs))). cbn [wireDebugFile wd_stderr].
    split_and!; [now rewrite Happ|done|]. intros rs' Hok' E. now apply dumpLines_inj.
Qed.

End Properties.

(** ** Witness *)

Module DumpRun.

#[local] Instance files : Files := {| openFile p := true; appendFile a b := a ++ b |}.

Definition recs : list dumped :=
  [{| dm_dir := "send"; dm_seq := 42; dm_type := 23; dm_version := 0x0303; dm_payload := [Byte.xde; Byte.xad] |};
   {| dm_dir := "recv"; dm_seq := 43; dm_type := 21; dm_version := 0x0303; dm_payload := [] |}].

Lemma dump_complete_witness :
  wireDebugFile (dumpAll recs (wireDebugStart (strBytes "/tmp/wire.log")))
  = Some (strBytes "send seq=42 type=23 ver=0303 len=2 hex=dead" ++ [newline] ++
          strBytes "recv seq=43 type=21 ver=0303 len=0 hex=" ++ [newline]) /\
  exists log, wireDebugFile (dumpAll recs (wireDebugStart (strBytes "/tmp/wire.log"))) = Some log /\
    forall rs', Forall dumped_ok rs' -> concat (map dumpLine rs') = log -> rs' = recs.
Proof.
  split; [vm_compute; reflexivity|].
  destruct (dump_complete (strBytes "/tmp/wire.log") recs) as (_ & _ & H).
  - repeat constructor; cbn; unfold maxUint64, tlsMaxPlaintextLen; (auto || lia || (vm_compute; congruence)).
  - discriminate.
  - destruct H as (log & E & _ & Hr); [discriminate|reflexivity|reflexivity|]. eauto.
Defined.

End DumpRun.
