(* ===== verification/AlertText.v ===== *)
(** * The texts of the record layer's errors ([alerts.go])

    [AlertError.Error] and [RecordError.Error], with [%d] as in [WireDebug].  A log line
    tells which alert it was. *)

From Stdlib Require Import ZArith Lia.
From stdpp Require Import base list strings.
From S2P Require Import Prelude Errors WireDebug.

Open Scope Z_scope.

Definition AlertError_Error (e : AlertError) : bytes :=
  strBytes "tls: fatal alert " ++ dec (Description e) ++ strBytes " (level " ++ dec (Level e) ++ strBytes ")".

Definition RecordError_Error (e : RecordError) : bytes :=
  strBytes "tls record: " ++ strBytes (Message e).

(** Both fields are [uint8]. *)
Definition alert_wf (e : AlertError) : Prop := 0 <= Level e < 256 /\ 0 <= Description e < 256.

(** The text of an alert determines it, and is never that of a record error. *)
Theorem alert_text_inj e e' r :
  alert_wf e -> alert_wf e' ->
  (AlertError_Error e = AlertError_Error e' -> e = e') /\ AlertError_Error e <> RecordError_Error r.
Proof.
  intros [Hl Hd] [Hl' Hd']. assert (Hs : forall n, 0 <= n < 256 -> 0 <= n < 10 ^ 20) by lia.
  split; [|unfold AlertError_Error, RecordError_Error; discriminate].
  destruct (dec_spec _ (Hs _ Hd)) as [_ D], (dec_spec _ (Hs _ Hd')) as [_ D'].
  intros E. destruct (field_inj _ _ _ _ _ D D' E) as [Ed Er].
  apply (app_inv_head (strBytes "(level ")), app_inv_tail in Er.
  apply dec_inj in Ed, Er; [|auto..]. destruct e, e'. cbn in *. congruence.
Qed.

Lemma alert_text_inj_witness :
  AlertError_Error {| Level := 2; Description := 40 |} <> AlertError_Error {| Level := 2; Description := 42 |}.
Proof.
  destruct (alert_text_inj {| Level := 2; Description := 40 |} {| Level := 2; Description := 42 |}
    {| Fatal := true; Message := "" |}) as [H _]; [split; cbn; lia..|].
  intros E. discriminate (H E).
Defined.
