(* ===== verification/Protectors.v ===== *)
(** * All protectors behind the interface

    The protectors of [internal/record] as one type with a case per struct, the
    [Protector] instance the record layer runs on, and the proof that each of
    them meets [ProtectorLaws]; then the layer's theorems at that instance. *)

From Stdlib Require Import ZArith Lia.
From stdpp Require Import base list strings.
From S2P Require Import Prelude Errors Primitives Protection ProtectionGost ProtectionCtrOmac State Layer.

Open Scope Z_scope.

Inductive AnyProtector :=
| PNull
| PCBC (p : cbcHMACProtector)
| PAEAD (p : aeadProtector)
| PChaCha (p : chacha20Poly1305Protector)
| PGOST28147 (p : gost28147Protector)
| PCTROMAC (p : ctrOMACProtector).

Section Instance.
Context {C : Primitives} {L : PrimitiveLaws C}.

Definition anySeal (p : AnyProtector) (t : tape) (seq : Z) (hdr plain : bytes)
  : result bytes * AnyProtector * tape :=
  match p with
  | PNull => (nullSeal plain, p, t)
  | PCBC c => let '(r, t) := cbcSeal c t seq hdr plain in (r, p, t)
  | PAEAD a => (aeadSeal a seq hdr plain, p, t)
  | PChaCha c => (chachaProtSeal c seq hdr plain, p, t)
  | PGOST28147 g =>
      match gostSeal g seq hdr plain with
      | Ok (frag, g) => (Ok frag, PGOST28147 g, t)
      | Err e => (Err e, p, t)
      | Crash c => (Crash c, p, t)
      end
  | PCTROMAC o => (ctrOMACSeal o seq hdr plain, p, t)
  end.

Definition anyOpen (p : AnyProtector) (seq : Z) (hdr frag : bytes)
  : result bytes * AnyProtector :=
  match p with
  | PNull => (nullOpen frag, p)
  | PCBC c => (cbcOpen c seq hdr frag, p)
  | PAEAD a => (aeadOpen a seq hdr frag, p)
  | PChaCha c => (chachaProtOpen c seq hdr frag, p)
  | PGOST28147 g => let '(r, g) := gostOpen g seq hdr frag in (r, PGOST28147 g)
  | PCTROMAC o => (ctrOMACOpen o seq hdr frag, p)
  end.

#[export] Instance any_protector : Protector AnyProtector :=
  {| nullProtector := PNull; Seal := anySeal; Open := anyOpen |}.

(** The state each constructor establishes and every operation keeps. *)
Definition any_ok (p : AnyProtector) : Prop :=
  match p with
  | PNull | PAEAD _ | PChaCha _ => True
  | PCBC c => (exists b, cbc_ok c b) /\ macSize c <= 64
  | PGOST28147 g => gp_inv g
  | PCTROMAC o => ctr_ok o
  end.

Lemma cbcOpen_safe c b seq hdr frag :
  cbc_ok c b -> 3 <= len hdr -> len frag < 2 ^ 31 -> safe (cbcOpen c seq hdr frag).
Proof.
  intros Hc Hh Hf. rewrite (cbcOpen_ref c b) by done. unfold cbcOpenRef.
  destruct (_ || _) eqn:E; [done|]. apply orb_false_iff in E as [E1 E2]. z_bool.
  destruct Hc as [_ Hs Hm Hb]. pose proof (bo_size _ Hb). pose proof (hashSize_pos (newHash c)).
  destruct (cbcDecrypt_Ok b (take (Z.to_nat (blockSize c)) frag) (drop (Z.to_nat (blockSize c)) frag))
    as (plain & -> & _); [done|len_lia| |].
  { rewrite len_drop, Z2Nat.id, Z.max_r by lia.
    rewrite <- Hs, Zminus_mod, E2, Z_mod_same_full. reflexivity. }
  cbn [bind]. rewrite macAdditionalData_Ok by done. cbn [bind]. now destruct (_ && _).
Qed.

Lemma anySeal_law p t seq hdr plain :
  any_ok p -> len hdr = 5 -> len plain <= tlsMaxPlaintextLen ->
  let '(r, p', t') := anySeal p t seq hdr plain in
  any_ok p' /\
  match r with
  | Ok frag =>
      len frag <= maxFragmentLen /\
      forall hdr', len hdr' = 5 -> take 3 hdr' = take 3 hdr ->
                   anyOpen p seq hdr' frag = (Ok plain, p')
  | Err _ => True
  | Crash _ => False
  end.
Proof.
  unfold maxFragmentLen, tlsMaxPlaintextLen, tlsMaxCiphertextOverhead.
  intros Hp Hh Hl. destruct p as [|c|a|c|g|o]; cbn [anySeal anyOpen any_ok] in *.
  - unfold nullSeal, nullOpen. split; [done|]. split; [lia|done].
  - destruct Hp as [[b Hb] Hm]. pose proof Hb as [Hc Hs Hms Hbo]. pose proof (bo_size _ Hbo).
    pose proof (hashSize_pos (newHash c)).
    destruct (randRead (blockSize c) t) as [[iv t']|] eqn:Hr.
    + pose proof (cbcPad_range c b plain Hb).
      destruct (cbcOpen_Seal c b t seq hdr hdr plain iv t') as (frag & Es & El & _);
        [done|lia|lia|done|lia|done|].
      rewrite Es. split; [split; eauto|]. split; [lia|]. intros hdr' Hh' He.
      destruct (cbcOpen_Seal c b t seq hdr hdr' plain iv t') as (frag' & Es' & _ & Eo');
        [done|lia|lia|done|lia|done|].
      rewrite Es in Es'. injection Es' as <-. now rewrite Eo'.
    + unfold cbcSeal. rewrite computeMAC_eq, macAdditionalData_Ok by lia. cbn [bind].
      rewrite Hr. split; [split; eauto|done].
  - destruct (aeadOpen_Seal a seq hdr hdr plain) as (frag & Es & El & _); [lia|lia|done|].
    rewrite Es. split; [done|]. split; [lia|]. intros hdr' Hh' He.
    destruct (aeadOpen_Seal a seq hdr hdr' plain) as (frag' & Es' & _ & Eo); [lia|lia|done|].
    rewrite Es in Es'. injection Es' as <-. now rewrite Eo.
  - destruct (chachaProtOpen_Seal c seq hdr hdr plain) as (frag & Es & El & _); [lia|lia|done|].
    rewrite Es. split; [done|]. split; [lia|]. intros hdr' Hh' He.
    destruct (chachaProtOpen_Seal c seq hdr hdr' plain) as (frag' & Es' & _ & Eo); [lia|lia|done|].
    rewrite Es in Es'. injection Es' as <-. now rewrite Eo.
  - destruct (gostOpen_Seal g seq hdr hdr plain) as (frag & g' & Es & El & _ & Hg'); [done|lia|lia|done|].
    rewrite Es. split; [done|]. split; [lia|]. intros hdr' Hh' He.
    destruct (gostOpen_Seal g seq hdr hdr' plain) as (frag' & g2 & Es' & _ & Eo & _); [done|lia|lia|done|].
    rewrite Es in Es'. injection Es' as <- <-. now rewrite Eo.
  - assert (Ht : tagSize o <= 16) by (rewrite (ck_tag _ Hp); destruct (newBlock o); cbn; lia).
    destruct (ctrOMACOpen_Seal o seq hdr hdr plain) as (frag & Es & El & _); [done|lia|lia|done|].
    rewrite Es. split; [done|]. split; [lia|]. intros hdr' Hh' He.
    destruct (ctrOMACOpen_Seal o seq hdr hdr' plain) as (frag' & Es' & _ & Eo); [done|lia|lia|done|].
    rewrite Es in Es'. injection Es' as <-. now rewrite Eo.
Qed.

Lemma anyOpen_law p seq hdr frag :
  any_ok p -> len hdr = 5 -> len frag <= maxFragmentLen ->
  safe (fst (anyOpen p seq hdr frag)) /\ any_ok (snd (anyOpen p seq hdr frag)).
Proof.
  unfold maxFragmentLen, tlsMaxPlaintextLen, tlsMaxCiphertextOverhead.
  intros Hp Hh Hl. destruct p as [|c|a|c|g|o]; cbn [anyOpen any_ok fst snd] in *.
  - done.
  - destruct Hp as [[b Hb] Hm]. split; [|split; eauto]. apply (cbcOpen_safe c b); [done|lia|lia].
  - split; [|done]. unfold aeadOpen, aeadExplicitNonceLen, aeadOverhead.
    destruct (_ <? _) eqn:E; [done|]. z_bool.
    rewrite slice_to, slice_from by lia. cbn [bind]. rewrite buildAD_Ok by lia. cbn [bind].
    now destruct (gcmOpen _ _ _ _).
  - split; [|done]. unfold chachaProtOpen. destruct (_ <? _); [done|].
    rewrite buildAD_Ok by lia. cbn [bind]. now destruct (chachaOpen _ _ _ _).
  - pose proof (gostOpen_keeps g seq hdr frag Hp ltac:(lia)) as [Hk Hs].
    destruct (gostOpen g seq hdr frag) as [r g']. done.
  - split; [|done]. apply ctrOMACOpen_safe; [done|lia].
Qed.

#[export] Instance any_laws : ProtectorLaws AnyProtector := {|
  prot_ok := any_ok;
  null_ok := I;
  Seal_law := anySeal_law;
  Open_law := anyOpen_law
|}.

End Instance.

(** ** A write that fails *)

Section Retry.
Context {C : Primitives} {CL : PrimitiveLaws C}.

(** The write of a record under an AES-GCM protector, as far as the transport takes it. *)
Lemma WriteRecord_aead a ct payload (l : Layer AnyProtector) :
  isKnownContentType ct = true -> len payload <= tlsMaxPlaintextLen -> sendSeq l < maxUint64 ->
  layer_ok l -> sendProt l = PAEAD a ->
  exists ad k l',
    let frag := bePut 8 (sendSeq l) ++
                gcmSeal (aead_key a) (aeadNonce a (bePut 8 (sendSeq l))) payload ad in
    tx (rw l') = tx (rw l) ++ take k (sent ct frag) /\ sendProt l' = PAEAD a /\
    match fst (WriteRecord ct payload l) with
    | Ok _ => WriteRecord ct payload l = (Ok tt, l') /\ take k (sent ct frag) = sent ct frag
    | Err e => WriteRecord ct payload l = (Err e, l') /\ sendSeq l' = sendSeq l
    | Crash _ => False
    end.
Proof.
  intros Hct Hp Hs Hl Ha.
  destruct (WriteRecord_step ct payload l Hct Hp Hs Hl) as (r & p' & t' & HS & _ & HW).
  rewrite Ha in HS.
  change ((aeadSeal a (sendSeq l) (recordHeader ct 0) payload, PAEAD a, rnd (rw l)) = (r, p', t')) in HS.
  injection HS as HS <- _. unfold aeadSeal in HS. cbv zeta in HS.
  destruct (buildAD (sendSeq l) (recordHeader ct 0) (len payload)) as [ad|e|x] eqn:Ead.
  - cbn [bind] in HS. subst r. exists ad. destruct HW as (_ & _ & HW).
    destruct (WriteRecord ct payload l) as [[[]|e|x] l']; cbn [fst]; [| |done].
    + destruct HW as (Htx & _ & _ & _ & _ & _ & Hp' & _).
      match type of Htx with _ = _ ++ ?w => exists (length w), l' end. cbv zeta.
      rewrite firstn_all. auto.
    + destruct HW as (E1 & _ & _ & E2 & _ & k & Hk). exists k, l'. done.
  - unfold buildAD in Ead. discriminate Ead.
  - cbn [bind] in HS. subst r. contradiction.
Qed.

(** A failed write is sealed over: when the transport fails in the middle of a record
    the sequence number stays, so the next record, whatever it holds, is sealed with
    the same key and the same AES-GCM nonce as the one of which a part is already on
    the wire. *)
Theorem write_error_reuses_nonce a ct1 p1 ct2 p2 (l l1 l2 : Layer AnyProtector) e :
  isKnownContentType ct1 = true -> len p1 <= tlsMaxPlaintextLen -> sendSeq l < maxUint64 ->
  layer_ok l -> sendProt l = PAEAD a ->
  WriteRecord ct1 p1 l = (Err e, l1) -> WriteRecord ct2 p2 l1 = (Ok tt, l2) ->
  exists ad1 ad2 k,
    let frag p ad := bePut 8 (sendSeq l) ++
                     gcmSeal (aead_key a) (aeadNonce a (bePut 8 (sendSeq l))) p ad in
    tx (rw l1) = tx (rw l) ++ take k (sent ct1 (frag p1 ad1)) /\
    tx (rw l2) = tx (rw l1) ++ sent ct2 (frag p2 ad2).
Proof.
  intros Hct Hp Hs Hl Ha H1 H2.
  destruct (WriteRecord_aead a ct1 p1 l Hct Hp Hs Hl Ha) as (ad1 & k & l1' & Htx1 & Ha1 & Hr1).
  rewrite H1 in Hr1. destruct Hr1 as ([= <-] & Hs1).
  destruct (WriteRecord_guards _ _ _ _ H2) as (Hct2 & Hp2 & Hne).
  pose proof (WriteRecord_ok ct1 p1 l Hl) as Hl1. rewrite H1 in Hl1.
  destruct (WriteRecord_aead a ct2 p2 l1 Hct2 Hp2 ltac:(lia) Hl1 Ha1) as (ad2 & k2 & l2' & Htx2 & _ & Hr2).
  rewrite H2 in Hr2. destruct Hr2 as ([= <-] & Hall). rewrite Hs1, Hall in *.
  exists ad1, ad2, k. done.
Qed.

End Retry.

(** ** Witnesses of the layer's properties *)

#[local] Existing Instance Toy.prims.
#[local] Existing Instance Toy.laws.

Definition sampleWorld (incoming : bytes) : world :=
  {| rx := incoming; rxEnd := EOF; tx := []; wscript := []; rnd := repeat Byte.x5a 64 |}.

(** A connection protected by AES-128-CBC with HMAC-SHA-256. *)
Definition sampleCBC : AnyProtector :=
  PCBC {| newCipher := NewAESCipher; newHash := SHA256; encKey := repeat Byte.x11 16;
          macKey := [Byte.x22]; blockSize := 16; macSize := 32 |}.

Definition sampleLayer (incoming : bytes) : Layer AnyProtector :=
  ChangeCipherSpec (Some sampleCBC) (Some sampleCBC) (NewLayer (sampleWorld incoming)).

Lemma sampleCBC_ok : any_ok sampleCBC.
Proof.
  split; [|vm_compute; congruence]. eexists. split; [reflexivity|reflexivity|reflexivity|].
  now apply (NewAESCipher_ok (repeat Byte.x11 16)).
Qed.

Lemma sampleLayer_ok b : layer_ok (sampleLayer b).
Proof. split; try exact sampleCBC_ok; vm_compute; split; congruence. Qed.

Lemma layer_roundtrip_witness :
  let rs := [(23, [Byte.x61; Byte.x62]); (21, EncodeAlert 1 0)] in
  exists l', writeAll rs (sampleLayer []) = (Ok tt, l') /\
    exists wire, tx (rw l') = wire /\
      exists r', readAll 2 (sampleLayer (wire ++ [Byte.xff])) = (Ok rs, r') /\
                 rx (rw r') = [Byte.xff].
Proof.
  intros rs.
  assert (H : exists l', writeAll rs (sampleLayer []) = (Ok tt, l'))
    by (eexists; vm_compute; reflexivity).
  destruct H as [l' H]. exists l'. split; [exact H|].
  destruct (layer_roundtrip rs (sampleLayer []) l' (sampleLayer_ok []) H) as (wire & Ht & Hr).
  exists wire. split; [exact Ht|].
  destruct (Hr (sampleLayer (wire ++ [Byte.xff])) [Byte.xff]) as (r' & H1 & H2 & _);
    [reflexivity|reflexivity|reflexivity|].
  exists r'. split; [exact H1|exact H2].
Defined.

(** A record of TLS 1.0 is read; the same bytes under the version of TLS 1.3 or of
    SSL 3.0 are no record. *)
Definition plainLayer (incoming : bytes) : Layer AnyProtector := NewLayer (sampleWorld incoming).

Lemma plainLayer_ok b : layer_ok (plainLayer b).
Proof. split; [done|done|vm_compute; split; congruence..]. Qed.

Lemma ReadRecord_checked_witness :
  let record v := [Byte.x17; Byte.x03; v; Byte.x00; Byte.x01; Byte.x61] in
  (exists l', ReadRecord (plainLayer (record Byte.x01)) = (Ok (23, [Byte.x61]), l') /\
              record_read (plainLayer (record Byte.x01)) (23, [Byte.x61]) l') /\
  ~ (exists r l1, record_read (plainLayer (record Byte.x04)) r l1) /\
  ~ (exists r l1, record_read (plainLayer (record Byte.x00)) r l1).
Proof.
  intros record.
  assert (H : forall v, layer_ok (plainLayer (record v))) by (intros; apply plainLayer_ok).
  split; [|split].
  - pose proof (ReadRecord_checked _ (H Byte.x01)) as R.
    assert (E : fst (ReadRecord (plainLayer (record Byte.x01))) = Ok (23, [Byte.x61]))
      by (vm_compute; reflexivity).
    destruct (ReadRecord (plainLayer (record Byte.x01))) as [r l']. cbn [fst] in E. subst r.
    exists l'. split; [reflexivity|]. exact (proj1 R).
  - pose proof (ReadRecord_checked _ (H Byte.x04)) as R.
    assert (E : fst (ReadRecord (plainLayer (record Byte.x04))) = Err (NewFatalAlertError 70))
      by (vm_compute; reflexivity).
    destruct (ReadRecord (plainLayer (record Byte.x04))) as [r l']. cbn [fst] in E. subst r. exact (proj1 R).
  - pose proof (ReadRecord_checked _ (H Byte.x00)) as R.
    assert (E : fst (ReadRecord (plainLayer (record Byte.x00))) = Err (NewFatalAlertError 70))
      by (vm_compute; reflexivity).
    destruct (ReadRecord (plainLayer (record Byte.x00))) as [r l']. cbn [fst] in E. subst r. exact (proj1 R).
Defined.

Lemma WriteRecord_sequence_witness :
  let l := set_send maxUint64 sampleCBC (sampleLayer []) in
  exists e, WriteRecord 23 [] l = (Err e, l).
Proof.
  intros l. assert (Hl : layer_ok l)
    by (split; try exact sampleCBC_ok; vm_compute; split; congruence).
  pose proof (WriteRecord_sequence 23 [] l Hl) as H.
  assert (He : exists e, fst (WriteRecord 23 [] l) = Err e) by (eexists; vm_compute; reflexivity).
  destruct He as [e He]. destruct (WriteRecord 23 [] l) as [r l']. cbn in He. subst r.
  exists e. destruct H as (_ & H & _). rewrite (H eq_refl). reflexivity.
Defined.

(** Two different plaintexts under one nonce: the transport fails after three bytes of
    the first fragment, and the next record goes out whole. *)
Definition sampleAEAD : aeadProtector :=
  {| aead_key := repeat Byte.x11 16; salt := [Byte.x01; Byte.x02; Byte.x03; Byte.x04] |}.

Definition sampleBroken : Layer AnyProtector :=
  ChangeCipherSpec (Some (PAEAD sampleAEAD)) None
    (NewLayer {| rx := []; rxEnd := EOF; tx := []; wscript := [None; Some (3%nat, EOF)]; rnd := [] |}).

Example sampleBroken_reuse :
  exists l1 l2 ad1 ad2 k,
    let nonce := aeadNonce sampleAEAD (bePut 8 0) in
    WriteRecord 23 [Byte.x61] sampleBroken = (Err EOF, l1) /\
    WriteRecord 23 [Byte.x62] l1 = (Ok tt, l2) /\
    tx (rw l2)
    = take k (sent 23 (bePut 8 0 ++ gcmSeal (aead_key sampleAEAD) nonce [Byte.x61] ad1)) ++
      sent 23 (bePut 8 0 ++ gcmSeal (aead_key sampleAEAD) nonce [Byte.x62] ad2).
Proof.
  assert (F1 : fst (WriteRecord 23 [Byte.x61] sampleBroken) = Err EOF) by (vm_compute; reflexivity).
  assert (F2 : fst (WriteRecord 23 [Byte.x62] (snd (WriteRecord 23 [Byte.x61] sampleBroken))) = Ok tt)
    by (vm_compute; reflexivity).
  destruct (WriteRecord 23 [Byte.x61] sampleBroken) as [r1 l1] eqn:H1. cbn [fst snd] in F1, F2. subst r1.
  destruct (WriteRecord 23 [Byte.x62] l1) as [r2 l2] eqn:H2. cbn [fst] in F2. subst r2.
  destruct (write_error_reuses_nonce sampleAEAD 23 [Byte.x61] 23 [Byte.x62] sampleBroken l1 l2 EOF)
    as (ad1 & ad2 & k & T1 & T2); [reflexivity|vm_compute; congruence|reflexivity| |reflexivity|done|done|].
  { split; [exact I|exact I|vm_compute; split; congruence..]. }
  exists l1, l2, ad1, ad2, k. split; [done|]. split; [done|]. rewrite T2, T1. reflexivity.
Qed.
