(* ===== verification/Suites.v ===== *)
(** * Cipher suites and key schedule ([internal/suites], [suites.go])

    The suite descriptors, the registry with its two indices and its order, the
    32 registrations of a default build, the PRF and the key derivations.  The
    registry refuses duplicates and its indices agree; [PRF] is P_hash of
    RFC 5246 §5; the key block is cut without gap or overlap. *)

From Stdlib Require Import ZArith Lia.
From stdpp Require Import base list strings gmap.
From S2P Require Import Prelude Errors Primitives.

Open Scope Z_scope.

(** ** suite.go *)

Inductive KexKind :=
| KexRSA | KexDHE | KexECDHE | KexGOST2001 | KexGOST2012_256 | KexGOST2018_256.

Inductive AuthKind :=
| AuthRSA | AuthECDSA | AuthAnonymous | AuthGOST2001 | AuthGOST2012_256.

#[export] Instance KexKind_eq_dec : EqDecision KexKind.
Proof. solve_decision. Defined.
#[export] Instance AuthKind_eq_dec : EqDecision AuthKind.
Proof. solve_decision. Defined.

Record CipherSpec := {
  cs_Name : string;
  cs_KeyLen : Z;
  FixedIVLen : Z;
  ExplicitIVLen : Z;
  AEAD : bool;
  TagLen : Z
}.

(** [Hash] is [None] for a nil function. *)
Record MACSpec := {
  mac_Hash : option HashName;
  mac_KeyLen : Z;
  MACLen : Z
}.

Record PRFSpec := { prf_Hash : HashName }.

Record Suite := {
  ID : Z;
  Name : string;
  KX : KexKind;
  Auth : AuthKind;
  Cipher : CipherSpec;
  MAC : MACSpec;
  suite_PRF : PRFSpec
}.

(** The package variables [registry], [nameIndex] and [registryOrder]. *)
Record registryState := {
  registry : gmap Z Suite;
  nameIndex : gmap string Suite;
  registryOrder : list Suite
}.

Definition emptyRegistry : registryState :=
  {| registry := ∅; nameIndex := ∅; registryOrder := [] |}.

(** [register]: panics on a duplicate ID or name. *)
Definition register (r : registryState) (s : Suite) : result registryState :=
  match registry r !! ID s with
  | Some _ => Crash Panic
  | None =>
    match nameIndex r !! Name s with
    | Some _ => Crash Panic
    | None =>
      Ok {| registry := <[ID s := s]> (registry r);
            nameIndex := <[Name s := s]> (nameIndex r);
            registryOrder := registryOrder r ++ [s] |}
    end
  end.

Fixpoint registerAll (r : registryState) (l : list Suite) : result registryState :=
  match l with
  | [] => Ok r
  | s :: l => let* r := register r s in registerAll r l
  end.

Definition Lookup (r : registryState) (id : Z) : option Suite := registry r !! id.
Definition LookupByName (r : registryState) (name : string) : option Suite := nameIndex r !! name.
Definition All (r : registryState) : list Suite := registryOrder r.

(** ** suites.go *)

Definition AllSuites (r : registryState) : list (Z * string) :=
  map (fun s => (ID s, Name s)) (All r).

Definition LookupSuiteByName (r : registryState) (name : string) : Z * bool :=
  match LookupByName r name with Some s => (ID s, true) | None => (0, false) end.

(** ** registry.go: suite identifiers and sizes *)

Definition suiteECDHEECDSAAES256GCMSHA384 : Z := 0xC02C.
Definition suiteECDHEECDSACHACHA20POLY1305 : Z := 0xCCA9.
Definition suiteECDHEECDSAAES128GCMSHA256 : Z := 0xC02B.
Definition suiteECDHEECDSAAES256SHA384 : Z := 0xC024.
Definition suiteECDHEECDSAAES128SHA256 : Z := 0xC023.
Definition suiteECDHEECDSAAES256SHA : Z := 0xC00A.
Definition suiteECDHEECDSAAES128SHA : Z := 0xC009.
Definition suiteECDHERSAAES256GCMSHA384 : Z := 0xC030.
Definition suiteECDHERSACHACHA20POLY1305 : Z := 0xCCA8.
Definition suiteECDHERSAAES128GCMSHA256 : Z := 0xC02F.
Definition suiteECDHERSAAES256SHA384 : Z := 0xC028.
Definition suiteECDHERSAAES128SHA256 : Z := 0xC027.
Definition suiteECDHERSAAES256SHA : Z := 0xC014.
Definition suiteECDHERSAAES128SHA : Z := 0xC013.
Definition suiteDHERSAAES256GCMSHA384 : Z := 0x009F.
Definition suiteDHERSACHACHA20POLY1305 : Z := 0xCCAA.
Definition suiteDHERSAAES128GCMSHA256 : Z := 0x009E.
Definition suiteDHERSAAES256SHA256 : Z := 0x006B.
Definition suiteDHERSAAES128SHA256 : Z := 0x0067.
Definition suiteDHERSAAES256SHA : Z := 0x0039.
Definition suiteDHERSAAES128SHA : Z := 0x0033.
Definition suiteRSAAES256GCMSHA384 : Z := 0x009D.
Definition suiteRSAAES128GCMSHA256 : Z := 0x009C.
Definition suiteRSAAES256SHA256 : Z := 0x003D.
Definition suiteRSAAES128SHA256 : Z := 0x003C.
Definition suiteRSAAES256SHA : Z := 0x0035.
Definition suiteRSAAES128SHA : Z := 0x002F.
Definition aes128KeyLen : Z := 16.
Definition aes256KeyLen : Z := 32.
Definition aesgcmFixedIVLen : Z := 4.
Definition aesgcmExplicitIVLen : Z := 8.
Definition aeadTagLen : Z := 16.
Definition chachaNonceLen : Z := 12.
Definition aesCBCIVLen : Z := 16.
Definition hmacSHA384Len : Z := 48.
Definition hmacSHA256Len : Z := 32.
Definition hmacSHA1Len : Z := 20.

(** ** registry.go: the shared specs *)

Definition specAES128GCM : CipherSpec :=
  {| cs_Name := "AES-128-GCM"; cs_KeyLen := aes128KeyLen; FixedIVLen := aesgcmFixedIVLen; ExplicitIVLen := aesgcmExplicitIVLen;
     AEAD := true; TagLen := aeadTagLen |}.
Definition specAES256GCM : CipherSpec :=
  {| cs_Name := "AES-256-GCM"; cs_KeyLen := aes256KeyLen; FixedIVLen := aesgcmFixedIVLen; ExplicitIVLen := aesgcmExplicitIVLen;
     AEAD := true; TagLen := aeadTagLen |}.
Definition specCHACHA20POLY1305 : CipherSpec :=
  {| cs_Name := "CHACHA20-POLY1305"; cs_KeyLen := aes256KeyLen; FixedIVLen := chachaNonceLen; ExplicitIVLen := 0;
     AEAD := true; TagLen := aeadTagLen |}.
Definition specAES256CBC : CipherSpec :=
  {| cs_Name := "AES-256-CBC"; cs_KeyLen := aes256KeyLen; FixedIVLen := aesCBCIVLen; ExplicitIVLen := aesCBCIVLen;
     AEAD := false; TagLen := 0 |}.
Definition specAES128CBC : CipherSpec :=
  {| cs_Name := "AES-128-CBC"; cs_KeyLen := aes128KeyLen; FixedIVLen := aesCBCIVLen; ExplicitIVLen := aesCBCIVLen;
     AEAD := false; TagLen := 0 |}.
Definition specHMACSHA384 : MACSpec := {| mac_Hash := Some SHA384; mac_KeyLen := hmacSHA384Len; MACLen := hmacSHA384Len |}.
Definition specHMACSHA256 : MACSpec := {| mac_Hash := Some SHA256; mac_KeyLen := hmacSHA256Len; MACLen := hmacSHA256Len |}.
(** A hash constructor is the name of the hash. *)
Definition sha1New : HashName := SHA1.

Definition specHMACSHA1 : MACSpec := {| mac_Hash := Some sha1New; mac_KeyLen := hmacSHA1Len; MACLen := hmacSHA1Len |}.
Definition specNoMAC : MACSpec := {| mac_Hash := None; mac_KeyLen := 0; MACLen := 0 |}.
Definition specPRFSHA256 : PRFSpec := {| prf_Hash := SHA256 |}.
Definition specPRFSHA384 : PRFSpec := {| prf_Hash := SHA384 |}.

Definition mkSuite (id : Z) (name : string) (kx : KexKind) (auth : AuthKind)
  (c : CipherSpec) (m : MACSpec) (p : PRFSpec) : Suite :=
  {| ID := id; Name := name; KX := kx; Auth := auth; Cipher := c; MAC := m; suite_PRF := p |}.

(** [registerECDHESuites]. *)
Definition ecdheSuites : list Suite := [
  mkSuite suiteECDHEECDSAAES256GCMSHA384 "ECDHE-ECDSA-AES256-GCM-SHA384" KexECDHE AuthECDSA specAES256GCM specNoMAC specPRFSHA384;
  mkSuite suiteECDHEECDSACHACHA20POLY1305 "ECDHE-ECDSA-CHACHA20-POLY1305" KexECDHE AuthECDSA specCHACHA20POLY1305 specNoMAC specPRFSHA256;
  mkSuite suiteECDHEECDSAAES128GCMSHA256 "ECDHE-ECDSA-AES128-GCM-SHA256" KexECDHE AuthECDSA specAES128GCM specNoMAC specPRFSHA256;
  mkSuite suiteECDHERSAAES256GCMSHA384 "ECDHE-RSA-AES256-GCM-SHA384" KexECDHE AuthRSA specAES256GCM specNoMAC specPRFSHA384;
  mkSuite suiteECDHERSACHACHA20POLY1305 "ECDHE-RSA-CHACHA20-POLY1305" KexECDHE AuthRSA specCHACHA20POLY1305 specNoMAC specPRFSHA256;
  mkSuite suiteECDHERSAAES128GCMSHA256 "ECDHE-RSA-AES128-GCM-SHA256" KexECDHE AuthRSA specAES128GCM specNoMAC specPRFSHA256;
  mkSuite suiteECDHEECDSAAES256SHA384 "ECDHE-ECDSA-AES256-SHA384" KexECDHE AuthECDSA specAES256CBC specHMACSHA384 specPRFSHA384;
  mkSuite suiteECDHEECDSAAES128SHA256 "ECDHE-ECDSA-AES128-SHA256" KexECDHE AuthECDSA specAES128CBC specHMACSHA256 specPRFSHA256;
  mkSuite suiteECDHERSAAES256SHA384 "ECDHE-RSA-AES256-SHA384" KexECDHE AuthRSA specAES256CBC specHMACSHA384 specPRFSHA384;
  mkSuite suiteECDHERSAAES128SHA256 "ECDHE-RSA-AES128-SHA256" KexECDHE AuthRSA specAES128CBC specHMACSHA256 specPRFSHA256;
  mkSuite suiteECDHEECDSAAES256SHA "ECDHE-ECDSA-AES256-SHA" KexECDHE AuthECDSA specAES256CBC specHMACSHA1 specPRFSHA256;
  mkSuite suiteECDHEECDSAAES128SHA "ECDHE-ECDSA-AES128-SHA" KexECDHE AuthECDSA specAES128CBC specHMACSHA1 specPRFSHA256;
  mkSuite suiteECDHERSAAES256SHA "ECDHE-RSA-AES256-SHA" KexECDHE AuthRSA specAES256CBC specHMACSHA1 specPRFSHA256;
  mkSuite suiteECDHERSAAES128SHA "ECDHE-RSA-AES128-SHA" KexECDHE AuthRSA specAES128CBC specHMACSHA1 specPRFSHA256
].

(** [registerDHERSASuites]. *)
Definition dheSuites : list Suite := [
  mkSuite suiteDHERSAAES256GCMSHA384 "DHE-RSA-AES256-GCM-SHA384" KexDHE AuthRSA specAES256GCM specNoMAC specPRFSHA384;
  mkSuite suiteDHERSACHACHA20POLY1305 "DHE-RSA-CHACHA20-POLY1305" KexDHE AuthRSA specCHACHA20POLY1305 specNoMAC specPRFSHA256;
  mkSuite suiteDHERSAAES128GCMSHA256 "DHE-RSA-AES128-GCM-SHA256" KexDHE AuthRSA specAES128GCM specNoMAC specPRFSHA256;
  mkSuite suiteDHERSAAES256SHA256 "DHE-RSA-AES256-SHA256" KexDHE AuthRSA specAES256CBC specHMACSHA256 specPRFSHA256;
  mkSuite suiteDHERSAAES128SHA256 "DHE-RSA-AES128-SHA256" KexDHE AuthRSA specAES128CBC specHMACSHA256 specPRFSHA256;
  mkSuite suiteDHERSAAES256SHA "DHE-RSA-AES256-SHA" KexDHE AuthRSA specAES256CBC specHMACSHA1 specPRFSHA256;
  mkSuite suiteDHERSAAES128SHA "DHE-RSA-AES128-SHA" KexDHE AuthRSA specAES128CBC specHMACSHA1 specPRFSHA256
].

(** [registerRSAKxSuites]. *)
Definition rsaSuites : list Suite := [
  mkSuite suiteRSAAES256GCMSHA384 "AES256-GCM-SHA384" KexRSA AuthRSA specAES256GCM specNoMAC specPRFSHA384;
  mkSuite suiteRSAAES128GCMSHA256 "AES128-GCM-SHA256" KexRSA AuthRSA specAES128GCM specNoMAC specPRFSHA256;
  mkSuite suiteRSAAES256SHA256 "AES256-SHA256" KexRSA AuthRSA specAES256CBC specHMACSHA256 specPRFSHA256;
  mkSuite suiteRSAAES128SHA256 "AES128-SHA256" KexRSA AuthRSA specAES128CBC specHMACSHA256 specPRFSHA256;
  mkSuite suiteRSAAES256SHA "AES256-SHA" KexRSA AuthRSA specAES256CBC specHMACSHA1 specPRFSHA256;
  mkSuite suiteRSAAES128SHA "AES128-SHA" KexRSA AuthRSA specAES128CBC specHMACSHA1 specPRFSHA256
].

(** ** gost_suites.go *)

Definition suiteGOST2001 : Z := 0x0081.
Definition suiteGOST2012Primary : Z := 0xFF85.
Definition suiteGOST2012IANAAlias : Z := 0xC102.
Definition suiteGOSTKuznyechik : Z := 0xC100.
Definition suiteGOSTMagma : Z := 0xC101.
Definition gost28147KeyLen : Z := 32.
Definition gost28147IVLen : Z := 8.
Definition gostIMITMACLen : Z := 4.
Definition kuznyechikKeyLen : Z := 32.
Definition kuznyechikIVLen : Z := 8.
Definition kuznyechikOMACLen : Z := 16.
Definition magmaKeyLen : Z := 32.
Definition magmaIVLen : Z := 4.
Definition magmaOMACLen : Z := 8.

Definition specGOST28147CNT : CipherSpec :=
  {| cs_Name := "GOST28147-CNT"; cs_KeyLen := gost28147KeyLen; FixedIVLen := gost28147IVLen; ExplicitIVLen := 0;
     AEAD := false; TagLen := 0 |}.
Definition specGOST28147IMIT : MACSpec :=
  {| mac_Hash := Some IMITPlaceholder; mac_KeyLen := gost28147KeyLen; MACLen := gostIMITMACLen |}.
Definition specKuznyechikCTROMAC : CipherSpec :=
  {| cs_Name := "KUZNYECHIK-CTR-OMAC"; cs_KeyLen := kuznyechikKeyLen; FixedIVLen := kuznyechikIVLen; ExplicitIVLen := 0;
     AEAD := false; TagLen := 0 |}.
Definition specKuznyechikOMAC : MACSpec := {| mac_Hash := None; mac_KeyLen := kuznyechikKeyLen; MACLen := kuznyechikOMACLen |}.
Definition specMagmaCTROMAC : CipherSpec :=
  {| cs_Name := "MAGMA-CTR-OMAC"; cs_KeyLen := magmaKeyLen; FixedIVLen := magmaIVLen; ExplicitIVLen := 0;
     AEAD := false; TagLen := 0 |}.
Definition specMagmaOMAC : MACSpec := {| mac_Hash := None; mac_KeyLen := magmaKeyLen; MACLen := magmaOMACLen |}.
Definition specPRFGOSTR341194 : PRFSpec := {| prf_Hash := GOSTR341194 |}.
Definition specPRFStreebog256 : PRFSpec := {| prf_Hash := Streebog256 |}.

(** [registerGOSTSuites]. *)
Definition gostSuites : list Suite := [
  mkSuite suiteGOST2001 "GOST2001-GOST89-GOST89" KexGOST2001 AuthGOST2001
    specGOST28147CNT specGOST28147IMIT specPRFGOSTR341194;
  mkSuite suiteGOST2012Primary "GOST2012-GOST8912-GOST8912" KexGOST2012_256 AuthGOST2012_256
    specGOST28147CNT specGOST28147IMIT specPRFStreebog256;
  mkSuite suiteGOST2012IANAAlias "IANA-GOST2012-GOST8912-GOST8912" KexGOST2012_256 AuthGOST2012_256
    specGOST28147CNT specGOST28147IMIT specPRFStreebog256;
  mkSuite suiteGOSTKuznyechik "GOST2012-KUZNYECHIK-KUZNYECHIKOMAC" KexGOST2018_256 AuthGOST2012_256
    specKuznyechikCTROMAC specKuznyechikOMAC specPRFStreebog256;
  mkSuite suiteGOSTMagma "GOST2012-MAGMA-MAGMAOMAC" KexGOST2018_256 AuthGOST2012_256
    specMagmaCTROMAC specMagmaOMAC specPRFStreebog256
].

(** The [init] functions, in the order the toolchain runs the files of a
    package: by file name, [gost_suites.go] before [registry.go]. *)
Definition allSuites : list Suite := gostSuites ++ ecdheSuites ++ dheSuites ++ rsaSuites.

Definition initRegistry : result registryState := registerAll emptyRegistry allSuites.

Definition theRegistry : registryState :=
  match initRegistry with Ok r => r | _ => emptyRegistry end.

Definition IsGOSTBuild : bool := true.
Definition IsOpenSSLGostEngineBuild : bool := false.

(** ** prf.go *)

Section PRF.
Context `{Primitives}.

(** [for len(out) < outLen]: every turn appends a digest, so [outLen] turns are
    enough when digests are not empty. *)
Fixpoint pHashLoop (fuel : nat) (h : HashName) (secret seed : bytes) (outLen : Z)
  (out a : bytes) : result bytes :=
  if len out <? outLen then
    match fuel with
    | O => Crash OutOfFuel
    | S fuel =>
      let a := hmac h secret a in
      pHashLoop fuel h secret seed outLen (out ++ hmac h secret (a ++ seed)) a
    end
  else Ok out.

Definition pHash (h : HashName) (secret seed : bytes) (outLen : Z) : result bytes :=
  let* out := pHashLoop (Z.to_nat outLen) h secret seed outLen [] seed in
  slice out 0 outLen.

Definition PRF (h : HashName) (secret label seed : bytes) (outLen : Z) : result bytes :=
  if len label =? 0 then Err ErrEmptyLabel
  else if outLen <=? 0 then Err ErrZeroLength
  else
    let fullSeed := label ++ seed in
    pHash h secret fullSeed outLen.

(** ** keyschedule.go *)

Definition ks_tlsRandomLen : Z := 32.
Definition tlsMasterSecretLen : Z := 48.
Definition keyExpansionFactor : Z := 2.

Definition MasterSecret (suite : Suite) (preMaster clientRandom serverRandom : bytes)
  : result bytes :=
  if negb (len clientRandom =? 32) || negb (len serverRandom =? 32) then Err ErrInvalidRandomLen
  else
    let seed := clientRandom ++ serverRandom in
    PRF (prf_Hash (suite_PRF suite)) preMaster (strBytes "master secret") seed tlsMasterSecretLen.

(** A nil key is [[]]. *)
Record KeyMaterial := {
  ClientMACKey : bytes;
  ServerMACKey : bytes;
  ClientEncKey : bytes;
  ServerEncKey : bytes;
  ClientIV : bytes;
  ServerIV : bytes
}.

Definition isCBCSuite (suite : Suite) : bool :=
  negb (AEAD (Cipher suite)) &&
  negb (bool_decide (cs_Name (Cipher suite) = "GOST28147-CNT"%string)) &&
  negb (bool_decide (cs_Name (Cipher suite) = "KUZNYECHIK-CTR-OMAC"%string)) &&
  negb (bool_decide (cs_Name (Cipher suite) = "MAGMA-CTR-OMAC"%string)).

Definition keyBlockIVLen (suite : Suite) : Z :=
  if isCBCSuite suite then 0 else FixedIVLen (Cipher suite).

(** The cutting of the key block of [KeyExpansion]. *)
Definition cutKeyBlock (keyBlock : bytes) (macKeyLen encKeyLen ivLen : Z) : result KeyMaterial :=
  let off := 0 in
  let* (cmk, smk, off) :=
    (if 0 <? macKeyLen then
       let* c := slice keyBlock off (off + macKeyLen) in
       let off := off + macKeyLen in
       let* s := slice keyBlock off (off + macKeyLen) in
       let off := off + macKeyLen in
       Ok (c, s, off)
     else Ok ([], [], off)) in
  let* cek := slice keyBlock off (off + encKeyLen) in
  let off := off + encKeyLen in
  let* sek := slice keyBlock off (off + encKeyLen) in
  let off := off + encKeyLen in
  let* (civ, siv) :=
    (if 0 <? ivLen then
       let* c := slice keyBlock off (off + ivLen) in
       let off := off + ivLen in
       let* s := slice keyBlock off (off + ivLen) in
       Ok (c, s)
     else Ok ([], [])) in
  Ok {| ClientMACKey := cmk; ServerMACKey := smk; ClientEncKey := cek;
        ServerEncKey := sek; ClientIV := civ; ServerIV := siv |}.

Definition KeyExpansion (suite : Suite) (masterSecret clientRandom serverRandom : bytes)
  : result KeyMaterial :=
  if negb (len clientRandom =? 32) || negb (len serverRandom =? 32) then Err ErrInvalidRandomLen
  else
    let seed := serverRandom ++ clientRandom in
    let macKeyLen := mac_KeyLen (MAC suite) in
    let encKeyLen := cs_KeyLen (Cipher suite) in
    let ivLen := keyBlockIVLen suite in
    let totalLen := keyExpansionFactor * macKeyLen + keyExpansionFactor * encKeyLen
                    + keyExpansionFactor * ivLen in
    if totalLen =? 0 then Err ErrZeroKeyBlock
    else
      let* keyBlock := PRF (prf_Hash (suite_PRF suite)) masterSecret (strBytes "key expansion")
                         seed totalLen in
      cutKeyBlock keyBlock macKeyLen encKeyLen ivLen.

Definition FinishedVerifyData (suite : Suite) (masterSecret : bytes) (label : string)
  (transcriptHash : bytes) : result bytes :=
  let vdLen := if decide (KX suite = KexGOST2018_256) then 32 else 12 in
  PRF (prf_Hash (suite_PRF suite)) masterSecret (strBytes label) transcriptHash vdLen.

Definition EqualVerifyData (a b : bytes) : bool := ConstantTimeCompare a b =? 1.

End PRF.

(** * The registry *)

Record reg_inv (r : registryState) : Prop := {
  ri_id id s : registry r !! id = Some s <-> s ∈ registryOrder r /\ ID s = id;
  ri_name n s : nameIndex r !! n = Some s <-> s ∈ registryOrder r /\ Name s = n
}.

Lemma reg_inv_empty : reg_inv emptyRegistry.
Proof. split; intros; cbn; rewrite lookup_empty; set_solver. Qed.

Lemma register_inv r s r' : reg_inv r -> register r s = Ok r' ->
  reg_inv r' /\ registryOrder r' = registryOrder r ++ [s].
Proof.
  intros [Hi Hn]. unfold register. destruct (registry r !! ID s) eqn:Ei; [done|].
  destruct (nameIndex r !! Name s) eqn:En; [done|]. intros [= <-]. split; [|done].
  assert (Hdi : forall t, t ∈ registryOrder r -> ID t <> ID s).
  { intros t Ht E. assert (registry r !! ID s = Some t) by (apply Hi; auto). congruence. }
  assert (Hdn : forall t, t ∈ registryOrder r -> Name t <> Name s).
  { intros t Ht E. assert (nameIndex r !! Name s = Some t) by (apply Hn; auto). congruence. }
  split; cbn; intros k t; rewrite lookup_insert_Some; set_solver.
Qed.

Lemma registerAll_inv l r r' :
  reg_inv r -> registerAll r l = Ok r' ->
  reg_inv r' /\ registryOrder r' = registryOrder r ++ l.
Proof.
  revert r; induction l as [|s l IH]; intros r Hr; cbn [registerAll].
  - intros [= <-]. now rewrite app_nil_r.
  - intros H. apply bind_Ok in H as (r1 & H1 & H). apply register_inv in H1 as [Hr1 E1]; [|done].
    apply IH in H as [Hr' E]; [|done]. split; [done|]. now rewrite E, E1, <- app_assoc.
Qed.

(** * PRF *)

Section PRF_lemmas.
Context {P : Primitives} {L : PrimitiveLaws P}.

(** RFC 5246 §5: A(0) = seed, A(i) = HMAC(secret, A(i-1)); the output is the
    concatenation of HMAC(secret, A(i) || seed) for i = 1, 2, ... *)
Fixpoint prfA (h : HashName) (secret seed : bytes) (i : nat) : bytes :=
  match i with
  | O => seed
  | S i => hmac h secret (prfA h secret seed i)
  end.

Definition prfBlock (h : HashName) (secret seed : bytes) (i : nat) : bytes :=
  hmac h secret (prfA h secret seed i ++ seed).

Definition prfStream (h : HashName) (secret seed : bytes) (k : nat) : bytes :=
  concat (map (prfBlock h secret seed) (seq 1 k)).

Lemma prfStream_S h secret seed k :
  prfStream h secret seed (S k) = prfStream h secret seed k ++ prfBlock h secret seed (S k).
Proof.
  unfold prfStream. rewrite seq_S, map_app, concat_app. cbn. now rewrite app_nil_r.
Qed.

Lemma len_prfStream h secret seed k : len (prfStream h secret seed k) = Z.of_nat k * hashSize h.
Proof.
  induction k as [|k IH]; [reflexivity|].
  rewrite prfStream_S, len_app, IH. unfold prfBlock. rewrite hmac_len. lia.
Qed.

Lemma prfStream_prefix h secret seed k m :
  (k <= m)%nat -> prfStream h secret seed k `prefix_of` prfStream h secret seed m.
Proof.
  intros Hk. induction Hk as [|m _ IH]; [done|]. rewrite prfStream_S.
  etransitivity; [exact IH|]. now exists (prfBlock h secret seed (S m)).
Qed.

Lemma pHashLoop_spec fuel h secret seed outLen k :
  outLen <= len (prfStream h secret seed k) + Z.of_nat fuel ->
  exists m, (k <= m)%nat /\ outLen <= len (prfStream h secret seed m) /\
    pHashLoop fuel h secret seed outLen (prfStream h secret seed k) (prfA h secret seed k)
    = Ok (prfStream h secret seed m).
Proof.
  revert k; induction fuel as [|fuel IH]; intros k Hk; cbn [pHashLoop].
  - rewrite (proj2 (Z.ltb_ge _ _)) by lia. exists k. split; [done|]. split; [lia|done].
  - destruct (_ <? _) eqn:E; z_bool; [|by exists k].
    pose proof (hashSize_pos h).
    change (hmac h secret (prfA h secret seed k)) with (prfA h secret seed (S k)).
    change (hmac h secret (prfA h secret seed (S k) ++ seed)) with (prfBlock h secret seed (S k)).
    rewrite <- prfStream_S.
    destruct (IH (S k)) as (m & Hm & Hl & ->).
    { rewrite len_prfStream in *. lia. }
    exists m. split; [lia|done].
Qed.

Lemma prefix_take {A} (a b : list A) n :
  (n <= length a)%nat -> a `prefix_of` b -> take n b = take n a.
Proof. intros Hn [c ->]. now apply take_app_le. Qed.

(** With enough blocks the output does not depend on how many. *)
Lemma prfStream_take h secret seed n k m :
  n <= len (prfStream h secret seed k) -> n <= len (prfStream h secret seed m) ->
  take (Z.to_nat n) (prfStream h secret seed k) = take (Z.to_nat n) (prfStream h secret seed m).
Proof.
  intros Hk Hm. destruct (Nat.le_ge_cases k m) as [H|H].
  - symmetry. apply prefix_take; [unfold len in *; lia|]. now apply prfStream_prefix.
  - apply prefix_take; [unfold len in *; lia|]. now apply prfStream_prefix.
Qed.

Lemma PRF_Ok h secret label seed n :
  label <> [] -> 0 < n ->
  PRF h secret label seed n
  = Ok (take (Z.to_nat n) (prfStream h secret (label ++ seed) (Z.to_nat n))).
Proof.
  intros Hl Hn. unfold PRF.
  destruct (len label =? 0) eqn:E; z_bool; [now apply len_zero_nil in E|].
  rewrite (proj2 (Z.leb_gt _ _)) by lia. unfold pHash.
  destruct (pHashLoop_spec (Z.to_nat n) h secret (label ++ seed) n 0) as (m & _ & Hm & Eq).
  { cbn. len_lia. }
  cbn in Eq. change (prfStream h secret (label ++ seed) 0) with (@nil byte) in Eq. rewrite Eq.
  cbn [bind]. rewrite slice_to by lia. f_equal. apply prfStream_take; [done|].
  rewrite len_prfStream. pose proof (hashSize_pos h). nia.
Qed.

Lemma PRF_len h secret label seed n out :
  PRF h secret label seed n = Ok out -> len out = n.
Proof.
  unfold PRF, pHash. intros H. res_inv. apply slice_Ok in H as (_ & _ & _ & H & _). lia.
Qed.

(** ** The key block *)

Lemma cutKeyBlock_spec kb m e i :
  0 <= m -> 0 <= e -> 0 <= i -> len kb = 2 * m + 2 * e + 2 * i ->
  exists km, cutKeyBlock kb m e i = Ok km /\
    kb = ClientMACKey km ++ ServerMACKey km ++ ClientEncKey km ++ ServerEncKey km
         ++ ClientIV km ++ ServerIV km /\
    len (ClientMACKey km) = m /\ len (ServerMACKey km) = m /\ len (ClientEncKey km) = e /\
    len (ServerEncKey km) = e /\ len (ClientIV km) = i /\ len (ServerIV km) = i.
Proof.
  intros Hm He Hi Hl.
  set (M := Z.to_nat m). set (E := Z.to_nat e). set (I := Z.to_nat i).
  set (a := take M kb). set (b := take M (drop M kb)).
  set (c := take E (drop (M + M) kb)). set (d := take E (drop (M + M + E) kb)).
  set (f := take I (drop (M + M + E + E) kb)). set (g := drop (M + M + E + E + I) kb).
  assert (Hkb : kb = a ++ b ++ c ++ d ++ f ++ g).
  { unfold a, b, c, d, f, g. rewrite <- !drop_drop. now rewrite !take_drop. }
  assert (Ha : len a = m) by (unfold a, M; len_lia).
  assert (Hb : len b = m) by (unfold b, M; len_lia).
  assert (Hc : len c = e) by (unfold c, M, E; len_lia).
  assert (Hd : len d = e) by (unfold d, M, E; len_lia).
  assert (Hf : len f = i) by (unfold f, M, E, I; len_lia).
  assert (Hg : len g = i) by (unfold g, M, E, I; len_lia).
  exists {| ClientMACKey := a; ServerMACKey := b; ClientEncKey := c; ServerEncKey := d;
            ClientIV := f; ServerIV := g |}.
  cbn [ClientMACKey ServerMACKey ClientEncKey ServerEncKey ClientIV ServerIV].
  split; [|by split_and!]. clearbody a b c d f g. clear M E I. subst kb.
  assert (S : forall (x y z : bytes) n k, n = len x -> k = len x + len y ->
    slice (E := error) (x ++ y ++ z) n k = Ok y) by (intros; now apply slice_app_mid).
  pose proof (S [] a (b ++ c ++ d ++ f ++ g)) as S1.
  pose proof (S a b (c ++ d ++ f ++ g)) as S2.
  pose proof (S (a ++ b) c (d ++ f ++ g)) as S3.
  pose proof (S (a ++ b ++ c) d (f ++ g)) as S4.
  pose proof (S (a ++ b ++ c ++ d) f g) as S5.
  pose proof (S (a ++ b ++ c ++ d ++ f) g []) as S6. clear S.
  rewrite <- ?app_assoc, ?app_nil_r in *. cbn [app] in S1.
  unfold cutKeyBlock.
  destruct (0 <? m) eqn:C1; z_bool.
  - rewrite S1, S2 by len_lia. cbn [bind]. rewrite S3, S4 by len_lia. cbn [bind].
    destruct (0 <? i) eqn:C2; z_bool.
    + rewrite S5 by len_lia. cbn [bind]. rewrite S6 by len_lia. reflexivity.
    + rewrite (len_zero_nil f), (len_zero_nil g) by lia. reflexivity.
  - assert (a = []) as -> by (apply len_zero_nil; lia).
    assert (b = []) as -> by (apply len_zero_nil; lia).
    cbn [bind]. rewrite S3, S4 by len_lia. cbn [bind].
    destruct (0 <? i) eqn:C2; z_bool.
    + rewrite S5 by len_lia. cbn [bind]. rewrite S6 by len_lia. reflexivity.
    + rewrite (len_zero_nil f), (len_zero_nil g) by lia. reflexivity.
Qed.

End PRF_lemmas.

(** Every registered suite asks for key material, of sane lengths. *)
Definition suite_lens_ok (s : Suite) : bool :=
  (0 <=? mac_KeyLen (MAC s)) && (0 <? cs_KeyLen (Cipher s)) && (0 <=? keyBlockIVLen s).

Lemma allSuites_lens s : s ∈ allSuites -> suite_lens_ok s = true.
Proof.
  assert (H : Forall (fun s => suite_lens_ok s = true) allSuites).
  { unfold allSuites, gostSuites, ecdheSuites, dheSuites, rsaSuites. cbn [app].
    repeat (constructor; [vm_compute; reflexivity|]). constructor. }
  rewrite Forall_forall in H. apply H.
Qed.

Section KeySchedule_lemmas.
Context {P : Primitives} {L : PrimitiveLaws P}.

Lemma KeyExpansion_Ok s ms cr sr :
  suite_lens_ok s = true -> len cr = 32 -> len sr = 32 ->
  let total := 2 * mac_KeyLen (MAC s) + 2 * cs_KeyLen (Cipher s) + 2 * keyBlockIVLen s in
  exists kb km,
    PRF (prf_Hash (suite_PRF s)) ms (strBytes "key expansion") (sr ++ cr) total = Ok kb /\
    KeyExpansion s ms cr sr = Ok km /\
    cutKeyBlock kb (mac_KeyLen (MAC s)) (cs_KeyLen (Cipher s)) (keyBlockIVLen s) = Ok km /\
    kb = ClientMACKey km ++ ServerMACKey km ++ ClientEncKey km ++ ServerEncKey km
         ++ ClientIV km ++ ServerIV km /\
    len (ClientMACKey km) = mac_KeyLen (MAC s) /\ len (ServerMACKey km) = mac_KeyLen (MAC s) /\
    len (ClientEncKey km) = cs_KeyLen (Cipher s) /\ len (ServerEncKey km) = cs_KeyLen (Cipher s) /\
    len (ClientIV km) = keyBlockIVLen s /\ len (ServerIV km) = keyBlockIVLen s.
Proof.
  intros Hs Hc Hr total. unfold suite_lens_ok in Hs. z_bool.
  assert (Hp : PRF (prf_Hash (suite_PRF s)) ms (strBytes "key expansion") (sr ++ cr) total
    = Ok (take (Z.to_nat total) (prfStream (prf_Hash (suite_PRF s)) ms
            (strBytes "key expansion" ++ sr ++ cr) (Z.to_nat total))))
    by (apply PRF_Ok; [done|unfold total; lia]).
  set (kb := take _ _) in Hp. pose proof (PRF_len _ _ _ _ _ _ Hp) as Hl.
  destruct (cutKeyBlock_spec kb (mac_KeyLen (MAC s)) (cs_KeyLen (Cipher s)) (keyBlockIVLen s))
    as (km & Hk & Hrest); [lia..|exact Hl|].
  exists kb, km. split; [done|]. split; [|by split].
  unfold KeyExpansion, keyExpansionFactor. rewrite Hc, Hr. cbn [Z.eqb negb orb Pos.eqb].
  fold total. rewrite (proj2 (Z.eqb_neq _ _)) by (unfold total; lia). now rewrite Hp.
Qed.

Lemma FinishedVerifyData_Ok s ms label th :
  strBytes label <> [] -> exists vd, FinishedVerifyData s ms label th = Ok vd /\
    len vd = if decide (KX s = KexGOST2018_256) then 32 else 12.
Proof.
  intros Hl. unfold FinishedVerifyData.
  rewrite PRF_Ok by (done || case_decide; lia). eexists; split; [done|].
  rewrite len_take, len_prfStream. pose proof (hashSize_pos (prf_Hash (suite_PRF s))).
  case_decide; nia.
Qed.

Lemma MasterSecret_Ok s pm cr sr :
  len cr = 32 -> len sr = 32 -> exists ms, MasterSecret s pm cr sr = Ok ms /\ len ms = 48.
Proof.
  intros Hc Hr. unfold MasterSecret. rewrite Hc, Hr. cbn [Z.eqb negb orb Pos.eqb].
  unfold tlsMasterSecretLen. rewrite PRF_Ok by (done || lia).
  eexists; split; [done|]. rewrite len_take, len_prfStream.
  pose proof (hashSize_pos (prf_Hash (suite_PRF s))). nia.
Qed.

End KeySchedule_lemmas.

(** * Properties *)

(** Start-up registers all 32 suites without a duplicate panic, [All] lists
    them in registration order, and the two indices agree with it: an ID or a
    name is found exactly when a listed suite has it, and it is that suite. *)
Theorem registry_consistent :
  exists r, initRegistry = Ok r /\ All r = allSuites /\ length (All r) = 32%nat /\
    (forall id s, Lookup r id = Some s <-> s ∈ All r /\ ID s = id) /\
    (forall n s, LookupByName r n = Some s <-> s ∈ All r /\ Name s = n) /\
    (forall n id, LookupSuiteByName r n = (id, true) <-> (id, n) ∈ AllSuites r).
Proof.
  assert (H : exists r, initRegistry = Ok r) by (eexists; vm_compute; reflexivity).
  destruct H as [r H]. exists r. split; [done|].
  apply registerAll_inv in H as [Hr Eo]; [|apply reg_inv_empty]. cbn in Eo.
  split; [done|]. split; [unfold All; now rewrite Eo|]. destruct Hr as [Hi Hn].
  split; [done|]. split; [done|]. intros n id. unfold LookupSuiteByName, AllSuites, LookupByName.
  rewrite list_elem_of_fmap. split.
  - destruct (nameIndex r !! n) as [s|] eqn:E; [|done]. intros [= <-].
    apply Hn in E as [E1 <-]. now exists s.
  - intros (s & [= -> ->] & Hs). now rewrite (proj2 (Hn (Name s) s)).
Qed.

Section Properties.
Context {P : Primitives} {L : PrimitiveLaws P}.

(** C39. [PRF] is the function of RFC 5246 §5 with its two input errors: an empty
    label and a length below one are refused, otherwise the result is the first
    [n] bytes of the P_hash stream over label and seed, however many blocks of
    the stream beyond those are taken; the loop always ends. *)
Theorem PRF_rfc5246 h secret label seed n k :
  n <= Z.of_nat k * hashSize h ->
  PRF h secret label seed n
  = if len label =? 0 then Err ErrEmptyLabel
    else if n <=? 0 then Err ErrZeroLength
    else Ok (take (Z.to_nat n) (prfStream h secret (label ++ seed) k)).
Proof.
  intros Hk. destruct (len label =? 0) eqn:E; [unfold PRF; now rewrite E|].
  destruct (n <=? 0) eqn:F; [unfold PRF; now rewrite E, F|]. z_bool.
  rewrite PRF_Ok by (lia || (intros ->; done)). f_equal.
  pose proof (hashSize_pos h). apply prfStream_take; rewrite len_prfStream; nia.
Qed.

(** For every registered suite the key block is cut without gap or overlap:
    [KeyExpansion] succeeds on 32-byte randoms, the six keys in the order of
    RFC 5246 §6.3 concatenate to the whole key block PRF(master, "key
    expansion", server_random + client_random), each of the length the suite
    asks for, and CBC suites take no IV; randoms of another length are refused. *)
Theorem KeyExpansion_partition s ms cr sr :
  s ∈ allSuites ->
  if (len cr =? 32) && (len sr =? 32)
  then exists kb km,
    PRF (prf_Hash (suite_PRF s)) ms (strBytes "key expansion") (sr ++ cr)
      (2 * mac_KeyLen (MAC s) + 2 * cs_KeyLen (Cipher s) + 2 * keyBlockIVLen s) = Ok kb /\
    KeyExpansion s ms cr sr = Ok km /\
    kb = ClientMACKey km ++ ServerMACKey km ++ ClientEncKey km ++ ServerEncKey km
         ++ ClientIV km ++ ServerIV km /\
    len (ClientMACKey km) = mac_KeyLen (MAC s) /\ len (ServerMACKey km) = mac_KeyLen (MAC s) /\
    len (ClientEncKey km) = cs_KeyLen (Cipher s) /\ len (ServerEncKey km) = cs_KeyLen (Cipher s) /\
    len (ClientIV km) = keyBlockIVLen s /\ len (ServerIV km) = keyBlockIVLen s
  else KeyExpansion s ms cr sr = Err ErrInvalidRandomLen.
Proof.
  intros Hs%allSuites_lens. destruct ((len cr =? 32) && (len sr =? 32)) eqn:E.
  - z_bool. destruct (KeyExpansion_Ok s ms cr sr Hs) as (kb & km & H1 & H2 & _ & H3); [done..|].
    exists kb, km. auto.
  - unfold KeyExpansion. now rewrite <- negb_andb, E.
Qed.

(** Finished: the verify data is 12 bytes, 32 for the GOST 2018 suites, never an
    error for the two labels, and it is accepted exactly when equal. *)
Theorem finished_verify_data s ms label th vd' :
  label = "client finished"%string \/ label = "server finished"%string ->
  exists vd, FinishedVerifyData s ms label th = Ok vd /\
    len vd = (if decide (KX s = KexGOST2018_256) then 32 else 12) /\
    (EqualVerifyData vd' vd = true <-> vd' = vd).
Proof.
  intros Hl. destruct (FinishedVerifyData_Ok s ms label th) as (vd & H1 & H2);
    [by destruct Hl as [-> | ->]|].
  exists vd. split; [done|]. split; [done|]. unfold EqualVerifyData.
  rewrite ConstantTimeCompare_eqb. apply bool_decide_eq_true.
Qed.

End Properties.

(** ** Witnesses *)

#[local] Existing Instance Toy.prims.
#[local] Existing Instance Toy.laws.

Lemma PRF_rfc5246_witness :
  PRF SHA256 [Byte.x01] (strBytes "test") [Byte.x02] 40
  = Ok (take 40 (prfStream SHA256 [Byte.x01] (strBytes "test" ++ [Byte.x02]) 2)).
Proof. apply (PRF_rfc5246 SHA256 [Byte.x01] (strBytes "test") [Byte.x02] 40 2). vm_compute. congruence. Defined.

Lemma KeyExpansion_partition_witness :
  exists km, KeyExpansion (mkSuite suiteECDHERSAAES128GCMSHA256 "ECDHE-RSA-AES128-GCM-SHA256" KexECDHE AuthRSA
    specAES128GCM specNoMAC specPRFSHA256) (repeat Byte.x01 48) (repeat Byte.x02 32)
    (repeat Byte.x03 32) = Ok km /\ len (ClientIV km) = 4.
Proof.
  assert (H : mkSuite suiteECDHERSAAES128GCMSHA256 "ECDHE-RSA-AES128-GCM-SHA256" KexECDHE AuthRSA
    specAES128GCM specNoMAC specPRFSHA256 ∈ allSuites) by (vm_compute; set_solver).
  destruct (KeyExpansion_partition _ (repeat Byte.x01 48) (repeat Byte.x02 32)
    (repeat Byte.x03 32) H) as (kb & km & _ & Hk & _ & _ & _ & _ & _ & Hi & _).
  exists km. split; [exact Hk|exact Hi].
Defined.

Lemma finished_verify_data_witness :
  exists vd, FinishedVerifyData (mkSuite suiteGOSTKuznyechik "GOST2012-KUZNYECHIK-KUZNYECHIKOMAC"
    KexGOST2018_256 AuthGOST2012_256 specKuznyechikCTROMAC specKuznyechikOMAC specPRFStreebog256)
    [] "client finished" [] = Ok vd /\ len vd = 32.
Proof.
  destruct (finished_verify_data (mkSuite suiteGOSTKuznyechik "GOST2012-KUZNYECHIK-KUZNYECHIKOMAC"
    KexGOST2018_256 AuthGOST2012_256 specKuznyechikCTROMAC specKuznyechikOMAC specPRFStreebog256)
    [] "client finished" [] [] (or_introl eq_refl)) as (vd & H1 & H2 & _).
  exists vd. split; [exact H1|exact H2].
Defined.
