(* ===== verification/KeySetup.v ===== *)
(** * From suite to protectors ([internal/handshake/crypto.go],
      [protector_gost.go], the key expansion of [client.go])

    [buildProtector] picks the protector of a suite; [expandKeysManual] is the
    handshake's own copy of the key expansion.  Both fit the registry: the copy
    agrees with [KeyExpansion], and every registered suite's keys build the
    protector the RFCs give its code point. *)

From Stdlib Require Import ZArith Lia.
From stdpp Require Import base list strings gmap.
From S2P Require Import Prelude Errors Primitives Protection ProtectionGost ProtectionCtrOmac State Layer Protectors Suites.

Open Scope Z_scope.

Section Operations.
Context `{Primitives}.

Definition buildGOSTProtector (suite : Suite) (ek mk iv : bytes) : result AnyProtector :=
  let sbox := if decide (KX suite = KexGOST2012_256) then SboxTC26Z else SboxCryptoProA in
  let* p := NewGOST28147Protector ek mk iv sbox in
  Ok (PGOST28147 p).

Definition buildKuznyechikCTROMACProtector (suite : Suite) (ek mk iv : bytes)
  : result AnyProtector :=
  let* p := NewKuznyechikCTROMACProtector ek mk iv in Ok (PCTROMAC p).

Definition buildMagmaCTROMACProtector (suite : Suite) (ek mk iv : bytes)
  : result AnyProtector :=
  let* p := NewMagmaCTROMACProtector ek mk iv in Ok (PCTROMAC p).

Definition buildProtector (suite : Suite) (ek mk iv : bytes) : result AnyProtector :=
  let name := cs_Name (Cipher suite) in
  if decide (name = "GOST28147-CNT"%string) then buildGOSTProtector suite ek mk iv
  else if decide (name = "KUZNYECHIK-CTR-OMAC"%string) then
    buildKuznyechikCTROMACProtector suite ek mk iv
  else if decide (name = "MAGMA-CTR-OMAC"%string) then buildMagmaCTROMACProtector suite ek mk iv
  else if AEAD (Cipher suite) then
    if decide (name = "AES-128-GCM"%string \/ name = "AES-256-GCM"%string) then
      let* p := NewAEADProtector ek iv in Ok (PAEAD p)
    else if decide (name = "CHACHA20-POLY1305"%string) then
      let* p := NewChaCha20Poly1305Protector ek iv in Ok (PChaCha p)
    else Err errUnsupportedAEAD
  else
    let* newHash :=
      (if MACLen (MAC suite) =? 20 then Ok SHA1Hash
       else if MACLen (MAC suite) =? 32 then Ok SHA256Hash
       else if MACLen (MAC suite) =? 48 then Ok SHA384Hash
       else Err errUnsupportedMACLen) in
    let* newCipher :=
      (if decide (name = "AES-128-CBC"%string \/ name = "AES-256-CBC"%string)
       then Ok NewAESCipher else Err errUnsupportedCBCCipher) in
    let* p := NewCBCHMACProtector newCipher newHash ek mk in
    Ok (PCBC p).

Definition expandKeysManual (suite : Suite) (masterSecret clientRandom serverRandom : bytes)
  (ivLen : Z) : result KeyMaterial :=
  let seed := serverRandom ++ clientRandom in
  let macKeyLen := mac_KeyLen (MAC suite) in
  let encKeyLen := cs_KeyLen (Cipher suite) in
  let totalLen := 2 * macKeyLen + 2 * encKeyLen + 2 * ivLen in
  if totalLen =? 0 then Err errKeyExpansionZeroLocal
  else
    let* keyBlock := PRF (prf_Hash (suite_PRF suite)) masterSecret (strBytes "key expansion")
                       seed totalLen in
    let off := 0 in
    let* (cmk, smk, off) :=
      (if 0 <? macKeyLen then
         let* c := slice keyBlock off (off + macKeyLen) in
         let off := off + macKeyLen in
         let* s := slice keyBlock off (off + macKeyLen) in
         let off := off + macKeyLen in
         Ok (c, s, off)
       else Ok ([], [], off)) in
    let* cek := slice keyBlock off (off + encKeyLen) in
    let off := off + encKeyLen in
    let* sek := slice keyBlock off (off + encKeyLen) in
    let off := off + encKeyLen in
    let* (civ, siv) :=
      (if 0 <? ivLen then
         let* c := slice keyBlock off (off + ivLen) in
         let off := off + ivLen in
         let* s := slice keyBlock off (off + ivLen) in
         Ok (c, s)
       else Ok ([], [])) in
    Ok {| ClientMACKey := cmk; ServerMACKey := smk; ClientEncKey := cek;
          ServerEncKey := sek; ClientIV := civ; ServerIV := siv |}.

End Operations.

(** * Lemmas *)

Section Lemmas.
Context {P : Primitives} {L : PrimitiveLaws P}.

(** The handshake's key expansion is the key schedule's. *)
Lemma expandKeysManual_eq s ms cr sr :
  suite_lens_ok s = true -> len cr = 32 -> len sr = 32 ->
  expandKeysManual s ms cr sr (keyBlockIVLen s) = KeyExpansion s ms cr sr.
Proof.
  intros Hs Hc Hr. unfold expandKeysManual, KeyExpansion, keyExpansionFactor.
  rewrite Hc, Hr. cbn [Z.eqb negb orb Pos.eqb].
  unfold suite_lens_ok in Hs. z_bool. rewrite (proj2 (Z.eqb_neq _ 0)) by lia. reflexivity.
Qed.

(** ** The suites' record protection

    What the RFCs assign to each code point (RFC 5246, 5288, 5289 and 7905; RFC 9189
    and 9367 for GOST, with 0x0081 and 0xFF85 as the deployed servers use them): the
    cipher with its parameters, the lengths of its keys, and the protector they make. *)
Inductive recordCipher :=
| AES_CBC_HMAC (keyLen : Z) (h : HashName) (macLen : Z)
| AES_GCM (keyLen : Z)
| CHACHA20_POLY1305
| GOST28147_CNT_IMIT (sbox : Sbox)
| CTR_OMAC (c : BlockCipher) (ivLen section : Z).

Definition rfcSuites : list (Z * recordCipher) := [
  (0xC02C, AES_GCM 32); (0xC030, AES_GCM 32); (0x009F, AES_GCM 32); (0x009D, AES_GCM 32);
  (0xC02B, AES_GCM 16); (0xC02F, AES_GCM 16); (0x009E, AES_GCM 16); (0x009C, AES_GCM 16);
  (0xCCA9, CHACHA20_POLY1305); (0xCCA8, CHACHA20_POLY1305); (0xCCAA, CHACHA20_POLY1305);
  (0xC024, AES_CBC_HMAC 32 SHA384 48); (0xC028, AES_CBC_HMAC 32 SHA384 48);
  (0x006B, AES_CBC_HMAC 32 SHA256 32); (0x003D, AES_CBC_HMAC 32 SHA256 32);
  (0xC023, AES_CBC_HMAC 16 SHA256 32); (0xC027, AES_CBC_HMAC 16 SHA256 32);
  (0x0067, AES_CBC_HMAC 16 SHA256 32); (0x003C, AES_CBC_HMAC 16 SHA256 32);
  (0xC00A, AES_CBC_HMAC 32 SHA1 20); (0xC014, AES_CBC_HMAC 32 SHA1 20);
  (0x0039, AES_CBC_HMAC 32 SHA1 20); (0x0035, AES_CBC_HMAC 32 SHA1 20);
  (0xC009, AES_CBC_HMAC 16 SHA1 20); (0xC013, AES_CBC_HMAC 16 SHA1 20);
  (0x0033, AES_CBC_HMAC 16 SHA1 20); (0x002F, AES_CBC_HMAC 16 SHA1 20);
  (0x0081, GOST28147_CNT_IMIT SboxCryptoProA);
  (0xFF85, GOST28147_CNT_IMIT SboxTC26Z); (0xC102, GOST28147_CNT_IMIT SboxTC26Z);
  (0xC100, CTR_OMAC Kuznyechik 8 4096); (0xC101, CTR_OMAC Magma 4 1024)
].

(** Lengths of the encryption key, the MAC key and the IV of a direction. *)
Definition rfcKeyLens (rc : recordCipher) : Z * Z * Z :=
  match rc with
  | AES_CBC_HMAC n _ m => (n, m, 0)
  | AES_GCM n => (n, 0, 4)
  | CHACHA20_POLY1305 => (32, 0, 12)
  | GOST28147_CNT_IMIT _ => (32, 32, 8)
  | CTR_OMAC _ n _ => (32, 32, n)
  end.

Definition rfcProtector (rc : recordCipher) (ek mk iv : bytes) : AnyProtector :=
  match rc with
  | AES_CBC_HMAC _ h m =>
      PCBC {| newCipher := NewAESCipher; newHash := h; encKey := ek; macKey := mk;
              blockSize := 16; macSize := m |}
  | AES_GCM _ => PAEAD {| aead_key := ek; salt := iv |}
  | CHACHA20_POLY1305 => PChaCha {| chacha_key := ek; chacha_iv := iv |}
  | GOST28147_CNT_IMIT sbox =>
      PGOST28147 {| gp_cnt := newGostCNT ek sbox iv; gp_imit := newGostIMIT mk sbox |}
  | CTR_OMAC c _ n =>
      PCTROMAC {| newBlock := c; co_blockSize := cipherBlockSize c; tagSize := cipherBlockSize c;
                  origIV := iv; encTree := ek; macTree := mk; acpkmSection := n |}
  end.

(** The registry's entry of a suite against the table. *)
Definition suite_fits (s : Suite) (rc : recordCipher) : Prop :=
  let name := cs_Name (Cipher s) in
  (cs_KeyLen (Cipher s), mac_KeyLen (MAC s), keyBlockIVLen s) = rfcKeyLens rc /\
  match rc with
  | AES_CBC_HMAC n h m =>
      (n, name) ∈ [(16, "AES-128-CBC"%string); (32, "AES-256-CBC"%string)] /\
      (h, m) ∈ [(SHA1, 20); (SHA256, 32); (SHA384, 48)] /\
      AEAD (Cipher s) = false /\ MACLen (MAC s) = m
  | AES_GCM n =>
      (n, name) ∈ [(16, "AES-128-GCM"%string); (32, "AES-256-GCM"%string)] /\ AEAD (Cipher s) = true
  | CHACHA20_POLY1305 => name = "CHACHA20-POLY1305"%string /\ AEAD (Cipher s) = true
  | GOST28147_CNT_IMIT sbox =>
      name = "GOST28147-CNT"%string /\
      sbox = if decide (KX s = KexGOST2012_256) then SboxTC26Z else SboxCryptoProA
  | CTR_OMAC Kuznyechik ivLen n => name = "KUZNYECHIK-CTR-OMAC"%string /\ ivLen = 8 /\ n = 4096
  | CTR_OMAC Magma ivLen n => name = "MAGMA-CTR-OMAC"%string /\ ivLen = 4 /\ n = 1024
  end.

Lemma allSuites_fit s : s ∈ allSuites -> exists rc, (ID s, rc) ∈ rfcSuites /\ suite_fits s rc.
Proof.
  assert (H : Forall (fun s => exists p, List.find (fun p => fst p =? ID s) rfcSuites = Some p /\
                                 suite_fits s (snd p)) allSuites).
  { unfold allSuites, gostSuites, ecdheSuites, dheSuites, rsaSuites. cbn [app].
    repeat (constructor; [eexists; split; [vm_compute; reflexivity|];
      unfold suite_fits; (split; [vm_compute; reflexivity|]); repeat split; (vm_compute; reflexivity) || (cbn; set_solver)|]).
    constructor. }
  rewrite Forall_forall in H. intros Hs. destruct (H s Hs) as ([id rc] & Hf & Hfit).
  apply List.find_some in Hf as [Hin Hid%Z.eqb_eq]. cbn in Hid. subst id. exists rc.
  split; [now apply list_elem_of_In|exact Hfit].
Qed.

Lemma NewAESCipher_accepts ek :
  len ek = 16 \/ len ek = 32 ->
  NewAESCipher ek = Ok {| BlockSize := 16; Encrypt := aesEncrypt ek; Decrypt := aesDecrypt ek |}.
Proof. intros H. unfold NewAESCipher. now destruct H as [-> | ->]. Qed.

(** Names of ciphers are told apart by computation. *)
Ltac pick_cipher :=
  repeat first [rewrite decide_True by (reflexivity || (left; reflexivity) || (right; reflexivity))
               |rewrite decide_False by (discriminate || (intros [? | ?]; discriminate))].

(** Keys of the table's lengths build the table's protector. *)
Lemma buildProtector_rfc s rc ek mk iv :
  suite_fits s rc -> (len ek, len mk, len iv) = rfcKeyLens rc ->
  buildProtector s ek mk iv = Ok (rfcProtector rc ek mk iv).
Proof.
  unfold suite_fits, buildProtector. cbv zeta. intros [_ Hs] Hl.
  destruct rc as [n h m|n| |sbox|c n sec]; cbn [rfcKeyLens rfcProtector] in *; injection Hl as He Hm Hi.
  - destruct Hs as (Hn & Hh & Ha & Hml). rewrite !elem_of_cons, elem_of_nil in Hn. rewrite !elem_of_cons, elem_of_nil in Hh.
    assert (Ec := NewAESCipher_accepts ek).
    destruct Hn as [[= -> ->]|[[= -> ->]|[]]]; pick_cipher; rewrite Ha, Hml;
      destruct Hh as [[= -> ->]|[[= -> ->]|[[= -> ->]|[]]]]; cbn [Z.eqb Pos.eqb bind];
      unfold NewCBCHMACProtector; rewrite Ec by auto; cbn [bind BlockSize];
      rewrite ?(hashSize_SHA1 : hashSize SHA1Hash = _), ?(hashSize_SHA256 : hashSize SHA256Hash = _),
        ?(hashSize_SHA384 : hashSize SHA384Hash = _); reflexivity.
  - destruct Hs as (Hn & Ha). rewrite !elem_of_cons, elem_of_nil in Hn.
    unfold NewAEADProtector, aeadSaltLen. rewrite Hi.
    destruct Hn as [[= -> ->]|[[= -> ->]|[]]]; pick_cipher; rewrite Ha; pick_cipher;
      cbn [Z.eqb Pos.eqb negb]; now rewrite NewAESCipher_accepts by auto.
  - destruct Hs as (-> & Ha). pick_cipher. rewrite Ha. pick_cipher.
    unfold NewChaCha20Poly1305Protector. now rewrite He, Hi.
  - destruct Hs as (-> & ->). pick_cipher. unfold buildGOSTProtector, NewGOST28147Protector.
    now rewrite He, Hm, Hi.
  - destruct c; destruct Hs as (-> & -> & ->); pick_cipher.
    + unfold buildKuznyechikCTROMACProtector, NewKuznyechikCTROMACProtector. now rewrite He, Hm, Hi.
    + unfold buildMagmaCTROMACProtector, NewMagmaCTROMACProtector. now rewrite He, Hm, Hi.
Qed.

(** It is ready for use. *)
Lemma buildProtector_ok s ek mk iv p :
  buildProtector s ek mk iv = Ok p -> any_ok p /\ p <> PNull.
Proof.
  unfold buildProtector, buildGOSTProtector, buildKuznyechikCTROMACProtector, buildMagmaCTROMACProtector.
  cbv zeta. intros H. set (sbox := if decide (KX s = _) then _ else _) in H.
  case_decide; [apply bind_Ok in H as (v & Hv & [= <-]); split; [|done]; exact (NewGOST28147Protector_inv _ _ _ _ _ Hv)|].
  case_decide; [apply bind_Ok in H as (v & Hv & [= <-]); split; [|done]; exact (NewKuznyechik_ok _ _ _ _ Hv)|].
  case_decide; [apply bind_Ok in H as (v & Hv & [= <-]); split; [|done]; exact (NewMagma_ok _ _ _ _ Hv)|].
  destruct (AEAD (Cipher s)).
  { repeat case_decide; [| |done]; now apply bind_Ok in H as (v & Hv & [= <-]). }
  apply bind_Ok in H as (h & Hh & H). apply bind_Ok in H as (nc & Hnc & H). case_decide; [|done].
  injection Hnc as <-. apply bind_Ok in H as (v & Hv & [= <-]). split; [|done].
  split; [exact (NewCBCHMACProtector_ok _ _ _ _ Hv)|].
  assert (Hm : macSize v = hashSize h) by (apply bind_Ok in Hv as (b & _ & [= <-]); reflexivity).
  pose proof hashSize_SHA1. pose proof hashSize_SHA256. pose proof hashSize_SHA384.
  rewrite Hm. repeat (destruct (MACLen _ =? _); [injection Hh as <-; unfold SHA1Hash, SHA256Hash, SHA384Hash; lia|]).
  done.
Qed.

(** A registered suite's keys, and the protectors they build: the table's. *)
Lemma suite_protectors_rfc s ms cr sr :
  s ∈ allSuites -> len cr = 32 -> len sr = 32 ->
  exists rc km,
    (ID s, rc) ∈ rfcSuites /\
    expandKeysManual s ms cr sr (keyBlockIVLen s) = Ok km /\ KeyExpansion s ms cr sr = Ok km /\
    (len (ClientEncKey km), len (ClientMACKey km), len (ClientIV km)) = rfcKeyLens rc /\
    (len (ServerEncKey km), len (ServerMACKey km), len (ServerIV km)) = rfcKeyLens rc /\
    buildProtector s (ClientEncKey km) (ClientMACKey km) (ClientIV km)
    = Ok (rfcProtector rc (ClientEncKey km) (ClientMACKey km) (ClientIV km)) /\
    buildProtector s (ServerEncKey km) (ServerMACKey km) (ServerIV km)
    = Ok (rfcProtector rc (ServerEncKey km) (ServerMACKey km) (ServerIV km)).
Proof.
  intros Hs Hc Hr. pose proof (allSuites_lens s Hs) as Hl. destruct (allSuites_fit s Hs) as (rc & Hin & Hfit).
  destruct (KeyExpansion_Ok s ms cr sr Hl Hc Hr) as (kb & km & _ & Hkm & _ & _ & L1 & L2 & L3 & L4 & L5 & L6).
  exists rc, km. rewrite expandKeysManual_eq by done.
  assert (E1 : (len (ClientEncKey km), len (ClientMACKey km), len (ClientIV km)) = rfcKeyLens rc)
    by (rewrite L1, L3, L5; apply Hfit).
  assert (E2 : (len (ServerEncKey km), len (ServerMACKey km), len (ServerIV km)) = rfcKeyLens rc)
    by (rewrite L2, L4, L6; apply Hfit).
  split_and!; auto using buildProtector_rfc.
Qed.

Lemma suite_protectors s ms cr sr :
  s ∈ allSuites -> len cr = 32 -> len sr = 32 ->
  exists km send recv,
    expandKeysManual s ms cr sr (keyBlockIVLen s) = Ok km /\
    KeyExpansion s ms cr sr = Ok km /\
    buildProtector s (ClientEncKey km) (ClientMACKey km) (ClientIV km) = Ok send /\
    buildProtector s (ServerEncKey km) (ServerMACKey km) (ServerIV km) = Ok recv /\
    prot_ok send /\ prot_ok recv /\ send <> PNull /\ recv <> PNull.
Proof.
  intros Hs Hc Hr. destruct (suite_protectors_rfc s ms cr sr Hs Hc Hr) as (rc & km & _ & E1 & E2 & _ & _ & B1 & B2).
  destruct (buildProtector_ok _ _ _ _ _ B1), (buildProtector_ok _ _ _ _ _ B2). eauto 12.
Qed.

End Lemmas.

(** * Properties *)

Section Properties.
Context {P : Primitives} {L : PrimitiveLaws P}.

(** C40. The suite table fits the record layer: for every registered suite and any
    master secret, the handshake's key expansion agrees with the key schedule's, the
    keys of both directions have the lengths the RFCs give the suite's code point, and
    each direction's keys build the protector of that code point: AES-CBC with the
    suite's HMAC, AES-GCM, ChaCha20-Poly1305, GOST 28147-89 with the suite's S-box, or
    the CTR-OMAC mode of Kuznyechik or Magma, holding exactly those keys, in the state
    the record layer's theorems start from. *)
Theorem registered_suites_protect s ms cr sr :
  s ∈ allSuites -> len cr = 32 -> len sr = 32 ->
  exists rc km,
    (ID s, rc) ∈ rfcSuites /\
    expandKeysManual s ms cr sr (keyBlockIVLen s) = Ok km /\ KeyExpansion s ms cr sr = Ok km /\
    let send := rfcProtector rc (ClientEncKey km) (ClientMACKey km) (ClientIV km) in
    let recv := rfcProtector rc (ServerEncKey km) (ServerMACKey km) (ServerIV km) in
    (len (ClientEncKey km), len (ClientMACKey km), len (ClientIV km)) = rfcKeyLens rc /\
    (len (ServerEncKey km), len (ServerMACKey km), len (ServerIV km)) = rfcKeyLens rc /\
    buildProtector s (ClientEncKey km) (ClientMACKey km) (ClientIV km) = Ok send /\
    buildProtector s (ServerEncKey km) (ServerMACKey km) (ServerIV km) = Ok recv /\
    prot_ok send /\ prot_ok recv.
Proof.
  intros Hs Hc Hr.
  destruct (suite_protectors_rfc s ms cr sr Hs Hc Hr) as (rc & km & H1 & H2 & H3 & H4 & H5 & B1 & B2).
  destruct (buildProtector_ok _ _ _ _ _ B1), (buildProtector_ok _ _ _ _ _ B2). exists rc, km. auto 10.
Qed.

End Properties.

(** ** Witnesses *)

#[local] Existing Instance Toy.prims.
#[local] Existing Instance Toy.laws.

(** The Magma suite: Magma in CTR-OMAC, with the keys of the key block. *)
Lemma registered_suites_protect_witness :
  let s := mkSuite 0xC101 "GOST2012-MAGMA-MAGMAOMAC" KexGOST2018_256 AuthGOST2012_256
    specMagmaCTROMAC specMagmaOMAC specPRFStreebog256 in
  let ms := repeat Byte.x07 48 in
  let cr := repeat Byte.x01 32 in let sr := repeat Byte.x02 32 in
  exists km,
    KeyExpansion s ms cr sr = Ok km /\ len (ClientEncKey km) = 32 /\ len (ServerIV km) = 4 /\
    buildProtector s (ClientEncKey km) (ClientMACKey km) (ClientIV km)
    = Ok (PCTROMAC {| newBlock := Magma; co_blockSize := 8; tagSize := 8;
                      origIV := ClientIV km; encTree := ClientEncKey km; macTree := ClientMACKey km;
                      acpkmSection := 1024 |}).
Proof.
  intros s ms cr sr.
  destruct (registered_suites_protect s ms cr sr) as (rc & km & H1 & _ & H3 & H4 & H5 & H6 & _);
    [unfold allSuites, gostSuites; do 4 right; left|reflexivity|reflexivity|].
  assert (rc = CTR_OMAC Magma 4 1024) as ->.
  { apply list_elem_of_In in H1. cbn in H1. unfold suiteGOSTMagma in H1.
    repeat (destruct H1 as [H1|H1]; [try discriminate H1; now injection H1 as <-|]). destruct H1. }
  cbn in H4, H5. injection H4 as H4 _ _. injection H5 as _ _ H5. exists km. auto.
Defined.
