(* ===== verification/KeyTransport.v ===== *)
(** * Envelopes of the GOST key exchanges ([internal/ke/gost_keytransport.go],
      [pskeytransport_gost.go])

    The ASN.1 structs of the two envelopes with their encoding by
    [encoding/asn1], the functions that fill them in, and a decoder for each that
    a receiver with the same structs would run.  The lemmas: the decoders invert
    the encoders, and the algorithm identifier of the server's certificate is
    carried over byte for byte. *)

From Stdlib Require Import ZArith Lia.
From stdpp Require Import base list.
From S2P Require Import Prelude Errors Asn1.

Open Scope Z_scope.

(** ** Structs *)

(** [Parameters] is [None] for the zero value, which the tag optional omits. *)
Record keAlgorithmIdentifier := {
  Algorithm : list Z;
  Parameters : option RawValue
}.

(** The bit string has whole bytes. *)
Record keSPKI := {
  spki_Algorithm : keAlgorithmIdentifier;
  SubjectPublicKey : bytes
}.

Record gostKeyInfo := {
  EncryptedKey : bytes;
  IMIT : bytes
}.

Record gostKeyAgreementInfo := {
  kai_Cipher : list Z;
  EphemKey : RawValue;
  EphIV : bytes
}.

Record gostKeyTransport := {
  KeyInfo : gostKeyInfo;
  KeyAgreementInfo : gostKeyAgreementInfo
}.

Record gostClientKeyExchangeParams := { GKT : gostKeyTransport }.

(** [UKM] is [None] for nil. *)
Record psKeyTransportGost := {
  PsExp : bytes;
  ps_EphemKey : keSPKI;
  UKM : option bytes
}.

(** ** [asn1.Marshal] of the structs *)

Definition marshalRawValue (v : RawValue) : bytes :=
  if negb (len (rv_full v) =? 0) then rv_full v
  else derTLV (identifier (rv_class v) (rv_tag v) (rv_isCompound v)) (rv_bytes v).

Definition marshalAlgorithmIdentifier (a : keAlgorithmIdentifier) : result bytes :=
  let* oid := marshalOID (Algorithm a) in
  Ok (derTLV tagSequence
        (derTLV tagOID oid ++ match Parameters a with Some v => marshalRawValue v | None => [] end)).

(** The content of the sequence. *)
Definition spkiContent (s : keSPKI) : result bytes :=
  let* alg := marshalAlgorithmIdentifier (spki_Algorithm s) in
  Ok (alg ++ marshalBitString (SubjectPublicKey s)).

Definition marshalSPKI (s : keSPKI) : result bytes :=
  let* c := spkiContent s in Ok (derTLV tagSequence c).

Definition marshalKeyInfo (k : gostKeyInfo) : bytes :=
  derTLV tagSequence (derTLV tagOctetString (EncryptedKey k) ++ derTLV tagOctetString (IMIT k)).

(** The field has the tag [0], implicit. *)
Definition marshalKeyAgreementInfo (k : gostKeyAgreementInfo) : result bytes :=
  let* oid := marshalOID (kai_Cipher k) in
  Ok (derTLV tagContext0 (derTLV tagOID oid ++ marshalRawValue (EphemKey k)
                          ++ derTLV tagOctetString (EphIV k))).

Definition marshalParams (p : gostClientKeyExchangeParams) : result bytes :=
  let* kai := marshalKeyAgreementInfo (KeyAgreementInfo (GKT p)) in
  Ok (derTLV tagSequence (derTLV tagSequence (marshalKeyInfo (KeyInfo (GKT p)) ++ kai))).

Definition marshalPS (p : psKeyTransportGost) : result bytes :=
  let* spki := marshalSPKI (ps_EphemKey p) in
  Ok (derTLV tagSequence
        (derTLV tagOctetString (PsExp p) ++ spki ++
         match UKM p with Some u => derTLV tagOctetString u | None => [] end)).

(** ** [asn1.Unmarshal] of the structs *)

(** The fields of an algorithm identifier; what follows them in the sequence is
    dropped. *)
Definition algorithmFields (b : bytes) : result keAlgorithmIdentifier :=
  let* (oidBytes, b) := parseField 0 6 false b in
  let* oid := parseObjectIdentifier oidBytes in
  let* (p, _) := parseOptionalRaw b in
  Ok {| Algorithm := oid; Parameters := p |}.

Definition unmarshalAlgorithmIdentifier (b : bytes) : result (keAlgorithmIdentifier * bytes) :=
  let* (c, rest) := parseSequence b in
  let* a := algorithmFields c in
  Ok (a, rest).

Definition spkiFields (b : bytes) : result keSPKI :=
  let* (a, b) := unmarshalAlgorithmIdentifier b in
  let* (bits, _) := parseField 0 3 false b in
  let* key := parseBitString bits in
  Ok {| spki_Algorithm := a; SubjectPublicKey := key |}.

Definition unmarshalSPKI (b : bytes) : result (keSPKI * bytes) :=
  let* (c, rest) := parseSequence b in
  let* s := spkiFields c in
  Ok (s, rest).

Definition unmarshalKeyAgreementInfo (b : bytes) : result gostKeyAgreementInfo :=
  let* (oidBytes, b) := parseField 0 6 false b in
  let* oid := parseObjectIdentifier oidBytes in
  let* (ephem, b) := parseRawValue b in
  let* (iv, _) := parseOctetString b in
  Ok {| kai_Cipher := oid; EphemKey := ephem; EphIV := iv |}.

Definition unmarshalParams (b : bytes) : result (gostClientKeyExchangeParams * bytes) :=
  let* (c, rest) := parseSequence b in
  let* (gkt, _) := parseSequence c in
  let* (ki, gkt) := parseSequence gkt in
  let* (ek, ki) := parseOctetString ki in
  let* (imit, _) := parseOctetString ki in
  let* (kai, _) := parseField 2 0 true gkt in
  let* kai := unmarshalKeyAgreementInfo kai in
  Ok ({| GKT := {| KeyInfo := {| EncryptedKey := ek; IMIT := imit |};
                   KeyAgreementInfo := kai |} |}, rest).

(** The optional UKM is absent when the sequence ends, or when the next element is
    not an octet string. *)
Definition parseOptionalOctets (b : bytes) : result (option bytes) :=
  match b with
  | [] => Ok None
  | _ =>
      let* (t, b1) := parseTagAndLength b in
      if (tl_class t =? 0) && (tl_tag t =? 4) && negb (tl_isCompound t)
      then let* (u, _) := takeContent t b1 in Ok (Some u)
      else Ok None
  end.

Definition unmarshalPS (b : bytes) : result (psKeyTransportGost * bytes) :=
  let* (c, rest) := parseSequence b in
  let* (psexp, c) := parseOctetString c in
  let* (spki, c) := unmarshalSPKI c in
  let* ukm := parseOptionalOctets c in
  Ok ({| PsExp := psexp; ps_EphemKey := spki; UKM := ukm |}, rest).

(** ** gost_keytransport.go *)

Definition derLongFormMask : Z := 128.
Definition derLengthBytesMask : Z := 127.

Definition lengthOfLength (first : byte) : Z :=
  if Z.land (b2z first) derLongFormMask =? 0 then 0 else Z.land (b2z first) derLengthBytesMask.

(** [asn1.Marshal] of a byte slice. *)
Definition marshalBytes (b : bytes) : bytes := derTLV tagOctetString b.

Definition marshalGOSTKeyTransport (spkiAlgo ephemPubRaw encryptedKey imit : bytes)
  (cipherOID : list Z) (ephIV : bytes) : result bytes :=
  let* (algID, _) := unmarshalAlgorithmIdentifier spkiAlgo in
  let octet := marshalBytes ephemPubRaw in
  let spki := {| spki_Algorithm := algID; SubjectPublicKey := octet |} in
  let* spkiDER := marshalSPKI spki in
  let* first := index spkiDER 1 in
  let* body := slice spkiDER (2 + lengthOfLength first) (len spkiDER) in
  let ephemRaw := {| rv_class := 2; rv_tag := 0; rv_isCompound := true;
                     rv_bytes := body; rv_full := [] |} in
  let params := {| GKT := {|
    KeyInfo := {| EncryptedKey := encryptedKey; IMIT := imit |};
    KeyAgreementInfo := {| kai_Cipher := cipherOID; EphemKey := ephemRaw; EphIV := ephIV |} |} |} in
  marshalParams params.

(** ** pskeytransport_gost.go *)

Definition marshalPSKeyTransport (psexp ephemSPKIAlgo ephemPubRaw : bytes) (ukm : option bytes)
  : result bytes :=
  let* (algID, _) := unmarshalAlgorithmIdentifier ephemSPKIAlgo in
  let octet := marshalBytes ephemPubRaw in
  let spki := {| spki_Algorithm := algID; SubjectPublicKey := octet |} in
  let pkt := {| PsExp := psexp; ps_EphemKey := spki; UKM := ukm |} in
  marshalPS pkt.

(** * Lemmas *)

Definition alg_ok (a : keAlgorithmIdentifier) : Prop :=
  oid_ok (Algorithm a) /\ match Parameters a with Some v => raw_ok v | None => True end.

(** The encoding of an algorithm identifier, as a content. *)
Definition algContent (oid : bytes) (p : option RawValue) : bytes :=
  derTLV tagOID oid ++ match p with Some v => rv_full v | None => [] end.

Lemma marshalRawValue_ok v : raw_ok v -> marshalRawValue v = rv_full v.
Proof.
  intros [H _]. unfold marshalRawValue. destruct (len (rv_full v) =? 0) eqn:E; [|done].
  z_bool. now apply len_zero_nil in E.
Qed.

Lemma marshalAlgorithmIdentifier_eq a oid :
  alg_ok a -> marshalOID (Algorithm a) = Ok oid ->
  marshalAlgorithmIdentifier a = Ok (derTLV tagSequence (algContent oid (Parameters a))).
Proof.
  intros [_ Hp] Ho. unfold marshalAlgorithmIdentifier, algContent. rewrite Ho. cbn [bind].
  destruct (Parameters a); [now rewrite marshalRawValue_ok|done].
Qed.

(** What is accepted as an algorithm identifier is its encoding, up to elements
    after the two fields, which are dropped. *)
Lemma unmarshalAlgorithmIdentifier_inv b a rest :
  unmarshalAlgorithmIdentifier b = Ok (a, rest) ->
  alg_ok a /\ exists oid extra,
    marshalOID (Algorithm a) = Ok oid /\
    b = derTLV tagSequence (algContent oid (Parameters a) ++ extra) ++ rest.
Proof.
  unfold unmarshalAlgorithmIdentifier. intros H. apply bind_Ok in H as ([c r] & Hs & H).
  apply bind_Ok in H as (a' & Ha & [= -> ->]). apply parseField_inv in Hs as [-> _]; [|lia].
  unfold algorithmFields in Ha. apply bind_Ok in Ha as ([ob c1] & Ho & Ha).
  apply parseField_inv in Ho as [-> _]; [|lia]. apply bind_Ok in Ha as (oid & Hoid & Ha).
  apply parseObjectIdentifier_inv in Hoid as [Hok Hm].
  apply bind_Ok in Ha as ([p extra] & Hp & [= <-]). unfold alg_ok, algContent. cbn [Algorithm Parameters].
  destruct c1 as [|x c1]; cbn [parseOptionalRaw] in Hp.
  - injection Hp as <- <-. split; [done|]. exists ob, []. split; [done|]. now rewrite !app_nil_r.
  - apply bind_Ok in Hp as ([v r'] & Hv & [= <- <-]). split; [split; [done|now apply parseRawValue_ok in Hv]|].
    exists ob, r'. split; [done|]. apply parseRawValue_inv in Hv as [-> _]. now rewrite <- app_assoc.
Qed.

(** Reading back what was written. *)
Lemma parseOptionalRaw_put p :
  match p with Some v => raw_ok v | None => True end ->
  parseOptionalRaw match p with Some v => rv_full v | None => [] end = Ok (p, []).
Proof.
  destruct p as [v|]; [|done]. intros [Hne H]. specialize (H []). rewrite app_nil_r in H.
  unfold parseOptionalRaw. destruct (rv_full v); [done|]. now rewrite H.
Qed.

Lemma algContent_len oid p : len oid < len (algContent oid p).
Proof. unfold algContent. pose proof (derTLV_len tagOID oid). len_lia. Qed.

Lemma unmarshalAlgorithmIdentifier_put a enc rest :
  alg_ok a -> marshalAlgorithmIdentifier a = Ok enc -> len enc < 2 ^ 31 ->
  unmarshalAlgorithmIdentifier (enc ++ rest) = Ok (a, rest).
Proof.
  intros Ha Hm Hn. destruct (marshalOID (Algorithm a)) as [oid| |] eqn:Ho;
    [|unfold marshalAlgorithmIdentifier in Hm; now rewrite Ho in Hm..].
  rewrite (marshalAlgorithmIdentifier_eq a oid) in Hm by done. injection Hm as <-.
  pose proof (derTLV_len tagSequence (algContent oid (Parameters a))).
  pose proof (algContent_len oid (Parameters a)).
  unfold unmarshalAlgorithmIdentifier, parseSequence.
  rewrite (parseField_put 0 16 true) by lia. cbn [bind]. unfold algorithmFields, algContent.
  rewrite (parseField_put 0 6 false) by lia. cbn [bind]. destruct Ha as [Hok Hp].
  rewrite (parseObjectIdentifier_put (Algorithm a)) by done. cbn [bind].
  rewrite parseOptionalRaw_put by done. now destruct a.
Qed.

Lemma marshalAlgorithmIdentifier_inv a enc :
  marshalAlgorithmIdentifier a = Ok enc -> exists oid, marshalOID (Algorithm a) = Ok oid.
Proof. unfold marshalAlgorithmIdentifier. intros H. apply bind_Ok in H as (oid & H & _). eauto. Qed.

(** An accepted identifier can be encoded. *)
Lemma unmarshal_marshal_alg b a rest :
  unmarshalAlgorithmIdentifier b = Ok (a, rest) ->
  alg_ok a /\ exists enc, marshalAlgorithmIdentifier a = Ok enc.
Proof.
  intros H. apply unmarshalAlgorithmIdentifier_inv in H as (Ha & oid & extra & Ho & _).
  split; [done|]. eexists. by apply (marshalAlgorithmIdentifier_eq a oid).
Qed.

(** ** SubjectPublicKeyInfo *)

Lemma spkiContent_inv s c :
  spkiContent s = Ok c ->
  exists enc, marshalAlgorithmIdentifier (spki_Algorithm s) = Ok enc /\
              c = enc ++ marshalBitString (SubjectPublicKey s).
Proof. unfold spkiContent. intros H. apply bind_Ok in H as (enc & He & [= <-]). eauto. Qed.

Lemma spkiFields_put s c rest :
  alg_ok (spki_Algorithm s) -> spkiContent s = Ok c -> len c < 2 ^ 31 ->
  spkiFields (c ++ rest) = Ok s.
Proof.
  intros Ha Hc Hn. apply spkiContent_inv in Hc as (enc & He & ->). rewrite <- app_assoc.
  rewrite len_app in Hn. pose proof (derTLV_len tagBitString (Byte.x00 :: SubjectPublicKey s)) as Hb.
  fold (marshalBitString (SubjectPublicKey s)) in Hb. rewrite len_cons in Hb.
  pose proof (len_nonneg enc). pose proof (len_nonneg (SubjectPublicKey s)).
  unfold spkiFields. rewrite (unmarshalAlgorithmIdentifier_put (spki_Algorithm s)) by (done || lia).
  cbn [bind]. unfold marshalBitString. rewrite (parseField_put 0 3 false) by (rewrite ?len_cons; lia).
  cbn [bind]. rewrite parseBitString_put. now destruct s.
Qed.

Lemma unmarshalSPKI_put s der rest :
  alg_ok (spki_Algorithm s) -> marshalSPKI s = Ok der -> len der < 2 ^ 31 ->
  unmarshalSPKI (der ++ rest) = Ok (s, rest).
Proof.
  intros Ha Hm Hn. unfold marshalSPKI in Hm. apply bind_Ok in Hm as (c & Hc & [= <-]).
  pose proof (derTLV_len tagSequence c). unfold unmarshalSPKI, parseSequence.
  rewrite (parseField_put 0 16 true) by lia. cbn [bind].
  pose proof (spkiFields_put s c [] Ha Hc ltac:(lia)) as Hf. rewrite app_nil_r in Hf. now rewrite Hf.
Qed.

(** ** Skipping a header

    [lengthOfLength] of the second byte of an element is the rest of its length
    field, so skipping 2 + that many bytes leaves exactly the content. *)
Lemma derTLV_content tag content :
  exists first, index (E := error) (derTLV tag content) 1 = Ok first /\
    slice (E := error) (derTLV tag content) (2 + lengthOfLength first) (len (derTLV tag content))
    = Ok content.
Proof.
  unfold derTLV, derLength, lengthOfLength, derLongFormMask, derLengthBytesMask.
  set (n := len content). assert (Hn0 : 0 <= n) by apply len_nonneg.
  destruct (n <? 128) eqn:E; z_bool.
  - exists (z2b n). split; [reflexivity|]. rewrite high_bit, b2z_small by lia.
    rewrite (proj2 (Z.ltb_lt _ _)) by lia.
    change (z2b tag :: [z2b n] ++ content) with ([z2b tag; z2b n] ++ content).
    apply slice_app_r; autorewrite with len; lia.
  - set (lb := lengthBytes n). assert (Hlb : len lb <= 8).
    { unfold lb, lengthBytes. rewrite len_map. pose proof (digits_length 256 8 n). unfold len. lia. }
    pose proof (len_nonneg lb).
    exists (z2b (128 + len lb)). split; [reflexivity|].
    rewrite high_bit, land_127, z2b_high, (proj2 (Z.ltb_ge (128 + len lb) 128)) by lia.
    change (z2b tag :: (z2b (128 + len lb) :: lb) ++ content)
      with ((z2b tag :: z2b (128 + len lb) :: lb) ++ content).
    apply slice_app_r; autorewrite with len; lia.
Qed.

(** The envelope: the public key information loses its own header and becomes the
    implicit [0] field between the cipher's identifier and the IV. *)
Lemma marshalGOSTKeyTransport_eq spkiAlgo algID rest pub ek imit oid iv c o :
  unmarshalAlgorithmIdentifier spkiAlgo = Ok (algID, rest) ->
  spkiContent {| spki_Algorithm := algID; SubjectPublicKey := marshalBytes pub |} = Ok c ->
  marshalOID oid = Ok o ->
  marshalGOSTKeyTransport spkiAlgo pub ek imit oid iv
  = Ok (derTLV tagSequence (derTLV tagSequence
      (derTLV tagSequence (derTLV tagOctetString ek ++ derTLV tagOctetString imit) ++
       derTLV tagContext0 (derTLV tagOID o ++ derTLV tagContext0 c ++ derTLV tagOctetString iv)))).
Proof.
  intros Ha Hc Ho. unfold marshalGOSTKeyTransport. rewrite Ha. cbn [bind]. unfold marshalSPKI.
  rewrite Hc. cbn [bind]. destruct (derTLV_content tagSequence c) as (first & Hi & Hs).
  rewrite Hi. cbn [bind]. rewrite Hs. cbn [bind].
  unfold marshalParams, marshalKeyAgreementInfo. cbn [GKT KeyAgreementInfo kai_Cipher].
  now rewrite Ho.
Qed.

(** ** Reading the envelopes back *)

(** Every element named in the goal or a hypothesis is longer than its content. *)
Ltac der_pose :=
  repeat match goal with
  | _ : context [derTLV ?t ?c] |- _ =>
      lazymatch goal with _ : len c < len (derTLV t c) |- _ => fail | _ => pose proof (derTLV_len t c) end
  | |- context [derTLV ?t ?c] =>
      lazymatch goal with _ : len c < len (derTLV t c) |- _ => fail | _ => pose proof (derTLV_len t c) end
  end.

Ltac der_lia := rewrite ?len_app in *; len_pose; lia.

Lemma unmarshalKeyAgreementInfo_put oid o c iv :
  oid_ok oid -> marshalOID oid = Ok o ->
  len (derTLV tagOID o ++ derTLV tagContext0 c ++ derTLV tagOctetString iv) < 2 ^ 31 ->
  unmarshalKeyAgreementInfo (derTLV tagOID o ++ derTLV tagContext0 c ++ derTLV tagOctetString iv)
  = Ok {| kai_Cipher := oid;
          EphemKey := {| rv_class := 2; rv_tag := 0; rv_isCompound := true; rv_bytes := c;
                         rv_full := derTLV tagContext0 c |};
          EphIV := iv |}.
Proof.
  intros Hok Ho Hn. der_pose. rewrite !len_app in Hn.
  pose proof (len_nonneg (derTLV tagOID o)). pose proof (len_nonneg (derTLV tagContext0 c)).
  pose proof (len_nonneg (derTLV tagOctetString iv)).
  unfold unmarshalKeyAgreementInfo, parseOctetString. rewrite (parseField_put 0 6 false) by lia.
  cbn [bind]. rewrite (parseObjectIdentifier_put oid) by done. cbn [bind].
  rewrite parseRawValue_put by (done || lia). cbn [bind].
  rewrite <- (app_nil_r (derTLV tagOctetString iv)).
  now rewrite (parseField_put 0 4 false) by lia.
Qed.

Lemma unmarshalParams_put ek imit oid o c iv rest :
  let enc := derTLV tagSequence (derTLV tagSequence
      (derTLV tagSequence (derTLV tagOctetString ek ++ derTLV tagOctetString imit) ++
       derTLV tagContext0 (derTLV tagOID o ++ derTLV tagContext0 c ++ derTLV tagOctetString iv))) in
  oid_ok oid -> marshalOID oid = Ok o -> len enc < 2 ^ 31 ->
  unmarshalParams (enc ++ rest)
  = Ok ({| GKT := {|
      KeyInfo := {| EncryptedKey := ek; IMIT := imit |};
      KeyAgreementInfo := {|
        kai_Cipher := oid;
        EphemKey := {| rv_class := 2; rv_tag := 0; rv_isCompound := true; rv_bytes := c;
                       rv_full := derTLV tagContext0 c |};
        EphIV := iv |} |} |}, rest).
Proof.
  cbv zeta. intros Hok Ho Hn.
  pose proof (unmarshalKeyAgreementInfo_put oid o c iv Hok Ho) as Hk.
  set (kai := derTLV tagOID o ++ derTLV tagContext0 c ++ derTLV tagOctetString iv) in *. clearbody kai.
  der_pose. rewrite ?len_app in *.
  assert (Hs : forall t b, 0 <= len (derTLV t b)) by (intros; apply len_nonneg).
  pose proof (Hs tagOctetString ek). pose proof (Hs tagOctetString imit). pose proof (Hs tagContext0 kai).
  pose proof (Hs tagSequence (derTLV tagOctetString ek ++ derTLV tagOctetString imit)).
  pose proof (len_nonneg imit). pose proof (len_nonneg ek). pose proof (len_nonneg kai).
  unfold unmarshalParams, parseSequence, parseOctetString.
  rewrite (parseField_put 0 16 true) by (rewrite ?len_app; lia). cbn [bind].
  rewrite <- (app_nil_r (derTLV tagSequence (derTLV tagSequence _ ++ _))).
  rewrite (parseField_put 0 16 true) by (rewrite ?len_app; lia). cbn [bind].
  rewrite (parseField_put 0 16 true) by (rewrite ?len_app; lia). cbn [bind].
  rewrite (parseField_put 0 4 false) by lia. cbn [bind].
  rewrite <- (app_nil_r (derTLV tagOctetString imit)).
  rewrite (parseField_put 0 4 false) by lia. cbn [bind].
  rewrite <- (app_nil_r (derTLV tagContext0 kai)).
  rewrite (parseField_put 2 0 true) by lia. cbn [bind]. now rewrite Hk by lia.
Qed.

Lemma parseOptionalOctets_put u :
  match u with Some b => len b < 2 ^ 31 | None => True end ->
  parseOptionalOctets match u with Some b => derTLV tagOctetString b | None => [] end = Ok u.
Proof.
  destruct u as [b|]; [|done]. intros Hn. pose proof (len_nonneg b).
  unfold parseOptionalOctets. destruct (derTLV tagOctetString b) as [|x l] eqn:E; [done|]. rewrite <- E.
  unfold derTLV. rewrite parseTagAndLength_put by (lia || done). cbn [bind].
  change (_ && _ && _) with true. cbv iota.
  rewrite <- (app_nil_r b) at 2. now rewrite takeContent_put.
Qed.

Lemma marshalPS_inv p der :
  marshalPS p = Ok der ->
  exists spki, marshalSPKI (ps_EphemKey p) = Ok spki /\
    der = derTLV tagSequence (derTLV tagOctetString (PsExp p) ++ spki ++
            match UKM p with Some u => derTLV tagOctetString u | None => [] end).
Proof.
  unfold marshalPS. intros H. apply bind_Ok in H as (spki & Hs & H). exists spki.
  split; [done|congruence].
Qed.

Lemma unmarshalPS_put p der rest :
  alg_ok (spki_Algorithm (ps_EphemKey p)) -> marshalPS p = Ok der -> len der < 2 ^ 31 ->
  unmarshalPS (der ++ rest) = Ok (p, rest).
Proof.
  intros Ha Hm Hn. apply marshalPS_inv in Hm as (spki & Hs & ->).
  set (u := match UKM p with Some b => derTLV tagOctetString b | None => [] end) in *.
  der_pose. rewrite ?len_app in *. pose proof (len_nonneg spki). pose proof (len_nonneg u).
  pose proof (len_nonneg (PsExp p)). unfold unmarshalPS, parseSequence, parseOctetString.
  rewrite (parseField_put 0 16 true) by (rewrite ?len_app; lia). cbn [bind].
  rewrite (parseField_put 0 4 false) by lia. cbn [bind].
  rewrite (unmarshalSPKI_put (ps_EphemKey p)) by (done || lia). cbn [bind].
  unfold u. rewrite parseOptionalOctets_put; [now destruct p|].
  unfold u in *. destruct (UKM p) as [b|]; [|done]. pose proof (derTLV_len tagOctetString b). lia.
Qed.

(** ** No panics *)

Lemma marshalOID_safe oid : safe (marshalOID oid).
Proof. destruct oid as [|a [|b rest]]; cbn [marshalOID]; try done. safe_auto. Qed.
#[export] Hint Resolve marshalOID_safe : tls.

Lemma unmarshalAlgorithmIdentifier_safe b : safe (unmarshalAlgorithmIdentifier b).
Proof.
  unfold unmarshalAlgorithmIdentifier, parseSequence, algorithmFields. safe_auto.
  match goal with |- safe (parseOptionalRaw ?b) => destruct b end; cbn [parseOptionalRaw]; safe_auto.
Qed.
#[export] Hint Resolve unmarshalAlgorithmIdentifier_safe : tls.

Lemma marshalSPKI_safe s : safe (marshalSPKI s).
Proof. unfold marshalSPKI, spkiContent, marshalAlgorithmIdentifier. safe_auto. Qed.
#[export] Hint Resolve marshalSPKI_safe : tls.

Lemma marshalGOSTKeyTransport_safe spkiAlgo pub ek imit oid iv :
  safe (marshalGOSTKeyTransport spkiAlgo pub ek imit oid iv).
Proof.
  unfold marshalGOSTKeyTransport. apply safe_bind; [auto with tls|]. intros [algID rest] _. cbv zeta.
  apply safe_bind; [auto with tls|]. intros spkiDER Hd. unfold marshalSPKI in Hd.
  apply bind_Ok in Hd as (c & _ & Hd). assert (spkiDER = derTLV tagSequence c) as -> by congruence.
  destruct (derTLV_content tagSequence c) as (first & Hi & Hs). rewrite Hi. cbn [bind].
  rewrite Hs. cbn [bind]. unfold marshalParams, marshalKeyAgreementInfo. safe_auto.
Qed.

Lemma marshalPSKeyTransport_safe psexp alg pub ukm : safe (marshalPSKeyTransport psexp alg pub ukm).
Proof. unfold marshalPSKeyTransport, marshalPS. safe_auto. Qed.
#[export] Hint Resolve marshalGOSTKeyTransport_safe marshalPSKeyTransport_safe : tls.
