(* ===== verification/KeyExchange.v ===== *)
(** * Key exchange ([internal/ke])

    The implementations of the [Exchange] interface: ECDHE, DHE, RSA, the two
    VKO GOST exchanges and GOST 2018.
    The arithmetic and the curves of other packages ([filippo.io/bigmod],
    [crypto/ecdh], [crypto/rsa], [gostcrypto]) are the class [KexLib]. *)

From Stdlib Require Import ZArith Lia Zpow_facts.
From stdpp Require Import base list strings.
From S2P Require Import Prelude Errors Asn1 KeyTransport Primitives State.

Open Scope Z_scope.

(** ** What other packages provide *)

Inductive ecCurve := P256 | P384 | P521 | X25519.

(** Keys and curves of other packages are opaque byte strings; [None] is an
    error. *)
Class KexLib := {
  (* bigmod: NewModulus, Nat.SetBytes, Nat.SetOverflowingBytes, Nat.Exp, Nat.Bytes *)
  newModulus : bytes -> bool;
  natSetBytes : bytes -> bytes -> option Z;
  natSetOverflowingBytes : bytes -> bytes -> option Z;
  natExp : Z -> bytes -> bytes -> Z;
  natBytes : Z -> bytes -> bytes;
  (* crypto/ecdh: NewPublicKey, GenerateKey, PublicKey().Bytes(), ECDH *)
  ecdhNewPublicKey : ecCurve -> bytes -> option bytes;
  ecdhGenerateKey : ecCurve -> tape -> option (bytes * tape);
  ecdhPublicBytes : ecCurve -> bytes -> bytes;
  ecdhShared : ecCurve -> bytes -> bytes -> option bytes;
  (* crypto/ecdh: NewPrivateKey, a private key from its bytes *)
  ecdhNewPrivateKey : ecCurve -> bytes -> option bytes;
  (* crypto/rsa: EncryptPKCS1v15 *)
  rsaEncrypt : bytes -> tape -> bytes -> option (bytes * tape);
  (* gostcrypto: CurveByOID, GenerateEphemeralKey, VKO, key wrap, KEG, kexp15 *)
  gostCurveByOID : bytes -> option bytes;
  gostGenerateEphemeralKey : bytes -> tape -> option (bytes * bytes * tape);
  vko2001OnCurve : bytes -> bytes -> bytes -> bytes -> option bytes;
  vko2012OnCurve : bytes -> bytes -> bytes -> bytes -> option bytes;
  vko2001TestCurve : bytes -> bytes -> bytes -> option bytes;
  publicKeyRawFromPrivate2001Test : bytes -> option bytes;
  keyWrapCryptoPro : Sbox -> bytes -> bytes -> bytes -> option bytes;
  keg2012 : bytes -> bytes -> bytes -> bytes -> option bytes;
  kexp15 : BlockCipher -> bytes -> bytes -> bytes -> bytes -> option bytes
}.

(** Documented behaviour the theorems use. *)
Class KexLaws (K : KexLib) : Prop := {
  newModulus_odd m : 1 < beUint m -> Z.odd (beUint m) = true -> newModulus m = true;
  natSetBytes_small b m : beUint b < beUint m -> natSetBytes b m = Some (beUint b);
  natSetBytes_range b m v : natSetBytes b m = Some v -> v = beUint b /\ v < beUint m;
  natSetOverflowingBytes_spec b m v :
    1 < beUint m -> natSetOverflowingBytes b m = Some v -> v = beUint b mod beUint m;
  natExp_spec v e m :
    Z.odd (beUint m) = true -> 0 <= v < beUint m -> natExp v e m = v ^ beUint e mod beUint m;
  natBytes_spec v m : 0 <= v < beUint m -> beUint (natBytes v m) = v;
  natBytes_len v m : 0 <= v < beUint m -> len (natBytes v m) <= len m;
  keg2012_len c pub priv ukm k : keg2012 c pub priv ukm = Some k -> len k = 64;
  ecdhGenerate_valid c t priv t' :
    ecdhGenerateKey c t = Some (priv, t') ->
    ecdhNewPublicKey c (ecdhPublicBytes c priv) = Some (ecdhPublicBytes c priv) /\
    len (ecdhPublicBytes c priv) < 256;
  ecdh_commutes c a b : ecdhShared c a (ecdhPublicBytes c b) = ecdhShared c b (ecdhPublicBytes c a)
}.

(** ** Randomness

    [Config.Rand] when the user set one, and [crypto/rand]. *)
Record rngs := { rng_cfg : option tape; rng_sys : tape }.

(** [io.ReadFull(params.Rand, ...)]. *)
Definition randCfg (n : Z) : M rngs bytes := fun r =>
  match rng_cfg r with
  | Some t =>
    match randRead n t with
    | Some (b, t) => (Ok b, {| rng_cfg := Some t; rng_sys := rng_sys r |})
    | None => (Err (ELib LibRand), r)
    end
  | None =>
    match randRead n (rng_sys r) with
    | Some (b, t) => (Ok b, {| rng_cfg := None; rng_sys := t |})
    | None => (Err (ELib LibRand), r)
    end
  end.

(** [rand.Read] of crypto/rand. *)
Definition randSys (n : Z) : M rngs bytes := fun r =>
  match randRead n (rng_sys r) with
  | Some (b, t) => (Ok b, {| rng_cfg := rng_cfg r; rng_sys := t |})
  | None => (Err (ELib LibRand), r)
  end.

(** A library call that draws from a reader. *)
Definition drawCfg {A} (l : library) (f : tape -> option (A * tape)) : M rngs A := fun r =>
  let t := match rng_cfg r with Some t => t | None => rng_sys r end in
  match f t with
  | Some (a, t) =>
      (Ok a, match rng_cfg r with
             | Some _ => {| rng_cfg := Some t; rng_sys := rng_sys r |}
             | None => {| rng_cfg := None; rng_sys := t |}
             end)
  | None => (Err (ELib l), r)
  end.

Definition drawSys {A} (l : library) (f : tape -> option (A * tape)) : M rngs A := fun r =>
  match f (rng_sys r) with
  | Some (a, t) => (Ok a, {| rng_cfg := rng_cfg r; rng_sys := t |})
  | None => (Err (ELib l), r)
  end.

Definition orLib {A} (l : library) (o : option A) : result A :=
  match o with Some a => Ok a | None => Err (ELib l) end.

(** ** DHE (dhe.go) *)

Definition dheMinPBits : Z := 2048.
Definition dheU16PrefixLen : Z := 2.
Definition dheMinG : Z := 2.
Definition bitsPerByte : Z := 8.

Definition readU16LenPrefixed (b : bytes) : result (bytes * bytes) :=
  if len b <? dheU16PrefixLen then Err errDHETooShort
  else
    let* b0 := index b 0 in
    let* b1 := index b 1 in
    let n := Z.lor (Z.shiftl (b2z b0) 8) (b2z b1) in
    let* b := slice b dheU16PrefixLen (len b) in
    if len b <? n then Err errDHETruncated
    else
      let* d := slice b 0 n in
      let* r := slice b n (len b) in
      Ok (d, r).

Definition parseDHEServerParams (params : bytes) : result (bytes * bytes * bytes) :=
  let* (p, rest) := readU16LenPrefixed params in
  let* (g, rest) := readU16LenPrefixed rest in
  let* (Ys, rest) := readU16LenPrefixed rest in
  if negb (len rest =? 0) then Err errDHETrailingBytes else Ok (p, g, Ys).

Definition validateDHEParams (pBytes gBytes YsBytes : bytes) : result unit :=
  let pBits := len pBytes * bitsPerByte in
  if pBits <? dheMinPBits then Err errDHEPTooShort
  else
    let* lastIsEven :=
      (if len pBytes =? 0 then Ok true
       else let* b := index pBytes (len pBytes - 1) in Ok (Z.land (b2z b) 1 =? 0)) in
    if lastIsEven then Err errDHEPEven
    else
      let gBig := beUint gBytes in
      if gBig <? dheMinG then Err errDHEGTooSmall
      else
        let pBig := beUint pBytes in
        let YsBig := beUint YsBytes in
        if YsBig <=? 1 then Err errDHEYsLow
        else if pBig - 1 <=? YsBig then Err errDHEYsHigh
        else Ok tt.

Definition leftPad (b : bytes) (n : Z) : bytes :=
  if n <=? len b then b else replicate (Z.to_nat (n - len b)) Byte.x00 ++ b.

Section Exchanges.
Context {C : Primitives} {K : KexLib}.

(** [m] is the modulus, as its bytes; [Nat.Exp] panics on an even one. *)
Definition modExp (baseBytes expBytes m : bytes) : result bytes :=
  let* base :=
    (match natSetBytes baseBytes m with
     | Some v => Ok v
     | None => orLib LibBigmod (natSetOverflowingBytes baseBytes m)
     end) in
  if negb (Z.odd (beUint m)) then Crash Panic
  else Ok (natBytes (natExp base expBytes m) m).

Definition dheClientKeyExchange (privateX : option bytes) (serverParams : bytes)
  : M rngs (bytes * bytes) :=
  let! (pBytes, gBytes, YsBytes) := lift (parseDHEServerParams serverParams) in
  let! _ := lift (validateDHEParams pBytes gBytes YsBytes) in
  if negb (newModulus pBytes) then fail (ELib LibBigmod)
  else
    let! xBytes := (match privateX with Some x => ret x | None => randSys (len pBytes) end) in
    let! Yc := lift (modExp gBytes xBytes pBytes) in
    let! Z := lift (modExp YsBytes xBytes pBytes) in
    let preMaster := leftPad Z (len pBytes) in
    let YcPadded := leftPad Yc (len pBytes) in
    let cke := [z2b (Z.shiftr (len YcPadded) 8); z2b (len YcPadded)] ++ YcPadded in
    ret (cke, preMaster).

(** [DHEComputePublic] of rand_inject.go. *)
Definition DHEComputePublic (pBytes baseBytes exponentBytes : bytes) : result bytes :=
  if negb (newModulus pBytes) then Err (ELib LibBigmod)
  else
    let* result := modExp baseBytes exponentBytes pBytes in
    Ok (leftPad result (len pBytes)).

(** ** ECDHE (ecdhe.go, rand_inject.go) *)

Definition ecdheCurveTypeNamed : Z := 3.
Definition ecdheHeaderLen : Z := 4.

Definition curveByID (id : Z) : result ecCurve :=
  if id =? 23 then Ok P256
  else if id =? 24 then Ok P384
  else if id =? 25 then Ok P521
  else if id =? 29 then Ok X25519
  else Err errECDHEUnsupportedCurve.

(** [ecdhExchangeWithRand.ClientKeyExchange]. *)
Definition ecdheClientKeyExchange (serverParams : bytes) : M rngs (bytes * bytes) :=
  if len serverParams <? ecdheHeaderLen then fail errECDHEServerParamsTooShort
  else
    let! s0 := lift (index serverParams 0) in
    if negb (b2z s0 =? ecdheCurveTypeNamed) then fail errECDHEUnsupportedCurveType
    else
      let! s1 := lift (index serverParams 1) in
      let! s2 := lift (index serverParams 2) in
      let namedCurve := Z.lor (Z.shiftl (b2z s1) 8) (b2z s2) in
      let! curve := lift (curveByID namedCurve) in
      let! s3 := lift (index serverParams 3) in
      let pointLen := b2z s3 in
      if len serverParams <? ecdheHeaderLen + pointLen then fail errECDHEServerParamsTruncated
      else
        let! serverPubBytes := lift (slice serverParams ecdheHeaderLen (ecdheHeaderLen + pointLen)) in
        let! serverPub := lift (orLib LibECDH (ecdhNewPublicKey curve serverPubBytes)) in
        let! clientPriv := drawCfg LibECDH (ecdhGenerateKey curve) in
        let! preMaster := lift (orLib LibECDH (ecdhShared curve clientPriv serverPub)) in
        let clientPubBytes := ecdhPublicBytes curve clientPriv in
        let cke := z2b (len clientPubBytes) :: clientPubBytes in
        ret (cke, preMaster).

(** [ECDHEExchange.ClientKeyExchange]: the same steps on [rand.Reader]. *)
Definition ecdheSysClientKeyExchange (serverParams : bytes) : M rngs (bytes * bytes) :=
  if len serverParams <? ecdheHeaderLen then fail errECDHEServerParamsTooShort
  else
    let! s0 := lift (index serverParams 0) in
    if negb (b2z s0 =? ecdheCurveTypeNamed) then fail errECDHEUnsupportedCurveType
    else
      let! s1 := lift (index serverParams 1) in
      let! s2 := lift (index serverParams 2) in
      let namedCurve := Z.lor (Z.shiftl (b2z s1) 8) (b2z s2) in
      let! curve := lift (curveByID namedCurve) in
      let! s3 := lift (index serverParams 3) in
      let pointLen := b2z s3 in
      if len serverParams <? ecdheHeaderLen + pointLen then fail errECDHEServerParamsTruncated
      else
        let! serverPubBytes := lift (slice serverParams ecdheHeaderLen (ecdheHeaderLen + pointLen)) in
        let! serverPub := lift (orLib LibECDH (ecdhNewPublicKey curve serverPubBytes)) in
        let! clientPriv := drawSys LibECDH (ecdhGenerateKey curve) in
        let! preMaster := lift (orLib LibECDH (ecdhShared curve clientPriv serverPub)) in
        let clientPubBytes := ecdhPublicBytes curve clientPriv in
        let cke := z2b (len clientPubBytes) :: clientPubBytes in
        ret (cke, preMaster).

(** [ECDHGeneratePublic] of rand_inject.go; a private key is its bytes. *)
Definition ECDHGeneratePublic (seed : bytes) : result (bytes * bytes) :=
  let* priv := orLib LibECDH (ecdhNewPrivateKey P256 seed) in
  Ok (priv, ecdhPublicBytes P256 priv).

(** ** RSA (rsa.go, rand_inject.go) *)

Definition rsaPreMasterLen : Z := 48.

(** [rsaExchangeWithRand.ClientKeyExchange]. *)
Definition rsaClientKeyExchange (pub : bytes) : M rngs (bytes * bytes) :=
  let! r := randCfg (rsaPreMasterLen - 2) in
  let preMaster := [Byte.x03; Byte.x03] ++ r in
  let! ciphertext := drawCfg LibRSA (fun t => rsaEncrypt pub t preMaster) in
  let cke := bePut 2 (u16 (len ciphertext)) ++ ciphertext in
  ret (cke, preMaster).

(** [RSAExchange.ClientKeyExchange]: the same steps on crypto/rand. *)
Definition rsaSysClientKeyExchange (pub : bytes) : M rngs (bytes * bytes) :=
  let! r := randSys (rsaPreMasterLen - 2) in
  let preMaster := [Byte.x03; Byte.x03] ++ r in
  let! ciphertext := drawSys LibRSA (fun t => rsaEncrypt pub t preMaster) in
  let cke := bePut 2 (u16 (len ciphertext)) ++ ciphertext in
  ret (cke, preMaster).

(** ** VKO GOST (vkogost.go) *)

(** id-tc26-gost-28147-param-Z and id-Gost28147-89-CryptoPro-A-ParamSet. *)
Definition oidTc26Gost28147ParamZ : list Z := [1; 2; 643; 7; 1; 2; 5; 1; 1].
Definition oidGost28147CryptoProA : list Z := [1; 2; 643; 2; 2; 31; 1].

Definition vkoUKMMinLen : Z := 8.
Definition vkoPreMasterLen : Z := 32.
Definition vkoKEKLen : Z := 32.
Definition cryptoProWrapEncKeyOff : Z := 8.
Definition cryptoProWrapEncKeyEnd : Z := 40.
Definition cryptoProWrapIMITEnd : Z := 44.

(** [VKOGost2001Exchange] and [VKOGost2012_256Exchange] have the same fields. *)
Record VKOGostExchange := {
  vko_curve : bytes;
  vko_spkiAlgo : bytes;
  vko_prvRaw : bytes;
  vko_ephemPubRaw : bytes;
  vko_pubRaw : bytes;
  vko_ukm : bytes
}.

(** [curve] is [None] for nil. *)
Definition NewVKOGost2001Exchange (curve : option bytes) (spkiAlgo pubRaw ukm : bytes)
  : M rngs VKOGostExchange :=
  match curve with
  | None => fail errVKO2001CurveRequired
  | Some curve =>
    if len spkiAlgo =? 0 then fail errVKO2001SpkiRequired
    else if len ukm <? vkoUKMMinLen then fail errVKO2001UKMTooShort
    else
      let! (prvRaw, ephemPubRaw) := drawSys LibVKO (gostGenerateEphemeralKey curve) in
      let! u := lift (slice ukm 0 vkoUKMMinLen) in
      ret {| vko_curve := curve; vko_spkiAlgo := spkiAlgo; vko_prvRaw := prvRaw;
             vko_ephemPubRaw := ephemPubRaw; vko_pubRaw := pubRaw; vko_ukm := u |}
  end.

Definition NewVKOGost2012_256Exchange (curve : option bytes) (spkiAlgo pubRaw ukm : bytes)
  : M rngs VKOGostExchange :=
  match curve with
  | None => fail errVKO2012CurveRequired
  | Some curve =>
    if len spkiAlgo =? 0 then fail errVKO2012SpkiRequired
    else if len ukm <? vkoUKMMinLen then fail errVKO2012UKMTooShort
    else
      let! (prvRaw, ephemPubRaw) := drawSys LibVKO (gostGenerateEphemeralKey curve) in
      let! u := lift (slice ukm 0 vkoUKMMinLen) in
      ret {| vko_curve := curve; vko_spkiAlgo := spkiAlgo; vko_prvRaw := prvRaw;
             vko_ephemPubRaw := ephemPubRaw; vko_pubRaw := pubRaw; vko_ukm := u |}
  end.

Definition vko2001ClientKeyExchange (e : VKOGostExchange) : M rngs (bytes * bytes) :=
  let! preMaster := randSys vkoPreMasterLen in
  let! kek := lift (orLib LibVKO (vko2001OnCurve (vko_curve e) (vko_prvRaw e) (vko_pubRaw e) (vko_ukm e))) in
  if negb (len kek =? vkoKEKLen) then fail errVKO2001BadKEKLen
  else
    let! wrapped := lift (orLib LibKeyWrap (keyWrapCryptoPro SboxCryptoProA kek (vko_ukm e) preMaster)) in
    if len wrapped <? cryptoProWrapIMITEnd then fail errVKO2001BadKEKLen
    else
      let! ek := lift (slice wrapped cryptoProWrapEncKeyOff cryptoProWrapEncKeyEnd) in
      let! im := lift (slice wrapped cryptoProWrapEncKeyEnd cryptoProWrapIMITEnd) in
      let! cke := lift (marshalGOSTKeyTransport (vko_spkiAlgo e) (vko_ephemPubRaw e) ek im
                          oidGost28147CryptoProA (vko_ukm e)) in
      ret (cke, preMaster).

Definition vko2012ClientKeyExchange (e : VKOGostExchange) : M rngs (bytes * bytes) :=
  let! preMaster := randSys vkoPreMasterLen in
  let! kek := lift (orLib LibVKO (vko2012OnCurve (vko_curve e) (vko_prvRaw e) (vko_pubRaw e) (vko_ukm e))) in
  if negb (len kek =? vkoKEKLen) then fail errVKO2001BadKEKLen
  else
    let! wrapped := lift (orLib LibKeyWrap (keyWrapCryptoPro SboxTC26Z kek (vko_ukm e) preMaster)) in
    if len wrapped <? cryptoProWrapIMITEnd then fail errVKO2001BadKEKLen
    else
      let! ek := lift (slice wrapped cryptoProWrapEncKeyOff cryptoProWrapEncKeyEnd) in
      let! im := lift (slice wrapped cryptoProWrapEncKeyEnd cryptoProWrapIMITEnd) in
      let! cke := lift (marshalGOSTKeyTransport (vko_spkiAlgo e) (vko_ephemPubRaw e) ek im
                          oidTc26Gost28147ParamZ (vko_ukm e)) in
      ret (cke, preMaster).

Definition GOST2001TestPublicKeyFromPrivate (prvRaw : bytes) : result bytes :=
  orLib LibVKO (publicKeyRawFromPrivate2001Test prvRaw).

(** The exchange on the test parameter set. *)
Record vkoGost2001TestCurveExchange := {
  tc_prvRaw : bytes;
  tc_pubRaw : bytes;
  tc_ukm : bytes
}.

Definition vkoTestClientKeyExchange (e : vkoGost2001TestCurveExchange) : result (bytes * bytes) :=
  let* preMaster := orLib LibVKO (vko2001TestCurve (tc_prvRaw e) (tc_pubRaw e) (tc_ukm e)) in
  if negb (len preMaster =? vkoPreMasterLen) then Err errVKO2001BadPreMasterLen
  else
    let* cke := orLib LibVKO (publicKeyRawFromPrivate2001Test (tc_prvRaw e)) in
    Ok (cke, preMaster).

(** ** GOST 2018 (gost2018.go) *)

Definition gost2018RandomsLen : Z := 64.
Definition gost2018Streebog256Len : Z := 32.
Definition gost2018UKMLen : Z := 32.
Definition gost2018PreMasterLen : Z := 32.
Definition gost2018UKMIVOffset : Z := 24.

Definition gost2018IVKuznyechik : Z := 8.
Definition gost2018IVMagma : Z := 4.

(** [Gost2018Variant] is an int with two named values. *)
Definition Gost2018Variant := Z.
Definition Variant2018Kuznyechik : Gost2018Variant := 0.
Definition Variant2018Magma : Gost2018Variant := 1.

Definition kexpVariant (v : Gost2018Variant) : result BlockCipher :=
  if v =? Variant2018Kuznyechik then Ok Kuznyechik
  else if v =? Variant2018Magma then Ok Magma
  else Crash Panic.

Definition ivLen (v : Gost2018Variant) : result Z :=
  if v =? Variant2018Kuznyechik then Ok gost2018IVKuznyechik
  else if v =? Variant2018Magma then Ok gost2018IVMagma
  else Crash Panic.

(** [g18_randoms] is [None] for nil; [rng] is always crypto/rand. *)
Record Gost2018Exchange := {
  g18_curve : bytes;
  g18_spkiAlgo : bytes;
  g18_serverPubRaw : bytes;
  g18_variant : Gost2018Variant;
  g18_randoms : option bytes
}.

Definition NewGost2018Exchange (curve : option bytes) (spkiAlgo serverPubRaw : bytes)
  (variant : Gost2018Variant) (randoms : option bytes) : result Gost2018Exchange :=
  match curve with
  | None => Err errGost2018CurveRequired
  | Some curve =>
    if len spkiAlgo =? 0 then Err errGost2018SpkiAlgoRequired
    else if len serverPubRaw =? 0 then Err errGost2018ServerPubRequired
    else if negb (variant =? Variant2018Kuznyechik) && negb (variant =? Variant2018Magma)
    then Err errGost2018UnknownVariant
    else if match randoms with Some r => negb (len r =? gost2018RandomsLen) | None => false end
    then Err errGost2018RandomsLen
    else Ok {| g18_curve := curve; g18_spkiAlgo := spkiAlgo; g18_serverPubRaw := serverPubRaw;
               g18_variant := variant; g18_randoms := randoms |}
  end.

Definition gost2018ClientKeyExchange (e : Gost2018Exchange) : M rngs (bytes * bytes) :=
  let! ukm :=
    (if len (default [] (g18_randoms e)) =? gost2018RandomsLen then
       let d := digest Streebog256 (default [] (g18_randoms e)) in
       if negb (len d =? gost2018Streebog256Len) then fail errGost2018Streebog256Len else ret d
     else randSys gost2018UKMLen) in
  let! preMaster := randSys gost2018PreMasterLen in
  let! (clientPrivRaw, clientPubRaw) := drawSys LibVKO (gostGenerateEphemeralKey (g18_curve e)) in
  let! expkeys := lift (orLib LibKEG (keg2012 (g18_curve e) (g18_serverPubRaw e) clientPrivRaw ukm)) in
  let! n := lift (ivLen (g18_variant e)) in
  let! iv := lift (slice ukm gost2018UKMIVOffset (gost2018UKMIVOffset + n)) in
  let! variant := lift (kexpVariant (g18_variant e)) in
  let! cipherKey := lift (slice expkeys 32 (len expkeys)) in
  let! macKey := lift (slice expkeys 0 32) in
  let! wrapped := lift (orLib LibKexp15 (kexp15 variant preMaster cipherKey macKey iv)) in
  let! cke := lift (marshalPSKeyTransport wrapped (g18_spkiAlgo e) clientPubRaw (Some ukm)) in
  ret (cke, preMaster).

(** ** The Exchange interface (kex.go)

    The constructors of the exchanges without server data.  The random source of
    the first two is the caller's, or crypto/rand when that is nil ([randCfg]);
    a nil RSA key panics. *)

Inductive Exchange :=
| ExECDHE
| ExECDHESys
| ExDHE (privateX : option bytes)
| ExRSA (pub : bytes)
| ExRSASys (pub : bytes)
| ExVKO2001 (e : VKOGostExchange)
| ExVKO2001Test (e : vkoGost2001TestCurveExchange)
| ExVKO2012 (e : VKOGostExchange)
| ExGost2018 (e : Gost2018Exchange).

Definition NewECDHEExchange : Exchange := ExECDHESys.
Definition NewECDHEExchangeWithRand : Exchange := ExECDHE.
Definition NewDHEExchange (privateX : option bytes) : Exchange := ExDHE privateX.

Definition NewRSAExchange (pub : option bytes) : result Exchange :=
  match pub with None => Crash Panic | Some pub => Ok (ExRSASys pub) end.

Definition NewRSAExchangeWithRand (pub : option bytes) : result Exchange :=
  match pub with None => Crash Panic | Some pub => Ok (ExRSA pub) end.

Definition NewVKOGost2001ExchangeTestCurve (prvRaw pubRaw ukm : bytes) : Exchange :=
  ExVKO2001Test {| tc_prvRaw := prvRaw; tc_pubRaw := pubRaw; tc_ukm := ukm |}.

Definition ClientKeyExchange (e : Exchange) (serverParams : bytes) : M rngs (bytes * bytes) :=
  match e with
  | ExECDHE => ecdheClientKeyExchange serverParams
  | ExECDHESys => ecdheSysClientKeyExchange serverParams
  | ExDHE x => dheClientKeyExchange x serverParams
  | ExRSA pub => rsaClientKeyExchange pub
  | ExRSASys pub => rsaSysClientKeyExchange pub
  | ExVKO2001 e => vko2001ClientKeyExchange e
  | ExVKO2001Test e => lift (vkoTestClientKeyExchange e)
  | ExVKO2012 e => vko2012ClientKeyExchange e
  | ExGost2018 e => gost2018ClientKeyExchange e
  end.

End Exchanges.

(** * Lemmas *)

(** ** Length-prefixed fields *)

Lemma readU16LenPrefixed_put d rest :
  len d < 65536 -> readU16LenPrefixed (bePut 2 (len d) ++ d ++ rest) = Ok (d, rest).
Proof.
  intros Hd. pose proof (len_nonneg d).
  assert (Hv : beUint (bePut 2 (len d)) = len d) by (apply beUint_put_small; lia).
  assert (Hl : exists a b, bePut 2 (len d) = [a; b]) by (eexists _, _; reflexivity).
  destruct Hl as (a & b & E). rewrite E in *. unfold readU16LenPrefixed, dheU16PrefixLen. cbn [app].
  z_if. change (index (a :: b :: d ++ rest) 0) with (Ok (E := error) a).
  change (index (a :: b :: d ++ rest) 1) with (Ok (E := error) b). cbn [bind].
  rewrite lor_shift2, Hv, (slice_app_r [a; b] (d ++ rest)) by len_lia. cbn [bind].
  z_if. rewrite slice_app_l by len_lia. cbn [bind]. now rewrite slice_app_r by len_lia.
Qed.

Lemma readU16LenPrefixed_safe b : safe (readU16LenPrefixed b).
Proof.
  unfold readU16LenPrefixed, dheU16PrefixLen. safe_auto;
    rewrite ?lor_shift2 in *; pose proof (beUint_nonneg [a; a0]); safe_auto.
Qed.
#[export] Hint Resolve readU16LenPrefixed_safe : tls.

Lemma parseDHEServerParams_put p g y :
  len p < 65536 -> len g < 65536 -> len y < 65536 ->
  parseDHEServerParams (bePut 2 (len p) ++ p ++ bePut 2 (len g) ++ g ++ bePut 2 (len y) ++ y)
  = Ok (p, g, y).
Proof.
  intros Hp Hg Hy. unfold parseDHEServerParams. rewrite readU16LenPrefixed_put by done. cbn [bind].
  rewrite readU16LenPrefixed_put by done. cbn [bind].
  rewrite <- (app_nil_r y) at 2. now rewrite readU16LenPrefixed_put by done.
Qed.

Lemma parseDHEServerParams_safe b : safe (parseDHEServerParams b).
Proof. unfold parseDHEServerParams. safe_auto. Qed.
#[export] Hint Resolve parseDHEServerParams_safe : tls.

(** ** Parity of the last byte *)

Lemma land1_mod2 z : Z.land z 1 = z mod 2.
Proof. change 1 with (Z.ones 1). rewrite Z.land_ones by lia. reflexivity. Qed.

Lemma beUint_odd b x : last b = Some x -> Z.odd (beUint b) = negb (Z.land (b2z x) 1 =? 0).
Proof.
  intros H. destruct b as [|y b _] using rev_ind; [done|]. rewrite last_snoc in H.
  injection H as ->. rewrite beUint_app, beUint1, land1_mod2. change (len [x]) with 1.
  rewrite Z.pow_1_r. replace (beUint b * 256) with (2 * (beUint b * 128)) by lia.
  rewrite Z.add_comm, Z.odd_add_mul_2. rewrite Zmod_odd. now destruct (Z.odd (b2z x)).
Qed.

(** What the validation accepts, in numbers. *)
Lemma validateDHEParams_iff p g y :
  validateDHEParams p g y = Ok tt <->
  2048 <= len p * 8 /\ Z.odd (beUint p) = true /\ 2 <= beUint g /\
  1 < beUint y < beUint p - 1.
Proof.
  unfold validateDHEParams, bitsPerByte, dheMinPBits, dheMinG.
  destruct (len p * 8 <? 2048) eqn:E1; z_bool; [split; [done|lia]|].
  rewrite (proj2 (Z.eqb_neq _ 0)) by lia.
  assert (Hl : exists x, last p = Some x).
  { destruct (last p) eqn:E; [eauto|]. apply last_None in E as ->. unfold len in E1. cbn in E1. lia. }
  destruct Hl as [x Hx].
  replace (index (E := error) p (len p - 1)) with (Ok (E := error) x).
  2:{ unfold index. rewrite (proj2 (Z.leb_le _ _)) by lia. rewrite last_lookup in Hx.
      replace (Z.to_nat (len p - 1)) with (pred (length p)) by (unfold len; lia). now rewrite Hx. }
  cbn [bind]. rewrite (beUint_odd p x Hx).
  destruct (Z.land (b2z x) 1 =? 0); cbn [negb]; [split; [done|naive_solver]|].
  destruct (beUint g <? 2) eqn:E2; z_bool; [split; [done|lia]|].
  destruct (beUint y <=? 1) eqn:E3; z_bool; [split; [done|lia]|].
  destruct (beUint p - 1 <=? beUint y) eqn:E4; z_bool; [split; [done|lia]|].
  split; [lia|done].
Qed.

Lemma validateDHEParams_safe p g y : safe (validateDHEParams p g y).
Proof.
  unfold validateDHEParams, bitsPerByte, dheMinPBits, dheMinG. safe_auto.
Qed.
#[export] Hint Resolve validateDHEParams_safe : tls.

(** ** Padding *)

Lemma beUint_replicate0 n b : beUint (replicate n Byte.x00 ++ b) = beUint b.
Proof.
  induction n as [|n IH]; [done|]. cbn [replicate app]. rewrite beUint_cons, IH.
  change (b2z Byte.x00) with 0. lia.
Qed.

Lemma leftPad_spec b n : beUint (leftPad b n) = beUint b /\ len (leftPad b n) = Z.max n (len b).
Proof.
  unfold leftPad. destruct (n <=? len b) eqn:E; z_bool; [split; [done|lia]|].
  split; [apply beUint_replicate0|]. rewrite len_app.
  replace (len (replicate (Z.to_nat (n - len b)) Byte.x00)) with (n - len b); [lia|].
  unfold len at 2. rewrite length_replicate. lia.
Qed.

(** ** The caller's random source

    [same_without_cfg m m']: where no source is configured [m] does what [m']
    does on crypto/rand, and [m'] leaves a configured source alone. *)

Definition noCfg (r : rngs) : rngs := {| rng_cfg := None; rng_sys := rng_sys r |}.

Definition same_without_cfg {A} (m m' : M rngs A) : Prop :=
  forall r, m (noCfg r) = (fst (m' r), noCfg (snd (m' r))) /\ rng_cfg (snd (m' r)) = rng_cfg r.

Lemma same_refl_lift {A} (x : result A) : same_without_cfg (lift x) (lift x).
Proof. now intros r. Qed.

Lemma same_bind {A B} (m m' : M rngs A) (k k' : A -> M rngs B) :
  same_without_cfg m m' -> (forall a, same_without_cfg (k a) (k' a)) ->
  same_without_cfg (bindM m k) (bindM m' k').
Proof.
  intros Hm Hk r. destruct (Hm r) as [E C1]. unfold bindM. rewrite E.
  destruct (m' r) as [[a|e|c] r1]; cbn [fst snd] in *; [|done..].
  destruct (Hk a r1) as [E2 C2]. split; [exact E2|congruence].
Qed.

Lemma same_rand n : same_without_cfg (randCfg n) (randSys n).
Proof. intros r. unfold randCfg, randSys. cbn. now destruct (randRead n (rng_sys r)) as [[]|]. Qed.

Lemma same_draw {A} l (f : tape -> option (A * tape)) : same_without_cfg (drawCfg l f) (drawSys l f).
Proof. intros r. unfold drawCfg, drawSys. cbn. now destruct (f (rng_sys r)) as [[]|]. Qed.

Ltac same_auto :=
  repeat match goal with
  | |- same_without_cfg (bindM _ _) _ => apply same_bind; [|intros ?]
  | |- same_without_cfg (if ?c then _ else _) _ => destruct c
  | |- _ => apply same_refl_lift || apply same_rand || apply same_draw || (now intros ?)
  | |- _ => progress cbv zeta
  end.

Section Lemmas.
Context {C : Primitives} {CL : PrimitiveLaws C} {K : KexLib} {KL : KexLaws K}.

(** The check of the parameters is what keeps [Nat.Exp] from its panic. *)
Lemma modExp_safe b e m : Z.odd (beUint m) = true -> safe (modExp b e m).
Proof.
  intros Ho. unfold modExp. rewrite Ho. destruct (natSetBytes b m); [done|].
  now destruct (natSetOverflowingBytes b m).
Qed.

Lemma randSys_safe n : msafe (randSys n).
Proof. intros r. unfold randSys. now destruct (randRead n (rng_sys r)) as [[]|]. Qed.
Lemma randCfg_safe n : msafe (randCfg n).
Proof.
  intros r. unfold randCfg. destruct (rng_cfg r) as [t|].
  - now destruct (randRead n t) as [[]|].
  - now destruct (randRead n (rng_sys r)) as [[]|].
Qed.
Lemma drawSys_safe {A} l (f : tape -> option (A * tape)) : msafe (drawSys l f).
Proof. intros r. unfold drawSys. now destruct (f (rng_sys r)) as [[]|]. Qed.
Lemma drawCfg_safe {A} l (f : tape -> option (A * tape)) : msafe (drawCfg l f).
Proof. intros r. unfold drawCfg. now destruct (f _) as [[]|]. Qed.
Lemma orLib_safe {A} l (o : option A) : safe (orLib l o).
Proof. now destruct o. Qed.
#[local] Hint Resolve randSys_safe randCfg_safe drawSys_safe drawCfg_safe orLib_safe : tls.

Lemma drawCfg_inv {A} l (f : tape -> option (A * tape)) r a r' :
  drawCfg l f r = (Ok a, r') -> exists t t', f t = Some (a, t').
Proof. unfold drawCfg. destruct (f _) as [[x t]|] eqn:E; [|done]. intros [= -> _]. eauto. Qed.

Lemma drawSys_inv {A} l (f : tape -> option (A * tape)) r a r' :
  drawSys l f r = (Ok a, r') -> exists t t', f t = Some (a, t').
Proof. unfold drawSys. destruct (f _) as [[x t]|] eqn:E; [|done]. intros [= -> _]. eauto. Qed.

Lemma randSys_len n r b r' : 0 <= n -> randSys n r = (Ok b, r') -> len b = n.
Proof.
  intros Hn. unfold randSys. destruct (randRead n (rng_sys r)) as [[b' t]|] eqn:E; [|done].
  intros [= -> _]. now apply randRead_len in E.
Qed.

Lemma randCfg_len n r b r' : 0 <= n -> randCfg n r = (Ok b, r') -> len b = n.
Proof.
  intros Hn. unfold randCfg. destruct (rng_cfg r) as [t|].
  - destruct (randRead n t) as [[b' t']|] eqn:E; [|done]. intros [= -> _]. now apply randRead_len in E.
  - destruct (randRead n (rng_sys r)) as [[b' t']|] eqn:E; [|done]. intros [= -> _].
    now apply randRead_len in E.
Qed.

Lemma dhe_safe x sp : msafe (dheClientKeyExchange x sp).
Proof.
  unfold dheClientKeyExchange. msafe_auto.
  all: match goal with H : validateDHEParams _ _ _ = Ok ?u |- _ =>
         destruct u; apply validateDHEParams_iff in H as (_ & Ho & _) end; now apply modExp_safe.
Qed.

Lemma ecdhe_safe sp : msafe (ecdheClientKeyExchange sp).
Proof.
  unfold ecdheClientKeyExchange, ecdheHeaderLen. msafe_auto; try safe_auto.
  - unfold curveByID. safe_auto.
  - pose proof (b2z_range a3). apply safe_slice; z_bool; lia.
Qed.

Lemma ecdheSys_safe sp : msafe (ecdheSysClientKeyExchange sp).
Proof.
  unfold ecdheSysClientKeyExchange, ecdheHeaderLen. msafe_auto; try safe_auto.
  - unfold curveByID. safe_auto.
  - pose proof (b2z_range a3). apply safe_slice; z_bool; lia.
Qed.

Lemma rsaSys_safe pub : msafe (rsaSysClientKeyExchange pub).
Proof. unfold rsaSysClientKeyExchange. msafe_auto. Qed.

Lemma vkoTest_safe e : safe (vkoTestClientKeyExchange e).
Proof. unfold vkoTestClientKeyExchange. safe_auto. Qed.

Lemma rsa_safe pub : msafe (rsaClientKeyExchange pub).
Proof. unfold rsaClientKeyExchange. msafe_auto. Qed.

Lemma vko2001_safe e : msafe (vko2001ClientKeyExchange e).
Proof.
  unfold vko2001ClientKeyExchange, cryptoProWrapIMITEnd, cryptoProWrapEncKeyOff, cryptoProWrapEncKeyEnd.
  msafe_auto.
Qed.

Lemma vko2012_safe e : msafe (vko2012ClientKeyExchange e).
Proof.
  unfold vko2012ClientKeyExchange, cryptoProWrapIMITEnd, cryptoProWrapEncKeyOff, cryptoProWrapEncKeyEnd.
  msafe_auto.
Qed.

(** The variants [NewGost2018Exchange] lets through. *)
Definition variant_ok (v : Gost2018Variant) : Prop :=
  v = Variant2018Kuznyechik \/ v = Variant2018Magma.

Definition exchange_ok (e : Exchange) : Prop :=
  match e with ExGost2018 g => variant_ok (g18_variant g) | _ => True end.

Lemma variant_spec v :
  variant_ok v ->
  exists c n, kexpVariant v = Ok c /\ ivLen v = Ok n /\ 0 <= n <= 8.
Proof.
  intros [-> | ->]; [exists Kuznyechik, 8|exists Magma, 4]; repeat split; (reflexivity || lia).
Qed.

Lemma NewGost2018Exchange_Ok curve alg pub v rnd g :
  NewGost2018Exchange curve alg pub v rnd = Ok g ->
  variant_ok v /\ exists c, curve = Some c /\
    g = {| g18_curve := c; g18_spkiAlgo := alg; g18_serverPubRaw := pub; g18_variant := v;
           g18_randoms := rnd |} /\
    match rnd with Some r => len r = 64 | None => True end.
Proof.
  unfold NewGost2018Exchange. destruct curve as [c|]; [|done]. intros H. res_inv. split.
  - apply andb_false_iff in C2 as [E|E]; z_bool; [left|right]; assumption.
  - exists c. split; [done|]. split; [done|]. destruct rnd; [|done]. now z_bool.
Qed.

Lemma gost2018_safe e : variant_ok (g18_variant e) -> msafe (gost2018ClientKeyExchange e).
Proof.
  intros Hv. destruct (variant_spec _ Hv) as (bc & n & Ec & En & Hn).
  unfold gost2018ClientKeyExchange, gost2018UKMIVOffset, gost2018UKMLen, gost2018Streebog256Len.
  apply msafe_bind; [msafe_auto|]. intros ukm r r' Hu.
  assert (Hl : len ukm = 32).
  { destruct (_ =? gost2018RandomsLen).
    - destruct (len (digest Streebog256 (default [] (g18_randoms e))) =? 32) eqn:E; [|done].
      z_bool. now injection Hu as <- _.
    - eapply randSys_len; [|exact Hu]. lia. }
  rewrite Ec, En. msafe_auto.
  - match goal with H : Ok n = Ok _ |- _ => injection H as <- end. apply safe_slice; lia.
  - destruct (keg2012 _ _ _ _) eqn:E; [|done]. injection Ha as <-. apply keg2012_len in E.
    apply safe_slice; lia.
Qed.

Lemma ClientKeyExchange_safe e sp : exchange_ok e -> msafe (ClientKeyExchange e sp).
Proof.
  intros He. destruct e; cbn [ClientKeyExchange]; auto using ecdhe_safe, ecdheSys_safe, dhe_safe, rsa_safe,
    rsaSys_safe, vko2001_safe, vko2012_safe, gost2018_safe.
  intros r. apply vkoTest_safe.
Qed.

(** *** ECDHE parameters on the wire *)

Lemma drawCfg_ecdh_len c r priv r' :
  drawCfg LibECDH (ecdhGenerateKey c) r = (Ok priv, r') -> len (ecdhPublicBytes c priv) < 256.
Proof. intros H. apply drawCfg_inv in H as (t & t' & E). now apply ecdhGenerate_valid in E. Qed.

Lemma curveByID_u16 id c : curveByID id = Ok c -> 0 <= id < 65536.
Proof.
  unfold curveByID. repeat (case Z.eqb_spec; [lia|intros _]). discriminate.
Qed.

(** On well-formed parameters the client gets to the library calls. *)
Lemma ecdhe_parsed c id pub r :
  curveByID id = Ok c -> 0 <= id < 65536 -> len pub < 256 ->
  ecdheClientKeyExchange ([z2b 3] ++ bePut 2 id ++ [z2b (len pub)] ++ pub) r
  = (let! serverPub := lift (orLib LibECDH (ecdhNewPublicKey c pub)) in
     let! clientPriv := drawCfg LibECDH (ecdhGenerateKey c) in
     let! preMaster := lift (orLib LibECDH (ecdhShared c clientPriv serverPub)) in
     ret (z2b (len (ecdhPublicBytes c clientPriv)) :: ecdhPublicBytes c clientPriv, preMaster)) r.
Proof.
  intros Hid Hrange Hlen. pose proof (len_nonneg pub).
  unfold ecdheClientKeyExchange, ecdheHeaderLen, ecdheCurveTypeNamed.
  assert (Hb : exists a b, bePut 2 id = [a; b]) by (eexists _, _; reflexivity).
  destruct Hb as (a & b & Eb).
  assert (Hid' : beUint [a; b] = id) by (rewrite <- Eb, beUint_put_small; [done|lia]).
  rewrite Eb. cbn [app]. rewrite (proj2 (Z.ltb_ge _ _)) by (autorewrite with len; lia).
  rewrite (bindM_lift_Ok _ (z2b 3)) by reflexivity.
  change (negb (b2z (z2b 3) =? 3)) with false. cbv iota.
  rewrite (bindM_lift_Ok _ a), (bindM_lift_Ok _ b) by reflexivity. cbv zeta.
  rewrite lor_shift2, Hid', (bindM_lift_Ok _ c) by exact Hid.
  rewrite (bindM_lift_Ok _ (z2b (len pub))) by reflexivity.
  rewrite b2z_small by lia. rewrite (proj2 (Z.ltb_ge _ _)) by (autorewrite with len; lia).
  change (z2b 3 :: a :: b :: z2b (len pub) :: pub) with ([z2b 3; a; b; z2b (len pub)] ++ pub).
  now rewrite (bindM_lift_Ok _ pub) by (apply slice_app_r; autorewrite with len; lia).
Qed.

(** *** Exponentiation *)

Lemma modExp_Ok b e m :
  1 < beUint m -> Z.odd (beUint m) = true -> beUint b < beUint m ->
  exists r, modExp b e m = Ok r /\ beUint r = beUint b ^ beUint e mod beUint m /\ len r <= len m.
Proof.
  intros Hm Ho Hb. unfold modExp. rewrite natSetBytes_small by done. cbn [bind]. rewrite Ho.
  pose proof (beUint_nonneg b). rewrite natExp_spec by (done || lia). cbn [negb].
  assert (0 <= beUint b ^ beUint e mod beUint m < beUint m) by (apply Z.mod_pos_bound; lia).
  eexists; split; [done|]. split; [now apply natBytes_spec|now apply natBytes_len].
Qed.

End Lemmas.

(** ** A concrete instance *)

Module ToyKex.

Definition scalar (b : bytes) : Z := beUint b mod 1000003.
Definition gostPublic (k : bytes) : bytes := bePut 32 (7 * scalar k).

#[export] Instance kex : KexLib := {|
  newModulus m := 1 <? beUint m;
  natSetBytes b m := if beUint b <? beUint m then Some (beUint b) else None;
  natSetOverflowingBytes b m := Some (beUint b mod beUint m);
  natExp v e m := Zpow_facts.Zpow_mod v (beUint e) (beUint m);
  natBytes v m := bePut (length m) v;
  ecdhNewPublicKey c b := Some b;
  ecdhGenerateKey c t := randRead 4 t;
  ecdhPublicBytes c k := bePut 8 (scalar k);
  ecdhShared c k b := Some (bePut 8 (scalar k * beUint b));
  ecdhNewPrivateKey c b := if len b =? 0 then None else Some b;
  rsaEncrypt pub t m := if len m =? 48 then Some (rev m, t) else None;
  gostCurveByOID o := if len o =? 0 then None else Some o;
  gostGenerateEphemeralKey c t :=
    match randRead 32 t with Some (k, t) => Some (k, gostPublic k, t) | None => None end;
  vko2001OnCurve c prv pub ukm := Some (bePut 32 (scalar prv * beUint pub + beUint ukm));
  vko2012OnCurve c prv pub ukm := Some (bePut 32 (scalar prv * beUint pub + beUint ukm + 1));
  vko2001TestCurve prv pub ukm := Some (bePut 32 (beUint prv + beUint ukm));
  publicKeyRawFromPrivate2001Test prv := Some (map (bxor Byte.x55) prv);
  keyWrapCryptoPro s kek ukm pm := Some (ukm ++ xorBytes pm kek ++ bePut 4 (Toy.checksum pm));
  keg2012 c pub prv ukm := Some (bePut 64 (scalar prv * beUint pub + beUint ukm));
  kexp15 c pm ck mk iv := Some (xorBytes pm ck ++ bePut 8 (Toy.checksum (mk ++ iv)))
|}.

#[export] Instance kexLaws : KexLaws kex.
Proof.
  split; intros; cbn -[bePut].
  - now apply Z.ltb_lt.
  - now rewrite (proj2 (Z.ltb_lt _ _)).
  - cbn in H. destruct (beUint b <? beUint m) eqn:E; [|done]. z_bool. now injection H as <-.
  - cbn in H0. now injection H0 as <-.
  - apply Zpow_facts.Zpow_mod_correct; lia.
  - rewrite beUint_bePut. apply Z.mod_small. pose proof (beUint_range m).
    unfold len in *. lia.
  - rewrite len_bePut. unfold len. lia.
  - cbn -[bePut] in H. match type of H with Some ?e = Some ?k => assert (E : k = e) by congruence end.
    rewrite E. apply len_bePut.
  - split; [done|]. rewrite len_bePut. lia.
  - f_equal. rewrite !beUint_put_small; [f_equal; lia|..];
      pose proof (Z.mod_pos_bound (beUint a) 1000003);
      pose proof (Z.mod_pos_bound (beUint b) 1000003); unfold scalar; lia.
Qed.

End ToyKex.

(** * Properties *)

Section Properties.
Context {C : Primitives} {CL : PrimitiveLaws C} {K : KexLib} {KL : KexLaws K}.

(** DHE agreement: when a server sends p, g and Ys = g^y mod p that pass the
    client's validation, the client answers with its public value and derives the
    secret the server derives: the body is Yc padded to the length of p behind a
    two-byte length, and the pre-master secret, padded to the same length, is
    Yc^y mod p. *)
Theorem dhe_agreement p g ys x y r :
  len p < 65536 -> len g < 65536 -> len ys < 65536 ->
  validateDHEParams p g ys = Ok tt -> beUint g < beUint p ->
  beUint ys = beUint g ^ beUint y mod beUint p ->
  exists yc pm,
    dheClientKeyExchange (Some x)
      (bePut 2 (len p) ++ p ++ bePut 2 (len g) ++ g ++ bePut 2 (len ys) ++ ys) r
    = (Ok (bePut 2 (len yc) ++ yc, pm), r) /\
    len yc = len p /\ len pm = len p /\
    beUint yc = beUint g ^ beUint x mod beUint p /\
    beUint pm = beUint yc ^ beUint y mod beUint p.
Proof.
  intros Hp Hg Hys Hv Hgp Hy. pose proof (proj1 (validateDHEParams_iff _ _ _) Hv) as (Hb & Ho & Hg2 & Hr).
  unfold dheClientKeyExchange. unfold bindM at 1. cbn [lift].
  rewrite parseDHEServerParams_put by done.
  unfold bindM at 1. cbn [lift]. rewrite Hv. rewrite newModulus_odd by (done || lia). cbn [negb].
  unfold bindM at 1. cbn [ret].
  destruct (modExp_Ok g x p) as (yc & Hyc & Eyc & Lyc); [done || lia..|].
  destruct (modExp_Ok ys x p) as (z & Hz & Ez & Lz); [done || lia..|].
  unfold bindM at 1. cbn [lift]. rewrite Hyc. unfold bindM at 1. cbn [lift]. rewrite Hz. cbn [ret].
  destruct (leftPad_spec yc (len p)) as [E1 L1]. destruct (leftPad_spec z (len p)) as [E2 L2].
  exists (leftPad yc (len p)), (leftPad z (len p)).
  split; [reflexivity|]. split; [lia|]. split; [lia|]. rewrite E1, E2. split; [done|].
  pose proof (beUint_nonneg x). pose proof (beUint_nonneg y).
  rewrite Ez, Hy, Eyc, <- !Zpower_mod by lia. rewrite <- !Z.pow_mul_r by lia.
  f_equal. f_equal. lia.
Qed.

(** The DHE parameter check accepts exactly: p of at least 256 bytes and odd,
    g at least 2, and Ys strictly between 1 and p - 1; with a fixed private
    exponent every accepted input with g below p gets an answer. *)
Theorem validateDHEParams_spec p g ys :
  validateDHEParams p g ys = Ok tt <->
  2048 <= len p * 8 /\ Z.odd (beUint p) = true /\ 2 <= beUint g /\ 1 < beUint ys < beUint p - 1.
Proof. apply validateDHEParams_iff. Qed.

(** The 2048-bit floor counts bytes on the wire, not bits of the prime: any odd
    modulus, however small, padded with leading zero bytes to 256 bytes passes
    the check together with any g and Ys in range. *)
Theorem dhe_floor_leading_zeros p g ys :
  len p <= 256 -> Z.odd (beUint p) = true -> 2 <= beUint g -> 1 < beUint ys < beUint p - 1 ->
  validateDHEParams (replicate (256 - length p) Byte.x00 ++ p) g ys = Ok tt.
Proof.
  intros Hl Ho Hg Hy. apply validateDHEParams_iff. rewrite beUint_replicate0.
  split; [|done]. rewrite len_app.
  unfold len in *. rewrite length_replicate. lia.
Qed.

(** ECDHE agreement: for a server key on one of the four named curves, a client
    that can draw a key and compute the shared secret answers with its public key
    behind a one-byte length that is exact, and the server's private key with that
    public key gives the client's pre-master secret. *)
Theorem ecdhe_agreement c id spriv t0 t1 r cpriv r' pm :
  curveByID id = Ok c -> ecdhGenerateKey c t0 = Some (spriv, t1) ->
  drawCfg LibECDH (ecdhGenerateKey c) r = (Ok cpriv, r') ->
  ecdhShared c cpriv (ecdhPublicBytes c spriv) = Some pm ->
  exists cpub,
    ecdheClientKeyExchange
      ([z2b 3] ++ bePut 2 id ++ [z2b (len (ecdhPublicBytes c spriv))] ++ ecdhPublicBytes c spriv) r
    = (Ok (z2b (len cpub) :: cpub, pm), r') /\
    len cpub < 256 /\ ecdhShared c spriv cpub = Some pm.
Proof.
  intros Hid Hgen Hdraw Hsh. exists (ecdhPublicBytes c cpriv).
  split; [|split; [now apply (drawCfg_ecdh_len _ r _ r')|rewrite <- Hsh; apply ecdh_commutes]].
  destruct (ecdhGenerate_valid _ _ _ _ Hgen) as [Hnew Hlen].
  rewrite (ecdhe_parsed c) by eauto using curveByID_u16.
  rewrite (bindM_lift_Ok _ (ecdhPublicBytes c spriv)) by now rewrite Hnew.
  unfold bindM at 1. rewrite Hdraw. now rewrite (bindM_lift_Ok _ pm) by now rewrite Hsh.
Qed.

(** The exchanges that read a caller's random source are the exchanges of
    ecdhe.go and rsa.go when no source is given: same message, same pre-master
    secret, same errors and same bytes taken from crypto/rand; a configured source
    is left untouched by the latter. *)
Theorem rand_inject_equiv sp pub :
  same_without_cfg (ecdheClientKeyExchange sp) (ecdheSysClientKeyExchange sp) /\
  same_without_cfg (rsaClientKeyExchange pub) (rsaSysClientKeyExchange pub).
Proof.
  split; [unfold ecdheClientKeyExchange, ecdheSysClientKeyExchange
         |unfold rsaClientKeyExchange, rsaSysClientKeyExchange]; same_auto.
Qed.

(** No server message makes a key exchange panic: every implementation of
    [Exchange], on any server parameters and any randomness, returns a result or
    an error, as long as a GOST 2018 exchange has one of the two variants, which
    its constructor checks. *)
Theorem ClientKeyExchange_total e sp r :
  exchange_ok e ->
  (exists out, fst (ClientKeyExchange e sp r) = Ok out) \/
  (exists err, fst (ClientKeyExchange e sp r) = Err err).
Proof.
  intros He. pose proof (ClientKeyExchange_safe e sp He r) as H. destruct (fst (ClientKeyExchange e sp r)); eauto.
  contradiction.
Qed.

End Properties.

(** ** Witnesses *)

#[local] Existing Instance Toy.prims.
#[local] Existing Instance Toy.laws.
#[local] Existing Instance ToyKex.kex.
#[local] Existing Instance ToyKex.kexLaws.

Definition p23 : bytes := replicate 255 Byte.x00 ++ [Byte.x17].

Lemma dhe_agreement_witness :
  exists yc pm,
    dheClientKeyExchange (Some [Byte.x06])
      (bePut 2 (len p23) ++ p23 ++ bePut 2 1 ++ [Byte.x05] ++ bePut 2 1 ++ [Byte.x0a])
      {| rng_cfg := None; rng_sys := [] |}
    = (Ok (bePut 2 (len yc) ++ yc, pm), {| rng_cfg := None; rng_sys := [] |}) /\
    beUint pm = beUint yc ^ 3 mod 23.
Proof.
  destruct (dhe_agreement p23 [Byte.x05] [Byte.x0a] [Byte.x06] [Byte.x03]
    {| rng_cfg := None; rng_sys := [] |}) as (yc & pm & H & _ & _ & _ & E);
    [vm_compute; reflexivity..|].
  exists yc, pm. split; [exact H|exact E].
Defined.

Lemma dhe_floor_leading_zeros_witness :
  validateDHEParams (replicate (256 - length [Byte.x17]) Byte.x00 ++ [Byte.x17]) [Byte.x05] [Byte.x08]
  = Ok tt.
Proof.
  apply dhe_floor_leading_zeros; vm_compute; repeat split; congruence.
Defined.

Lemma ecdhe_agreement_witness :
  exists cpub pm,
    ecdheClientKeyExchange
      ([z2b 3] ++ bePut 2 29 ++ [z2b (len (ecdhPublicBytes X25519 (map z2b [1; 2; 3; 4])))]
       ++ ecdhPublicBytes X25519 (map z2b [1; 2; 3; 4]))
      {| rng_cfg := None; rng_sys := map z2b [9; 8; 7; 6; 5] |}
    = (Ok (z2b (len cpub) :: cpub, pm), {| rng_cfg := None; rng_sys := map z2b [5] |}) /\
    len cpub < 256 /\ ecdhShared X25519 (map z2b [1; 2; 3; 4]) cpub = Some pm.
Proof.
  destruct (ecdhe_agreement X25519 29 (map z2b [1; 2; 3; 4]) (map z2b [1; 2; 3; 4]) []
    {| rng_cfg := None; rng_sys := map z2b [9; 8; 7; 6; 5] |} (map z2b [9; 8; 7; 6])
    {| rng_cfg := None; rng_sys := map z2b [5] |}
    (bePut 8 (ToyKex.scalar (map z2b [9; 8; 7; 6]) * ToyKex.scalar (map z2b [1; 2; 3; 4]))))
    as (cpub & H); [vm_compute; reflexivity..|].
  now exists cpub, (bePut 8 (ToyKex.scalar (map z2b [9; 8; 7; 6]) * ToyKex.scalar (map z2b [1; 2; 3; 4]))).
Defined.
