(* ===== verification/KexServer.v ===== *)
(** * The server's side of the key exchanges

    What the peer of [internal/ke] does with the ClientKeyExchange it gets: a
    reference for the agreement of the two sides.  The receivers follow RFC 5246
    (section 8.1.1 for RSA), RFC 8422 and, for the GOST suites, the receivers of
    [gost_keytransport_roundtrip_test.go] and [covgap_review_test.go], which read the
    envelopes with the client's own structs.  The DHE receiver pads the secret to the
    length of the prime, as this client does; RFC 5246 section 8.1.2 strips it, and
    [dhe_rfc_secret] says how the two relate. *)

From Stdlib Require Import ZArith Lia Zpow_facts.
From stdpp Require Import base list strings.
From S2P Require Import Prelude Errors Asn1 KeyTransport Primitives State KeyExchange.

Open Scope Z_scope.

(** ** What other packages provide to a server *)

Class ServerLib := {
  (* gostcrypto: PublicKeyRawFromPrivate, the inverse of the CryptoPro key wrap on
     UKM, encrypted key and MAC, and kimp15 *)
  gostPublicKeyRaw : bytes -> bytes -> option bytes;
  keyUnwrapCryptoPro : Sbox -> bytes -> bytes -> option bytes;
  kimp15 : BlockCipher -> bytes -> bytes -> bytes -> bytes -> option bytes;
  (* crypto/rsa: the public half of a key, its size in bytes, DecryptPKCS1v15 *)
  rsaPublic : bytes -> bytes;
  rsaSize : bytes -> Z;
  rsaDecrypt : bytes -> bytes -> option bytes
}.

(** Documented behaviour: a key agreement gives both sides the same value, a wrapped
    key unwraps, a ciphertext decrypts. *)
Class ServerLaws {K : KexLib} (L : ServerLib) : Prop := {
  generated_public c t prv pub t' :
    gostGenerateEphemeralKey c t = Some (prv, pub, t') -> gostPublicKeyRaw c prv = Some pub;
  vko2001_symmetric c a pa b pb ukm :
    gostPublicKeyRaw c a = Some pa -> gostPublicKeyRaw c b = Some pb ->
    vko2001OnCurve c a pb ukm = vko2001OnCurve c b pa ukm;
  vko2012_symmetric c a pa b pb ukm :
    gostPublicKeyRaw c a = Some pa -> gostPublicKeyRaw c b = Some pb ->
    vko2012OnCurve c a pb ukm = vko2012OnCurve c b pa ukm;
  keg2012_symmetric c a pa b pb ukm :
    gostPublicKeyRaw c a = Some pa -> gostPublicKeyRaw c b = Some pb ->
    keg2012 c pb a ukm = keg2012 c pa b ukm;
  keyWrap_layout s kek ukm k w :
    len kek = 32 -> len ukm = 8 -> len k = 32 -> keyWrapCryptoPro s kek ukm k = Some w ->
    len w = 44 /\ take 8 w = ukm;
  keyWrap_unwraps s kek ukm k w :
    len kek = 32 -> len ukm = 8 -> len k = 32 -> keyWrapCryptoPro s kek ukm k = Some w ->
    keyUnwrapCryptoPro s kek w = Some k;
  kexp15_imports c k ck mk iv w :
    len k = 32 -> len ck = 32 -> kexp15 c k ck mk iv = Some w -> kimp15 c w ck mk iv = Some k;
  rsa_decrypts d t m c t' :
    rsaEncrypt (rsaPublic d) t m = Some (c, t') -> rsaDecrypt d c = Some m;
  rsaEncrypt_len pub t m c t' : rsaEncrypt pub t m = Some (c, t') -> len c = rsaSize pub
}.

(** ** The server *)

(** Its secret, with what goes with it. *)
Inductive serverKey :=
| SKECDHE (c : ecCurve) (id : Z) (priv : bytes)
| SKDHE (p g y : bytes)
| SKRSA (priv : bytes)
| SKGost2001 (curve priv : bytes)
| SKGost2012 (curve priv : bytes)
| SKGost2018 (curve priv : bytes) (v : Gost2018Variant).

Section Server.
Context {C : Primitives} {K : KexLib} {L : ServerLib}.

(** The parameters of its ServerKeyExchange; [Ys] may have leading zeros. *)
Definition sends_params (k : serverKey) (params : bytes) : Prop :=
  match k with
  | SKECDHE c id priv =>
      curveByID id = Ok c /\ (exists t t', ecdhGenerateKey c t = Some (priv, t')) /\
      params = [z2b 3] ++ bePut 2 id ++ [z2b (len (ecdhPublicBytes c priv))] ++ ecdhPublicBytes c priv
  | SKDHE p g y =>
      exists ys, len p < 65536 /\ len g < 65536 /\ len ys < 65536 /\
        beUint ys = beUint g ^ beUint y mod beUint p /\
        params = bePut 2 (len p) ++ p ++ bePut 2 (len g) ++ g ++ bePut 2 (len ys) ++ ys
  | _ => True
  end.

(** The public key in its certificate, and the curve it names. *)
Definition rsa_certified (k : serverKey) (pub : bytes) : Prop :=
  exists d, k = SKRSA d /\ rsaPublic d = pub /\ rsaSize pub < 65536.

Definition gost_certified (k : serverKey) (curve pub : bytes) : Prop :=
  match k with
  | SKGost2001 c priv | SKGost2012 c priv | SKGost2018 c priv _ =>
      c = curve /\ gostPublicKeyRaw c priv = Some pub
  | _ => False
  end.

Definition serverECDHE (c : ecCurve) (priv body : bytes) : result bytes :=
  let* n := index body 0 in
  let* pub := slice body 1 (len body) in
  if negb (b2z n =? len pub) then Err (ELib LibECDH)
  else
    let* pub := orLib LibECDH (ecdhNewPublicKey c pub) in
    orLib LibECDH (ecdhShared c priv pub).

Definition serverDHE (p y body : bytes) : result bytes :=
  let* (yc, rest) := readU16LenPrefixed body in
  if negb (len rest =? 0) then Err errDHETrailingBytes
  else Ok (bePut (length p) (beUint yc ^ beUint y mod beUint p)).

Definition serverRSA (priv body : bytes) : result bytes :=
  let* (c, rest) := readU16LenPrefixed body in
  if negb (len rest =? 0) then Err (ELib LibRSA) else orLib LibRSA (rsaDecrypt priv c).

(** The ephemeral key of a public key information. *)
Definition ephemeralKey (s : keSPKI) : result bytes :=
  let* (pub, rest) := parseOctetString (SubjectPublicKey s) in
  if negb (len rest =? 0) then Err (ELib LibASN1) else Ok pub.

(** The [0] field is the content of a public key information. *)
Definition serverVKO (vko : bytes -> bytes -> bytes -> bytes -> option bytes) (sbox : Sbox)
  (oid : list Z) (curve priv body : bytes) : result bytes :=
  let* (params, rest) := unmarshalParams body in
  if negb (len rest =? 0) then Err (ELib LibASN1)
  else
    let info := KeyInfo (GKT params) in
    let agreement := KeyAgreementInfo (GKT params) in
    if negb (bool_decide (kai_Cipher agreement = oid)) then Err (ELib LibKeyWrap)
    else
      let* spki := spkiFields (rv_bytes (EphemKey agreement)) in
      let* pub := ephemeralKey spki in
      let* kek := orLib LibVKO (vko curve priv pub (EphIV agreement)) in
      orLib LibKeyWrap
        (keyUnwrapCryptoPro sbox kek (EphIV agreement ++ EncryptedKey info ++ IMIT info)).

(** The UKM is the server's own, not the one of the message. *)
Definition serverGost2018 (curve priv : bytes) (v : Gost2018Variant) (randoms body : bytes)
  : result bytes :=
  let* (pkt, rest) := unmarshalPS body in
  if negb (len rest =? 0) then Err (ELib LibASN1)
  else
    let ukm := digest Streebog256 randoms in
    let* pub := ephemeralKey (ps_EphemKey pkt) in
    let* expkeys := orLib LibKEG (keg2012 curve pub priv ukm) in
    let* n := ivLen v in
    let* iv := slice ukm 24 (24 + n) in
    let* cipher := kexpVariant v in
    let* cipherKey := slice expkeys 32 (len expkeys) in
    let* macKey := slice expkeys 0 32 in
    orLib LibKexp15 (kimp15 cipher (PsExp pkt) cipherKey macKey iv).

(** The pre-master secret the server takes from the body of a ClientKeyExchange. *)
Definition serverPreMaster (k : serverKey) (clientRandom serverRandom body : bytes) : result bytes :=
  match k with
  | SKECDHE c _ priv => serverECDHE c priv body
  | SKDHE p _ y => serverDHE p y body
  | SKRSA priv => serverRSA priv body
  | SKGost2001 curve priv =>
      serverVKO vko2001OnCurve SboxCryptoProA oidGost28147CryptoProA curve priv body
  | SKGost2012 curve priv =>
      serverVKO vko2012OnCurve SboxTC26Z oidTc26Gost28147ParamZ curve priv body
  | SKGost2018 curve priv v => serverGost2018 curve priv v (clientRandom ++ serverRandom) body
  end.

(** [e] is an exchange of a client that talks to the holder of [k]. *)
Definition paired (e : Exchange) (k : serverKey) (clientRandom serverRandom params : bytes) : Prop :=
  sends_params k params /\
  match e, k with
  | (ExECDHE | ExECDHESys), SKECDHE _ _ _ => True
  | ExDHE _, SKDHE _ _ _ => True
  | (ExRSA pub | ExRSASys pub), SKRSA _ => rsa_certified k pub
  | ExVKO2001 v, SKGost2001 _ _ | ExVKO2012 v, SKGost2012 _ _ =>
      gost_certified k (vko_curve v) (vko_pubRaw v) /\ len (vko_ukm v) = 8 /\
      gostPublicKeyRaw (vko_curve v) (vko_prvRaw v) = Some (vko_ephemPubRaw v)
  | ExGost2018 g, SKGost2018 _ _ v =>
      gost_certified k (g18_curve g) (g18_serverPubRaw g) /\ v = g18_variant g /\ variant_ok v /\
      g18_randoms g = Some (clientRandom ++ serverRandom) /\ len (clientRandom ++ serverRandom) = 64
  | _, _ => False
  end.

End Server.

(** * Lemmas *)

Section Lemmas.
Context {C : Primitives} {CL : PrimitiveLaws C} {K : KexLib} {KL : KexLaws K}
  {L : ServerLib} {SL : ServerLaws L}.

(** *** ECDHE *)

Lemma ecdhe_recovers c id priv params r cke pm r' :
  sends_params (SKECDHE c id priv) params ->
  ecdheClientKeyExchange params r = (Ok (cke, pm), r') -> serverECDHE c priv cke = Ok pm.
Proof.
  intros (Hid & (t & t' & Hgen) & ->) H. destruct (ecdhGenerate_valid _ _ _ _ Hgen) as [Hnew Hlen].
  rewrite (ecdhe_parsed c), (bindM_lift_Ok _ (ecdhPublicBytes c priv)) in H
    by (eauto using curveByID_u16 || now rewrite Hnew).
  apply bindM_Ok in H as (v0 & s & Hr & H).
  apply drawCfg_inv in Hr as (t1 & t2 & Hc). destruct (ecdhGenerate_valid _ _ _ _ Hc) as [Hnew' Hlen'].
  destruct (ecdhShared c v0 _) as [sh|] eqn:Es; [|done]. cbn in H. injection H as <- -> _.
  unfold serverECDHE. set (pub := ecdhPublicBytes c v0) in *. cbn [index].
  change (index (z2b (len pub) :: pub) 0) with (Ok (E := error) (z2b (len pub))). cbn [bind].
  change (z2b (len pub) :: pub) with ([z2b (len pub)] ++ pub).
  rewrite slice_app_r by len_lia. cbn [bind]. pose proof (len_nonneg pub).
  rewrite b2z_small, Z.eqb_refl by lia. cbn [negb]. rewrite Hnew'. cbn [orLib bind].
  unfold pub. now rewrite ecdh_commutes, Es.
Qed.

Lemma ecdheSys_cfg params r cke pm r' :
  ecdheSysClientKeyExchange params r = (Ok (cke, pm), r') ->
  exists r1, ecdheClientKeyExchange params (noCfg r) = (Ok (cke, pm), r1).
Proof.
  intros H. destruct (rand_inject_equiv params []) as [Hs _]. destruct (Hs r) as [E _].
  rewrite H in E. eauto.
Qed.

(** *** DHE *)

Lemma modExp_inv b e m r :
  1 < beUint m -> modExp b e m = Ok r ->
  beUint r = beUint b ^ beUint e mod beUint m /\ len r <= len m.
Proof.
  intros Hm H. unfold modExp in H. apply bind_Ok in H as (v & Hv & H).
  destruct (Z.odd (beUint m)) eqn:Ho; [|done]. cbn [negb] in H. injection H as <-.
  assert (Hr : v mod beUint m = beUint b mod beUint m /\ 0 <= v < beUint m).
  { pose proof (beUint_nonneg b). destruct (natSetBytes b m) as [w|] eqn:E.
    - injection Hv as <-. apply natSetBytes_range in E as [-> E]. split; [done|lia].
    - destruct (natSetOverflowingBytes b m) as [w|] eqn:E'; [|done]. injection Hv as <-.
      apply natSetOverflowingBytes_spec in E' as ->; [|done].
      split; [apply Z.mod_mod; lia|apply Z.mod_pos_bound; lia]. }
  destruct Hr as [Ev Hr]. pose proof (beUint_nonneg e). rewrite natExp_spec by (done || lia).
  assert (Hx : v ^ beUint e mod beUint m = beUint b ^ beUint e mod beUint m).
  { rewrite Zpower_mod, Ev, <- Zpower_mod by lia. reflexivity. }
  rewrite Hx. assert (0 <= beUint b ^ beUint e mod beUint m < beUint m) by (apply Z.mod_pos_bound; lia).
  split; [now apply natBytes_spec|now apply natBytes_len].
Qed.

(** A padded number is the big-endian bytes of its value. *)
Lemma leftPad_bePut b n :
  len b <= n -> leftPad b n = bePut (Z.to_nat n) (beUint b).
Proof.
  intros Hb. destruct (leftPad_spec b n) as [E Hl]. rewrite <- E.
  rewrite <- (bePut_beUint (leftPad b n)) at 1. f_equal.
  pose proof (len_nonneg b). unfold len in *. lia.
Qed.

(** A run that succeeds: the parameters passed the check, and the two powers are
    those of one exponent. *)
Lemma dhe_run p g y x params r cke pm r' :
  sends_params (SKDHE p g y) params ->
  dheClientKeyExchange x params r = (Ok (cke, pm), r') ->
  exists ys xb yc z,
    len p < 65536 /\ 1 < beUint p /\ beUint ys = beUint g ^ beUint y mod beUint p /\
    modExp g xb p = Ok yc /\ modExp ys xb p = Ok z /\
    cke = bePut 2 (len (leftPad yc (len p))) ++ leftPad yc (len p) /\ pm = leftPad z (len p).
Proof.
  intros (ys & Hp & Hg & Hys & Ey & ->) H. unfold dheClientKeyExchange in H.
  apply bindM_Ok in H as ([[p' g'] ys'] & s1 & Hp1 & H). unfold lift in Hp1.
  rewrite parseDHEServerParams_put in Hp1 by done. injection Hp1 as <- <- <- <-.
  apply bindM_Ok in H as ([] & s2 & Hv & H). unfold lift in Hv. injection Hv as Hv <-.
  apply validateDHEParams_iff in Hv as (Hb & Ho & Hg2 & Hr).
  destruct (newModulus p); [|done]. cbn [negb] in H.
  apply bindM_Ok in H as (xb & s3 & _ & H). run_inv.
  exists ys, xb, v, v0. split_and!; (done || lia).
Qed.

Lemma dhe_recovers p g y x params r cke pm r' :
  sends_params (SKDHE p g y) params ->
  dheClientKeyExchange x params r = (Ok (cke, pm), r') -> serverDHE p y cke = Ok pm.
Proof.
  intros Hs H. destruct (dhe_run _ _ _ _ _ _ _ _ _ Hs H) as (ys & xb & yc & z & Hp & Hp1 & Ey & Hr0 & Hr1 & -> & ->).
  apply modExp_inv in Hr0 as [Eyc Lyc]; [|lia]. apply modExp_inv in Hr1 as [Ez Lz]; [|lia].
  rewrite !(leftPad_bePut _ (len p)) by done. rewrite to_nat_len.
  pose proof (beUint_range p). pose proof (len_nonneg p).
  assert (Hm : forall w, 0 <= w mod beUint p < 256 ^ Z.of_nat (length p)).
  { intros w. pose proof (Z.mod_pos_bound w (beUint p)). unfold len in *. lia. }
  unfold serverDHE. set (yp := bePut (length p) (beUint yc)).
  assert (Lc : len yp = len p) by apply len_bePut.
  rewrite <- (app_nil_r (bePut 2 (len yp) ++ yp)), <- app_assoc, readU16LenPrefixed_put by lia. cbn [bind].
  change (negb (len [] =? 0)) with false. cbv iota. f_equal. f_equal.
  unfold yp. rewrite beUint_put_small by (rewrite Eyc; apply Hm).
  pose proof (beUint_nonneg xb). pose proof (beUint_nonneg y).
  rewrite Eyc, Ez, Ey, <- !Zpower_mod by lia. rewrite <- !Z.pow_mul_r by lia. f_equal. f_equal. lia.
Qed.

(** The secret as RFC 5246 section 8.1.2 has it: without leading zero bytes. *)
Definition rfc5246Secret (p y yc : bytes) : bytes :=
  map z2b (digits 256 (length p) (beUint yc ^ beUint y mod beUint p)).

Lemma beUint_digits l : digit_list 256 l -> beUint (map z2b l) = undigits 256 0 l.
Proof.
  induction l as [|d l IH] using rev_ind; [done|]. intros Hl. apply digit_list_snoc in Hl as [Hl Hd].
  rewrite map_app, beUint_app, undigits_snoc, IH by done. change (map z2b [d]) with [z2b d].
  rewrite beUint1, b2z_small by done. change (len [z2b d]) with 1. lia.
Qed.

Lemma bePut_padded n v :
  0 <= v < 256 ^ Z.of_nat n -> bePut n v = leftPad (map z2b (digits 256 n v)) (Z.of_nat n).
Proof.
  intros Hv. pose proof (digits_length 256 n v).
  rewrite leftPad_bePut by (rewrite len_map; unfold len; lia). rewrite Nat2Z.id. f_equal.
  rewrite beUint_digits, undigits_digits by (lia || now apply digits_list). reflexivity.
Qed.

(** *** RSA *)

Lemma rsa_recovers d pub r cke pm r' :
  rsa_certified (SKRSA d) pub -> rsaClientKeyExchange pub r = (Ok (cke, pm), r') ->
  serverRSA d cke = Ok pm.
Proof.
  intros (d' & Hd & <- & Hsz) Hk. injection Hd as <-. unfold rsaClientKeyExchange in Hk. run_inv.
  apply drawCfg_inv in Hr0 as (t & t' & E).
  pose proof (rsaEncrypt_len _ _ _ _ _ E) as Hl. pose proof (len_nonneg v0).
  match goal with |- serverRSA d ?b = _ => change b with (bePut 2 (u16 (len v0)) ++ v0) end.
  unfold serverRSA, u16. rewrite Z.mod_small by (change (2 ^ 16) with 65536; lia).
  rewrite <- (app_nil_r (bePut 2 (len v0) ++ v0)), <- app_assoc, readU16LenPrefixed_put by lia. cbn [bind].
  change (negb (len [] =? 0)) with false. cbv iota. now rewrite (rsa_decrypts _ _ _ _ _ E).
Qed.

Lemma rsaSys_cfg pub r cke pm r' :
  rsaSysClientKeyExchange pub r = (Ok (cke, pm), r') ->
  exists r1, rsaClientKeyExchange pub (noCfg r) = (Ok (cke, pm), r1).
Proof.
  intros H. destruct (rand_inject_equiv [] pub) as [_ Hs]. destruct (Hs r) as [E _].
  rewrite H in E. eauto.
Qed.

(** *** The GOST envelopes

    The two VKO exchanges are one, in the agreement, the S-box and its identifier. *)

Definition vkoExchange (vko : bytes -> bytes -> bytes -> bytes -> option bytes) (sbox : Sbox)
  (oid : list Z) (e : VKOGostExchange) : M rngs (bytes * bytes) :=
  let! preMaster := randSys vkoPreMasterLen in
  let! kek := lift (orLib LibVKO (vko (vko_curve e) (vko_prvRaw e) (vko_pubRaw e) (vko_ukm e))) in
  if negb (len kek =? vkoKEKLen) then fail errVKO2001BadKEKLen
  else
    let! wrapped := lift (orLib LibKeyWrap (keyWrapCryptoPro sbox kek (vko_ukm e) preMaster)) in
    if len wrapped <? cryptoProWrapIMITEnd then fail errVKO2001BadKEKLen
    else
      let! ek := lift (slice wrapped cryptoProWrapEncKeyOff cryptoProWrapEncKeyEnd) in
      let! im := lift (slice wrapped cryptoProWrapEncKeyEnd cryptoProWrapIMITEnd) in
      let! cke := lift (marshalGOSTKeyTransport (vko_spkiAlgo e) (vko_ephemPubRaw e) ek im oid
                          (vko_ukm e)) in
      ret (cke, preMaster).

Lemma vko2001_eq e :
  vko2001ClientKeyExchange e = vkoExchange vko2001OnCurve SboxCryptoProA oidGost28147CryptoProA e.
Proof. reflexivity. Qed.

Lemma vko2012_eq e :
  vko2012ClientKeyExchange e = vkoExchange vko2012OnCurve SboxTC26Z oidTc26Gost28147ParamZ e.
Proof. reflexivity. Qed.

(** A wrapped key is the UKM, the encrypted key and the MAC the client cuts out. *)
Lemma wrapped_parts (w ukm ek im : bytes) :
  len w = 44 -> take 8 w = ukm -> slice (E := error) w 8 40 = Ok ek -> slice (E := error) w 40 44 = Ok im ->
  ukm ++ ek ++ im = w.
Proof.
  intros Hw <- He Hi. apply slice_Ok in He as (_ & _ & _ & _ & ->), Hi as (_ & _ & _ & _ & ->).
  change (Z.to_nat (40 - 8)) with 32%nat. change (Z.to_nat (44 - 40)) with 4%nat.
  change (Z.to_nat 8) with 8%nat. change (Z.to_nat 40) with 40%nat.
  rewrite (take_ge (drop 40 w)) by (rewrite length_drop; unfold len in Hw; lia).
  assert (E : take 32 (drop 8 w) ++ drop 40 w = drop 8 w).
  { replace (drop 40 w) with (drop 32 (drop 8 w)) by (now rewrite drop_drop). apply take_drop. }
  rewrite E. apply take_drop.
Qed.

(** What the receiver reads from the envelope. *)
Lemma envelope_reads spkiAlgo pub ek imit oid iv cke :
  oid_ok oid -> marshalGOSTKeyTransport spkiAlgo pub ek imit oid iv = Ok cke -> len cke < 2 ^ 31 ->
  exists c spki,
    unmarshalParams cke
    = Ok ({| GKT := {|
        KeyInfo := {| EncryptedKey := ek; IMIT := imit |};
        KeyAgreementInfo := {|
          kai_Cipher := oid;
          EphemKey := {| rv_class := 2; rv_tag := 0; rv_isCompound := true; rv_bytes := c;
                         rv_full := derTLV tagContext0 c |};
          EphIV := iv |} |} |}, []) /\
    spkiFields c = Ok spki /\ ephemeralKey spki = Ok pub.
Proof.
  intros Hoid Hm Hn. pose proof Hm as Hm'. unfold marshalGOSTKeyTransport in Hm.
  apply bind_Ok in Hm as ([algID rest] & Ha & _).
  destruct (unmarshal_marshal_alg _ _ _ Ha) as [Hok [enc He]].
  set (spki := {| spki_Algorithm := algID; SubjectPublicKey := marshalBytes pub |}).
  assert (Hc : spkiContent spki = Ok (enc ++ marshalBitString (marshalBytes pub))).
  { unfold spkiContent, spki. cbn [spki_Algorithm]. now rewrite He. }
  destruct (marshalOID_ok oid Hoid) as [o Ho]. set (c := enc ++ marshalBitString (marshalBytes pub)) in *.
  rewrite (marshalGOSTKeyTransport_eq _ _ _ _ _ _ _ _ _ _ Ha Hc Ho) in Hm'.
  apply (f_equal (fun r => match r with Ok b => b | _ => [] end)) in Hm'. cbv beta iota in Hm'. subst cke.
  assert (Hl : len c < 2 ^ 31 /\ len pub < 2 ^ 31).
  { assert (len pub <= len c) by (unfold c, marshalBitString, marshalBytes; der_pose; len_lia).
    clearbody c. der_pose. rewrite ?len_app in *. len_pose. lia. }
  exists c, spki. split; [|split].
  - rewrite <- (app_nil_r (derTLV tagSequence (derTLV _ _))). now apply (unmarshalParams_put ek imit oid o c iv []).
  - pose proof (spkiFields_put spki c [] Hok Hc (proj1 Hl)) as Hf. now rewrite app_nil_r in Hf.
  - unfold ephemeralKey, spki, marshalBytes, parseOctetString. cbn [SubjectPublicKey].
    rewrite <- (app_nil_r (derTLV tagOctetString pub)). now rewrite (parseField_put 0 4 false) by lia.
Qed.

Lemma vko_recovers vko sbox oid curve priv e r cke pm r' :
  oid_ok oid -> len (vko_ukm e) = 8 -> len cke < 2 ^ 31 ->
  vko (vko_curve e) (vko_prvRaw e) (vko_pubRaw e) (vko_ukm e)
  = vko curve priv (vko_ephemPubRaw e) (vko_ukm e) ->
  vkoExchange vko sbox oid e r = (Ok (cke, pm), r') ->
  serverVKO vko sbox oid curve priv cke = Ok pm.
Proof.
  intros Hoid Hu Hn Hvko H. unfold vkoExchange, vkoPreMasterLen, vkoKEKLen in H.
  apply bindM_Ok in H as (pm' & s1 & Hpm & H). apply randSys_len in Hpm as Lpm; [|lia].
  apply bindM_Ok in H as (kek & s2 & Hk & H). unfold lift in Hk. injection Hk as Hk <-.
  destruct (len kek =? 32) eqn:Lk; [|done]. cbn [negb] in H. z_bool.
  apply bindM_Ok in H as (w & s3 & Hw & H). unfold lift in Hw. injection Hw as Hw <-.
  destruct (_ <? _) eqn:Lw in H; [done|].
  apply bindM_Ok in H as (ek & s4 & He & H). unfold lift in He. injection He as He <-.
  apply bindM_Ok in H as (im & s5 & Hi & H). unfold lift in Hi. injection Hi as Hi <-.
  apply bindM_Ok in H as (body & s6 & Hb & H). unfold lift in Hb. injection Hb as Hb <-.
  cbn in H. injection H as -> -> _.
  destruct (keyWrapCryptoPro sbox kek (vko_ukm e) pm) as [w'|] eqn:Ew; [|done].
  cbn [orLib] in Hw. injection Hw as ->.
  destruct (keyWrap_layout _ _ _ _ _ Lk Hu Lpm Ew) as [Lw' Tw].
  pose proof (wrapped_parts w (vko_ukm e) ek im Lw' Tw He Hi) as Hparts.
  destruct (envelope_reads _ _ _ _ _ _ _ Hoid Hb Hn) as (c & spki & Hp & Hs & Hkey).
  unfold serverVKO. rewrite Hp. cbn [bind]. change (negb (len [] =? 0)) with false.
  cbv iota zeta. cbn [GKT KeyInfo KeyAgreementInfo kai_Cipher EphemKey rv_bytes EphIV EncryptedKey IMIT].
  rewrite bool_decide_eq_true_2 by done. cbn [negb]. rewrite Hs. cbn [bind]. rewrite Hkey. cbn [bind].
  rewrite <- Hvko, Hk. cbn [bind]. now rewrite Hparts, (keyWrap_unwraps _ _ _ _ _ Lk Hu Lpm Ew).
Qed.

(** *** GOST 2018 *)

Lemma ps_reads psexp alg pub ukm cke :
  marshalPSKeyTransport psexp alg pub ukm = Ok cke -> len cke < 2 ^ 31 ->
  exists spki, unmarshalPS cke = Ok ({| PsExp := psexp; ps_EphemKey := spki; UKM := ukm |}, []) /\
    ephemeralKey spki = Ok pub.
Proof.
  unfold marshalPSKeyTransport. intros H Hn. apply bind_Ok in H as ([algID rest] & Ha & H).
  apply unmarshal_marshal_alg in Ha as [Hok _]. cbv zeta in H.
  set (spki := {| spki_Algorithm := algID; SubjectPublicKey := marshalBytes pub |}) in *.
  exists spki. split.
  - rewrite <- (app_nil_r cke). now apply unmarshalPS_put.
  - assert (len pub < 2 ^ 31).
    { apply marshalPS_inv in H as (der & Hd & ->). cbn [ps_EphemKey] in Hd. unfold marshalSPKI in Hd.
      apply bind_Ok in Hd as (c & Hc & Hd). apply spkiContent_inv in Hc as (enc & _ & ->).
      assert (der = derTLV tagSequence (enc ++ marshalBitString (SubjectPublicKey spki))) as -> by congruence.
      unfold marshalBitString, spki, marshalBytes in *. cbn [SubjectPublicKey] in *.
      der_pose. rewrite ?len_app, ?len_cons in *. len_pose. lia. }
    unfold ephemeralKey, spki, marshalBytes, parseOctetString. cbn [SubjectPublicKey].
    rewrite <- (app_nil_r (derTLV tagOctetString pub)). now rewrite (parseField_put 0 4 false) by lia.
Qed.

Lemma gost2018_recovers g curve priv randoms r cke pm r' :
  gost_certified (SKGost2018 curve priv (g18_variant g)) (g18_curve g) (g18_serverPubRaw g) ->
  g18_randoms g = Some randoms -> len randoms = 64 -> len cke < 2 ^ 31 ->
  gost2018ClientKeyExchange g r = (Ok (cke, pm), r') ->
  serverGost2018 curve priv (g18_variant g) randoms cke = Ok pm.
Proof.
  intros [-> Hpub] Hr Hl Hn H. unfold gost2018ClientKeyExchange in H. rewrite Hr in H. cbn [from_option id] in H.
  unfold gost2018RandomsLen, gost2018Streebog256Len, gost2018PreMasterLen, gost2018UKMIVOffset in H.
  rewrite Hl, Z.eqb_refl in H. cbv zeta in H. apply bindM_Ok in H as (ukm & s0 & Hu & H).
  destruct (negb _) in Hu; [done|]. cbn in Hu. injection Hu as <- <-.
  apply bindM_Ok in H as (pm' & s1 & Hpm & H). apply randSys_len in Hpm as Lpm; [|lia].
  apply bindM_Ok in H as ([cpriv cpub] & s2 & Hgen & H). apply drawSys_inv in Hgen as (t & t' & Hgen).
  apply generated_public in Hgen.
  apply bindM_Ok in H as (ek & s3 & Hk & H). unfold lift in Hk. injection Hk as Hk <-.
  apply bindM_Ok in H as (n & s4 & Hiv & H). unfold lift in Hiv. injection Hiv as Hiv <-.
  apply bindM_Ok in H as (iv & s5 & Hi & H). unfold lift in Hi. injection Hi as Hi <-.
  apply bindM_Ok in H as (bc & s6 & Hb & H). unfold lift in Hb. injection Hb as Hb <-.
  apply bindM_Ok in H as (ck & s7 & Hck & H). unfold lift in Hck. injection Hck as Hck <-.
  apply bindM_Ok in H as (mk & s8 & Hmk & H). unfold lift in Hmk. injection Hmk as Hmk <-.
  apply bindM_Ok in H as (w & s9 & Hw & H). unfold lift in Hw. injection Hw as Hw <-.
  apply bindM_Ok in H as (body & s10 & Hm & H). unfold lift in Hm. injection Hm as Hm <-.
  cbn in H. injection H as -> -> _. destruct (ps_reads _ _ _ _ _ Hm Hn) as (spki & Hp & Hkey).
  unfold serverGost2018. rewrite Hp. cbn [bind]. change (negb (len [] =? 0)) with false. cbv iota zeta.
  cbn [ps_EphemKey PsExp]. rewrite Hkey. cbn [bind].
  rewrite <- (keg2012_symmetric _ _ _ _ _ _ Hgen Hpub), Hk. cbn [bind]. rewrite Hiv. cbn [bind].
  rewrite Hi. cbn [bind]. rewrite Hb. cbn [bind]. rewrite Hck. cbn [bind]. rewrite Hmk. cbn [bind].
  destruct (kexp15 bc pm ck mk iv) as [w'|] eqn:Ew; [|done]. injection Hw as ->.
  assert (Lck : len ck = 32).
  { destruct (keg2012 _ _ _ _) as [k|] eqn:Ek; [|done]. injection Hk as ->. apply keg2012_len in Ek.
    apply slice_Ok in Hck as (_ & _ & _ & Hck & _). lia. }
  now rewrite (kexp15_imports _ _ _ _ _ _ Lpm Lck Ew).
Qed.

(** *** All of them *)

Lemma paired_ok e k cr sr params : paired e k cr sr params -> exchange_ok e.
Proof.
  intros [_ Hp]. destruct e; try exact I. destruct k; try done. now destruct Hp as (_ & -> & Hv & _).
Qed.

Lemma kex_recovers e k cr sr params r cke pm r' :
  paired e k cr sr params -> ClientKeyExchange e params r = (Ok (cke, pm), r') ->
  len cke < 2 ^ 24 -> serverPreMaster k cr sr cke = Ok pm.
Proof.
  intros [Hs Hp] E Hn. assert (Hn' : len cke < 2 ^ 31) by lia. destruct e, k; try done;
    cbn [ClientKeyExchange] in E; cbn [serverPreMaster].
  - eapply ecdhe_recovers; eauto.
  - apply ecdheSys_cfg in E as [r1 E]. eapply ecdhe_recovers; eauto.
  - eapply dhe_recovers; eauto.
  - eapply rsa_recovers; eauto.
  - apply rsaSys_cfg in E as [r1 E]. eapply rsa_recovers; eauto.
  - rewrite vko2001_eq in E. destruct Hp as ([-> Hpub] & Hu & Heph).
    eapply vko_recovers; [apply oid_checks; reflexivity|done|done| |exact E]. now apply vko2001_symmetric.
  - rewrite vko2012_eq in E. destruct Hp as ([-> Hpub] & Hu & Heph).
    eapply vko_recovers; [apply oid_checks; reflexivity|done|done| |exact E]. now apply vko2012_symmetric.
  - destruct Hp as (Hc & -> & _ & Hr & Hl). eapply gost2018_recovers; eauto.
Qed.
End Lemmas.

(** * Properties *)

Section Properties.
Context {C : Primitives} {CL : PrimitiveLaws C} {K : KexLib} {KL : KexLaws K}
  {L : ServerLib} {SL : ServerLaws L}.

(** C12. The two sides agree: whatever exchange the client runs with a server that
    holds the matching secret (ECDHE, DHE, RSA, both VKO GOST exchanges, GOST 2018),
    on any randomness it returns without a panic, and when it returns a
    ClientKeyExchange that fits a handshake message, the server that decodes it
    recovers exactly the client's pre-master secret. *)
Theorem kex_agreement e k clientRandom serverRandom params r :
  paired e k clientRandom serverRandom params ->
  match ClientKeyExchange e params r with
  | (Ok (cke, pm), _) =>
      len cke < 2 ^ 24 -> serverPreMaster k clientRandom serverRandom cke = Ok pm
  | (Err _, _) => True
  | (Crash _, _) => False
  end.
Proof.
  intros Hp. pose proof (ClientKeyExchange_safe e params (paired_ok _ _ _ _ _ Hp) r) as Hsafe.
  destruct (ClientKeyExchange e params r) as [[[cke pm]|err|x] r'] eqn:E; [|done|done].
  exact (kex_recovers _ _ _ _ _ _ _ _ _ Hp E).
Qed.

(** The DHE secret is padded where RFC 5246 section 8.1.2 strips it: the client's is
    the RFC's behind as many zero bytes as it is shorter than the prime, so the two
    differ exactly when the shared value has a leading zero byte. *)
Theorem dhe_rfc_secret p g y x params r cke pm r' :
  sends_params (SKDHE p g y) params ->
  dheClientKeyExchange x params r = (Ok (cke, pm), r') ->
  exists yc, readU16LenPrefixed cke = Ok (yc, []) /\
    pm = leftPad (rfc5246Secret p y yc) (len p) /\
    (pm = rfc5246Secret p y yc <-> len (rfc5246Secret p y yc) = len p).
Proof.
  intros Hs H. pose proof (dhe_recovers _ _ _ _ _ _ _ _ _ Hs H) as Hr. unfold serverDHE in Hr.
  apply bind_Ok in Hr as ([yc rest] & Hc & Hr). destruct (len rest =? 0) eqn:E; [|done]. z_bool.
  apply len_zero_nil in E as ->. injection Hr as <-. exists yc. split; [done|].
  destruct (dhe_run _ _ _ _ _ _ _ _ _ Hs H) as (_ & _ & _ & _ & _ & Hp & _).
  pose proof (beUint_range p) as Hr. unfold len in Hr.
  assert (Hb : 0 <= beUint yc ^ beUint y mod beUint p < 256 ^ Z.of_nat (length p)).
  { pose proof (Z.mod_pos_bound (beUint yc ^ beUint y) (beUint p)). lia. }
  rewrite (bePut_padded _ _ Hb) at 1 2. unfold rfc5246Secret, len at 1 2. split; [done|].
  set (rfc := map z2b _). destruct (leftPad_spec rfc (Z.of_nat (length p))) as [_ Hl]. split.
  - intros Heq. rewrite Heq in Hl.
    assert (length rfc <= length p)%nat by (unfold rfc; rewrite length_map; apply digits_length).
    unfold len in *. lia.
  - intros Heq. unfold leftPad. now rewrite (proj2 (Z.leb_le _ _)) by (unfold len in *; lia).
Qed.

End Properties.

(** ** A concrete instance *)

Module ToyServer.
Import ToyKex.

#[export] Instance server : ServerLib := {|
  gostPublicKeyRaw c k := Some (gostPublic k);
  keyUnwrapCryptoPro s kek w :=
    let k := xorBytes (take 32 (drop 8 w)) kek in
    if decide (drop 40 w = bePut 4 (Toy.checksum k)) then Some k else None;
  kimp15 c w ck mk iv :=
    if decide (drop 32 w = bePut 8 (Toy.checksum (mk ++ iv))) then Some (xorBytes (take 32 w) ck) else None;
  rsaPublic d := d;
  rsaSize pub := 48;
  rsaDecrypt d c := Some (rev c)
|}.

Lemma gostPublic_value k : beUint (gostPublic k) = 7 * scalar k.
Proof.
  unfold gostPublic. pose proof (Z.mod_pos_bound (beUint k) 1000003).
  apply beUint_put_small. unfold scalar. cbn. lia.
Qed.

(** The parts of the toy wraps. *)
Lemma toy_wrap_parts (ukm k kek tail : bytes) :
  len ukm = 8 -> len k = 32 -> len kek = 32 ->
  drop 40 (ukm ++ xorBytes k kek ++ tail) = tail /\
  take 32 (drop 8 (ukm ++ xorBytes k kek ++ tail)) = xorBytes k kek.
Proof.
  intros Hu Hk He. assert (Hx : length (xorBytes k kek) = 32%nat).
  { pose proof (len_xorBytes k kek). unfold len in *. lia. }
  assert (Hl : length ukm = 8%nat) by (unfold len in Hu; lia). split.
  - rewrite (app_assoc ukm). apply drop_app_length'. rewrite length_app. lia.
  - rewrite drop_app_length' by lia. apply take_app_length'. lia.
Qed.

#[export] Instance serverLaws : ServerLaws server.
Proof.
  split; intros; cbn -[bePut gostPublic scalar] in *.
  - destruct (randRead 32 t) as [[k t1]|]; [|done]. congruence.
  - injection H as <-. injection H0 as <-. rewrite !gostPublic_value. do 2 f_equal. lia.
  - injection H as <-. injection H0 as <-. rewrite !gostPublic_value. do 2 f_equal. lia.
  - injection H as <-. injection H0 as <-. rewrite !gostPublic_value. do 2 f_equal. lia.
  - assert (w = ukm ++ xorBytes k kek ++ bePut 4 (Toy.checksum k)) as -> by congruence.
    split; [rewrite !len_app, len_xorBytes, len_bePut; lia|]. apply take_app_length'. unfold len in *. lia.
  - assert (w = ukm ++ xorBytes k kek ++ bePut 4 (Toy.checksum k)) as -> by congruence.
    destruct (toy_wrap_parts ukm k kek (bePut 4 (Toy.checksum k))) as [-> ->]; [done..|].
    rewrite xorBytes_invol by lia. now rewrite decide_True by done.
  - assert (w = xorBytes k ck ++ bePut 8 (Toy.checksum (mk ++ iv))) as -> by congruence.
    assert (Hx : length (xorBytes k ck) = 32%nat).
    { pose proof (len_xorBytes k ck). unfold len in *. lia. }
    rewrite drop_app_length', take_app_length' by lia. rewrite decide_True by done.
    now rewrite xorBytes_invol by lia.
  - destruct (len m =? 48); [|done]. injection H as <- _. now rewrite rev_involutive.
  - destruct (len m =? 48) eqn:E; [|done]. injection H as <- _. z_bool. unfold len in *.
    now rewrite length_rev.
Qed.

End ToyServer.

(** ** Witnesses *)

#[local] Existing Instance Toy.prims.
#[local] Existing Instance Toy.laws.
#[local] Existing Instance ToyKex.kex.
#[local] Existing Instance ToyKex.kexLaws.
#[local] Existing Instance ToyServer.server.
#[local] Existing Instance ToyServer.serverLaws.

(** The algorithm identifier of the round-trip test: a GOST R 34.10-2012 key on the
    curve CryptoPro-A. *)
Definition testAlgorithm : bytes := map z2b
  [48; 31; 6; 8; 42; 133; 3; 7; 1; 1; 1; 1;
   48; 19; 6; 7; 42; 133; 3; 2; 2; 35; 1; 6; 8; 42; 133; 3; 7; 1; 1; 2; 2].

Definition testExchange : Gost2018Exchange := {|
  g18_curve := [Byte.x01];
  g18_spkiAlgo := testAlgorithm;
  g18_serverPubRaw := ToyKex.gostPublic [Byte.x09];
  g18_variant := Variant2018Magma;
  g18_randoms := Some (replicate 32 Byte.x0a ++ replicate 32 Byte.x0b)
|}.

Definition testRun : result (bytes * bytes) * rngs :=
  ClientKeyExchange (ExGost2018 testExchange) [] {| rng_cfg := None; rng_sys := replicate 100 Byte.x05 |}.

(** The exchange succeeds, with the first 32 bytes of the random source. *)
Definition testRunOK : bool :=
  match testRun with
  | (Ok (cke, pm), _) => bool_decide (pm = replicate 32 Byte.x05) && (len cke <? 2 ^ 24)
  | _ => false
  end.

Lemma kex_agreement_witness :
  match testRun with
  | (Ok (cke, pm), _) =>
      pm = replicate 32 Byte.x05 /\
      serverPreMaster (SKGost2018 [Byte.x01] [Byte.x09] Variant2018Magma)
        (replicate 32 Byte.x0a) (replicate 32 Byte.x0b) cke = Ok pm
  | _ => False
  end.
Proof.
  pose proof (kex_agreement (ExGost2018 testExchange)
    (SKGost2018 [Byte.x01] [Byte.x09] Variant2018Magma)
    (replicate 32 Byte.x0a) (replicate 32 Byte.x0b) []
    {| rng_cfg := None; rng_sys := replicate 100 Byte.x05 |}) as H.
  assert (Hc : testRunOK = true) by (vm_compute; reflexivity).
  unfold testRunOK in Hc. unfold testRun in *.
  match type of H with ?P -> _ => assert (Hp : P) end.
  { split; [exact I|]. split; [split; reflexivity|]. split; [reflexivity|].
    split; [right; reflexivity|split; reflexivity]. }
  specialize (H Hp). destruct (ClientKeyExchange _ _ _) as [[[cke pm]|e|x] r]; [|discriminate Hc..].
  apply andb_true_iff in Hc as [Hpm Hn]. apply bool_decide_eq_true in Hpm. apply Z.ltb_lt in Hn. auto.
Defined.
