(* ===== verification/Certs.v ===== *)
(** * Certificates and signatures ([internal/handshake/cert_gost.go],
      [crypto.go], the signature algorithms of [client.go])

    Parsing and verifying the server's chain, the signature algorithms the
    client offers and accepts, verification of the ServerKeyExchange signature
    and the choice of the client's own algorithm.  [crypto/x509], [x509gost] and
    the signature schemes are the class [X509]. *)

From Stdlib Require Import ZArith Lia.
From stdpp Require Import base list strings gmap.
From S2P Require Import Prelude Errors Asn1 Extensions Messages Primitives Suites KeyExchange.

Open Scope Z_scope.

(** ** What other packages provide *)

(** [cert.PublicKey], by dynamic type. *)
Inductive PublicKey := RSAPub (k : bytes) | ECDSAPub (k : bytes) | OtherPub (k : bytes).

(** [x509.Certificate]. *)
Record x509Certificate := { Raw : bytes; PublicKeyOf : PublicKey }.

(** [x509gost.Certificate].  Its field [Stdlib] is a pointer that
    [x509gost.ParseCertificate] sets whenever it returns a certificate: the code reads it
    without a test, so it is modelled as present. *)
Record gostCertificate := {
  Stdlib : x509Certificate;
  HasGOSTPubKey : bool;
  IsGOST : bool;
  CurveOID : bytes;
  PubKeyRaw : bytes;
  SPKIAlgorithmDER : bytes
}.

(** [x509.VerifyOptions] and [x509gost.VerifyOptions]; the key usage is always
    server authentication.  [Roots] is [None] for the platform's pool. *)
Record VerifyOptions := {
  Roots : option (list x509Certificate);
  Intermediates : list x509Certificate;
  DNSName : bytes;
  CurrentTime : Z
}.

Record gostVerifyOptions := {
  GRoots : list gostCertificate;
  GIntermediates : list gostCertificate;
  GDNSName : bytes;
  GCurrentTime : Z
}.

(** [crypto.PrivateKey], by dynamic type; the curve of an ECDSA key. *)
Inductive PrivateKey := RSAPriv (k : bytes) | ECDSAPriv (c : ecCurve) (k : bytes) | OtherPriv.

(** [None] and [false] are errors. *)
Class X509 := {
  x509ParseCertificate : bytes -> option x509Certificate;
  x509Verify : x509Certificate -> VerifyOptions -> option (list (list x509Certificate));
  gostParseCertificate : bytes -> option gostCertificate;
  gostVerify : gostCertificate -> gostVerifyOptions -> option (list (list gostCertificate));
  rsaVerifyPKCS1v15 : bytes -> HashName -> bytes -> bytes -> bool;
  ecdsaVerify : bytes -> bytes -> Z -> Z -> bool;
  rsaSignPKCS1v15 : bytes -> HashName -> bytes -> tape -> option (bytes * tape);
  ecdsaSignASN1 : bytes -> bytes -> tape -> option (bytes * tape)
}.

(** ** Signature algorithms (client.go) *)

#[export] Instance SigAndHash_eq_dec : EqDecision SigAndHash.
Proof. solve_decision. Defined.

Definition sigHashByte : byte := Byte.x04.
Definition sigHashSHA384 : byte := Byte.x05.
Definition sigHashSHA1 : byte := Byte.x02.
Definition sigHashSHA512 : byte := Byte.x06.
Definition sigAlgRSA : byte := Byte.x01.
Definition sigAlgECDSA : byte := Byte.x03.
Definition curveTypeNamed : byte := Byte.x03.
Definition hostNameType : byte := Byte.x00.
Definition tlsVersion12 : Z := 771. (* 0x0303 *)

Definition clientSigAlgsAdvertised : list SigAndHash := [
  {| Hash := sigHashByte; Sig := sigAlgRSA |};
  {| Hash := sigHashSHA384; Sig := sigAlgRSA |};
  {| Hash := sigHashByte; Sig := sigAlgECDSA |};
  {| Hash := sigHashSHA384; Sig := sigAlgECDSA |}
].

Definition sigAlgAdvertised (hashAlg sigAlg : byte) : bool :=
  existsb (fun a => bool_decide (Hash a = hashAlg) && bool_decide (Sig a = sigAlg))
    clientSigAlgsAdvertised.

Definition skeSigAlgMatchesAuth (sigAlg : byte) (auth : AuthKind) : bool :=
  match auth with
  | AuthRSA => bool_decide (sigAlg = sigAlgRSA)
  | AuthECDSA => bool_decide (sigAlg = sigAlgECDSA)
  | AuthAnonymous | AuthGOST2001 | AuthGOST2012_256 => false
  end.

Definition hashForSigAlg (hashByte : byte) : result HashName :=
  if decide (hashByte = sigHashSHA1) then Ok SHA1
  else if decide (hashByte = sigHashByte) then Ok SHA256
  else if decide (hashByte = sigHashSHA384) then Ok SHA384
  else if decide (hashByte = sigHashSHA512) then Ok SHA512
  else Err errUnsupportedHashAlg.

(** The closure [keyCompatible] of [selectClientSigAlg]. *)
Definition keyCompatible (key : PrivateKey) (alg : SigAndHash) : bool :=
  match key with
  | RSAPriv _ => bool_decide (Sig alg = sigAlgRSA)
  | ECDSAPriv c _ =>
      if negb (bool_decide (Sig alg = sigAlgECDSA)) then false
      else match c with
           | P256 => bool_decide (Hash alg = sigHashByte)
           | P384 => bool_decide (Hash alg = sigHashSHA384)
           | _ => false
           end
  | OtherPriv => false
  end.

(** The set [serverHas] is membership in the server's list. *)
Fixpoint firstSigAlg (key : PrivateKey) (server : list SigAndHash) (l : list SigAndHash)
  : option SigAndHash :=
  match l with
  | [] => None
  | alg :: l =>
      if bool_decide (alg ∈ server) && keyCompatible key alg then Some alg
      else firstSigAlg key server l
  end.

Section Operations.
Context {C : Primitives} {X : X509}.

(** ** crypto.go *)

Definition verifyRSASignature (pub : bytes) (hashAlg : byte) (dgst sig : bytes) : result unit :=
  let* cryptoHash := hashForSigAlg hashAlg in
  if rsaVerifyPKCS1v15 pub cryptoHash dgst sig then Ok tt else Err (ELib LibRSA).

(** [asn1.Unmarshal] into [struct { R, S *big.Int }]: R, S and the rest. *)
Definition unmarshalRS (sig : bytes) : result (Z * Z * bytes) :=
  let* (c, rest) := parseSequence sig in
  let* (rBytes, c) := parseField 0 2 false c in
  let* r := parseBigInt rBytes in
  let* (sBytes, _) := parseField 0 2 false c in
  let* s := parseBigInt sBytes in
  Ok (r, s, rest).

Definition verifyECDSASignature (pub : bytes) (dgst sig : bytes) : result unit :=
  let* (r, s, rest) := unmarshalRS sig in
  if negb (len rest =? 0) then Err errECDSATrailingBytes
  else if negb (ecdsaVerify pub dgst r s) then Err errECDSAVerifyFailed
  else Ok tt.

Definition verifySignature (cert : x509Certificate) (hashAlg sigAlg : byte) (signed sig : bytes)
  : result unit :=
  let* cryptoHash := hashForSigAlg hashAlg in
  let dgst := digest cryptoHash signed in
  if decide (sigAlg = sigAlgRSA) then
    match PublicKeyOf cert with
    | RSAPub pub => verifyRSASignature pub hashAlg dgst sig
    | _ => Err errCertNotRSA
    end
  else if decide (sigAlg = sigAlgECDSA) then
    match PublicKeyOf cert with
    | ECDSAPub pub => verifyECDSASignature pub dgst sig
    | _ => Err errCertNotECDSA
    end
  else Err errUnsupportedSigAlg.

(** ** cert_gost.go *)

(** A value of type [any]: nil, a list of GOST certificates, something else. *)
Inductive anyGOST := AnyNil | AnyCerts (l : list gostCertificate) | AnyOther.

Definition extractGOSTRoots (v : anyGOST) : result (list gostCertificate) :=
  match v with
  | AnyNil => Err ErrGOSTRootsRequired
  | AnyOther => Err errGOSTRootsWrongType
  | AnyCerts roots => if len roots =? 0 then Err ErrGOSTRootsRequired else Ok roots
  end.

Definition extractGOSTIntermediates (v : anyGOST) : result (list gostCertificate) :=
  match v with
  | AnyNil => Ok []
  | AnyOther => Err errGOSTIntermediatesWrongType
  | AnyCerts l => Ok l
  end.

Fixpoint gostIntermediatesLoop (out : list gostCertificate) (rawInter : list bytes)
  : result (list gostCertificate) :=
  match rawInter with
  | [] => Ok out
  | der :: l =>
      match gostParseCertificate der with
      | None => Err (ELib LibX509GostParse)
      | Some cert => gostIntermediatesLoop (out ++ [cert]) l
      end
  end.

Definition parseGOSTIntermediates (rawInter : list bytes) : result (list gostCertificate) :=
  if len rawInter =? 0 then Ok [] else gostIntermediatesLoop [] rawInter.

(** The pool is the list of the certificates added to it. *)
Fixpoint stdlibIntermediatesLoop (pool : list x509Certificate) (rawInter : list bytes)
  : result (list x509Certificate) :=
  match rawInter with
  | [] => Ok pool
  | der :: l =>
      match x509ParseCertificate der with
      | None => Err (ELib LibX509Parse)
      | Some cert => stdlibIntermediatesLoop (pool ++ [cert]) l
      end
  end.

Definition parseStdlibIntermediates (rawInter : list bytes) : result (list x509Certificate) :=
  stdlibIntermediatesLoop [] rawInter.

Definition gostChainsToStdlib (chains : list (list gostCertificate))
  : list (list x509Certificate) :=
  if len chains =? 0 then [] else map (map Stdlib) chains.

End Operations.

(** * Lemmas *)

(** Algorithms the client offered: RSA or ECDSA, with SHA-256 or SHA-384. *)
Lemma sigAlgAdvertised_iff h s :
  sigAlgAdvertised h s = true <-> {| Hash := h; Sig := s |} ∈ clientSigAlgsAdvertised.
Proof.
  unfold sigAlgAdvertised. rewrite existsb_exists. setoid_rewrite andb_true_iff.
  setoid_rewrite bool_decide_eq_true. rewrite list_elem_of_In.
  split; [intros ([] & Hin & <- & <-); exact Hin|eexists; naive_solver].
Qed.

(** ** What the protocol says of signatures

    RFC 5246 §7.4.1.4.1 numbers the hashes; RFC 8422 §5.4 ties an ECDSA key of a
    curve to the hash of its size, an RSA key goes with any hash. *)
Definition rfcHash (h : byte) : option HashName :=
  match h with
  | Byte.x02 => Some SHA1
  | Byte.x04 => Some SHA256
  | Byte.x05 => Some SHA384
  | Byte.x06 => Some SHA512
  | _ => None
  end.

Lemma hashForSigAlg_iff b h : hashForSigAlg b = Ok h <-> rfcHash b = Some h.
Proof.
  unfold hashForSigAlg, sigHashSHA1, sigHashByte, sigHashSHA384, sigHashSHA512.
  destruct b; cbn; repeat case_decide; try discriminate; naive_solver.
Qed.

Definition key_suits (key : PrivateKey) (alg : SigAndHash) : Prop :=
  match key with
  | RSAPriv _ => Sig alg = Byte.x01
  | ECDSAPriv P256 _ => alg = {| Hash := Byte.x04; Sig := Byte.x03 |}
  | ECDSAPriv P384 _ => alg = {| Hash := Byte.x05; Sig := Byte.x03 |}
  | _ => False
  end.

#[export] Instance key_suits_dec key alg : Decision (key_suits key alg).
Proof. destruct key as [|[]|]; cbn; apply _. Defined.

Lemma keyCompatible_iff key alg : keyCompatible key alg = true <-> key_suits key alg.
Proof.
  unfold keyCompatible, key_suits, sigAlgRSA, sigAlgECDSA, sigHashByte, sigHashSHA384.
  destruct key as [k|c k|], alg as [h sg]; cbn [Hash Sig]; [apply bool_decide_eq_true| |done].
  destruct (bool_decide (sg = Byte.x03)) eqn:E; cbn [negb].
  - apply bool_decide_eq_true in E as ->.
    destruct c; rewrite ?bool_decide_eq_true; naive_solver.
  - apply bool_decide_eq_false in E. destruct c; naive_solver.
Qed.

(** The first algorithm of the client's order, SHA-256 and SHA-384 with RSA, then with
    ECDSA, that the server listed and the key suits. *)
Definition firstSuited (key : PrivateKey) (server : list SigAndHash) : option SigAndHash :=
  head (filter (fun alg => alg ∈ server /\ key_suits key alg)
    [{| Hash := Byte.x04; Sig := Byte.x01 |}; {| Hash := Byte.x05; Sig := Byte.x01 |};
     {| Hash := Byte.x04; Sig := Byte.x03 |}; {| Hash := Byte.x05; Sig := Byte.x03 |}]).

Lemma firstSigAlg_filter key server l :
  firstSigAlg key server l = head (filter (fun alg => alg ∈ server /\ key_suits key alg) l).
Proof.
  induction l as [|a l IH]; [done|]. cbn [firstSigAlg]. rewrite filter_cons, IH.
  destruct (bool_decide (a ∈ server) && keyCompatible key a) eqn:E.
  - apply andb_true_iff in E as [E1%bool_decide_eq_true E2%keyCompatible_iff]. now rewrite decide_True.
  - rewrite decide_False; [done|]. intros [H1 H2%keyCompatible_iff].
    now rewrite H2, bool_decide_eq_true_2 in E.
Qed.

Lemma firstSigAlg_suited key server :
  firstSigAlg key server clientSigAlgsAdvertised = firstSuited key server.
Proof. apply firstSigAlg_filter. Qed.

Lemma hashForSigAlg_safe h : safe (hashForSigAlg h).
Proof. unfold hashForSigAlg. repeat case_decide; exact I. Qed.
#[export] Hint Resolve hashForSigAlg_safe : tls.

Section Lemmas.
Context {C : Primitives} {X : X509}.

Lemma verifySignature_safe cert h s signed sig : safe (verifySignature cert h s signed sig).
Proof.
  unfold verifySignature, verifyRSASignature, verifyECDSASignature. safe_step; [safe_auto|].
  case_decide; [destruct (PublicKeyOf cert); safe_auto|].
  case_decide; [|exact I]. destruct (PublicKeyOf cert); [exact I| |exact I].
  unfold unmarshalRS, parseSequence. safe_auto.
Qed.

Lemma gostIntermediatesLoop_safe l acc : safe (gostIntermediatesLoop acc l).
Proof.
  revert acc; induction l as [|d l IH]; intros acc; cbn; [done|].
  destruct (gostParseCertificate d); [apply IH|done].
Qed.

Lemma stdlibIntermediatesLoop_safe l acc : safe (stdlibIntermediatesLoop acc l).
Proof.
  revert acc; induction l as [|d l IH]; intros acc; cbn; [done|].
  destruct (x509ParseCertificate d); [apply IH|done].
Qed.

(** An ECDSA signature of a digest (RFC 8422 §5.4): a DER sequence of two integers, each
    in its one encoding, that verifies; the decoder does not look at further elements
    of the sequence. *)
Definition ecdsa_signature (pub dgst sig : bytes) : Prop :=
  exists r s rBytes sBytes extra,
    sig = derTLV tagSequence (derTLV tagInteger rBytes ++ derTLV tagInteger sBytes ++ extra) /\
    len (derTLV tagInteger rBytes ++ derTLV tagInteger sBytes ++ extra) < 2 ^ 31 /\
    der_integer rBytes r /\ der_integer sBytes s /\ ecdsaVerify pub dgst r s = true.

Lemma verifyECDSASignature_iff pub dgst sig :
  verifyECDSASignature pub dgst sig = Ok tt <-> ecdsa_signature pub dgst sig.
Proof.
  unfold verifyECDSASignature, unmarshalRS, ecdsa_signature. split.
  - intros H. apply bind_Ok in H as ([[r s] rest] & Hp & H).
    destruct (len rest =? 0) eqn:E0; [|done]. cbn [negb] in H.
    destruct (ecdsaVerify pub dgst r s) eqn:Ev; [|done]. z_bool. apply len_zero_nil in E0 as ->.
    apply bind_Ok in Hp as ([c rest] & Hs & Hp). apply parseField_inv in Hs as [-> Hn]; [|lia].
    apply bind_Ok in Hp as ([rb c1] & Hr & Hp). apply parseField_inv in Hr as [-> _]; [|lia].
    apply bind_Ok in Hp as (r' & HR & Hp). apply bind_Ok in Hp as ([sb extra] & Hs & Hp).
    apply parseField_inv in Hs as [-> _]; [|lia]. apply bind_Ok in Hp as (s' & HS & [= -> -> ->]).
    exists r, s, rb, sb, extra. rewrite <- !parseBigInt_iff. now rewrite app_nil_r.
  - intros (r & s & rb & sb & extra & -> & Hn & HR%parseBigInt_iff & HS%parseBigInt_iff & Hv).
    pose proof (derTLV_len tagInteger rb). pose proof (derTLV_len tagInteger sb).
    pose proof Hn as Hn'. rewrite !len_app in Hn'. pose proof (len_nonneg extra).
    pose proof (len_nonneg rb). pose proof (len_nonneg sb).
    rewrite <- (app_nil_r (derTLV tagSequence _)). unfold parseSequence.
    rewrite (parseField_put 0 16 true) by lia. cbn [bind].
    rewrite (parseField_put 0 2 false) by lia. cbn [bind]. rewrite HR. cbn [bind].
    rewrite (parseField_put 0 2 false) by lia. cbn [bind]. rewrite HS. cbn [bind]. now rewrite Hv.
Qed.

(** [sig] is a signature of [signed] under [key], by the algorithm [(h, sg)]: RSA PKCS #1
    v1.5 or ECDSA over the digest of the hash numbered [h], with a key of that kind. *)
Definition signed_by (key : PublicKey) (h sg : byte) (signed sig : bytes) : Prop :=
  exists hash, rfcHash h = Some hash /\
    match key with
    | RSAPub k => sg = Byte.x01 /\ rsaVerifyPKCS1v15 k hash (digest hash signed) sig = true
    | ECDSAPub k => sg = Byte.x03 /\ ecdsa_signature k (digest hash signed) sig
    | OtherPub _ => False
    end.

Lemma verifySignature_iff cert h sg signed sig :
  verifySignature cert h sg signed sig = Ok tt <-> signed_by (PublicKeyOf cert) h sg signed sig.
Proof.
  unfold verifySignature, signed_by, verifyRSASignature, sigAlgRSA, sigAlgECDSA. split.
  - intros (hash & Hh & H)%bind_Ok. exists hash. split; [now apply hashForSigAlg_iff|].
    destruct (PublicKeyOf cert) as [k|k|k]; repeat case_decide; try done.
    + split; [done|]. rewrite Hh in H. cbn [bind] in H. now destruct (rsaVerifyPKCS1v15 _ _ _ _).
    + split; [done|]. now apply verifyECDSASignature_iff.
  - intros (hash & Hh%hashForSigAlg_iff & H). rewrite Hh. cbn [bind].
    destruct (PublicKeyOf cert) as [k|k|k]; [| |done]; destruct H as [-> H].
    + rewrite decide_True by done. now rewrite H.
    + rewrite decide_False, decide_True by done. now apply verifyECDSASignature_iff.
Qed.

(** Parsed intermediates are the server's, in order. *)
Lemma stdlibIntermediatesLoop_spec l acc pool :
  stdlibIntermediatesLoop acc l = Ok pool <->
  exists cs, mapM x509ParseCertificate l = Some cs /\ pool = acc ++ cs.
Proof.
  revert acc; induction l as [|d l IH]; intros acc; cbn.
  - split; [intros [= <-]; exists []; now rewrite app_nil_r|].
    intros (cs & [= <-] & ->). now rewrite app_nil_r.
  - destruct (x509ParseCertificate d) as [c|]; cbn; [|naive_solver].
    rewrite IH. destruct (mapM x509ParseCertificate l) as [cs|]; cbn; [|naive_solver].
    split; intros (cs' & [= <-] & ->); eexists; (split; [reflexivity|]); now rewrite <- app_assoc.
Qed.

Lemma gostIntermediatesLoop_spec l acc pool :
  gostIntermediatesLoop acc l = Ok pool <->
  exists cs, mapM gostParseCertificate l = Some cs /\ pool = acc ++ cs.
Proof.
  revert acc; induction l as [|d l IH]; intros acc; cbn.
  - split; [intros [= <-]; exists []; now rewrite app_nil_r|].
    intros (cs & [= <-] & ->). now rewrite app_nil_r.
  - destruct (gostParseCertificate d) as [c|]; cbn; [|naive_solver].
    rewrite IH. destruct (mapM gostParseCertificate l) as [cs|]; cbn; [|naive_solver].
    split; intros (cs' & [= <-] & ->); eexists; (split; [reflexivity|]); now rewrite <- app_assoc.
Qed.

Lemma parseGOSTIntermediates_spec l pool :
  parseGOSTIntermediates l = Ok pool <-> mapM gostParseCertificate l = Some pool.
Proof.
  unfold parseGOSTIntermediates. destruct l as [|d l].
  - cbn. split; intros [= <-]; done.
  - rewrite (proj2 (Z.eqb_neq _ 0)) by len_lia. rewrite gostIntermediatesLoop_spec. naive_solver.
Qed.

Lemma parseGOSTIntermediates_safe l : safe (parseGOSTIntermediates l).
Proof. unfold parseGOSTIntermediates. destruct (_ =? _); [done|]. apply gostIntermediatesLoop_safe. Qed.

Lemma parseStdlibIntermediates_safe l : safe (parseStdlibIntermediates l).
Proof. apply stdlibIntermediatesLoop_safe. Qed.

Lemma parseStdlibIntermediates_spec l pool :
  parseStdlibIntermediates l = Ok pool <-> mapM x509ParseCertificate l = Some pool.
Proof. unfold parseStdlibIntermediates. rewrite stdlibIntermediatesLoop_spec. naive_solver. Qed.
End Lemmas.
#[export] Hint Resolve verifySignature_safe parseGOSTIntermediates_safe parseStdlibIntermediates_safe
  : tls.
