(* ===== verification/Client.v ===== *)
(** * The client handshake ([internal/handshake/client.go], [kex_gost.go])

    [ClientState] and every method of the TLS 1.2 client state machine.  The
    steps run in the error-and-state monad over [ClientState]; a failing step
    goes through [fatal], which writes the alert and keeps the cause.  The
    proofs are in [ClientProofs]. *)

From Stdlib Require Import ZArith Lia.
From stdpp Require Import base list strings gmap.
From S2P Require Import Prelude Errors Wire Extensions Messages Primitives Transcript State Layer Protectors Suites KeySetup KeyExchange Certs.

Open Scope Z_scope.

(** ** Parameters and state *)

Record ClientCertificate := { RawCertificate : bytes; cc_PrivateKey : PrivateKey }.

(** [VerifyPeerCertificate] is [None] for nil; its own result [None] is a nil
    error.  Nil chains are the empty list. *)
Record ClientParams := {
  p_ServerName : bytes;
  OfferedSuites : list Z;
  RootCAs : option (list x509Certificate);
  InsecureSkipVerify : bool;
  VerifyPeerCertificate : option (list bytes -> list (list x509Certificate) -> option error);
  GOSTRoots : anyGOST;
  GOSTIntermediates : anyGOST;
  Certificates : list ClientCertificate
}.

(** [c_rand] is what the reader [params.Rand] still has to give, [None] when it
    is crypto/rand; [c_now] is what [time.Now()] gives. *)
Record ClientState := {
  c_params : ClientParams;
  c_layer : Layer AnyProtector;
  c_transcript : Transcript;
  clientRandom : bytes;
  serverRandom : bytes;
  c_suite : option Suite;
  c_masterSecret : bytes;
  certReq : option CertificateRequest;
  clientCertSent : bool;
  clientSigAlg : SigAndHash;
  gostLeaf : option gostCertificate;
  c_done : bool;
  hsBuf : bytes;
  c_rand : option tape;
  c_now : Z
}.

Definition zeroSigAlg : SigAndHash := {| Hash := Byte.x00; Sig := Byte.x00 |}.

Definition NewClientState (layer : Layer AnyProtector) (params : ClientParams)
  (rand : option tape) (now : Z) : ClientState :=
  {| c_params := params; c_layer := layer; c_transcript := NewTranscript;
     clientRandom := replicate 32 Byte.x00; serverRandom := replicate 32 Byte.x00;
     c_suite := None; c_masterSecret := []; certReq := None; clientCertSent := false;
     clientSigAlg := zeroSigAlg; gostLeaf := None; c_done := false; hsBuf := [];
     c_rand := rand; c_now := now |}.

Definition set_layer (l : Layer AnyProtector) (c : ClientState) : ClientState :=
  {| c_params := c_params c; c_layer := l; c_transcript := c_transcript c;
     clientRandom := clientRandom c; serverRandom := serverRandom c; c_suite := c_suite c;
     c_masterSecret := c_masterSecret c; certReq := certReq c;
     clientCertSent := clientCertSent c; clientSigAlg := clientSigAlg c;
     gostLeaf := gostLeaf c; c_done := c_done c; hsBuf := hsBuf c; c_rand := c_rand c;
     c_now := c_now c |}.
Definition set_transcript (t : Transcript) (c : ClientState) : ClientState :=
  {| c_params := c_params c; c_layer := c_layer c; c_transcript := t;
     clientRandom := clientRandom c; serverRandom := serverRandom c; c_suite := c_suite c;
     c_masterSecret := c_masterSecret c; certReq := certReq c;
     clientCertSent := clientCertSent c; clientSigAlg := clientSigAlg c;
     gostLeaf := gostLeaf c; c_done := c_done c; hsBuf := hsBuf c; c_rand := c_rand c;
     c_now := c_now c |}.
Definition set_clientRandom (r : bytes) (c : ClientState) : ClientState :=
  {| c_params := c_params c; c_layer := c_layer c; c_transcript := c_transcript c;
     clientRandom := r; serverRandom := serverRandom c; c_suite := c_suite c;
     c_masterSecret := c_masterSecret c; certReq := certReq c;
     clientCertSent := clientCertSent c; clientSigAlg := clientSigAlg c;
     gostLeaf := gostLeaf c; c_done := c_done c; hsBuf := hsBuf c; c_rand := c_rand c;
     c_now := c_now c |}.
Definition set_serverRandom (r : bytes) (c : ClientState) : ClientState :=
  {| c_params := c_params c; c_layer := c_layer c; c_transcript := c_transcript c;
     clientRandom := clientRandom c; serverRandom := r; c_suite := c_suite c;
     c_masterSecret := c_masterSecret c; certReq := certReq c;
     clientCertSent := clientCertSent c; clientSigAlg := clientSigAlg c;
     gostLeaf := gostLeaf c; c_done := c_done c; hsBuf := hsBuf c; c_rand := c_rand c;
     c_now := c_now c |}.
Definition set_suite (s : Suite) (c : ClientState) : ClientState :=
  {| c_params := c_params c; c_layer := c_layer c; c_transcript := c_transcript c;
     clientRandom := clientRandom c; serverRandom := serverRandom c; c_suite := Some s;
     c_masterSecret := c_masterSecret c; certReq := certReq c;
     clientCertSent := clientCertSent c; clientSigAlg := clientSigAlg c;
     gostLeaf := gostLeaf c; c_done := c_done c; hsBuf := hsBuf c; c_rand := c_rand c;
     c_now := c_now c |}.
Definition set_masterSecret (m : bytes) (c : ClientState) : ClientState :=
  {| c_params := c_params c; c_layer := c_layer c; c_transcript := c_transcript c;
     clientRandom := clientRandom c; serverRandom := serverRandom c; c_suite := c_suite c;
     c_masterSecret := m; certReq := certReq c;
     clientCertSent := clientCertSent c; clientSigAlg := clientSigAlg c;
     gostLeaf := gostLeaf c; c_done := c_done c; hsBuf := hsBuf c; c_rand := c_rand c;
     c_now := c_now c |}.
Definition set_certReq (r : option CertificateRequest) (c : ClientState) : ClientState :=
  {| c_params := c_params c; c_layer := c_layer c; c_transcript := c_transcript c;
     clientRandom := clientRandom c; serverRandom := serverRandom c; c_suite := c_suite c;
     c_masterSecret := c_masterSecret c; certReq := r;
     clientCertSent := clientCertSent c; clientSigAlg := clientSigAlg c;
     gostLeaf := gostLeaf c; c_done := c_done c; hsBuf := hsBuf c; c_rand := c_rand c;
     c_now := c_now c |}.
Definition set_certSent (sent : bool) (alg : SigAndHash) (c : ClientState) : ClientState :=
  {| c_params := c_params c; c_layer := c_layer c; c_transcript := c_transcript c;
     clientRandom := clientRandom c; serverRandom := serverRandom c; c_suite := c_suite c;
     c_masterSecret := c_masterSecret c; certReq := certReq c;
     clientCertSent := sent; clientSigAlg := alg;
     gostLeaf := gostLeaf c; c_done := c_done c; hsBuf := hsBuf c; c_rand := c_rand c;
     c_now := c_now c |}.
Definition set_gostLeaf (g : option gostCertificate) (c : ClientState) : ClientState :=
  {| c_params := c_params c; c_layer := c_layer c; c_transcript := c_transcript c;
     clientRandom := clientRandom c; serverRandom := serverRandom c; c_suite := c_suite c;
     c_masterSecret := c_masterSecret c; certReq := certReq c;
     clientCertSent := clientCertSent c; clientSigAlg := clientSigAlg c;
     gostLeaf := g; c_done := c_done c; hsBuf := hsBuf c; c_rand := c_rand c;
     c_now := c_now c |}.
Definition set_done (c : ClientState) : ClientState :=
  {| c_params := c_params c; c_layer := c_layer c; c_transcript := c_transcript c;
     clientRandom := clientRandom c; serverRandom := serverRandom c; c_suite := c_suite c;
     c_masterSecret := c_masterSecret c; certReq := certReq c;
     clientCertSent := clientCertSent c; clientSigAlg := clientSigAlg c;
     gostLeaf := gostLeaf c; c_done := true; hsBuf := hsBuf c; c_rand := c_rand c;
     c_now := c_now c |}.
Definition set_hsBuf (b : bytes) (c : ClientState) : ClientState :=
  {| c_params := c_params c; c_layer := c_layer c; c_transcript := c_transcript c;
     clientRandom := clientRandom c; serverRandom := serverRandom c; c_suite := c_suite c;
     c_masterSecret := c_masterSecret c; certReq := certReq c;
     clientCertSent := clientCertSent c; clientSigAlg := clientSigAlg c;
     gostLeaf := gostLeaf c; c_done := c_done c; hsBuf := b; c_rand := c_rand c;
     c_now := c_now c |}.
Definition set_rand (r : option tape) (c : ClientState) : ClientState :=
  {| c_params := c_params c; c_layer := c_layer c; c_transcript := c_transcript c;
     clientRandom := clientRandom c; serverRandom := serverRandom c; c_suite := c_suite c;
     c_masterSecret := c_masterSecret c; certReq := certReq c;
     clientCertSent := clientCertSent c; clientSigAlg := clientSigAlg c;
     gostLeaf := gostLeaf c; c_done := c_done c; hsBuf := hsBuf c; c_rand := r;
     c_now := c_now c |}.

(** ** Offered suites *)

Definition availableCipherNames : list string :=
  ["AES-128-CBC"; "AES-256-CBC"; "AES-128-GCM"; "AES-256-GCM"; "CHACHA20-POLY1305"]%string.

Definition AvailableSuites (r : registryState) : list Z :=
  map ID (List.filter (fun s => bool_decide (cs_Name (Cipher s) ∈ availableCipherNames)) (All r)).

(** ** Framing *)

Definition maxHandshakeMsg : Z := 256 * 1024.
Definition hsHdrLen : Z := 4.

Definition consumeBuffered (buf : bytes) (n : Z) : result bytes :=
  if len buf =? n then Ok [] else slice buf n (len buf).

Definition buildEnvelope (msgType : Z) (body : bytes) : bytes :=
  [z2b msgType; z2b (Z.shiftr (len body) 16); z2b (Z.shiftr (len body) 8); z2b (len body)] ++ body.

Definition readU16LenPrefixedBuf (buf : bytes) : result bytes :=
  if len buf <? 2 then Err errU16PrefixTruncated
  else
    let* nb := slice buf 0 2 in
    let n := beUint nb in
    let* buf := slice buf 2 (len buf) in
    if len buf <? n then Err errU16BodyTruncated else slice buf n (len buf).

Definition selectClientSigAlg (c : ClientState) : result (SigAndHash * bool) :=
  match certReq c with
  | None => Ok (zeroSigAlg, false)
  | Some req =>
    if len (Certificates (c_params c)) =? 0 then Ok (zeroSigAlg, false)
    else
      let* cert := index (Certificates (c_params c)) 0 in
      match firstSigAlg (cc_PrivateKey cert) (cr_SupportedSignatureAlgs req)
              clientSigAlgsAdvertised with
      | Some alg => Ok (alg, true)
      | None => Ok (zeroSigAlg, false)
      end
  end.

Section Machine.
Context {C : Primitives} {K : KexLib} {X : X509}.

(** ** Parts of the state *)

Definition onLayer {A} : M (Layer AnyProtector) A -> M ClientState A := zoom c_layer set_layer.

Definition getRngs (c : ClientState) : rngs :=
  {| rng_cfg := c_rand c; rng_sys := rnd (rw (c_layer c)) |}.
Definition setRngs (r : rngs) (c : ClientState) : ClientState :=
  set_rand (rng_cfg r)
    (set_layer (set_rw (set_rnd (rng_sys r) (rw (c_layer c))) (c_layer c)) c).
Definition onRngs {A} : M rngs A -> M ClientState A := zoom getRngs setRngs.

(** Dereferencing [c.suite]; it is nil until the ServerHello. *)
Definition getSuite : M ClientState Suite :=
  let! c := get in
  match c_suite c with Some s => ret s | None => lift (Crash Panic) end.

Definition transcriptWrite (b : bytes) : M ClientState unit :=
  modify (fun c => set_transcript (Write (c_transcript c) b) c).

(** [fatal]: the write error of the alert is ignored. *)
Definition fatal {A} (alertDesc : Z) (cause : error) : M ClientState A := fun c =>
  let alertBody := EncodeAlert AlertLevelFatal alertDesc in
  match onLayer (WriteRecord ContentTypeAlert alertBody) c with
  | (Crash k, c) => (Crash k, c)
  | (_, c) => (Err cause, c)
  end.

(** [if err != nil { return c.fatal(desc, err) }]. *)
Definition orFatal {A} (alertDesc : Z) (m : M ClientState A) : M ClientState A :=
  catch m (fatal alertDesc).

Definition writeHandshake (env : bytes) : M ClientState unit :=
  orFatal AlertInternalError (onLayer (WriteRecord ContentTypeHandshake env)).

(** ** readHandshakeRecord

    A turn of the loop reads a record, so it takes at least five bytes of the
    transport: one turn more than there are bytes is enough. *)

Fixpoint readHandshakeLoop (fuel : nat) : M ClientState (Z * bytes) :=
  match fuel with
  | O => lift (Crash OutOfFuel)
  | S fuel =>
    let! c := get in
    let readMore :=
      (let! (ct, payload) :=
         catch (onLayer ReadRecord)
           (fun e => if negb (len (hsBuf c) =? 0) then fail (EWrap errHSBodyTruncated e) else fail e) in
       if ct =? ContentTypeHandshake then
         modify (fun c => set_hsBuf (hsBuf c ++ payload) c) ;;
         readHandshakeLoop fuel
       else if ct =? ContentTypeAlert then
         if negb (len (hsBuf c) =? 0) then fail errInterleavedHandshake
         else if len payload <? 2 then fail errAlertRecordTruncated
         else
           let! _ := lift (DecodeAlert payload) in
           fail errAlertReceived
       else if negb (len (hsBuf c) =? 0) then fail errInterleavedHandshake
       else fail errUnexpectedRecordType) in
    if hsHdrLen <=? len (hsBuf c) then
      let! b1 := lift (index (hsBuf c) 1) in
      let! b2 := lift (index (hsBuf c) 2) in
      let! b3 := lift (index (hsBuf c) 3) in
      let bodyLen := Z.lor (Z.lor (Z.shiftl (b2z b1) 16) (Z.shiftl (b2z b2) 8)) (b2z b3) in
      if maxHandshakeMsg <? bodyLen then fail errHSBodyTruncated
      else
        let total := hsHdrLen + bodyLen in
        if total <=? len (hsBuf c) then
          let! b0 := lift (index (hsBuf c) 0) in
          let msgType := b2z b0 in
          let! body := lift (slice (hsBuf c) hsHdrLen total) in
          let! rest := lift (consumeBuffered (hsBuf c) total) in
          modify (set_hsBuf rest) ;;
          ret (msgType, body)
        else readMore
    else readMore
  end.

Definition readHandshakeRecord : M ClientState (Z * bytes) := fun c =>
  readHandshakeLoop (S (length (rx (rw (c_layer c))))) c.

(** ** ClientHello *)

Definition clientHello (c : ClientState) (random : bytes) : ClientHello :=
  {| ch_Version := tlsVersion12;
     ch_Random := random;
     ch_SessionID := [];
     ch_CipherSuites := OfferedSuites (c_params c);
     ch_CompressionMethods := [hostNameType];
     ch_ServerName := p_ServerName (c_params c);
     ch_SupportedGroups := [0x1D; 0x17; 0x18; 0x19; 0x100; 0x101];
     ch_ECPointFormats := [hostNameType];
     ch_SignatureAlgorithms := clientSigAlgsAdvertised;
     ch_ExtendedMasterSecret := false;
     ch_RenegotiationInfo := true |}.

(** The failures of this step return without an alert. *)
Definition sendClientHello : M ClientState unit :=
  let! random := onRngs (randCfg 32) in
  modify (set_clientRandom random) ;;
  let! c := get in
  let env := MarshalMessage (MClientHello (clientHello c random)) in
  onLayer (WriteRecord ContentTypeHandshake env) ;;
  transcriptWrite env.

(** ** ServerHello *)

Definition offeredExt (c : ClientState) (extType : Z) : bool :=
  (extType =? extSupportedGroups) || (extType =? extECPointFormats) ||
  (extType =? extSignatureAlgorithms) || (extType =? extRenegotiationInfo) ||
  (negb (len (p_ServerName (c_params c)) =? 0) && (extType =? extServerName)).

Definition recvServerHello : M ClientState unit :=
  let! (msgType, payload) := orFatal AlertHandshakeFailure readHandshakeRecord in
  if negb (msgType =? TypeServerHello) then fatal AlertUnexpectedMessage errExpectedServerHello
  else
    let! (msg, _) := orFatal AlertHandshakeFailure
                       (lift (ParseMessage (buildEnvelope TypeServerHello payload))) in
    match msg with
    | MServerHello sh =>
      let! c := get in
      if negb (sh_Version sh =? tlsVersion12) then fatal AlertProtocolVersion errBadVersion
      else if negb (bool_decide (sh_CipherSuite sh ∈ OfferedSuites (c_params c))) then
        fatal AlertIllegalParameter errSuiteNotOffered
      else
        match Lookup theRegistry (sh_CipherSuite sh) with
        | None => fatal AlertIllegalParameter errUnknownSuite
        | Some suite =>
          modify (set_suite suite) ;;
          if negb (b2z (sh_CompressionMethod sh) =? 0) then
            fatal AlertIllegalParameter errNonNullCompression
          else if sh_ExtendedMasterSecret sh then fatal AlertUnsupportedExtension errUnexpectedEMS
          else if negb (forallb (offeredExt c) (sh_ExtensionTypes sh)) then
            fatal AlertUnsupportedExtension errSHUnofferedExt
          else
            modify (set_serverRandom (sh_Random sh)) ;;
            transcriptWrite (buildEnvelope TypeServerHello payload)
        end
    | _ => fatal AlertHandshakeFailure errUnexpectedSHType
    end.

(** ** Certificate (recvCertificate, cert_gost.go) *)

Definition parseAndVerifyChain (rawCerts : list bytes)
  : M ClientState (x509Certificate * list (list x509Certificate)) :=
  let! raw0 := lift (index rawCerts 0) in
  match gostParseCertificate raw0 with
  | None => fail (ELib LibX509GostParse)
  | Some gc =>
    let leafCert := Stdlib gc in
    (if HasGOSTPubKey gc then modify (set_gostLeaf (Some gc)) else ret tt) ;;
    let! c := get in
    let p := c_params c in
    if InsecureSkipVerify p then ret (leafCert, [])
    else if IsGOST gc then
      let! roots := lift (extractGOSTRoots (GOSTRoots p)) in
      let! intermediates := lift (extractGOSTIntermediates (GOSTIntermediates p)) in
      let! rest := lift (slice rawCerts 1 (len rawCerts)) in
      let! wireInter := lift (parseGOSTIntermediates rest) in
      let intermediates := intermediates ++ wireInter in
      let opts := {| GRoots := roots; GIntermediates := intermediates;
                     GDNSName := p_ServerName p; GCurrentTime := c_now c |} in
      match gostVerify gc opts with
      | None => fail (ELib LibX509GostVerify)
      | Some gostChains => ret (leafCert, gostChainsToStdlib gostChains)
      end
    else
      let! rest := lift (slice rawCerts 1 (len rawCerts)) in
      let! intermediates := lift (parseStdlibIntermediates rest) in
      let opts := {| Roots := RootCAs p; Intermediates := intermediates;
                     DNSName := p_ServerName p; CurrentTime := c_now c |} in
      match x509Verify leafCert opts with
      | None => fail (ELib LibX509Verify)
      | Some chains => ret (leafCert, chains)
      end
  end.

Definition parseAndVerifyLeaf (rawLeaf : bytes)
  : M ClientState (x509Certificate * list (list x509Certificate)) :=
  parseAndVerifyChain [rawLeaf].

Definition recvCertificate : M ClientState (x509Certificate * list bytes) :=
  let! (msgType, payload) := orFatal AlertHandshakeFailure readHandshakeRecord in
  if negb (msgType =? TypeCertificate) then fatal AlertUnexpectedMessage errExpectedCertificate
  else
    let! (msg, _) := orFatal AlertHandshakeFailure
                       (lift (ParseMessage (buildEnvelope TypeCertificate payload))) in
    match msg with
    | MCertificate rawCerts =>
      if len rawCerts =? 0 then fatal AlertBadCertificate errEmptyCertList
      else
        let! (leafCert, verifiedChains) :=
          orFatal AlertBadCertificate (parseAndVerifyChain rawCerts) in
        let! c := get in
        (match VerifyPeerCertificate (c_params c) with
         | Some f =>
             match f rawCerts verifiedChains with
             | Some err => fatal AlertBadCertificate err
             | None => ret tt
             end
         | None => ret tt
         end) ;;
        transcriptWrite (buildEnvelope TypeCertificate payload) ;;
        ret (leafCert, rawCerts)
    | _ => fatal AlertHandshakeFailure errUnexpectedCertType
    end.

(** ** ServerKeyExchange *)

(** The tail both exchanges share: parse [hash, sig, len, signature], check the
    algorithm against the offer and the suite, verify. *)
Definition verifySKESignature (cert : x509Certificate) (serverParams sigData : bytes)
  (errShort errTrunc : error) : M ClientState bytes :=
  if len sigData <? 4 then fatal AlertHandshakeFailure errShort
  else
    let! hashAlg := lift (index sigData 0) in
    let! sigAlg := lift (index sigData 1) in
    let! lb := lift (slice sigData 2 4) in
    let sigLen := beUint lb in
    if len sigData <? 4 + sigLen then fatal AlertHandshakeFailure errTrunc
    else
      let! sig := lift (slice sigData 4 (4 + sigLen)) in
      if negb (sigAlgAdvertised hashAlg sigAlg) then
        fatal AlertIllegalParameter errSKEUnadvertisedSigAlg
      else
        let! s := getSuite in
        if negb (skeSigAlgMatchesAuth sigAlg (Auth s)) then
          fatal AlertIllegalParameter errSKESigAuthMismatch
        else
          let! c := get in
          let signed := clientRandom c ++ serverRandom c ++ serverParams in
          orFatal AlertDecryptError (lift (verifySignature cert hashAlg sigAlg signed sig)) ;;
          ret serverParams.

Definition verifyECDHEServerKeyExchange (body : bytes) (cert : x509Certificate)
  : M ClientState bytes :=
  if len body <? 4 then fatal AlertHandshakeFailure errECDHESKETooShort
  else
    let! curveType := lift (index body 0) in
    if negb (bool_decide (curveType = curveTypeNamed)) then
      fatal AlertHandshakeFailure errECDHEUnsupportedCT
    else
      let! _ := lift (slice body 1 3) in
      let! b3 := lift (index body 3) in
      let pointLen := b2z b3 in
      if len body <? 4 + pointLen + 2 then fatal AlertHandshakeFailure errECDHEBodyTruncated
      else
        let! serverParams := lift (slice body 0 (4 + pointLen)) in
        let! sigData := lift (slice body (4 + pointLen) (len body)) in
        verifySKESignature cert serverParams sigData errECDHESigSectionShort errECDHESigTruncated.

Definition verifyDHEServerKeyExchange (body : bytes) (cert : x509Certificate)
  : M ClientState bytes :=
  let! rest := orFatal AlertHandshakeFailure (lift (readU16LenPrefixedBuf body)) in
  let! rest := orFatal AlertHandshakeFailure (lift (readU16LenPrefixedBuf rest)) in
  let! rest := orFatal AlertHandshakeFailure (lift (readU16LenPrefixedBuf rest)) in
  let serverParamsLen := len body - len rest in
  let! serverParams := lift (slice body 0 serverParamsLen) in
  verifySKESignature cert serverParams rest errDHESigSectionShort errDHESigTruncated.

Definition verifyServerKeyExchange (body : bytes) (cert : x509Certificate)
  : M ClientState bytes :=
  let! s := getSuite in
  match KX s with
  | KexECDHE => verifyECDHEServerKeyExchange body cert
  | KexDHE => verifyDHEServerKeyExchange body cert
  | KexRSA | KexGOST2001 | KexGOST2012_256 | KexGOST2018_256 =>
      fatal AlertHandshakeFailure errUnexpectedSKE
  end.

(** ** The server flight

    Every turn but the last sets one of the two flags or fails, so three turns
    are enough. *)

Fixpoint serverFlightLoop (fuel : nat) (serverCert : x509Certificate)
  (sawSKE sawCertReq : bool) (serverKeyExchParams : bytes) : M ClientState (bool * bytes) :=
  match fuel with
  | O => lift (Crash OutOfFuel)
  | S fuel =>
    let! (ct, payload) := orFatal AlertHandshakeFailure readHandshakeRecord in
    if ct =? TypeServerKeyExchange then
      if sawSKE then fatal AlertUnexpectedMessage errDuplicateSKE
      else if sawCertReq then fatal AlertUnexpectedMessage errSKEAfterCertReq
      else
        let! (msg, _) := orFatal AlertHandshakeFailure
                           (lift (ParseMessage (buildEnvelope TypeServerKeyExchange payload))) in
        match msg with
        | MServerKeyExchange body =>
          transcriptWrite (buildEnvelope TypeServerKeyExchange payload) ;;
          let! params := verifyServerKeyExchange body serverCert in
          serverFlightLoop fuel serverCert true sawCertReq params
        | _ => fatal AlertHandshakeFailure errUnexpectedSKEType
        end
    else if ct =? TypeCertificateRequest then
      if sawCertReq then fatal AlertUnexpectedMessage errDuplicateCertReq
      else
        let! (msg, _) := orFatal AlertHandshakeFailure
                           (lift (ParseMessage (buildEnvelope TypeCertificateRequest payload))) in
        match msg with
        | MCertificateRequest req =>
          modify (set_certReq (Some req)) ;;
          transcriptWrite (buildEnvelope TypeCertificateRequest payload) ;;
          serverFlightLoop fuel serverCert sawSKE true serverKeyExchParams
        | _ => fatal AlertHandshakeFailure errUnexpectedCertReqType
        end
    else if ct =? TypeServerHelloDone then
      let! _ := orFatal AlertHandshakeFailure
                  (lift (ParseMessage (buildEnvelope TypeServerHelloDone payload))) in
      transcriptWrite (buildEnvelope TypeServerHelloDone payload) ;;
      ret (sawSKE, serverKeyExchParams)
    else fatal AlertUnexpectedMessage errUnexpectedFlightMsg
  end.

Definition recvServerFlight (serverCert : x509Certificate) : M ClientState bytes :=
  let! (sawSKE, serverKeyExchParams) := serverFlightLoop 3 serverCert false false [] in
  if negb sawSKE then
    let! s := getSuite in
    match KX s with
    | KexRSA | KexGOST2001 | KexGOST2012_256 | KexGOST2018_256 => ret serverKeyExchParams
    | KexDHE | KexECDHE => fatal AlertUnexpectedMessage errSKERequired
    end
  else ret serverKeyExchParams.

(** ** Key exchange (computeKeyExchange, kex_gost.go) *)

Definition buildGOST2018Exchange : M ClientState Exchange :=
  let! c := get in
  match gostLeaf c with
  | None => fail errGOST2018NeedGOSTCert
  | Some gc =>
    match gostCurveByOID (CurveOID gc) with
    | None => fail (ELib LibCurve)
    | Some curve =>
      let! s := getSuite in
      let! variant :=
        (if ID s =? 0xC100 then ret Variant2018Kuznyechik
         else if ID s =? 0xC101 then ret Variant2018Magma
         else fail errGOST2018UnexpectedID) in
      let randoms := clientRandom c ++ serverRandom c in
      let! e := lift (NewGost2018Exchange (Some curve) (SPKIAlgorithmDER gc) (PubKeyRaw gc)
                        variant (Some randoms)) in
      ret (ExGost2018 e)
    end
  end.

Definition buildGOSTExchange : M ClientState Exchange :=
  let! c := get in
  match gostLeaf c with
  | None => fail errGOSTNeedGOSTCert
  | Some gc =>
    match gostCurveByOID (CurveOID gc) with
    | None => fail (ELib LibCurve)
    | Some curve =>
      let pubRaw := PubKeyRaw gc in
      let! ukm := lift (slice (clientRandom c) 0 8) in
      let! s := getSuite in
      match KX s with
      | KexGOST2001 =>
          let! e := onRngs (NewVKOGost2001Exchange (Some curve) (SPKIAlgorithmDER gc) pubRaw ukm) in
          ret (ExVKO2001 e)
      | KexGOST2012_256 =>
          let! e := onRngs (NewVKOGost2012_256Exchange (Some curve) (SPKIAlgorithmDER gc) pubRaw ukm) in
          ret (ExVKO2012 e)
      | KexGOST2018_256 => buildGOST2018Exchange
      | KexRSA | KexDHE | KexECDHE => fail errGOSTUnexpectedKXKind
      end
    end
  end.

(** The result is (preMaster, ckeBody). *)
Definition computeKeyExchange (cert : x509Certificate) (serverParams : bytes)
  : M ClientState (bytes * bytes) :=
  let! s := getSuite in
  let! exchange :=
    (match KX s with
     | KexECDHE => ret NewECDHEExchangeWithRand
     | KexDHE => ret (NewDHEExchange None)
     | KexRSA =>
         match PublicKeyOf cert with
         | RSAPub pub => lift (NewRSAExchangeWithRand (Some pub))
         | _ => fatal AlertBadCertificate errRSAKeyExpected
         end
     | KexGOST2001 | KexGOST2012_256 | KexGOST2018_256 =>
         orFatal AlertHandshakeFailure buildGOSTExchange
     end) in
  let! (ckeBody, preMaster) :=
    orFatal AlertHandshakeFailure (onRngs (ClientKeyExchange exchange serverParams)) in
  ret (preMaster, ckeBody).

(** ** Keys *)

Definition expandKeys : M ClientState (KeyMaterial * AnyProtector * AnyProtector) :=
  let! s := getSuite in
  let ivLen := FixedIVLen (Cipher s) in
  let isCBC := negb (AEAD (Cipher s)) &&
    negb (bool_decide (cs_Name (Cipher s) = "GOST28147-CNT"%string)) &&
    negb (bool_decide (cs_Name (Cipher s) = "KUZNYECHIK-CTR-OMAC"%string)) &&
    negb (bool_decide (cs_Name (Cipher s) = "MAGMA-CTR-OMAC"%string)) in
  let ivLen := if isCBC then 0 else ivLen in
  let macKeyLen := mac_KeyLen (MAC s) in
  let encKeyLen := cs_KeyLen (Cipher s) in
  let totalLen := 2 * macKeyLen + 2 * encKeyLen + 2 * ivLen in
  if totalLen =? 0 then fatal AlertInternalError errKeyExpansionZero
  else
    let! c := get in
    let! km := orFatal AlertInternalError
      (lift (expandKeysManual s (c_masterSecret c) (clientRandom c) (serverRandom c) ivLen)) in
    let! sendP := orFatal AlertInternalError
      (lift (buildProtector s (ClientEncKey km) (ClientMACKey km) (ClientIV km))) in
    let! recvP := orFatal AlertInternalError
      (lift (buildProtector s (ServerEncKey km) (ServerMACKey km) (ServerIV km))) in
    ret (km, sendP, recvP).

(** ** Client authentication *)

Definition sendClientCertificate : M ClientState bool :=
  let! c := get in
  let! (_, algOK) := lift (selectClientSigAlg c) in
  let nocert := negb algOK || (len (Certificates (c_params c)) =? 0) in
  let! certMsg :=
    (if nocert then ret (MCertificate [])
     else let! cert := lift (index (Certificates (c_params c)) 0) in
          ret (MCertificate [RawCertificate cert])) in
  let env := MarshalMessage certMsg in
  writeHandshake env ;;
  transcriptWrite env ;;
  ret (algOK && (0 <? len (Certificates (c_params c)))).

Definition sendCertificateVerify (alg : SigAndHash) : M ClientState unit :=
  let! cryptoHash := orFatal AlertInternalError (lift (hashForSigAlg (Hash alg))) in
  let! c := get in
  let! dgst := orFatal AlertInternalError (lift (Sum (c_transcript c) (Some cryptoHash))) in
  let! cert := lift (index (Certificates (c_params c)) 0) in
  let! sig :=
    (match cc_PrivateKey cert with
     | RSAPriv k =>
         orFatal AlertInternalError (onRngs (drawCfg LibRSA (rsaSignPKCS1v15 k cryptoHash dgst)))
     | ECDSAPriv _ k =>
         orFatal AlertInternalError (onRngs (drawCfg LibECDSA (ecdsaSignASN1 k dgst)))
     | OtherPriv => fatal AlertInternalError errUnsupportedKeyType
     end) in
  let env := MarshalMessage (MCertificateVerify {| cv_Algorithm := alg; cv_Signature := sig |}) in
  writeHandshake env ;;
  transcriptWrite env.

(** ** Finished *)

Definition finishedVerifyData (label : string) (masterSecret : bytes) : M ClientState bytes :=
  let! s := getSuite in
  let! c := get in
  let! transcriptHash := orFatal AlertInternalError
    (lift (Sum (c_transcript c) (Some (prf_Hash (suite_PRF s))))) in
  orFatal AlertInternalError (lift (FinishedVerifyData s masterSecret label transcriptHash)).

Definition receiveServerFinished (masterSecret : bytes) (recvP : AnyProtector)
  : M ClientState unit :=
  let! (recvCT, recvPayload) := orFatal AlertHandshakeFailure (onLayer ReadRecord) in
  if negb (recvCT =? ContentTypeChangeCipherSpec) then
    fatal AlertUnexpectedMessage errExpectedCCS
  else
    let! bad :=
      (if negb (len recvPayload =? 1) then ret true
       else let! b := lift (index recvPayload 0) in ret (negb (b2z b =? 1))) in
    if bad : bool then fatal AlertUnexpectedMessage errMalformedCCS
    else
      onLayer (modify (ChangeCipherSpec None (Some recvP))) ;;
      let! (msgType, payload) := orFatal AlertHandshakeFailure readHandshakeRecord in
      if negb (msgType =? TypeFinished) then fatal AlertUnexpectedMessage errExpectedFinished
      else
        let! (msg, _) := orFatal AlertDecryptError
                           (lift (ParseMessage (buildEnvelope TypeFinished payload))) in
        match msg with
        | MFinished verifyData =>
          let! expected := finishedVerifyData "server finished" masterSecret in
          if negb (EqualVerifyData verifyData expected) then
            fatal AlertDecryptError errFinishedMismatch
          else
            let! c := get in
            if negb (len (hsBuf c) =? 0) then fatal AlertUnexpectedMessage errInterleavedHandshake
            else transcriptWrite (buildEnvelope TypeFinished payload)
        | _ => fatal AlertDecryptError errUnexpectedFinishedType
        end.

(** ** Handshake *)

Definition Handshake : M ClientState unit :=
  sendClientHello ;;
  recvServerHello ;;
  let! (serverCert, rawCerts) := recvCertificate in
  let! serverKeyExchParams := recvServerFlight serverCert in
  let! (preMaster, ckeBody) := computeKeyExchange serverCert serverKeyExchParams in
  let! s := getSuite in
  let! c := get in
  let! masterSecret := orFatal AlertInternalError
    (lift (MasterSecret s preMaster (clientRandom c) (serverRandom c))) in
  modify (set_masterSecret masterSecret) ;;
  let! (_, sendP, recvP) := expandKeys in
  let! c := get in
  (match certReq c with
   | Some _ =>
       let! (alg, _) := lift (selectClientSigAlg c) in
       let! sent := sendClientCertificate in
       if sent : bool then modify (set_certSent true alg) else ret tt
   | None => ret tt
   end) ;;
  let ckeEnv := MarshalMessage (MClientKeyExchange ckeBody) in
  writeHandshake ckeEnv ;;
  transcriptWrite ckeEnv ;;
  let! c := get in
  (if clientCertSent c then sendCertificateVerify (clientSigAlg c) else ret tt) ;;
  orFatal AlertInternalError (onLayer (WriteRecord ContentTypeChangeCipherSpec [Byte.x01])) ;;
  onLayer (modify (ChangeCipherSpec (Some sendP) None)) ;;
  let! clientVerifyData := finishedVerifyData "client finished" masterSecret in
  let clientFinishedEnv := MarshalMessage (MFinished clientVerifyData) in
  writeHandshake clientFinishedEnv ;;
  transcriptWrite clientFinishedEnv ;;
  let! c := get in
  if negb (len (hsBuf c) =? 0) then fatal AlertUnexpectedMessage errInterleavedHandshake
  else
    receiveServerFinished masterSecret recvP ;;
    modify set_done.

End Machine.
