(* ===== verification/ClientProofs.v ===== *)
(** * The handshake's proofs

    Each step of [Client] by weakest preconditions: it neither panics nor runs
    out of fuel, a failure after the ClientHello went through [fatal], and the
    state after success is given by the messages read.  The steps compose into
    [Handshake_wp], of which the properties are consequences. *)

From Stdlib Require Import ZArith Lia.
From stdpp Require Import base list strings gmap.
From S2P Require Import Prelude Errors Wire Extensions Messages Primitives Transcript State Layer Protectors Suites KeySetup KeyExchange Certs Client.

Open Scope Z_scope.


(** ** Envelopes *)

Lemma buildEnvelope_eq t body : buildEnvelope t body = z2b t :: bePut 3 (len body) ++ body.
Proof.
  unfold buildEnvelope. cbn [bePut app]. rewrite Z.shiftr_shiftr by lia. reflexivity.
Qed.

Lemma len_buildEnvelope t body : len (buildEnvelope t body) = 4 + len body.
Proof. unfold buildEnvelope. len_lia. Qed.

Lemma ParseMessage_buildEnvelope t body :
  0 <= t < 256 -> len body <= maxHandshakeMsg ->
  ParseMessage (buildEnvelope t body) = let* m := parseBody t body in Ok (m, []).
Proof.
  intros Ht Hb. unfold maxHandshakeMsg in Hb.
  rewrite buildEnvelope_eq, <- (app_nil_r body) at 1.
  rewrite <- (app_nil_r body) at 2. rewrite app_nil_r at 1.
  rewrite ParseMessage_env by (rewrite ?len_nil; lia). now rewrite b2z_small.
Qed.

(** ** Weakest preconditions over the machine *)

Section Proofs.
Context {C : Primitives} {CL : PrimitiveLaws C} {K : KexLib} {KL : KexLaws K} {X : X509}.

Abbreviation lok c := (layer_ok (c_layer c)).

(** The error [e] left the machine in [c'] through [fatal]. *)
Definition via_fatal (e : error) (c' : ClientState) : Prop :=
  exists d c1, lok c1 /\ @fatal C unit d e c1 = (Err e, c').

Lemma fatal_run {A} d e c :
  lok c -> exists c', @fatal C A d e c = (Err e, c') /\ @fatal C unit d e c = (Err e, c').
Proof.
  intros Hl. unfold fatal, onLayer, zoom.
  pose proof (WriteRecord_ok ContentTypeAlert (EncodeAlert AlertLevelFatal d) _ Hl) as Hw.
  destruct (WriteRecord _ _ _) as [[] ?]; [eauto|eauto|contradiction].
Qed.

Lemma wp_fatal {A} d e (Q : A -> ClientState -> Prop) c :
  lok c -> wp (fatal d e) Q via_fatal c.
Proof.
  intros Hl. destruct (fatal_run (A := A) d e c Hl) as (c' & E & E'). unfold wp. rewrite E.
  exists d, c. done.
Qed.

Lemma wp_orFatal {A} d (m : M ClientState A) Q c :
  wp m Q (fun _ c' => lok c') c -> wp (orFatal d m) Q via_fatal c.
Proof.
  intros H. apply wp_catch. eapply wp_mono; [exact H|auto|]. intros. now apply wp_fatal.
Qed.

Lemma wp_orFatal_lift {A} d (r : result A) Q c :
  safe r -> lok c -> (forall a, r = Ok a -> Q a c) -> wp (orFatal d (lift r)) Q via_fatal c.
Proof. intros Hr Hl HQ. apply wp_orFatal, wp_lift; auto. Qed.

Lemma wp_getSuite s (Q : Suite -> ClientState -> Prop) E c :
  c_suite c = Some s -> Q s c -> wp getSuite Q E c.
Proof. intros Hs HQ. unfold getSuite, wp, bindM, get. now rewrite Hs. Qed.

(** A write of the layer keeps it well-formed. *)
Lemma wp_WriteRecord ct b (Q : unit -> ClientState -> Prop) c :
  lok c ->
  (forall l, layer_ok l -> WriteRecord ct b (c_layer c) = (Ok tt, l) -> Q tt (set_layer l c)) ->
  wp (onLayer (WriteRecord ct b)) Q (fun _ c' => lok c') c.
Proof.
  intros Hl HQ. apply wp_zoom. unfold wp. pose proof (WriteRecord_ok ct b _ Hl) as Hw.
  destruct (WriteRecord ct b (c_layer c)) as [[[]|e|k] l]; auto.
Qed.

(** The records of a flight of handshake messages: one for each. *)
Definition hsRecords (msgs : list bytes) : list (Z * bytes) := map (pair ContentTypeHandshake) msgs.

Lemma wp_writeHandshake b (Q : unit -> ClientState -> Prop) c :
  lok c ->
  (forall l, layer_ok l -> WriteRecord ContentTypeHandshake b (c_layer c) = (Ok tt, l) ->
             Q tt (set_layer l c)) ->
  wp (writeHandshake b) Q via_fatal c.
Proof. intros Hl HQ. now apply wp_orFatal, wp_WriteRecord. Qed.

(** A computation on the randomness leaves the layer well-formed. *)
Lemma lok_setRngs r c : lok c -> lok (setRngs r c).
Proof. intros [? ? ? ?]. now split. Qed.

Lemma wp_onRngs {A} (m : M rngs A) (Q : A -> ClientState -> Prop) c :
  lok c -> msafe m ->
  (forall a r, m (getRngs c) = (Ok a, r) -> Q a (setRngs r c)) ->
  wp (onRngs m) Q (fun _ c' => lok c') c.
Proof.
  intros Hl Hm HQ. apply wp_zoom. unfold wp. specialize (Hm (getRngs c)).
  destruct (m (getRngs c)) as [[a|e|k] r]; [auto| |done]. now apply lok_setRngs.
Qed.

(** ** Reading handshake messages *)

(** Handshake records read one after another, with their payloads. *)
Inductive hs_reads : Layer AnyProtector -> list bytes -> Layer AnyProtector -> Prop :=
| hs_reads_nil l : hs_reads l [] l
| hs_reads_cons l p l1 ps l2 :
    ReadRecord l = (Ok (ContentTypeHandshake, p), l1) -> hs_reads l1 ps l2 ->
    hs_reads l (p :: ps) l2.

Lemma hs_reads_app l ps l1 qs l2 :
  hs_reads l ps l1 -> hs_reads l1 qs l2 -> hs_reads l (ps ++ qs) l2.
Proof. induction 1; [done|]. intros. cbn [app]. econstructor; eauto. Qed.

Lemma hs_reads_view l ps l' :
  hs_reads l ps l' -> layer_ok l -> layer_ok l' /\ send_view l' = send_view l.
Proof.
  induction 1 as [|l p l1 ps l2 HR _ IH]; [done|]. intros Hl.
  pose proof (ReadRecord_ok l Hl) as H. rewrite HR in H. destruct H as (_ & Hl1 & [= E1 E2 E3 _ _]).
  destruct (IH Hl1) as [? ->]. unfold send_view. now rewrite E1, E2, E3.
Qed.

(** The state after reading the message [(t, body)]. *)
Definition read_message (c : ClientState) (t : Z) (body : bytes) (c' : ClientState) : Prop :=
  exists l ps b,
    hs_reads (c_layer c) ps l /\ layer_ok l /\ 0 <= t < 256 /\ len body <= maxHandshakeMsg /\
    hsBuf c ++ concat ps = buildEnvelope t body ++ b /\
    c' = set_hsBuf b (set_layer l c).

(** A complete message at the front of the buffer. *)
Lemma buffered_message buf t b1 b2 b3 body n :
  index (E := error) buf 0 = Ok t -> index (E := error) buf 1 = Ok b1 ->
  index (E := error) buf 2 = Ok b2 -> index (E := error) buf 3 = Ok b3 ->
  n = beUint [b1; b2; b3] ->
  slice (E := error) buf hsHdrLen (hsHdrLen + n) = Ok body ->
  buf = buildEnvelope (b2z t) body ++ drop (Z.to_nat (4 + n)) buf /\ len body = n.
Proof.
  intros I0 I1 I2 I3 -> Hs. apply index_Ok in I0 as [? I0], I1 as [? I1], I2 as [? I2], I3 as [? I3].
  pose proof (beUint_range [b1; b2; b3]) as Hn. unfold hsHdrLen in *.
  apply slice_Ok in Hs as (_ & _ & Hle & Hlen & Hb).
  split; [|lia]. destruct buf as [|x0 [|x1 [|x2 [|x3 buf]]]]; [len_lia..|].
  cbn in I0, I1, I2, I3. injection I0 as ->. injection I1 as ->. injection I2 as ->.
  injection I3 as ->. rewrite buildEnvelope_eq, z2b_b2z.
  replace (4 + beUint [b1; b2; b3] - 4) with (beUint [b1; b2; b3]) in * by lia.
  replace (bePut 3 (len body)) with [b1; b2; b3]
    by (rewrite Hlen; symmetry; apply (bePut_beUint [b1; b2; b3])).
  replace (Z.to_nat (4 + beUint [b1; b2; b3])) with (4 + Z.to_nat (beUint [b1; b2; b3]))%nat by lia.
  cbn [app drop Nat.add]. rewrite Hb. cbn [drop Z.to_nat Pos.to_nat Pos.iter_op Nat.add].
  do 4 f_equal. symmetry. apply take_drop.
Qed.

Lemma consumeBuffered_Ok buf n : 0 <= n <= len buf ->
  consumeBuffered buf n = Ok (drop (Z.to_nat n) buf).
Proof.
  intros Hn. unfold consumeBuffered. destruct (Z.eqb_spec (len buf) n) as [E|].
  - rewrite drop_ge; [done|]. unfold len in *. lia.
  - apply slice_from. lia.
Qed.

Lemma readHandshakeLoop_wp fuel c :
  lok c -> (length (rx (rw (c_layer c))) < fuel)%nat ->
  wp (readHandshakeLoop fuel) (fun '(t, body) c' => read_message c t body c')
    (fun _ c' => lok c') c.
Proof.
  revert c; induction fuel as [|fuel IH]; intros c Hl Hf; [lia|].
  cbn [readHandshakeLoop]. apply wp_bind, wp_get.
  match goal with |- wp (if _ then _ else ?m) ?Q ?E c => assert (Hmore : wp m Q E c) end.
  { apply wp_bind, wp_catch, wp_zoom. pose proof (ReadRecord_ok (c_layer c) Hl) as HR.
    unfold wp at 1. destruct (ReadRecord (c_layer c)) as [[[ct payload]|e|k] l] eqn:ER;
      [|destruct (negb _); apply HR|done].
    destruct HR as (Hread & Hl' & _).
    destruct (Z.eqb_spec ct ContentTypeHandshake) as [->|Hct].
    - apply wp_bind, wp_modify.
      eapply wp_mono; [apply IH|intros [t body] c'|done].
      + exact Hl'.
      + destruct Hread as (hdr & frag & Hrx & Hh & _). cbn [c_layer set_hsBuf set_layer].
        apply (f_equal length) in Hrx. rewrite !length_app in Hrx. unfold len in Hh. lia.
      + intros (l2 & ps & b & Hps & Hl2 & Ht & Hb & Hbuf & ->).
        exists l2, (payload :: ps), b. split; [econstructor; eauto|].
        split; [done|]. split; [done|]. split; [done|]. split; [|reflexivity].
        cbn [concat]. rewrite app_assoc. exact Hbuf.
    - destruct (ct =? ContentTypeAlert).
      + destruct (negb _); [apply Hl'|]. destruct (len payload <? 2) eqn:E2; [apply Hl'|]. z_bool.
        apply wp_bind, wp_lift; [auto with tls|intros; apply Hl'|intros; apply Hl'].
      + destruct (negb _); apply Hl'. }
  destruct (hsHdrLen <=? len (hsBuf c)) eqn:E4; [|exact Hmore]. unfold hsHdrLen in E4. z_bool.
  apply wp_bind, wp_index; [lia|]. intros b1 I1.
  apply wp_bind, wp_index; [lia|]. intros b2 I2.
  apply wp_bind, wp_index; [lia|]. intros b3 I3.
  rewrite lor_shift3. pose proof (beUint_range [b1; b2; b3]).
  destruct (maxHandshakeMsg <? beUint [b1; b2; b3]) eqn:Emax; [exact Hl|]. z_bool.
  destruct (hsHdrLen + beUint [b1; b2; b3] <=? len (hsBuf c)) eqn:Etot; [|exact Hmore].
  unfold hsHdrLen in Etot. z_bool.
  apply wp_bind, wp_index; [lia|]. intros b0 I0.
  apply wp_bind, wp_lift; [apply safe_slice; unfold hsHdrLen; lia|intros body Hb|done].
  rewrite consumeBuffered_Ok by (unfold hsHdrLen; lia).
  destruct (buffered_message _ _ _ _ _ _ _ I0 I1 I2 I3 eq_refl Hb) as [Hbuf Hlen].
  apply wp_bind, wp_lift; [done| |done]. intros ? [= <-].
  apply wp_bind, wp_modify, wp_ret.
  eexists (c_layer c), [], _. split; [constructor|]. split; [exact Hl|].
  split; [apply b2z_range|]. split; [lia|].
  split; [rewrite app_nil_r; exact Hbuf|]. reflexivity.
Qed.

Lemma readHandshakeRecord_wp c :
  lok c ->
  wp readHandshakeRecord (fun '(t, body) c' => read_message c t body c') (fun _ c' => lok c') c.
Proof. intros Hl. apply readHandshakeLoop_wp; [done|lia]. Qed.

(** The read that every step begins with. *)
Lemma wp_read (Q : Z * bytes -> ClientState -> Prop) c d :
  lok c -> (forall t body c', read_message c t body c' -> lok c' -> Q (t, body) c') ->
  wp (orFatal d readHandshakeRecord) Q via_fatal c.
Proof.
  intros Hl HQ. apply wp_orFatal. eapply wp_mono; [now apply readHandshakeRecord_wp| |done].
  intros [t body] c' H. apply HQ; [done|]. destruct H as (l & ps & b & _ & ? & _ & _ & _ & ->). done.
Qed.

Lemma wp_parse t body (Q : Message * bytes -> ClientState -> Prop) c d :
  0 <= t < 256 -> len body <= maxHandshakeMsg -> lok c ->
  (forall m, parseBody t body = Ok m -> Q (m, []) c) ->
  wp (orFatal d (lift (ParseMessage (buildEnvelope t body)))) Q via_fatal c.
Proof.
  intros Ht Hb Hl HQ. rewrite ParseMessage_buildEnvelope by done.
  apply wp_orFatal_lift; [|done|].
  - apply safe_bind; [apply parseBody_safe|done].
  - intros [m r] E. res_inv. apply HQ. assumption.
Qed.

Lemma read_message_len c t body c' : read_message c t body c' -> len body <= maxHandshakeMsg.
Proof. intros (l & ps & b & _ & _ & _ & H & _). exact H. Qed.

(** The fields a read leaves alone. *)
Lemma read_message_frame c t body c' :
  read_message c t body c' -> exists l b, c' = set_hsBuf b (set_layer l c).
Proof. intros (l & ps & b & _ & _ & _ & _ & _ & ->). eauto. Qed.

(** *** ClientHello *)

Definition helloEnv (c : ClientState) (random : bytes) : bytes :=
  MarshalMessage (MClientHello (clientHello c random)).

(** The message on the wire (RFC 5246 §7.4.1.2): TLS 1.2, the random, no session, the
    suites, null compression, and the extensions. *)
Definition helloBytes (random : bytes) (suites : list Z) (exts : list (Z * bytes)) : bytes :=
  let body := [Byte.x03; Byte.x03] ++ random ++ [Byte.x00] ++
    bePut 2 (2 * len suites) ++ concat (map (bePut 2) suites) ++ [Byte.x01; Byte.x00] ++
    bePut 2 (len (itemsBytes exts)) ++ itemsBytes exts in
  Byte.x01 :: bePut 3 (len body) ++ body.

(** The extensions of the client's. *)
Definition helloExts (c : ClientState) : list (Z * bytes) :=
  extItems (ch_extensions (clientHello c [])).

Lemma helloExts_eq c :
  map fst (helloExts c)
  = (if negb (len (p_ServerName (c_params c)) =? 0) then [extServerName] else []) ++
    [extSupportedGroups; extECPointFormats; extSignatureAlgorithms; extRenegotiationInfo].
Proof. unfold helloExts, extItems. rewrite map_app. cbn. now destruct (_ =? _). Qed.

Lemma helloExts_types c e :
  e = extSupportedGroups \/ e = extECPointFormats \/ e = extSignatureAlgorithms \/
  e = extRenegotiationInfo \/ (e = extServerName /\ p_ServerName (c_params c) <> []) ->
  e ∈ map fst (helloExts c).
Proof.
  rewrite helloExts_eq, elem_of_app. intros [H|[H|[H|[H|[-> H]]]]]; [right; subst e; set_solver..|left].
  rewrite (proj2 (Z.eqb_neq _ 0)); [cbn; set_solver|]. intros E. now apply len_zero_nil in E.
Qed.

Lemma helloEnv_bytes c random :
  helloEnv c random = helloBytes random (OfferedSuites (c_params c)) (helloExts c).
Proof.
  unfold helloEnv. rewrite MarshalMessage_eq. unfold helloBytes. cbn [Marshal MessageType].
  match goal with |- _ :: bePut 3 (len ?a) ++ _ = _ :: bePut 3 (len ?b) ++ _ =>
    assert (E : a = b); [|rewrite E; reflexivity] end.
  unfold marshalClientHello. rewrite foldl_append16. autorewrite with wire. rewrite app_nil_l.
  unfold u16. rewrite bePut_mod by lia. rewrite appendExtBytes_app, <- !app_assoc.
  unfold marshalExtensions. rewrite extensionList_items.
  change (ch_extensions (clientHello c random)) with (ch_extensions (clientHello c [])).
  change (extItems (ch_extensions (clientHello c []))) with (helloExts c).
  assert (Hne : len (itemsBytes (helloExts c)) <> 0).
  { unfold helloExts, extItems. cbn. rewrite itemsBytes_app, len_app.
    match goal with |- len ?a + len ?b <> 0 =>
      pose proof (len_nonneg a); assert (0 < len b) by (vm_compute; reflexivity); lia end. }
  rewrite (proj2 (Z.eqb_neq _ 0)) by done. cbn [appendExtBytes app].
  rewrite appendUint16_be. unfold u16. rewrite bePut_mod by lia. reflexivity.
Qed.

(** The signature algorithms in the list of extensions. *)
Definition offers (exts : list (Z * bytes)) (h sg : byte) : Prop :=
  exists algs : list bytes, (0x000d, bePut 2 (2 * len algs) ++ concat algs) ∈ exts /\ [h; sg] ∈ algs.

Lemma helloExts_offers c h sg :
  {| Hash := h; Sig := sg |} ∈ clientSigAlgsAdvertised -> offers (helloExts c) h sg.
Proof.
  intros H. exists (map pairBytes clientSigAlgsAdvertised). split.
  - unfold helloExts, extItems. rewrite !elem_of_app. right; right; right; left. cbn. now left.
  - apply (list_elem_of_fmap_2 pairBytes) in H. exact H.
Qed.

Lemma sendClientHello_wp c :
  lok c ->
  wp sendClientHello (fun _ c' =>
      exists random rand l,
        len random = 32 /\ layer_ok l /\
        sends (c_layer c) (hsRecords [helloEnv c random]) l /\
        c' = set_transcript (Write (c_transcript c) (helloEnv c random))
               (set_layer l (set_clientRandom random (set_rand rand c))))
    (fun _ c' => lok c') c.
Proof.
  intros Hl. unfold sendClientHello. apply wp_bind.
  apply wp_onRngs; [done|apply randCfg_safe|]. intros random r Hr.
  apply wp_bind, wp_modify. apply wp_bind, wp_get. apply wp_bind.
  apply wp_WriteRecord; [now apply lok_setRngs|]. intros l Hl' Hw.
  apply wp_modify. exists random, (rng_cfg r), l.
  split; [eapply randCfg_len; [|exact Hr]; lia|]. split; [done|]. split; [|reflexivity].
  eapply sends_ext; [| |eapply sends_write, Hw; now apply lok_setRngs]; reflexivity.
Qed.

(** *** ServerHello *)

(** What the client accepts of a ServerHello. *)
Record sh_accepted (p : ClientParams) (sh : ServerHello) (s : Suite) : Prop := {
  sa_version : sh_Version sh = 0x0303;
  sa_offered : ID s ∈ OfferedSuites p;
  sa_suite : sh_CipherSuite sh = ID s;
  sa_registered : s ∈ allSuites;
  sa_compression : sh_CompressionMethod sh = Byte.x00;
  sa_ems : sh_ExtendedMasterSecret sh = false;
  sa_ext e : e ∈ sh_ExtensionTypes sh ->
    e = extSupportedGroups \/ e = extECPointFormats \/ e = extSignatureAlgorithms \/
    e = extRenegotiationInfo \/ (e = extServerName /\ p_ServerName p <> [])
}.

Lemma theRegistry_inv : reg_inv theRegistry /\ registryOrder theRegistry = allSuites.
Proof.
  assert (H : exists r, initRegistry = Ok r) by (eexists; vm_compute; reflexivity).
  destruct H as [r Hr]. unfold theRegistry. rewrite Hr.
  apply registerAll_inv in Hr as [? Ho]; [|apply reg_inv_empty]. now rewrite Ho.
Qed.

Lemma Lookup_registered id s : Lookup theRegistry id = Some s -> s ∈ allSuites /\ ID s = id.
Proof.
  destruct theRegistry_inv as [[Hi _] Ho]. unfold Lookup. rewrite Hi, Ho. done.
Qed.

Lemma offeredExt_true c e : offeredExt c e = true ->
  e = extSupportedGroups \/ e = extECPointFormats \/ e = extSignatureAlgorithms \/
  e = extRenegotiationInfo \/ (e = extServerName /\ p_ServerName (c_params c) <> []).
Proof.
  unfold offeredExt. rewrite !orb_true_iff, andb_true_iff, !Z.eqb_eq, negb_true_iff, Z.eqb_neq.
  intros [[[[H|H]|H]|H]|[Hn H]]; auto. do 4 right. split; [done|]. intros E. now rewrite E in Hn.
Qed.

Lemma recvServerHello_wp c :
  lok c ->
  wp recvServerHello (fun _ c' =>
      exists body sh s c1,
        read_message c TypeServerHello body c1 /\ parseServerHello body = Ok sh /\
        sh_accepted (c_params c) sh s /\
        c' = set_transcript (Write (c_transcript c) (buildEnvelope TypeServerHello body))
               (set_serverRandom (sh_Random sh) (set_suite s c1)))
    via_fatal c.
Proof.
  intros Hl. unfold recvServerHello. apply wp_bind, wp_read; [done|].
  intros t body c1 Hr Hl1. destruct (Z.eqb_spec t TypeServerHello) as [->|]; [|now apply wp_fatal].
  cbn [negb]. apply wp_bind, wp_parse; [compute; split; congruence|eapply read_message_len; eauto|done|].
  intros m Hm. change (parseBody TypeServerHello body)
    with (let* m := parseServerHello body in Ok (MServerHello m)) in Hm.
  apply bind_Ok in Hm as (sh & Hsh & [= <-]).
  apply wp_bind, wp_get.
  pose proof (read_message_frame _ _ _ _ Hr) as (lx & bx & Ec1).
  destruct (Z.eqb_spec (sh_Version sh) tlsVersion12) as [Hv|]; [|now apply wp_fatal]. cbn [negb].
  case_bool_decide as Hof; [|now apply wp_fatal]. cbn [negb].
  destruct (Lookup theRegistry (sh_CipherSuite sh)) as [s|] eqn:Hlk; [|now apply wp_fatal].
  apply Lookup_registered in Hlk as [Hreg Hid].
  apply wp_bind, wp_modify.
  destruct (Z.eqb_spec (b2z (sh_CompressionMethod sh)) 0) as [Hc|]; [|now apply wp_fatal]. cbn [negb].
  destruct (sh_ExtendedMasterSecret sh) eqn:Hems; [now apply wp_fatal|].
  destruct (forallb (offeredExt c1) (sh_ExtensionTypes sh)) eqn:Hext; [|now apply wp_fatal].
  cbn [negb]. apply wp_bind, wp_modify, wp_modify.
  exists body, sh, s, c1. split; [done|]. split; [done|]. split.
  - rewrite Ec1 in Hof, Hext. cbn in Hof.
    split; [exact Hv|congruence|congruence|done| |done|].
    + apply b2z_inj. exact Hc.
    + intros e He. rewrite forallb_forall in Hext. specialize (Hext e).
      rewrite <- list_elem_of_In in Hext. apply offeredExt_true in Hext; [|done]. exact Hext.
  - subst c1. reflexivity.
Qed.

(** *** Certificate *)

(** The intermediates a GOST verification is given: the configured ones, then
    the server's. *)
Definition gostConfigured (v : anyGOST) : list gostCertificate :=
  match v with AnyCerts l => l | _ => [] end.

(** The chain verification of a leaf [gc], by the kind of its signature. *)
Definition chain_verified (p : ClientParams) (now : Z) (rawCerts : list bytes)
  (gc : gostCertificate) (chains : list (list x509Certificate)) : Prop :=
  if IsGOST gc then
    exists wire gchains,
      gostConfigured (GOSTRoots p) <> [] /\ GOSTIntermediates p <> AnyOther /\
      mapM gostParseCertificate (tail rawCerts) = Some wire /\
      gostVerify gc {| GRoots := gostConfigured (GOSTRoots p);
                       GIntermediates := gostConfigured (GOSTIntermediates p) ++ wire;
                       GDNSName := p_ServerName p; GCurrentTime := now |} = Some gchains /\
      chains = map (map Stdlib) gchains
  else
    exists inter,
      mapM x509ParseCertificate (tail rawCerts) = Some inter /\
      x509Verify (Stdlib gc) {| Roots := RootCAs p; Intermediates := inter;
                                DNSName := p_ServerName p; CurrentTime := now |} = Some chains.

Definition leaf_accepted (p : ClientParams) (now : Z) (rawCerts : list bytes)
  (gc : gostCertificate) (chains : list (list x509Certificate)) : Prop :=
  (exists raw, rawCerts !! 0%nat = Some raw /\ gostParseCertificate raw = Some gc) /\
  if InsecureSkipVerify p then chains = [] else chain_verified p now rawCerts gc chains.

Lemma gostChainsToStdlib_eq ch : gostChainsToStdlib ch = map (map Stdlib) ch.
Proof.
  unfold gostChainsToStdlib. destruct (Z.eqb_spec (len ch) 0) as [E|]; [|done].
  now apply len_zero_nil in E as ->.
Qed.

Lemma slice_tail {A} (l : list A) :
  0 < len l -> slice (E := error) l 1 (len l) = Ok (tail l).
Proof. intros H. destruct l as [|x l]; [easy|]. rewrite slice_from by len_lia. reflexivity. Qed.

Lemma parseAndVerifyChain_wp rawCerts c :
  lok c -> 0 < len rawCerts ->
  wp (parseAndVerifyChain rawCerts) (fun '(leaf, chains) c' =>
      exists gc, leaf = Stdlib gc /\ leaf_accepted (c_params c) (c_now c) rawCerts gc chains /\
        c' = set_gostLeaf (if HasGOSTPubKey gc then Some gc else gostLeaf c) c)
    (fun _ c' => lok c') c.
Proof.
  intros Hl Hn. unfold parseAndVerifyChain.
  apply wp_bind, wp_lift; [now apply safe_index|intros raw I0|done].
  apply index_Ok in I0 as [_ I0].
  destruct (gostParseCertificate raw) as [gc|] eqn:Hgc; [|exact Hl].
  set (c1 := set_gostLeaf (if HasGOSTPubKey gc then Some gc else gostLeaf c) c).
  apply wp_bind. match goal with |- wp ?m ?Q ?E c => enough (Hw : wp (modify (fun _ => c1)) Q E c) end.
  { destruct (HasGOSTPubKey gc); [exact Hw|]. unfold c1 in Hw. now destruct c. }
  apply wp_modify. apply wp_bind, wp_get. change (c_params c1) with (c_params c).
  assert (Hacc : forall chains,
    (if InsecureSkipVerify (c_params c) then chains = []
     else chain_verified (c_params c) (c_now c) rawCerts gc chains) ->
    exists gc0, Stdlib gc = Stdlib gc0 /\
      leaf_accepted (c_params c) (c_now c) rawCerts gc0 chains /\
      c1 = set_gostLeaf (if HasGOSTPubKey gc0 then Some gc0 else gostLeaf c) c).
  { intros chains H. exists gc. split; [done|]. split; [|done]. split; [eauto|done]. }
  assert (Hlok1 : lok c1) by exact Hl.
  destruct (InsecureSkipVerify (c_params c)); [apply wp_ret; auto|].
  destruct (IsGOST gc) eqn:Hg.
  - apply wp_bind, wp_lift; [destruct (GOSTRoots (c_params c)) as [|l|]; cbn; [done| |done]; now destruct (_ =? _)| |done].
    intros roots Hroots. apply wp_bind, wp_lift; [now destruct (GOSTIntermediates (c_params c))| |done].
    intros inter Hinter. rewrite slice_tail by done. apply wp_bind, wp_lift; [done| |done].
    intros ? [= <-]. apply wp_bind, wp_lift; [auto with tls| |done].
    intros wire Hwire%parseGOSTIntermediates_spec.
    assert (Er : roots = gostConfigured (GOSTRoots (c_params c)) /\ roots <> []).
    { destruct (GOSTRoots (c_params c)) as [|l|]; cbn in Hroots; [done| |done].
      destruct (Z.eqb_spec (len l) 0) as [|Hne]; [done|]. injection Hroots as ->. split; [done|].
      now intros ->. }
    assert (Ei : inter = gostConfigured (GOSTIntermediates (c_params c)) /\
                 GOSTIntermediates (c_params c) <> AnyOther).
    { now destruct (GOSTIntermediates (c_params c)); [injection Hinter as <-|injection Hinter as <-|]. }
    destruct Er as [-> Hne]. destruct Ei as [-> Hno].
    change (c_now c1) with (c_now c).
    destruct (gostVerify gc _) as [gch|] eqn:Hv; [|exact Hl].
    apply wp_ret. apply Hacc. unfold chain_verified. rewrite Hg. exists wire, gch.
    rewrite gostChainsToStdlib_eq. done.
  - rewrite slice_tail by done. apply wp_bind, wp_lift; [done| |done]. intros ? [= <-].
    apply wp_bind, wp_lift; [auto with tls| |done].
    intros inter Hinter%parseStdlibIntermediates_spec.
    change (c_now c1) with (c_now c).
    destruct (x509Verify (Stdlib gc) _) as [ch|] eqn:Hv; [|exact Hl].
    apply wp_ret. apply Hacc. unfold chain_verified. rewrite Hg. eauto.
Qed.

(** The callback of the application, if any, was satisfied. *)
Definition callback_ok (p : ClientParams) (rawCerts : list bytes)
  (chains : list (list x509Certificate)) : Prop :=
  match VerifyPeerCertificate p with Some f => f rawCerts chains = None | None => True end.

Lemma recvCertificate_wp c :
  lok c ->
  wp recvCertificate (fun '(leaf, rawCerts) c' =>
      exists body gc chains c1,
        read_message c TypeCertificate body c1 /\ body = marshalCertificate rawCerts /\
        certs_wf rawCerts /\
        leaf = Stdlib gc /\
        leaf_accepted (c_params c) (c_now c) rawCerts gc chains /\
        callback_ok (c_params c) rawCerts chains /\
        c' = set_transcript (Write (c_transcript c) (buildEnvelope TypeCertificate body))
               (set_gostLeaf (if HasGOSTPubKey gc then Some gc else gostLeaf c) c1))
    via_fatal c.
Proof.
  intros Hl. unfold recvCertificate. apply wp_bind, wp_read; [done|].
  intros t body c1 Hr Hl1. destruct (Z.eqb_spec t TypeCertificate) as [->|]; [|now apply wp_fatal].
  cbn [negb]. apply wp_bind, wp_parse; [compute; split; congruence|eapply read_message_len; eauto|done|].
  intros m Hm. change (parseBody TypeCertificate body)
    with (let* m := parseCertificate body in Ok (MCertificate m)) in Hm.
  apply bind_Ok in Hm as (raw & Hraw & [= <-]).
  destruct (Z.eqb_spec (len raw) 0) as [|Hne]; [now apply wp_fatal|].
  pose proof (read_message_frame _ _ _ _ Hr) as (lx & bx & Ec1).
  apply wp_bind, wp_orFatal. eapply wp_mono; [apply parseAndVerifyChain_wp; [done|len_lia]| |done].
  intros [leaf chains] c2 (gc & -> & Hacc & ->). apply wp_bind, wp_get.
  assert (Hfin : forall E, callback_ok (c_params c) raw chains ->
    wp (transcriptWrite (buildEnvelope TypeCertificate body) ;; ret (Stdlib gc, raw))
      (fun '(leaf, rawCerts) c' =>
        exists body gc chains c1,
          read_message c TypeCertificate body c1 /\ body = marshalCertificate rawCerts /\
          certs_wf rawCerts /\
          leaf = Stdlib gc /\
          leaf_accepted (c_params c) (c_now c) rawCerts gc chains /\
          callback_ok (c_params c) rawCerts chains /\
          c' = set_transcript (Write (c_transcript c) (buildEnvelope TypeCertificate body))
                 (set_gostLeaf (if HasGOSTPubKey gc then Some gc else gostLeaf c) c1))
      E (set_gostLeaf (if HasGOSTPubKey gc then Some gc else gostLeaf c1) c1)).
  { intros E Hcb. apply wp_bind, wp_modify, wp_ret.
    exists body, gc, chains, c1. split; [done|]. apply parseCertificate_inv in Hraw as [Hraw Hwf].
    split; [done|]. split; [done|]. split; [done|]. subst c1. split; [exact Hacc|]. split; [done|]. reflexivity. }
  subst c1. unfold callback_ok in *. apply wp_bind. cbn [c_params set_gostLeaf set_hsBuf set_layer].
  destruct (VerifyPeerCertificate (c_params c)) as [f|]; [|now apply wp_ret, Hfin].
  destruct (f raw chains) eqn:Ef; [now apply wp_fatal|]. now apply wp_ret, Hfin.
Qed.

(** *** ServerKeyExchange *)

(** The parameters of an ephemeral exchange: a named curve and a point, or the prime,
    the generator and the public value. *)
Definition u16Field (b : bytes) : bytes := bePut 2 (len b) ++ b.

Definition params_framed (k : KexKind) (params : bytes) : Prop :=
  match k with
  | KexECDHE => exists i1 i2 pub,
      len pub < 256 /\ params = [curveTypeNamed; i1; i2; z2b (len pub)] ++ pub
  | KexDHE => exists p g ys,
      len p < 65536 /\ len g < 65536 /\ len ys < 65536 /\
      params = u16Field p ++ u16Field g ++ u16Field ys
  | _ => False
  end.

(** The body carries [params], then a signature over the two randoms and [params] by
    the key of [cert], by RSA or ECDSA as the suite says, with SHA-256 or SHA-384. *)
Definition ske_sig (s : Suite) (cert : x509Certificate) (cr sr body params : bytes) : Prop :=
  exists h sg sig rest,
    body = params ++ [h; sg] ++ bePut 2 (len sig) ++ sig ++ rest /\ len sig < 65536 /\
    (h = Byte.x04 \/ h = Byte.x05) /\
    match Auth s with
    | AuthRSA => sg = Byte.x01
    | AuthECDSA => sg = Byte.x03
    | _ => False
    end /\
    signed_by (PublicKeyOf cert) h sg (cr ++ sr ++ params) sig.

(** The client's two checks of the algorithm. *)
Lemma ske_alg_iff h sg auth :
  {| Hash := h; Sig := sg |} ∈ clientSigAlgsAdvertised /\ skeSigAlgMatchesAuth sg auth = true <->
  (h = Byte.x04 \/ h = Byte.x05) /\
  match auth with AuthRSA => sg = Byte.x01 | AuthECDSA => sg = Byte.x03 | _ => False end.
Proof.
  unfold clientSigAlgsAdvertised, skeSigAlgMatchesAuth, sigHashByte, sigHashSHA384, sigAlgRSA, sigAlgECDSA.
  rewrite !elem_of_cons, elem_of_nil.
  destruct auth; rewrite ?bool_decide_eq_true; naive_solver.
Qed.

Definition ske_signed (s : Suite) (cert : x509Certificate) (cr sr body params : bytes) : Prop :=
  params_framed (KX s) params /\ ske_sig s cert cr sr body params.

(** The same in full, for a ClientHello with the extensions [exts]: the parameters are
    signed over both randoms, with SHA-256 or SHA-384, by an algorithm that was offered,
    of the suite's kind and with a key of that kind. *)
Definition params_signed (s : Suite) (exts : list (Z * bytes)) (cert : x509Certificate)
  (cr sr body params : bytes) : Prop :=
  params_framed (KX s) params /\
  exists h sg sig rest hash,
    body = params ++ [h; sg] ++ bePut 2 (len sig) ++ sig ++ rest /\ offers exts h sg /\
    (h = Byte.x04 /\ hash = SHA256 \/ h = Byte.x05 /\ hash = SHA384) /\
    let dgst := digest hash (cr ++ sr ++ params) in
    match Auth s, PublicKeyOf cert with
    | AuthRSA, RSAPub k => sg = Byte.x01 /\ rsaVerifyPKCS1v15 k hash dgst sig = true
    | AuthECDSA, ECDSAPub k => sg = Byte.x03 /\ ecdsa_signature k dgst sig
    | _, _ => False
    end.

Lemma ske_signed_offered c s cert cr sr body params :
  ske_signed s cert cr sr body params -> params_signed s (helloExts c) cert cr sr body params.
Proof.
  intros [Hf (h & sg & sig & rest & Hb & _ & Hh & Hsg & (hash & Hhash & Hs))]. split; [done|].
  exists h, sg, sig, rest, hash. split; [done|]. split.
  { apply helloExts_offers, (ske_alg_iff h sg (Auth s)). done. }
  split; [destruct Hh as [-> | ->]; injection Hhash as <-; auto|].
  destruct (Auth s), (PublicKeyOf cert); try done; destruct Hs as [-> Hs]; done.
Qed.

Lemma verifySKESignature_wp s cert params sigData e1 e2 c :
  lok c -> c_suite c = Some s ->
  wp (verifySKESignature cert params sigData e1 e2) (fun p c' =>
      p = params /\ c' = c /\
      ske_sig s cert (clientRandom c) (serverRandom c) (params ++ sigData) params)
    via_fatal c.
Proof.
  intros Hl Hs. unfold verifySKESignature.
  destruct (len sigData <? 4) eqn:E4; [now apply wp_fatal|]. z_bool.
  apply wp_bind, wp_index; [lia|]. intros h Ih.
  apply wp_bind, wp_index; [lia|]. intros sg Is.
  apply wp_bind, wp_slice; [lia..|]. intros lb Hlb.
  destruct (len sigData <? 4 + beUint lb) eqn:El; [now apply wp_fatal|]. z_bool.
  pose proof (beUint_nonneg lb).
  apply wp_bind, wp_slice; [lia..|]. intros sig Hsig.
  destruct (sigAlgAdvertised h sg) eqn:Hadv; [|now apply wp_fatal]. cbn [negb].
  apply wp_bind, (wp_getSuite s); [done|].
  destruct (skeSigAlgMatchesAuth sg (Auth s)) eqn:Ha; [|now apply wp_fatal]. cbn [negb].
  apply wp_bind, wp_get. apply wp_bind, wp_orFatal_lift; [auto with tls|done|].
  intros [] Hv. apply wp_ret. split; [done|]. split; [done|].
  exists h, sg, sig, (drop (Z.to_nat (4 + beUint lb)) sigData).
  apply sigAlgAdvertised_iff in Hadv. apply verifySignature_iff in Hv.
  destruct (proj1 (ske_alg_iff h sg (Auth s)) (conj Hadv Ha)) as [Hh Hsg].
  split; [|split; [|done]].
  2:{ apply slice_Ok in Hsig as (_ & _ & _ & Hsig & _), Hlb as (_ & _ & _ & Hlb & _).
      pose proof (beUint_range lb) as Hr. rewrite Hlb in Hr. lia. }
  f_equal. apply index_Ok in Ih as [_ Ih], Is as [_ Is].
  apply slice_Ok in Hlb as (_ & _ & _ & Llb & Elb), Hsig as (_ & _ & _ & Lsig & Esig).
  destruct sigData as [|x0 [|x1 [|x2 [|x3 d]]]]; [len_lia..|].
  cbn in Ih, Is, Elb. injection Ih as ->. injection Is as ->.
  replace (bePut 2 (len sig)) with [x2; x3].
  2:{ rewrite Lsig. replace (4 + beUint lb - 4) with (beUint lb) by lia. rewrite Elb.
      symmetry. apply (bePut_beUint [x2; x3]). }
  replace (Z.to_nat (4 + beUint lb)) with (4 + Z.to_nat (beUint lb))%nat by lia.
  cbn [app drop Nat.add]. do 4 f_equal. rewrite Esig.
  replace (4 + beUint lb - 4) with (beUint lb) by lia.
  cbn [drop Z.to_nat Pos.to_nat Pos.iter_op Nat.add]. symmetry. apply take_drop.
Qed.

Lemma readU16LenPrefixedBuf_put f rest :
  len f < 65536 -> readU16LenPrefixedBuf (u16Field f ++ rest) = Ok rest.
Proof.
  intros Hf. pose proof (len_nonneg f). pose proof (len_nonneg rest).
  unfold readU16LenPrefixedBuf, u16Field. rewrite <- app_assoc.
  assert (Hl : len (bePut 2 (len f) ++ f ++ rest) = 2 + (len f + len rest))
    by (rewrite !len_app, len_bePut; reflexivity).
  rewrite (proj2 (Z.ltb_ge _ _)) by lia.
  rewrite (slice_app_l _ (f ++ rest) 2) by (now rewrite len_bePut). cbn [bind].
  rewrite slice_app_r by (rewrite len_bePut; reflexivity || (rewrite Hl, len_app; reflexivity)). cbn [bind].
  rewrite beUint_put_small by (cbn; lia). rewrite (proj2 (Z.ltb_ge _ _)) by (rewrite len_app; lia).
  now rewrite slice_app_r by (done || now rewrite len_app).
Qed.

Lemma readU16LenPrefixedBuf_Ok b rest :
  readU16LenPrefixedBuf b = Ok rest -> exists f, len f < 65536 /\ b = u16Field f ++ rest.
Proof.
  unfold readU16LenPrefixedBuf, u16Field. intros H. res_inv.
  pose proof (beUint_range v) as Hr.
  apply slice_Ok in Hv as (_ & _ & _ & Lv & Ev), Hv0 as (_ & _ & _ & L0 & E0), H as (_ & _ & _ & _ & E1).
  rewrite take_ge in E0 by (rewrite length_drop; unfold len; lia).
  rewrite take_ge in E1 by (rewrite length_drop; unfold len; lia).
  rewrite Lv in Hr. exists (take (Z.to_nat (beUint v)) v0).
  assert (Lf : len (take (Z.to_nat (beUint v)) v0) = beUint v) by (rewrite len_take; lia).
  rewrite Lf. split; [lia|]. replace (bePut 2 (beUint v)) with v.
  2:{ symmetry. rewrite <- (bePut_beUint v) at 2. f_equal. unfold len in Lv. lia. }
  rewrite <- app_assoc, E1, take_drop, E0, Ev. cbn [Z.to_nat drop]. symmetry. apply take_drop.
Qed.

Lemma readU16LenPrefixedBuf_safe b : safe (readU16LenPrefixedBuf b).
Proof.
  unfold readU16LenPrefixedBuf. safe_auto. pose proof (beUint_nonneg a). apply safe_slice; z_bool; lia.
Qed.

Lemma ecdhe_framed body b3 params :
  index (E := error) body 0 = Ok curveTypeNamed -> index (E := error) body 3 = Ok b3 ->
  slice (E := error) body 0 (4 + b2z b3) = Ok params -> params_framed KexECDHE params.
Proof.
  intros I0 I3 Hp. pose proof (b2z_range b3). apply index_Ok in I0 as [_ I0], I3 as [? I3].
  apply slice_Ok in Hp as (_ & _ & Hle & Hlen & Ep).
  destruct body as [|x0 [|x1 [|x2 [|x3 body]]]]; [len_lia..|]. cbn in I0, I3.
  injection I0 as ->. injection I3 as ->.
  replace (Z.to_nat (4 + b2z b3 - 0)) with (4 + Z.to_nat (b2z b3))%nat in Ep by lia.
  cbn [Nat.add drop take Z.to_nat] in Ep. exists x1, x2, (take (Z.to_nat (b2z b3)) body).
  assert (Hl : len (take (Z.to_nat (b2z b3)) body) = b2z b3).
  { rewrite len_take. rewrite !len_cons in Hle. lia. }
  rewrite Hl, z2b_b2z. split; [lia|exact Ep].
Qed.

(** Parameters of a ServerKeyExchange come only with a verified signature. *)
Lemma verifyServerKeyExchange_wp s body cert c :
  lok c -> c_suite c = Some s ->
  wp (verifyServerKeyExchange body cert) (fun params c' =>
      c' = c /\ (KX s = KexECDHE \/ KX s = KexDHE) /\
      ske_signed s cert (clientRandom c) (serverRandom c) body params)
    via_fatal c.
Proof.
  intros Hl Hs. unfold verifyServerKeyExchange. apply wp_bind, (wp_getSuite s); [done|].
  destruct (KX s) eqn:HK; try now apply wp_fatal.
  - unfold verifyDHEServerKeyExchange.
    do 3 (apply wp_bind, wp_orFatal_lift; [apply readU16LenPrefixedBuf_safe|done|];
      let r := fresh "rest" in let f := fresh "f" in let E := fresh "E" in let L := fresh "L" in
      intros r (f & L & E)%readU16LenPrefixedBuf_Ok).
    assert (Eb : body = (u16Field f ++ u16Field f0 ++ u16Field f1) ++ rest1)
      by (subst; now rewrite <- !app_assoc).
    assert (Hsl : slice (E := error) body 0 (len body - len rest1)
                  = Ok (u16Field f ++ u16Field f0 ++ u16Field f1))
      by (rewrite Eb; apply slice_app_l; rewrite len_app; lia).
    rewrite Hsl. apply wp_bind, wp_lift; [done| |done]. intros x Hx.
    apply (f_equal (fun r => match r with Ok b => b | _ => [] end)) in Hx. cbv beta iota in Hx. subst x.
    eapply wp_mono; [now apply (verifySKESignature_wp s)| |done].
    intros p c' (-> & -> & H). split; [done|]. split; [auto|].
    split; [rewrite HK; exists f, f0, f1; done|]. now rewrite <- Eb in H.
  - unfold verifyECDHEServerKeyExchange.
    destruct (len body <? 4) eqn:E4; [now apply wp_fatal|]. z_bool.
    apply wp_bind, wp_index; [lia|]. intros ct I0.
    case_bool_decide as Hct; [|now apply wp_fatal]. cbn [negb].
    apply wp_bind, wp_slice; [lia..|]. intros _ _.
    apply wp_bind, wp_index; [lia|]. intros b3 I3.
    pose proof (b2z_range b3).
    destruct (len body <? 4 + b2z b3 + 2) eqn:El; [now apply wp_fatal|]. z_bool.
    apply wp_bind, wp_slice; [lia..|]. intros params Hp.
    apply wp_bind, wp_slice; [lia..|]. intros sigData Hd.
    eapply wp_mono; [now apply (verifySKESignature_wp s)| |done].
    intros p c' (-> & -> & Hsk). split; [done|]. split; [auto|].
    split; [|now rewrite (slice_split _ _ _ _ Hp Hd)]. rewrite HK. subst ct.
    eapply ecdhe_framed; eauto.
Qed.

(** *** The server flight *)

(** The messages of the flight, in their order on the wire. *)
Definition flightMsgs (ske : option bytes) (creq : option (bytes * CertificateRequest))
  : list bytes :=
  option_list (buildEnvelope TypeServerKeyExchange <$> ske) ++
  option_list (buildEnvelope TypeCertificateRequest ∘ fst <$> creq) ++
  [buildEnvelope TypeServerHelloDone []].

(** [c] after reading the messages [msgs] and adding them to the transcript. *)
Definition after_flight (c : ClientState) (msgs : list bytes) (req : option CertificateRequest)
  (c' : ClientState) : Prop :=
  exists l ps b,
    hs_reads (c_layer c) ps l /\ layer_ok l /\ hsBuf c ++ concat ps = concat msgs ++ b /\
    Forall (fun m => len m <= 4 + maxHandshakeMsg) msgs /\
    c' = set_hsBuf b (set_layer l (set_certReq req
           (set_transcript (foldl Write (c_transcript c) msgs) c))).

Lemma after_flight_step c t body c1 c1' msgs req0 req c' :
  read_message c t body c1 ->
  c1' = set_certReq req0 (set_transcript (Write (c_transcript c1) (buildEnvelope t body)) c1) ->
  after_flight c1' msgs req c' ->
  after_flight c (buildEnvelope t body :: msgs) req c'.
Proof.
  intros (l1 & ps1 & b1 & R1 & O1 & _ & Hn & B1 & ->) -> (l2 & ps2 & b2 & R2 & O2 & B2 & F2 & ->).
  exists l2, (ps1 ++ ps2), b2. split; [eapply hs_reads_app; eauto|]. split; [done|].
  split; [|split; [constructor; [rewrite len_buildEnvelope; lia|done]|reflexivity]]. cbn in B2. cbn [concat].
  rewrite concat_app, app_assoc, B1, <- !app_assoc, B2. reflexivity.
Qed.

(** What the loop promises from a state in which it has seen [sawSKE] and [sawCR]. *)
Definition flight_post (s : Suite) (cert : x509Certificate) (sawSKE sawCR : bool) (params : bytes)
  (c : ClientState) (out : bool * bytes) (c' : ClientState) : Prop :=
  exists ske creq,
    fst out = sawSKE || match ske with Some _ => true | None => false end /\
    match ske with
    | Some body => (KX s = KexECDHE \/ KX s = KexDHE) /\
        ske_signed s cert (clientRandom c) (serverRandom c) body (snd out)
    | None => snd out = params
    end /\
    match creq with
    | Some (body, req) => parseCertificateRequest body = Ok req
    | None => True
    end /\
    after_flight c (flightMsgs ske creq)
      (match creq with Some (_, req) => Some req | None => certReq c end) c' /\
    (sawSKE || sawCR = true -> ske = None) /\ (sawCR = true -> creq = None).

(** The three messages a turn may read. *)

Lemma flight_post_ske s cert params params' c body c1 out c' :
  read_message c TypeServerKeyExchange body c1 ->
  KX s = KexECDHE \/ KX s = KexDHE ->
  ske_signed s cert (clientRandom c) (serverRandom c) body params' ->
  flight_post s cert true false params'
    (set_transcript (Write (c_transcript c1) (buildEnvelope TypeServerKeyExchange body)) c1) out c' ->
  flight_post s cert false false params c out c'.
Proof.
  intros Hr HK Hsk (ske & creq & Ho & Hp & Hc & Haf & Hn1 & _).
  pose proof (read_message_frame _ _ _ _ Hr) as (lx & bx & Ec1).
  pose proof (Hn1 eq_refl) as ->. exists (Some body), creq.
  split; [done|]. rewrite Hp. split; [done|]. split; [done|]. split; [|done].
  apply (after_flight_step c TypeServerKeyExchange body c1 (set_certReq (certReq c1)
    (set_transcript (Write (c_transcript c1) (buildEnvelope TypeServerKeyExchange body)) c1))
    (flightMsgs None creq) (certReq c1)); [done|done|].
  subst c1. exact Haf.
Qed.

Lemma flight_post_cr s cert sawSKE params c body req c1 out c' :
  read_message c TypeCertificateRequest body c1 -> parseCertificateRequest body = Ok req ->
  flight_post s cert sawSKE true params (set_transcript
      (Write (c_transcript c1) (buildEnvelope TypeCertificateRequest body)) (set_certReq (Some req) c1))
    out c' ->
  flight_post s cert sawSKE false params c out c'.
Proof.
  intros Hr Hreq (ske & creq & Ho & Hp & Hc & Haf & Hn1 & Hn2).
  pose proof (Hn1 (orb_true_r _)) as ->. pose proof (Hn2 eq_refl) as ->.
  exists None, (Some (body, req)). split; [done|]. split; [done|]. split; [done|]. split; [|done].
  apply (after_flight_step c TypeCertificateRequest body c1 (set_certReq (Some req)
    (set_transcript (Write (c_transcript c1) (buildEnvelope TypeCertificateRequest body)) c1))
    (flightMsgs None None) (Some req)); [done|done|]. exact Haf.
Qed.

Lemma flight_post_done s cert sawSKE sawCR params c c1 :
  read_message c TypeServerHelloDone [] c1 ->
  flight_post s cert sawSKE sawCR params c (sawSKE, params)
    (set_transcript (Write (c_transcript c1) (buildEnvelope TypeServerHelloDone [])) c1).
Proof.
  intros (l1 & ps1 & b1 & R1 & O1 & _ & _ & B1 & ->). exists None, None.
  split; [cbn; now rewrite orb_false_r|]. split; [done|]. split; [done|]. split; [|done].
  exists l1, ps1, b1. split; [done|]. split; [done|]. split; [exact B1|]. split; [|reflexivity].
  repeat constructor. vm_compute. congruence.
Qed.

Lemma serverFlightLoop_wp s cert fuel (sawSKE sawCR : bool) params c :
  ((if sawCR then 1 else if sawSKE then 2 else 3) <= fuel)%nat ->
  lok c -> c_suite c = Some s ->
  wp (serverFlightLoop fuel cert sawSKE sawCR params) (flight_post s cert sawSKE sawCR params c)
    via_fatal c.
Proof.
  revert sawSKE sawCR params c; induction fuel as [|fuel IH]; intros sawSKE sawCR params c Hf Hl Hs;
    [destruct sawCR, sawSKE; lia|].
  cbn [serverFlightLoop]. apply wp_bind, wp_read; [done|]. intros t body c1 Hr Hl1.
  pose proof (read_message_len _ _ _ _ Hr) as Hlen.
  pose proof (read_message_frame _ _ _ _ Hr) as (lx & bx & Ec1).
  destruct (Z.eqb_spec t TypeServerKeyExchange) as [->|_].
  { destruct sawSKE; [now apply wp_fatal|]. destruct sawCR; [now apply wp_fatal|].
    apply wp_bind, wp_parse; [compute; split; congruence|done|done|].
    intros m [= <-]. apply wp_bind, wp_modify. apply wp_bind.
    eapply wp_mono; [apply (verifyServerKeyExchange_wp s); [done|now subst c1]| |done].
    intros params' c2 (-> & HK & Hsk).
    eapply wp_mono; [apply IH; [lia|done|now subst c1]| |done].
    intros out c'. apply (flight_post_ske _ _ _ _ _ _ _ _ _ Hr HK). subst c1. exact Hsk. }
  destruct (Z.eqb_spec t TypeCertificateRequest) as [->|_].
  { destruct sawCR; [now apply wp_fatal|].
    apply wp_bind, wp_parse; [compute; split; congruence|done|done|].
    intros m Hm. change (parseBody TypeCertificateRequest body)
      with (let* m := parseCertificateRequest body in Ok (MCertificateRequest m)) in Hm.
    apply bind_Ok in Hm as (req & Hreq & [= <-]).
    apply wp_bind, wp_modify. apply wp_bind, wp_modify.
    eapply wp_mono; [apply IH; [destruct sawSKE; lia|done|now subst c1]| |done].
    intros out c'. exact (flight_post_cr _ _ _ _ _ _ _ _ _ _ Hr Hreq). }
  destruct (Z.eqb_spec t TypeServerHelloDone) as [->|_]; [|now apply wp_fatal].
  apply wp_bind, wp_parse; [compute; split; congruence|done|done|].
  intros m Hm. change (parseBody TypeServerHelloDone body)
    with (let* _ := parseServerHelloDone body in Ok MServerHelloDone) in Hm.
  apply bind_Ok in Hm as ([] & Hb & _). unfold parseServerHelloDone in Hb.
  destruct (Z.eqb_spec (len body) 0) as [E0%len_zero_nil|]; [|done]. subst body.
  apply wp_bind, wp_modify, wp_ret. now apply flight_post_done.
Qed.

(** The whole flight: a ServerKeyExchange was there, verified, exactly when the
    suite is ephemeral. *)
Definition flight_ok (s : Suite) (cert : x509Certificate) (cr sr : bytes) (ske : option bytes)
  (params : bytes) : Prop :=
  match KX s, ske with
  | (KexECDHE | KexDHE), Some body => ske_signed s cert cr sr body params
  | (KexECDHE | KexDHE), None => False
  | _, Some _ => False
  | _, None => params = []
  end.

Lemma recvServerFlight_wp s cert c :
  lok c -> c_suite c = Some s -> certReq c = None ->
  wp (recvServerFlight cert) (fun params c' =>
      exists ske creq,
        flight_ok s cert (clientRandom c) (serverRandom c) ske params /\
        match creq with
        | Some (body, req) => parseCertificateRequest body = Ok req
        | None => True
        end /\
        after_flight c (flightMsgs ske creq) (snd <$> creq) c')
    via_fatal c.
Proof.
  intros Hl Hs Hc0. unfold recvServerFlight. apply wp_bind.
  eapply wp_mono; [apply (serverFlightLoop_wp s); [lia|done|done]| |done].
  intros [saw params] c' (ske & creq & Ho & Hp & Hreq & Haf & _). cbn [fst snd orb] in Ho, Hp. subst saw.
  assert (Haf' : after_flight c (flightMsgs ske creq) (snd <$> creq) c').
  { destruct creq as [[]|]; [exact Haf|]. now rewrite Hc0 in Haf. }
  assert (Hl' : lok c' /\ c_suite c' = Some s).
  { destruct Haf as (l & ps & b & _ & ? & _ & _ & ->). done. }
  destruct Hl' as [Hl' Hs'].
  destruct ske as [body|].
  - cbn [negb]. apply wp_ret.
    exists (Some body), creq. split; [|done]. unfold flight_ok.
    destruct Hp as [[-> | ->] Hp]; exact Hp.
  - cbn [negb].
    apply wp_bind, (wp_getSuite s); [done|]. subst params.
    destruct (KX s) eqn:HK; try (now apply wp_fatal); apply wp_ret; exists None, creq;
      (split; [unfold flight_ok; now rewrite HK|done]).
Qed.

(** *** Key exchange *)

Lemma setRngs_get c : setRngs (getRngs c) c = c.
Proof. destruct c as [? [[] ? ? ? ?] ? ? ? ? ? ? ? ? ? ? ? ? ?]. reflexivity. Qed.

(** The key wrap of a GOST 2018 suite. *)
Definition variantOf (s : Suite) : option Gost2018Variant :=
  if ID s =? 0xC100 then Some Variant2018Kuznyechik
  else if ID s =? 0xC101 then Some Variant2018Magma
  else None.

(** The exchange is the suite's, with the key of the server's certificate: what the
    constructor of its kind makes of the certificate and the two randoms. *)
Definition exchange_for (s : Suite) (cert : x509Certificate) (leaf : option gostCertificate)
  (cr sr : bytes) (e : Exchange) : Prop :=
  match KX s with
  | KexECDHE => e = ExECDHE
  | KexDHE => e = ExDHE None
  | KexRSA => exists pub, PublicKeyOf cert = RSAPub pub /\ e = ExRSA pub
  | KexGOST2001 =>
      exists gc curve v r r', leaf = Some gc /\ gostCurveByOID (CurveOID gc) = Some curve /\
        NewVKOGost2001Exchange (Some curve) (SPKIAlgorithmDER gc) (PubKeyRaw gc) (take 8 cr) r
        = (Ok v, r') /\ e = ExVKO2001 v
  | KexGOST2012_256 =>
      exists gc curve v r r', leaf = Some gc /\ gostCurveByOID (CurveOID gc) = Some curve /\
        NewVKOGost2012_256Exchange (Some curve) (SPKIAlgorithmDER gc) (PubKeyRaw gc) (take 8 cr) r
        = (Ok v, r') /\ e = ExVKO2012 v
  | KexGOST2018_256 =>
      exists gc curve v g, leaf = Some gc /\ gostCurveByOID (CurveOID gc) = Some curve /\
        variantOf s = Some v /\
        NewGost2018Exchange (Some curve) (SPKIAlgorithmDER gc) (PubKeyRaw gc) v (Some (cr ++ sr))
        = Ok g /\ e = ExGost2018 g
  end.

Lemma exchange_for_ok s cert leaf cr sr e : exchange_for s cert leaf cr sr e -> exchange_ok e.
Proof.
  unfold exchange_for. destruct (KX s); try (now intros ->); intros H; decompose [ex and] H; subst; try exact I.
  match goal with H : NewGost2018Exchange _ _ _ _ _ = Ok _ |- _ =>
    apply NewGost2018Exchange_Ok in H as [Hv (c & _ & -> & _)] end. exact Hv.
Qed.

Lemma NewVKOGost2001Exchange_safe curve a p u : msafe (NewVKOGost2001Exchange curve a p u).
Proof.
  unfold NewVKOGost2001Exchange, vkoUKMMinLen. msafe_auto. apply drawSys_safe.
Qed.

Lemma NewVKOGost2012_256Exchange_safe curve a p u : msafe (NewVKOGost2012_256Exchange curve a p u).
Proof.
  unfold NewVKOGost2012_256Exchange, vkoUKMMinLen. msafe_auto. apply drawSys_safe.
Qed.

Lemma NewVKOGost2001Exchange_Ok curve a p u r v r' :
  NewVKOGost2001Exchange curve a p u r = (Ok v, r') -> vko_pubRaw v = p /\ vko_ukm v = take 8 u.
Proof.
  unfold NewVKOGost2001Exchange, vkoUKMMinLen. destruct curve; [|done]. intros H. run_inv.
  apply slice_Ok in Hr0 as (_ & _ & _ & _ & ->). done.
Qed.

Lemma NewVKOGost2012_256Exchange_Ok curve a p u r v r' :
  NewVKOGost2012_256Exchange curve a p u r = (Ok v, r') -> vko_pubRaw v = p /\ vko_ukm v = take 8 u.
Proof.
  unfold NewVKOGost2012_256Exchange, vkoUKMMinLen. destruct curve; [|done]. intros H. run_inv.
  apply slice_Ok in Hr0 as (_ & _ & _ & _ & ->). done.
Qed.

Lemma buildGOST2018Exchange_wp s c :
  c_suite c = Some s ->
  wp buildGOST2018Exchange (fun e c' =>
      c' = c /\
      exists gc curve v g, gostLeaf c = Some gc /\ gostCurveByOID (CurveOID gc) = Some curve /\
        variantOf s = Some v /\
        NewGost2018Exchange (Some curve) (SPKIAlgorithmDER gc) (PubKeyRaw gc) v
          (Some (clientRandom c ++ serverRandom c)) = Ok g /\ e = ExGost2018 g)
    (fun _ c' => c' = c) c.
Proof.
  intros Hs. unfold buildGOST2018Exchange. apply wp_bind, wp_get.
  destruct (gostLeaf c) as [gc|]; [|done].
  destruct (gostCurveByOID (CurveOID gc)) as [curve|] eqn:Hcv; [|done].
  apply wp_bind, (wp_getSuite s); [done|]. apply wp_bind.
  assert (Hk : forall v, variantOf s = Some v ->
    wp (let! e := lift (NewGost2018Exchange (Some curve) (SPKIAlgorithmDER gc)
          (PubKeyRaw gc) v (Some (clientRandom c ++ serverRandom c))) in ret (ExGost2018 e))
    (fun e c' => c' = c /\
      exists gc0 curve v g, Some gc = Some gc0 /\ gostCurveByOID (CurveOID gc0) = Some curve /\
        variantOf s = Some v /\
        NewGost2018Exchange (Some curve) (SPKIAlgorithmDER gc0) (PubKeyRaw gc0) v
          (Some (clientRandom c ++ serverRandom c)) = Ok g /\ e = ExGost2018 g) (fun _ c' => c' = c) c).
  { intros v Hv. apply wp_bind, wp_lift; [|intros g Hg|done].
    - unfold NewGost2018Exchange. safe_auto.
    - apply wp_ret. split; [done|]. exists gc, curve, v, g. auto. }
  unfold variantOf in *.
  destruct (ID s =? 0xC100); [now apply wp_ret, Hk|].
  destruct (ID s =? 0xC101); [now apply wp_ret, Hk|done].
Qed.

Lemma buildGOSTExchange_wp s cert c :
  lok c -> c_suite c = Some s -> len (clientRandom c) = 32 ->
  (KX s = KexGOST2001 \/ KX s = KexGOST2012_256 \/ KX s = KexGOST2018_256) ->
  wp buildGOSTExchange (fun e c' =>
      exchange_for s cert (gostLeaf c) (clientRandom c) (serverRandom c) e /\
      exists r, c' = setRngs r c)
    (fun _ c' => lok c') c.
Proof.
  intros Hl Hs Hcr HK. unfold buildGOSTExchange, exchange_for. apply wp_bind, wp_get.
  destruct (gostLeaf c) as [gc|] eqn:Hg; [|done].
  destruct (gostCurveByOID (CurveOID gc)) as [curve|] eqn:Hcv; [|done].
  apply wp_bind, wp_slice; [lia..|]. intros ukm Hu.
  apply slice_Ok in Hu as (_ & _ & _ & _ & Hu). change (Z.to_nat (8 - 0)) with 8%nat in Hu.
  change (Z.to_nat 0) with 0%nat in Hu. rewrite drop_0 in Hu.
  apply wp_bind, (wp_getSuite s); [done|]. destruct (KX s) eqn:EK; try (exfalso; naive_solver).
  - apply wp_bind, wp_onRngs; [done|apply NewVKOGost2001Exchange_safe|]. intros v r Hv.
    apply wp_ret. split; [|eauto]. subst ukm. now exists gc, curve, v, (getRngs c), r.
  - apply wp_bind, wp_onRngs; [done|apply NewVKOGost2012_256Exchange_safe|]. intros v r Hv.
    apply wp_ret. split; [|eauto]. subst ukm. now exists gc, curve, v, (getRngs c), r.
  - eapply wp_mono; [now apply (buildGOST2018Exchange_wp s)| |].
    + intros e c' (-> & H). rewrite Hg in H. split; [exact H|]. exists (getRngs c).
      now rewrite setRngs_get.
    + now intros e c' ->.
Qed.

(** The pre-master secret and the message body are the exchange's. *)
Definition kex_done (s : Suite) (cert : x509Certificate) (params : bytes) (c : ClientState)
  (out : bytes * bytes) (c' : ClientState) : Prop :=
  exists e r0 r,
    exchange_for s cert (gostLeaf c) (clientRandom c) (serverRandom c) e /\
    ClientKeyExchange e params r0 = (Ok (snd out, fst out), r) /\ c' = setRngs r c.

Lemma computeKeyExchange_wp s cert params c :
  lok c -> c_suite c = Some s -> len (clientRandom c) = 32 ->
  wp (computeKeyExchange cert params) (kex_done s cert params c) via_fatal c.
Proof.
  intros Hl Hs Hcr. unfold computeKeyExchange. apply wp_bind, (wp_getSuite s); [done|]. apply wp_bind.
  assert (Hk : forall e r1,
    exchange_for s cert (gostLeaf c) (clientRandom c) (serverRandom c) e ->
    wp (let! (ckeBody, preMaster) :=
          orFatal AlertHandshakeFailure (onRngs (ClientKeyExchange e params)) in
        ret (preMaster, ckeBody)) (kex_done s cert params c) via_fatal (setRngs r1 c)).
  { intros e r1 He. apply wp_bind, wp_orFatal, wp_onRngs;
      [now apply lok_setRngs|eapply ClientKeyExchange_safe, exchange_for_ok, He|].
    intros [cke pm] r Hr. apply wp_ret. exists e. eexists _, r. split; [done|].
    split; [exact Hr|]. reflexivity. }
  pose proof (fun e => Hk e (getRngs c)) as Hk0. rewrite setRngs_get in Hk0.
  assert (Hg : (KX s = KexGOST2001 \/ KX s = KexGOST2012_256 \/ KX s = KexGOST2018_256) ->
    wp (orFatal AlertHandshakeFailure buildGOSTExchange)
      (fun e c' => wp (let! (ckeBody, preMaster) :=
          orFatal AlertHandshakeFailure (onRngs (ClientKeyExchange e params)) in
        ret (preMaster, ckeBody)) (kex_done s cert params c) via_fatal c') via_fatal c).
  { intros HK. apply wp_orFatal. eapply wp_mono; [now apply (buildGOSTExchange_wp s cert)| |done].
    intros e c1 [He [r ->]]. now apply Hk. }
  unfold exchange_for in Hk0.
  destruct (KX s) eqn:EK; try (now apply wp_ret, Hk0); try (apply Hg; auto).
  destruct (PublicKeyOf cert) eqn:Ep; [|now apply wp_fatal..].
  apply wp_lift; [done|intros ? [= <-]; apply Hk0; eauto|done].
Qed.

(** *** Keys *)

(** The protectors of both directions, from the key schedule. *)
Definition keys_from (s : Suite) (ms cr sr : bytes) (sendP recvP : AnyProtector) : Prop :=
  exists km,
    KeyExpansion s ms cr sr = Ok km /\
    buildProtector s (ClientEncKey km) (ClientMACKey km) (ClientIV km) = Ok sendP /\
    buildProtector s (ServerEncKey km) (ServerMACKey km) (ServerIV km) = Ok recvP.

Lemma expandKeys_wp s c :
  lok c -> c_suite c = Some s -> s ∈ allSuites ->
  len (clientRandom c) = 32 -> len (serverRandom c) = 32 ->
  wp expandKeys (fun '(_, sendP, recvP) c' =>
      c' = c /\ keys_from s (c_masterSecret c) (clientRandom c) (serverRandom c) sendP recvP /\
      any_ok sendP /\ any_ok recvP /\ sendP <> PNull /\ recvP <> PNull)
    via_fatal c.
Proof.
  intros Hl Hs Hall Hc Hr. unfold expandKeys. apply wp_bind, (wp_getSuite s); [done|].
  change (negb (AEAD (Cipher s)) && _ && _ && _) with (isCBCSuite s).
  change (if isCBCSuite s then 0 else FixedIVLen (Cipher s)) with (keyBlockIVLen s).
  pose proof (allSuites_lens s Hall) as Hlen. unfold suite_lens_ok in Hlen. z_bool.
  rewrite (proj2 (Z.eqb_neq _ 0)) by lia. apply wp_bind, wp_get.
  destruct (suite_protectors s (c_masterSecret c) (clientRandom c) (serverRandom c) Hall Hc Hr)
    as (km & sp & rp & E1 & E2 & E3 & E4 & O1 & O2 & N1 & N2).
  rewrite E1. apply wp_bind, wp_orFatal_lift; [done|done|]. intros ? [= <-].
  rewrite E3. apply wp_bind, wp_orFatal_lift; [done|done|]. intros ? [= <-].
  rewrite E4. apply wp_bind, wp_orFatal_lift; [done|done|]. intros ? [= <-].
  apply wp_ret. split; [done|]. split; [exists km; done|]. done.
Qed.

(** *** Client authentication *)

(** The algorithm the client signs with: the first in its order that the server
    listed and that suits the key of the first certificate. *)
Definition selectedAlg (p : ClientParams) (req : CertificateRequest) : option SigAndHash :=
  match Certificates p with
  | [] => None
  | cert :: _ => firstSuited (cc_PrivateKey cert) (cr_SupportedSignatureAlgs req)
  end.

Lemma selectClientSigAlg_eq c :
  selectClientSigAlg c
  = Ok (match certReq c with
        | Some req => match selectedAlg (c_params c) req with
                      | Some alg => (alg, true) | None => (zeroSigAlg, false) end
        | None => (zeroSigAlg, false)
        end).
Proof.
  unfold selectClientSigAlg, selectedAlg. destruct (certReq c) as [req|]; [|done].
  destruct (Certificates (c_params c)) as [|cert l]; [done|].
  rewrite (proj2 (Z.eqb_neq _ 0)) by len_lia.
  change (index (cert :: l) 0) with (Ok (E := error) cert). cbn [bind].
  rewrite firstSigAlg_suited. now destruct (firstSuited _ _).
Qed.

(** The client's Certificate message. *)
Definition clientCertMsg (p : ClientParams) (req : CertificateRequest) : bytes :=
  MarshalMessage (MCertificate
    match selectedAlg p req with
    | Some _ => take 1 (map RawCertificate (Certificates p))
    | None => []
    end).

Lemma sendClientCertificate_wp req c :
  lok c -> certReq c = Some req ->
  wp sendClientCertificate (fun sent c' =>
      sent = match selectedAlg (c_params c) req with Some _ => true | None => false end /\
      exists l, layer_ok l /\ sends (c_layer c) (hsRecords [clientCertMsg (c_params c) req]) l /\
        c' = set_transcript (Write (c_transcript c) (clientCertMsg (c_params c) req)) (set_layer l c))
    via_fatal c.
Proof.
  intros Hl Hreq. unfold sendClientCertificate. apply wp_bind, wp_get.
  rewrite selectClientSigAlg_eq, Hreq. unfold clientCertMsg.
  apply wp_bind, wp_lift; [done| |done]. intros [alg algOK] [= Ea].
  assert (Hfin : forall msg (sent : bool), wp (writeHandshake (MarshalMessage msg) ;;
      transcriptWrite (MarshalMessage msg) ;; ret sent)
    (fun sent' c' => sent' = sent /\ exists l, layer_ok l /\
      sends (c_layer c) (hsRecords [MarshalMessage msg]) l /\
      c' = set_transcript (Write (c_transcript c) (MarshalMessage msg)) (set_layer l c)) via_fatal c).
  { intros msg sent. apply wp_bind, wp_writeHandshake; [done|]. intros l Hl' Hw.
    apply wp_bind, wp_modify, wp_ret. split; [done|]. exists l.
    split; [done|]. split; [now apply sends_write|done]. }
  destruct (selectedAlg (c_params c) req) as [alg'|] eqn:Esel; injection Ea as <- <-.
  - unfold selectedAlg in Esel. destruct (Certificates (c_params c)) as [|cert l] eqn:Ec; [done|].
    rewrite (proj2 (Z.eqb_neq _ 0)) by len_lia. cbn [negb orb].
    rewrite (proj2 (Z.ltb_lt 0 _)) by len_lia.
    apply wp_bind. apply wp_bind, wp_index; [len_lia|]. intros x [= <-]. apply wp_ret. apply Hfin.
  - cbn [negb orb]. apply wp_bind, wp_ret. apply Hfin.
Qed.

(** Step 7.5. *)
Lemma clientCertStep_wp c :
  lok c -> clientCertSent c = false ->
  wp (match certReq c with
      | Some _ =>
          let! (alg, _) := lift (selectClientSigAlg c) in
          let! sent := sendClientCertificate in
          if sent : bool then modify (set_certSent true alg) else ret tt
      | None => ret tt
      end)
    (fun _ c' => exists l msgs (sent : bool) alg,
      layer_ok l /\ sends (c_layer c) (hsRecords msgs) l /\
      msgs = option_list (clientCertMsg (c_params c) <$> certReq c) /\
      (certReq c ≫= selectedAlg (c_params c)) = (if sent then Some alg else None) /\
      c' = set_certSent sent alg
             (set_transcript (foldl Write (c_transcript c) msgs) (set_layer l c)))
    via_fatal c.
Proof.
  intros Hl Hsent. destruct (certReq c) as [req|] eqn:Hreq; cbn [mbind option_bind].
  - rewrite selectClientSigAlg_eq, Hreq. apply wp_bind, wp_lift; [done| |done].
    intros [alg ok] [= Ea]. apply wp_bind.
    eapply wp_mono; [now apply (sendClientCertificate_wp req)| |done].
    intros sent c1 (-> & l & Hl' & Hd & ->).
    destruct (selectedAlg (c_params c) req) as [alg'|] eqn:Esel; injection Ea as <- <-.
    + apply wp_modify. exists l, [clientCertMsg (c_params c) req], true, alg'. done.
    + apply wp_ret. exists l, [clientCertMsg (c_params c) req], (clientCertSent c), (clientSigAlg c).
      split; [done|]. split; [done|]. split; [done|]. rewrite Hsent. split; [done|]. now rewrite <- Hsent.
  - apply wp_ret. exists (c_layer c), [], (clientCertSent c), (clientSigAlg c).
    split; [done|]. split; [apply sends_nil|]. split; [done|]. rewrite Hsent.
    split; [done|]. rewrite <- Hsent. now destruct c.
Qed.

(** The CertificateVerify signature: made with the first certificate's key over
    the hash of the transcript so far. *)
Definition cv_signed (p : ClientParams) (t : Transcript) (alg : SigAndHash) (sig : bytes) : Prop :=
  exists h dgst cert rest r r',
    rfcHash (Hash alg) = Some h /\ Sum t (Some h) = Ok dgst /\
    Certificates p = cert :: rest /\
    match cc_PrivateKey cert with
    | RSAPriv k => rsaSignPKCS1v15 k h dgst r = Some (sig, r')
    | ECDSAPriv _ k => ecdsaSignASN1 k dgst r = Some (sig, r')
    | OtherPriv => False
    end.

Definition certVerifyMsg (alg : SigAndHash) (sig : bytes) : bytes :=
  MarshalMessage (MCertificateVerify {| cv_Algorithm := alg; cv_Signature := sig |}).

Lemma drawCfg_Ok {A} l (f : tape -> option (A * tape)) r a r' :
  drawCfg l f r = (Ok a, r') -> exists t t', f t = Some (a, t').
Proof.
  unfold drawCfg. set (t := match rng_cfg r with Some t => t | None => rng_sys r end).
  destruct (f t) as [[a' t']|] eqn:E; [|done]. intros [= -> _]. eauto.
Qed.

Lemma Sum_safe t h : safe (Sum t (Some h)).
Proof. unfold Sum. now destruct (tr_overflow t). Qed.

Lemma sendCertificateVerify_wp alg c :
  lok c -> Certificates (c_params c) <> [] ->
  wp (sendCertificateVerify alg) (fun _ c' =>
      exists sig l r, layer_ok l /\ sends (c_layer c) (hsRecords [certVerifyMsg alg sig]) l /\
        cv_signed (c_params c) (c_transcript c) alg sig /\
        c' = set_transcript (Write (c_transcript c) (certVerifyMsg alg sig))
               (set_layer l (set_rand r c)))
    via_fatal c.
Proof.
  intros Hl Hne. unfold sendCertificateVerify.
  apply wp_bind, wp_orFatal_lift; [auto with tls|done|]. intros h Hh%hashForSigAlg_iff. apply wp_bind, wp_get.
  apply wp_bind, wp_orFatal_lift; [apply Sum_safe|done|]. intros dgst Hd.
  destruct (Certificates (c_params c)) as [|cert rest] eqn:Ec; [done|].
  apply wp_bind, wp_index; [len_lia|]. intros x [= <-].
  assert (Hfin : forall sig r, cv_signed (c_params c) (c_transcript c) alg sig ->
    wp (writeHandshake (certVerifyMsg alg sig) ;; transcriptWrite (certVerifyMsg alg sig))
      (fun _ c' => exists sig l r, layer_ok l /\
        sends (c_layer c) (hsRecords [certVerifyMsg alg sig]) l /\
        cv_signed (c_params c) (c_transcript c) alg sig /\
        c' = set_transcript (Write (c_transcript c) (certVerifyMsg alg sig))
               (set_layer l (set_rand r c))) via_fatal (setRngs r c)).
  { intros sig r Hsig. apply wp_bind, wp_writeHandshake; [now apply lok_setRngs|].
    intros l Hl' Hw. apply wp_modify. exists sig, l, (rng_cfg r). split; [done|]. split; [|done].
    eapply sends_ext; [| |eapply sends_write, Hw; now apply lok_setRngs]; reflexivity. }
  apply wp_bind. destruct (cc_PrivateKey cert) as [k|cv k|] eqn:Ek; [| |now apply wp_fatal].
  - apply wp_orFatal, wp_onRngs; [done|apply drawCfg_safe|]. intros sig r Hs. apply Hfin.
    apply drawCfg_Ok in Hs as (t & t' & Hs). exists h, dgst, cert, rest, t, t'. now rewrite Ek.
  - apply wp_orFatal, wp_onRngs; [done|apply drawCfg_safe|]. intros sig r Hs. apply Hfin.
    apply drawCfg_Ok in Hs as (t & t' & Hs). exists h, dgst, cert, rest, t, t'. now rewrite Ek.
Qed.

(** Step 8.5. *)
Lemma certVerifyStep_wp c :
  lok c -> (clientCertSent c = true -> Certificates (c_params c) <> []) ->
  wp (if clientCertSent c then sendCertificateVerify (clientSigAlg c) else ret tt)
    (fun _ c' => exists l r msgs,
      layer_ok l /\ sends (c_layer c) (hsRecords msgs) l /\
      (if clientCertSent c
       then exists sig, msgs = [certVerifyMsg (clientSigAlg c) sig] /\
              cv_signed (c_params c) (c_transcript c) (clientSigAlg c) sig
       else msgs = []) /\
      c' = set_transcript (foldl Write (c_transcript c) msgs) (set_layer l (set_rand r c)))
    via_fatal c.
Proof.
  intros Hl Hne. destruct (clientCertSent c).
  - eapply wp_mono; [apply sendCertificateVerify_wp; auto| |done].
    intros _ c' (sig & l & r & Hl' & Hd & Hs & ->).
    exists l, r, [certVerifyMsg (clientSigAlg c) sig]. split; [done|]. split; [done|].
    split; [exists sig; done|]. reflexivity.
  - apply wp_ret. exists (c_layer c), (c_rand c), []. split; [done|].
    split; [apply sends_nil|]. split; [done|]. now destruct c.
Qed.

(** *** Finished *)

(** [vd] is the verify_data of [label] over the transcript [t]. *)
Definition verify_data (s : Suite) (ms : bytes) (label : string) (t : Transcript) (vd : bytes)
  : Prop :=
  exists th, Sum t (Some (prf_Hash (suite_PRF s))) = Ok th /\
             FinishedVerifyData s ms label th = Ok vd.

Lemma finishedVerifyData_wp s ms label c :
  lok c -> c_suite c = Some s -> strBytes label <> [] ->
  wp (finishedVerifyData label ms)
    (fun vd c' => c' = c /\ verify_data s ms label (c_transcript c) vd) via_fatal c.
Proof.
  intros Hl Hs Hlab. unfold finishedVerifyData. apply wp_bind, (wp_getSuite s); [done|].
  apply wp_bind, wp_get. apply wp_bind, wp_orFatal_lift; [apply Sum_safe|done|]. intros th Hth.
  destruct (FinishedVerifyData_Ok s ms label th Hlab) as (vd & E & _).
  apply wp_orFatal_lift; [now rewrite E|done|]. intros vd' Hvd. split; [done|]. exists th. done.
Qed.

Lemma layer_ok_CCS send recv l :
  layer_ok l -> (forall p, send = Some p -> any_ok p) -> (forall p, recv = Some p -> any_ok p) ->
  layer_ok (ChangeCipherSpec send recv l).
Proof.
  intros [? ? ? ?] Hs Hr. unfold maxUint64 in *.
  destruct send as [sp|], recv as [rp|]; split; cbn; unfold maxUint64; auto; lia.
Qed.

(** What the last leg establishes: the server's ChangeCipherSpec, then records
    under the new protector that carry exactly its Finished message. *)
Definition server_finished (l0 : Layer AnyProtector) (t : Transcript) (s : Suite) (ms : bytes)
  (recvP : AnyProtector) (vd : bytes) (l : Layer AnyProtector) : Prop :=
  exists l1 ps,
    ReadRecord l0 = (Ok (ContentTypeChangeCipherSpec, [Byte.x01]), l1) /\
    hs_reads (ChangeCipherSpec None (Some recvP) l1) ps l /\
    concat ps = buildEnvelope TypeFinished vd /\
    verify_data s ms "server finished" t vd.

Lemma receiveServerFinished_wp s ms recvP c :
  lok c -> c_suite c = Some s -> any_ok recvP -> hsBuf c = [] ->
  wp (receiveServerFinished ms recvP) (fun _ c' =>
      exists vd l, layer_ok l /\ server_finished (c_layer c) (c_transcript c) s ms recvP vd l /\
        c' = set_hsBuf [] (set_layer l
               (set_transcript (Write (c_transcript c) (buildEnvelope TypeFinished vd)) c)))
    via_fatal c.
Proof.
  intros Hl Hs Hp Hbuf. unfold receiveServerFinished. apply wp_bind, wp_orFatal, wp_zoom.
  pose proof (ReadRecord_ok (c_layer c) Hl) as HR.
  unfold wp at 1. destruct (ReadRecord (c_layer c)) as [[[ct payload]|e|k] l1] eqn:ER;
    [|apply HR|done]. destruct HR as (_ & Hl1 & _).
  destruct (Z.eqb_spec ct ContentTypeChangeCipherSpec) as [->|]; [|now apply wp_fatal]. cbn [negb].
  apply wp_bind. destruct (Z.eqb_spec (len payload) 1) as [Hlen|]; [|apply wp_ret; now apply wp_fatal].
  cbn [negb]. apply wp_bind, wp_index; [lia|]. intros b Hb. apply wp_ret.
  destruct (Z.eqb_spec (b2z b) 1) as [Hb1|]; [|now apply wp_fatal]. cbn [negb].
  assert (payload = [Byte.x01]) as ->.
  { destruct payload as [|x [|y payload]]; [done| |len_lia]. injection Hb as ->.
    f_equal. now apply b2z_inj. }
  apply wp_bind, wp_zoom, wp_modify.
  apply wp_bind, wp_read.
  { apply layer_ok_CCS; [done|done|]. now intros p [= <-]. }
  intros t body c1 Hr Hlok1.
  destruct (Z.eqb_spec t TypeFinished) as [->|]; [|now apply wp_fatal]. cbn [negb].
  apply wp_bind, wp_parse; [compute; split; congruence|eapply read_message_len; eauto|done|].
  intros m Hm. change (parseBody TypeFinished body)
    with (let* m := parseFinished body in Ok (MFinished m)) in Hm.
  apply bind_Ok in Hm as (vd & Hvd & [= <-]).
  assert (vd = body) as -> by (unfold parseFinished in Hvd; destruct (_ && _); congruence).
  destruct Hr as (l2 & ps & b2 & R & Hl2 & _ & _ & B & Ec1). cbn in R, B. rewrite Hbuf in B.
  apply wp_bind. eapply wp_mono; [apply (finishedVerifyData_wp s); [done|now subst c1|done]| |done].
  intros expected c2 (-> & Hver).
  destruct (EqualVerifyData body expected) eqn:Heq; [|now apply wp_fatal]. cbn [negb].
  unfold EqualVerifyData in Heq. rewrite ConstantTimeCompare_eqb in Heq.
  apply bool_decide_eq_true in Heq. subst expected.
  apply wp_bind, wp_get.
  destruct (Z.eqb_spec (len (hsBuf c1)) 0) as [H0|]; [|now apply wp_fatal]. cbn [negb].
  apply len_zero_nil in H0. apply wp_modify. exists body, l2. split; [done|].
  subst c1. cbn in H0, Hver. subst b2. rewrite app_nil_r in B. split; [|reflexivity].
  exists l1, ps. done.
Qed.

(** *** Steps 7.5 to 12 *)

(** The rest of [Handshake] once the protectors are built: up to the client's Finished,
    and the server's. *)
Definition sendTail (masterSecret ckeBody : bytes) (sendP : AnyProtector) : M ClientState unit :=
  let! c := get in
  (match certReq c with
   | Some _ =>
       let! (alg, _) := lift (selectClientSigAlg c) in
       let! sent := sendClientCertificate in
       if sent : bool then modify (set_certSent true alg) else ret tt
   | None => ret tt
   end) ;;
  let ckeEnv := MarshalMessage (MClientKeyExchange ckeBody) in
  writeHandshake ckeEnv ;;
  transcriptWrite ckeEnv ;;
  let! c := get in
  (if clientCertSent c then sendCertificateVerify (clientSigAlg c) else ret tt) ;;
  orFatal AlertInternalError (onLayer (WriteRecord ContentTypeChangeCipherSpec [Byte.x01])) ;;
  onLayer (modify (ChangeCipherSpec (Some sendP) None)) ;;
  let! clientVerifyData := finishedVerifyData "client finished" masterSecret in
  let clientFinishedEnv := MarshalMessage (MFinished clientVerifyData) in
  writeHandshake clientFinishedEnv ;;
  transcriptWrite clientFinishedEnv.

Definition finishTail (masterSecret : bytes) (recvP : AnyProtector) : M ClientState unit :=
  let! c := get in
  if negb (len (hsBuf c) =? 0) then fatal AlertUnexpectedMessage errInterleavedHandshake
  else
    receiveServerFinished masterSecret recvP ;;
    modify set_done.

Definition handshakeTail (masterSecret ckeBody : bytes) (sendP recvP : AnyProtector)
  : M ClientState unit :=
  sendTail masterSecret ckeBody sendP ;; finishTail masterSecret recvP.

(** The messages of the client's second flight, in order. *)
Record client_flight := {
  f_cert : list bytes;      (* Certificate *)
  f_cke : bytes;            (* ClientKeyExchange *)
  f_verify : list bytes;    (* CertificateVerify *)
  f_finished : bytes;       (* verify_data of the client *)
  f_server : bytes          (* verify_data of the server *)
}.

Definition beforeVerify (f : client_flight) : list bytes := f_cert f ++ [f_cke f].
Definition beforeFinished (f : client_flight) : list bytes := beforeVerify f ++ f_verify f.
Definition afterFinished (f : client_flight) : list bytes :=
  beforeFinished f ++ [MarshalMessage (MFinished (f_finished f))].
Definition wholeFlight (f : client_flight) : list bytes :=
  afterFinished f ++ [buildEnvelope TypeFinished (f_server f)].

(** Client authentication in the flight: an answer exactly when asked, a
    signature exactly when a certificate went out. *)
Definition client_auth (p : ClientParams) (req : option CertificateRequest) (t : Transcript)
  (f : client_flight) : Prop :=
  f_cert f = option_list (clientCertMsg p <$> req) /\
  match req ≫= selectedAlg p with
  | Some alg => exists sig, f_verify f = [certVerifyMsg alg sig] /\
                  cv_signed p (foldl Write t (beforeVerify f)) alg sig
  | None => f_verify f = []
  end.

(** The client's half of the switch to the new keys: from [l] on it has sent the
    messages [first] and those of its flight, each in a record that a peer in step
    with it reads. *)
Definition client_switch (s : Suite) (ms : bytes) (sendP : AnyProtector) (t : Transcript)
  (l : Layer AnyProtector) (first : list bytes) (f : client_flight) (l' : Layer AnyProtector) : Prop :=
  exists l0 l1,
    delivered l (hsRecords (first ++ beforeFinished f)) l0 /\ layer_ok l0 /\
    WriteRecord ContentTypeChangeCipherSpec [Byte.x01] l0 = (Ok tt, l1) /\
    WriteRecord ContentTypeHandshake (MarshalMessage (MFinished (f_finished f)))
      (ChangeCipherSpec (Some sendP) None l1) = (Ok tt, l') /\
    verify_data s ms "client finished" (foldl Write t (beforeFinished f)) (f_finished f).

(** What the client did from [c] to the end of its second flight [f]. *)
Record flight_sent (s : Suite) (ms cke : bytes) (sendP : AnyProtector) (c : ClientState)
  (f : client_flight) (c' : ClientState) : Prop := {
  fs_cke : f_cke f = MarshalMessage (MClientKeyExchange cke) /\ len (f_cke f) <= tlsMaxPlaintextLen;
  fs_auth : client_auth (c_params c) (certReq c) (c_transcript c) f;
  fs_switch : client_switch s ms sendP (c_transcript c) (c_layer c) [] f (c_layer c');
  fs_recv : recv_view (c_layer c') = recv_view (c_layer c);
  fs_layer : layer_ok (c_layer c');
  fs_same : hsBuf c' = hsBuf c /\ c_suite c' = c_suite c /\ c_masterSecret c' = c_masterSecret c /\
            clientRandom c' = clientRandom c /\ serverRandom c' = serverRandom c /\
            c_params c' = c_params c;
  fs_transcript : c_transcript c' = foldl Write (c_transcript c) (afterFinished f)
}.

(** The switch to the new keys: ChangeCipherSpec and Finished of each side. *)
Definition key_switch (s : Suite) (ms : bytes) (sendP recvP : AnyProtector) (t : Transcript)
  (l : Layer AnyProtector) (first : list bytes) (f : client_flight) (l' : Layer AnyProtector) : Prop :=
  exists l0 l1 l2,
    delivered l (hsRecords (first ++ beforeFinished f)) l0 /\ layer_ok l0 /\
    WriteRecord ContentTypeChangeCipherSpec [Byte.x01] l0 = (Ok tt, l1) /\
    WriteRecord ContentTypeHandshake (MarshalMessage (MFinished (f_finished f)))
      (ChangeCipherSpec (Some sendP) None l1) = (Ok tt, l2) /\
    verify_data s ms "client finished" (foldl Write t (beforeFinished f)) (f_finished f) /\
    server_finished l2 (foldl Write t (afterFinished f)) s ms recvP (f_server f) l'.

(** What the client read to the end of the handshake, from [l0] on: handshake records
    [ps], the server's ChangeCipherSpec, and under the new keys the records of its
    Finished.  Only writes lie between the layers, so their receive sides agree. *)
Definition received (l0 : Layer AnyProtector) (ps : list bytes) (recvP : AnyProtector) (vd : bytes)
  (l : Layer AnyProtector) : Prop :=
  exists l1 l2 l3 qs,
    hs_reads l0 ps l1 /\ recv_view l2 = recv_view l1 /\
    ReadRecord l2 = (Ok (ContentTypeChangeCipherSpec, [Byte.x01]), l3) /\
    hs_reads (ChangeCipherSpec None (Some recvP) l3) qs l /\
    concat qs = buildEnvelope TypeFinished vd.

Lemma received_first l0 ps l1 l1' recvP vd l :
  hs_reads l0 ps l1 -> recv_view l1' = recv_view l1 -> received l1' [] recvP vd l ->
  received l0 ps recvP vd l.
Proof.
  intros R E (k1 & k2 & k3 & rs & R1 & V & H). exists l1, k2, k3, rs. split; [done|].
  inversion R1; subst. split; [congruence|exact H].
Qed.

(** What was sent before, with nothing but reads in between. *)
Lemma key_switch_first s ms sendP recvP t l first l1 l2 f l' :
  delivered l (hsRecords first) l1 -> send_view l2 = send_view l1 ->
  key_switch s ms sendP recvP t l2 [] f l' -> key_switch s ms sendP recvP t l first f l'.
Proof.
  intros Hd Hv (k0 & k1 & k2 & Hd0 & Hrest). exists k0, k1, k2. split; [|exact Hrest].
  unfold hsRecords in *. rewrite map_app. eapply delivered_app; [exact Hd|].
  eapply delivered_ext; [|reflexivity|exact Hd0]. now symmetry.
Qed.

(** The transcript of the flight, step by step. *)
Lemma flight_transcript t f :
  foldl Write t (afterFinished f)
  = Write (foldl Write (Write (foldl Write t (f_cert f)) (f_cke f)) (f_verify f))
      (MarshalMessage (MFinished (f_finished f))).
Proof. unfold afterFinished, beforeFinished, beforeVerify. now rewrite !foldl_app. Qed.

Lemma sendTail_wp s ms cke sendP c :
  lok c -> c_suite c = Some s -> any_ok sendP -> clientCertSent c = false ->
  wp (sendTail ms cke sendP) (fun _ c' => exists f, flight_sent s ms cke sendP c f c') via_fatal c.
Proof.
  intros Hl Hs Hsp Hsent. unfold sendTail. apply wp_bind, wp_get. apply wp_bind.
  eapply wp_mono; [now apply clientCertStep_wp| |done].
  intros _ c1 (l1 & ccmsgs & sent & alg & Hl1 & Hd1 & Hcc & Hsel & ->).
  apply wp_bind, wp_writeHandshake; [done|]. intros l2 Hl2 Hw2.
  apply wp_bind, wp_modify. apply wp_bind, wp_get. apply wp_bind.
  eapply wp_mono; [apply certVerifyStep_wp; [done|]| |done].
  { cbn. intros ->. unfold selectedAlg in Hsel. intros E. rewrite E in Hsel.
    now destruct (certReq c). }
  intros _ c3 (l3 & r & cvmsgs & Hl3 & Hd3 & Hcv & ->). cbn in Hcv.
  apply wp_bind, wp_orFatal, wp_WriteRecord; [done|]. intros l4 Hl4 Hw4.
  assert (Hlc : layer_ok (ChangeCipherSpec (Some sendP) None l4))
    by (apply layer_ok_CCS; [done|now intros p [= <-]|done]).
  apply wp_bind, wp_zoom, wp_modify. apply wp_bind.
  eapply wp_mono; [apply (finishedVerifyData_wp s); [exact Hlc|done|done]| |done].
  intros cvd c4 (-> & Hcvd). apply wp_bind, wp_writeHandshake; [exact Hlc|].
  intros l5 Hl5 Hw5. apply wp_modify.
  set (f := {| f_cert := ccmsgs; f_cke := MarshalMessage (MClientKeyExchange cke);
               f_verify := cvmsgs; f_finished := cvd; f_server := [] |}).
  exists f. split; [| | | |done|done|symmetry; apply flight_transcript].
  - split; [done|apply (WriteRecord_guards _ _ _ _ Hw2)].
  - split; [done|]. rewrite Hsel. unfold beforeVerify. rewrite foldl_app. now destruct sent.
  - exists l3, l4. unfold beforeFinished, beforeVerify. rewrite !foldl_app. split; [|done].
    unfold hsRecords. cbn [app f_cert f_cke f_verify f]. rewrite !map_app.
    eapply delivered_app; [|apply Hd3]. eapply delivered_app; [apply Hd1|now apply delivered_write].
  - apply WriteRecord_recv in Hw5, Hw4, Hw2; try done.
    etransitivity; [exact Hw5|]. etransitivity; [exact Hw4|]. etransitivity; [apply Hd3|].
    etransitivity; [exact Hw2|]. apply Hd1.
Qed.

Lemma handshakeTail_wp s ms cke sendP recvP c :
  lok c -> c_suite c = Some s -> any_ok sendP -> any_ok recvP -> clientCertSent c = false ->
  wp (handshakeTail ms cke sendP recvP) (fun _ c' =>
      exists f,
        f_cke f = MarshalMessage (MClientKeyExchange cke) /\ len (f_cke f) <= tlsMaxPlaintextLen /\
        client_auth (c_params c) (certReq c) (c_transcript c) f /\
        key_switch s ms sendP recvP (c_transcript c) (c_layer c) [] f (c_layer c') /\
        received (c_layer c) [] recvP (f_server f) (c_layer c') /\
        layer_ok (c_layer c') /\ hsBuf c = [] /\ hsBuf c' = [] /\ c_done c' = true /\
        c_suite c' = c_suite c /\ c_masterSecret c' = c_masterSecret c /\
        clientRandom c' = clientRandom c /\ serverRandom c' = serverRandom c /\
        c_params c' = c_params c /\
        c_transcript c' = foldl Write (c_transcript c) (wholeFlight f))
    via_fatal c.
Proof.
  intros Hl Hs Hsp Hrp Hsent. unfold handshakeTail. apply wp_bind.
  eapply wp_mono; [now apply (sendTail_wp s)| |done].
  intros _ c1 (f & [[Hcke Hn] Hauth (l0 & l1 & Hsw) Hrv Hl1 (Eb & Es & Em & Ecr & Esr & Ep) Et]).
  unfold finishTail. apply wp_bind, wp_get.
  destruct (Z.eqb_spec (len (hsBuf c1)) 0) as [H0%len_zero_nil|]; [|now apply wp_fatal]. cbn [negb].
  apply wp_bind.
  eapply wp_mono; [apply (receiveServerFinished_wp s); [done|congruence|done|done]| |done].
  intros _ c2 (svd & l6 & Hl6 & Hsf & ->). apply wp_modify. rewrite Et in Hsf |- *.
  set (f' := {| f_cert := f_cert f; f_cke := f_cke f; f_verify := f_verify f;
                f_finished := f_finished f; f_server := svd |}).
  exists f'. split; [exact Hcke|]. split; [exact Hn|]. split; [exact Hauth|].
  destruct Hsw as (D & O & W1 & W2 & V).
  split; [exists l0, l1, (c_layer c1); done|]. split.
  { destruct Hsf as (k1 & qs & HR & Hqs & Ec & _). exists (c_layer c), (c_layer c1), k1, qs.
    split; [constructor|done]. }
  split; [done|]. split; [congruence|]. split; [done|]. split; [done|].
  split; [exact Es|]. split; [exact Em|]. split; [exact Ecr|]. split; [exact Esr|]. split; [exact Ep|].
  unfold wholeFlight. rewrite foldl_app. reflexivity.
Qed.

(** *** The whole handshake *)

(** A state as [NewClientState] makes it. *)
Record fresh (c : ClientState) : Prop := {
  fr_layer : layer_ok (c_layer c);
  fr_transcript : c_transcript c = NewTranscript;
  fr_buf : hsBuf c = [];
  fr_req : certReq c = None;
  fr_sent : clientCertSent c = false;
  fr_leaf : gostLeaf c = None
}.

Lemma NewClientState_fresh l p r n : layer_ok l -> fresh (NewClientState l p r n).
Proof. now split. Qed.

(** What the server's messages were and what the client made of them. *)
Record server_flight := {
  sf_hello : bytes; sf_sh : ServerHello;
  sf_certs : list bytes; sf_gc : gostCertificate; sf_chains : list (list x509Certificate);
  sf_ske : option bytes; sf_params : bytes;
  sf_creq : option (bytes * CertificateRequest)
}.

Definition serverMsgs (sf : server_flight) : list bytes :=
  [buildEnvelope TypeServerHello (sf_hello sf);
   buildEnvelope TypeCertificate (marshalCertificate (sf_certs sf))] ++
  flightMsgs (sf_ske sf) (sf_creq sf).

(** The transcript and the record bytes of the server's messages, piece by piece. *)
Lemma serverMsgs_transcript e sf :
  foldl Write NewTranscript (e :: serverMsgs sf)
  = foldl Write (Write (Write (Write NewTranscript e) (buildEnvelope TypeServerHello (sf_hello sf)))
      (buildEnvelope TypeCertificate (marshalCertificate (sf_certs sf))))
      (flightMsgs (sf_ske sf) (sf_creq sf)).
Proof. reflexivity. Qed.

Lemma serverMsgs_bytes sf ps1 ps2 ps3 b1 b2 b3 :
  concat ps1 = buildEnvelope TypeServerHello (sf_hello sf) ++ b1 ->
  b1 ++ concat ps2 = buildEnvelope TypeCertificate (marshalCertificate (sf_certs sf)) ++ b2 ->
  b2 ++ concat ps3 = concat (flightMsgs (sf_ske sf) (sf_creq sf)) ++ b3 -> b3 = [] ->
  concat (ps1 ++ ps2 ++ ps3) = concat (serverMsgs sf).
Proof.
  intros B1 B2 B3 ->.
  rewrite !concat_app, B1, <- app_assoc, (app_assoc b1), B2, <- app_assoc, B3, app_nil_r. done.
Qed.

(** After the ClientHello of [c], the payloads of the handshake records that were
    read are the messages of [sf] and nothing else. *)
Definition server_sent (c : ClientState) (sf : server_flight) : Prop :=
  exists c1 l2 ps,
    sendClientHello c = (Ok tt, c1) /\ hs_reads (c_layer c1) ps l2 /\
    concat ps = concat (serverMsgs sf).

(** The checks the server's messages passed. *)
Record server_checked (p : ClientParams) (now : Z) (cr : bytes) (s : Suite) (sf : server_flight)
  : Prop := {
  sc_hello : parseServerHello (sf_hello sf) = Ok (sf_sh sf);
  sc_accepted : sh_accepted p (sf_sh sf) s;
  sc_certs : certs_wf (sf_certs sf);
  sc_leaf : leaf_accepted p now (sf_certs sf) (sf_gc sf) (sf_chains sf);
  sc_callback : callback_ok p (sf_certs sf) (sf_chains sf);
  sc_ske : flight_ok s (Stdlib (sf_gc sf)) cr (sh_Random (sf_sh sf)) (sf_ske sf) (sf_params sf);
  sc_creq : match sf_creq sf with
            | Some (b, req) => parseCertificateRequest b = Ok req
            | None => True
            end
}.

Definition gostLeafOf (sf : server_flight) : option gostCertificate :=
  if HasGOSTPubKey (sf_gc sf) then Some (sf_gc sf) else None.

(** The secrets and keys. *)
Definition secrets (s : Suite) (cr : bytes) (sf : server_flight) (cke ms : bytes)
  (sendP recvP : AnyProtector) : Prop :=
  exists e r0 r pm,
    exchange_for s (Stdlib (sf_gc sf)) (gostLeafOf sf) cr (sh_Random (sf_sh sf)) e /\
    ClientKeyExchange e (sf_params sf) r0 = (Ok (cke, pm), r) /\
    MasterSecret s pm cr (sh_Random (sf_sh sf)) = Ok ms /\
    keys_from s ms cr (sh_Random (sf_sh sf)) sendP recvP /\ sendP <> PNull /\ recvP <> PNull.

Record handshake_done (c c' : ClientState) (s : Suite) (cr : bytes) (sf : server_flight)
  (cke ms : bytes) (sendP recvP : AnyProtector) (f : client_flight) : Prop := {
  hd_random : len cr = 32;
  hd_server : server_checked (c_params c) (c_now c) cr s sf;
  hd_secrets : secrets s cr sf cke ms sendP recvP;
  hd_read : server_sent c sf;
  hd_cke : f_cke f = MarshalMessage (MClientKeyExchange cke) /\ len (f_cke f) <= tlsMaxPlaintextLen;
  hd_auth : client_auth (c_params c) (snd <$> sf_creq sf)
              (foldl Write NewTranscript (helloEnv c cr :: serverMsgs sf)) f;
  hd_switch : key_switch s ms sendP recvP
                (foldl Write NewTranscript (helloEnv c cr :: serverMsgs sf))
                (c_layer c) [helloEnv c cr] f (c_layer c');
  hd_received : exists l0 ps, recv_view l0 = recv_view (c_layer c) /\ layer_ok l0 /\
                  concat ps = concat (serverMsgs sf) /\
                  received l0 ps recvP (f_server f) (c_layer c');
  hd_layer : layer_ok (c_layer c');
  hd_buf : hsBuf c' = [];
  hd_final : c_done c' = true /\ c_suite c' = Some s /\ c_masterSecret c' = ms /\
             clientRandom c' = cr /\ serverRandom c' = sh_Random (sf_sh sf);
  hd_transcript : c_transcript c'
    = foldl Write NewTranscript (helloEnv c cr :: serverMsgs sf ++ wholeFlight f);
  hd_lens : Forall (fun m => len m <= 4 + maxHandshakeMsg) (serverMsgs sf)
}.

Lemma parseServerHello_random b sh : parseServerHello b = Ok sh -> len (sh_Random sh) = 32.
Proof.
  unfold parseServerHello. intros H.
  apply bind_Ok in H as ([v b1] & _ & H). apply bind_Ok in H as ([rnd b2] & Hr & H).
  apply bind_Ok in H as ([sid b3] & _ & H). destruct (_ <? _); [done|].
  apply bind_Ok in H as ([cs b4] & _ & H). apply bind_Ok in H as ([cm b5] & _ & H).
  apply bind_Ok in H as ([ext seen] & _ & [= <-]). cbn.
  now apply readBytes_inv in Hr as [_ Hr].
Qed.

(** A failure: either the ClientHello could not be sent, or an alert was tried. *)
Definition failed (c : ClientState) (e : error) (c' : ClientState) : Prop :=
  (sendClientHello c = (Err e, c') /\ lok c') \/ via_fatal e c'.

Lemma wp_step {A B} (m : M ClientState A) (k : A -> M ClientState B) Q (E E' : error -> ClientState -> Prop)
  (R : A -> ClientState -> Prop) c :
  wp m R E c -> (forall e c', E e c' -> E' e c') -> (forall a c', R a c' -> wp (k a) Q E' c') ->
  wp (bindM m k) Q E' c.
Proof. intros Hm HE Hk. apply wp_bind. eapply wp_mono; eauto. Qed.

Lemma Handshake_wp c :
  fresh c ->
  wp Handshake (fun _ c' => exists s cr sf cke ms sendP recvP f,
      handshake_done c c' s cr sf cke ms sendP recvP f) (failed c) c.
Proof.
  intros [Hl Ht Hb Hq Hsnt Hlf]. unfold Handshake.
  eapply wp_step; [apply wp_run, sendClientHello_wp; exact Hl|intros; now left|].
  intros [] c1 (Hsend & cr & rand & l1 & Hcr & Hl1 & Hd1 & ->).
  eapply wp_mono with (E' := via_fatal); [|intros a c' H; exact H|intros; now right].
  eapply wp_step; [apply recvServerHello_wp; exact Hl1|done|].
  intros _ c2 (body & sh & s & c1' & Hr1 & Hsh & Hacc & ->).
  destruct Hr1 as (l2 & ps1 & b1 & R1 & Hl2 & _ & N1 & B1 & ->).
  eapply wp_step; [apply recvCertificate_wp; exact Hl2|done|].
  intros [leaf rawCerts] c3 (cbody & gc & chains & c2' & Hr2 & -> & Hwf & -> & Hleaf & Hcb & ->).
  destruct Hr2 as (l3 & ps2 & b2 & R2 & Hl3 & _ & N2 & B2 & ->).
  eapply wp_step; [apply (recvServerFlight_wp s); [exact Hl3|reflexivity|exact Hq]|done|].
  intros params c4 (ske & creq & Hfl & Hcreq & Haf).
  destruct Haf as (l4 & ps3 & b3 & R3 & Hl4 & B3 & N3 & ->).
  eapply wp_step; [apply (computeKeyExchange_wp s); [exact Hl4|reflexivity|exact Hcr]|done|].
  intros [pm cke] c5 (e & r0 & r & Hex & Hkx & ->).
  pose proof (parseServerHello_random _ _ Hsh) as Hsr.
  apply wp_bind, (wp_getSuite s); [reflexivity|]. apply wp_bind, wp_get.
  destruct (MasterSecret_Ok s pm cr (sh_Random sh) Hcr Hsr) as (ms & Hms & _).
  match goal with |- wp (bindM (orFatal _ (lift ?m)) _) _ _ _ => change m with (MasterSecret s pm cr (sh_Random sh)) end.
  rewrite Hms. apply wp_bind, wp_orFatal_lift; [done|now apply lok_setRngs|]. intros ? [= <-].
  apply wp_bind, wp_modify.
  eapply wp_step; [apply (expandKeys_wp s); [now apply lok_setRngs|reflexivity|apply (sa_registered _ _ _ Hacc)|exact Hcr|exact Hsr]|done|].
  intros [[km sendP] recvP] c6 (-> & Hkeys & Hsp & Hrp & Ns & Nr).
  match goal with |- wp ?m _ _ ?c0 => apply (wp_ext _ (handshakeTail ms cke sendP recvP)) end.
  { unfold handshakeTail, sendTail, finishTail.
    repeat (rewrite ?bindM_assoc; apply bindM_ext; intros). reflexivity. }
  eapply wp_mono; [apply (handshakeTail_wp s ms cke sendP recvP);
    [now apply lok_setRngs|reflexivity|done|done|exact Hsnt]| |done].
  intros _ c' (f & Hcke & Hfits & Hauth & Hsw & Hrcv & Hl' & Hb0 & Hb' & Hd & Es & Em & Ecr & Esr & _ & Et).
  set (sf := {| sf_hello := body; sf_sh := sh; sf_certs := rawCerts; sf_gc := gc;
    sf_chains := chains; sf_ske := ske; sf_params := params; sf_creq := creq |}).
  exists s, cr, sf, cke, ms, sendP, recvP, f.
  pose proof (serverMsgs_transcript (helloEnv c cr) sf) as ET.
  cbn in Hauth, Hsw, Et, Hex. rewrite Ht in *. rewrite Hlf in *.
  assert (Hps : hs_reads l1 (ps1 ++ ps2 ++ ps3) l4)
    by (eapply hs_reads_app; [exact R1|]; eapply hs_reads_app; done).
  assert (Hcat : concat (ps1 ++ ps2 ++ ps3) = concat (serverMsgs sf)).
  { change (hsBuf c ++ concat ps1 = buildEnvelope TypeServerHello body ++ b1) in B1.
    rewrite Hb in B1. eapply (serverMsgs_bytes sf); [exact B1|exact B2|exact B3|exact Hb0]. }
  split; [done| | | |done| | | |done|done| | |].
  - split; done.
  - exists e, r0, r, pm. done.
  - eexists _, l4, (ps1 ++ ps2 ++ ps3). split; [exact Hsend|].
    split; [exact Hps|exact Hcat].
  - rewrite ET. exact Hauth.
  - rewrite ET. eapply key_switch_first; [apply Hd1| |exact Hsw].
    apply (hs_reads_view _ _ _ Hps Hl1).
  - exists l1, (ps1 ++ ps2 ++ ps3). split; [apply Hd1|]. split; [done|]. split; [exact Hcat|].
    eapply received_first; [exact Hps| |exact Hrcv]. reflexivity.
  - done.
  - rewrite app_comm_cons, foldl_app, ET. exact Et.
  - constructor; [rewrite len_buildEnvelope; apply (proj1 (Z.add_le_mono_l _ _ _) N1)|].
    constructor; [rewrite len_buildEnvelope; apply (proj1 (Z.add_le_mono_l _ _ _) N2)|exact N3].
Qed.

Lemma Handshake_done c c' :
  fresh c -> Handshake c = (Ok tt, c') ->
  exists s cr sf cke ms sendP recvP f, handshake_done c c' s cr sf cke ms sendP recvP f.
Proof. intros Hf Hr. exact (wp_Ok _ _ _ _ _ _ Hr (Handshake_wp c Hf)). Qed.

(** *** The ClientHello that was sent

    With its suites and extensions, as the first handshake message, in a record that a
    peer in step with the client reads first, and first in the transcript. *)
Definition hello_sent (c c' : ClientState) (suites : list Z) (exts : list (Z * bytes)) : Prop :=
  exists msgs recs l wire,
    let hello := helloBytes (clientRandom c') suites exts in
    c_transcript c' = foldl Write NewTranscript (hello :: msgs) /\
    delivered (c_layer c) (hsRecords (hello :: recs)) l /\
    tx (rw (c_layer c')) = tx (rw l) ++ wire.

Lemma WriteRecord_tx ct b (l l' : Layer AnyProtector) :
  layer_ok l -> WriteRecord ct b l = (Ok tt, l') ->
  layer_ok l' /\ exists w, tx (rw l') = tx (rw l) ++ w.
Proof.
  intros Hl HW. pose proof (WriteRecord_ok ct b l Hl) as Hl'. rewrite HW in Hl'.
  destruct (delivered_write ct b l l' Hl HW) as (w & Htx & _). eauto.
Qed.

(** What the client wrote from [l] to [l']: the messages [plain] in a record each, its
    ChangeCipherSpec, and [fin] under its new keys; nothing after that. *)
Definition wrote (l : Layer AnyProtector) (plain : list bytes) (sendP : AnyProtector) (fin : bytes)
  (l' : Layer AnyProtector) : Prop :=
  exists k0 k1 k2,
    delivered l (hsRecords plain) k0 /\ layer_ok k0 /\
    WriteRecord ContentTypeChangeCipherSpec [Byte.x01] k0 = (Ok tt, k1) /\
    layer_ok (ChangeCipherSpec (Some sendP) None k1) /\
    WriteRecord ContentTypeHandshake fin (ChangeCipherSpec (Some sendP) None k1) = (Ok tt, k2) /\
    send_view l' = send_view k2.

Lemma handshake_wrote c c' s cr sf cke ms sendP recvP f :
  handshake_done c c' s cr sf cke ms sendP recvP f ->
  wrote (c_layer c) (helloEnv c cr :: beforeFinished f) sendP
    (MarshalMessage (MFinished (f_finished f))) (c_layer c').
Proof.
  intros Hd. destruct (hd_switch _ _ _ _ _ _ _ _ _ _ Hd)
    as (k0 & k1 & k2 & D & O0 & W1 & W2 & _ & (k3 & qs & HR & Hqs & _)).
  destruct (hd_secrets _ _ _ _ _ _ _ _ _ _ Hd) as (e & r0 & r & pm & _ & _ & _ & (km & _ & B1 & B2) & _).
  apply buildProtector_ok in B1 as [Os _], B2 as [Or _].
  destruct (WriteRecord_tx _ _ _ _ O0 W1) as (O1 & _).
  assert (Oc : layer_ok (ChangeCipherSpec (Some sendP) None k1))
    by (apply layer_ok_CCS; [done|now intros p [= <-]|done]).
  destruct (WriteRecord_tx _ _ _ _ Oc W2) as (O2 & _).
  pose proof (ReadRecord_ok k2 O2) as H3. rewrite HR in H3. destruct H3 as (_ & O3 & [= T1 T2 T3 _ _]).
  destruct (hs_reads_view _ _ _ Hqs) as [_ V4];
    [apply layer_ok_CCS; [done|done|now intros p [= <-]]|].
  exists k0, k1, k2. split; [exact D|]. do 4 (split; [done|]). rewrite V4. unfold send_view. cbn.
  now rewrite T1, T2, T3.
Qed.

Lemma handshake_hello c c' s cr sf cke ms sendP recvP f :
  handshake_done c c' s cr sf cke ms sendP recvP f ->
  hello_sent c c' (OfferedSuites (c_params c)) (helloExts c).
Proof.
  intros Hd. destruct (handshake_wrote _ _ _ _ _ _ _ _ _ _ Hd)
    as (k0 & k1 & k2 & D & O0 & W1 & O1 & W2 & [= _ _ T3]).
  destruct (WriteRecord_tx _ _ _ _ O0 W1) as (_ & w1 & T1), (WriteRecord_tx _ _ _ _ O1 W2) as (_ & w2 & T2).
  destruct (hd_final _ _ _ _ _ _ _ _ _ _ Hd) as (_ & _ & _ & Ecr & _).
  exists (serverMsgs sf ++ wholeFlight f), (beforeFinished f), k0, (w1 ++ w2). cbv zeta.
  rewrite Ecr, <- helloEnv_bytes. split; [apply (hd_transcript _ _ _ _ _ _ _ _ _ _ Hd)|]. split; [exact D|].
  rewrite T3, T2. cbn. now rewrite T1, app_assoc.
Qed.

(** [verify_data] in terms of the messages themselves. *)
Lemma verify_data_writes s ms label msgs vd :
  verify_data s ms label (foldl Write NewTranscript msgs) vd ->
  FinishedVerifyData s ms label (digest (prf_Hash (suite_PRF s)) (concat msgs)) = Ok vd.
Proof.
  intros (th & Hs & Hv). rewrite Sum_writes in Hs. destruct (_ <=? _); [|done]. injection Hs as <-. done.
Qed.

Lemma cv_signed_writes p msgs alg sig :
  cv_signed p (foldl Write NewTranscript msgs) alg sig ->
  exists h cert rest r r',
    rfcHash (Hash alg) = Some h /\ Certificates p = cert :: rest /\
    match cc_PrivateKey cert with
    | RSAPriv k => rsaSignPKCS1v15 k h (digest h (concat msgs)) r = Some (sig, r')
    | ECDSAPriv _ k => ecdsaSignASN1 k (digest h (concat msgs)) r = Some (sig, r')
    | OtherPriv => False
    end.
Proof.
  intros (h & d & cert & rest & r & r' & Hh & Hs & Hc & Hk). exists h, cert, rest, r, r'.
  split; [done|]. split; [done|]. rewrite Sum_writes in Hs. destruct (_ <=? _); [|done].
  injection Hs as <-. exact Hk.
Qed.

(** ** Reassembly is complete *)

(** A buffer that begins an envelope, with its header complete. *)
Lemma header_bytes buf x t body rest :
  buf ++ x = buildEnvelope t body ++ rest -> 4 <= len buf -> len body <= maxHandshakeMsg ->
  exists b1 b2 b3 buf', buf = z2b t :: b1 :: b2 :: b3 :: buf' /\ beUint [b1; b2; b3] = len body.
Proof.
  intros E Hb Hl. rewrite buildEnvelope_eq in E. unfold maxHandshakeMsg in Hl.
  assert (H3 : len (bePut 3 (len body)) = 3) by len_lia.
  destruct (split3 (bePut 3 (len body)) [] H3) as (a & b & c & Eb).
  destruct buf as [|x0 [|x1 [|x2 [|x3 buf]]]]; [len_lia..|].
  rewrite Eb in E. cbn in E. injection E as -> -> -> -> _. exists a, b, c, buf. split; [done|].
  rewrite <- Eb, beUint_put_small; [done|]. pose proof (len_nonneg body). lia.
Qed.

Lemma readHandshakeLoop_buffered fuel c t body rest :
  hsBuf c = buildEnvelope t body ++ rest -> 0 <= t < 256 -> len body <= maxHandshakeMsg ->
  readHandshakeLoop (S fuel) c = (Ok (t, body), set_hsBuf rest c).
Proof.
  intros E Ht Hl. pose proof (len_nonneg body). pose proof (len_nonneg rest).
  destruct (header_bytes (hsBuf c) [] t body rest) as (b1 & b2 & b3 & buf & Eb & Hn);
    [now rewrite app_nil_r|rewrite E, len_app, len_buildEnvelope; lia|done|].
  assert (Hlen : len (hsBuf c) = 4 + len body + len rest)
    by (rewrite E, len_app, len_buildEnvelope; lia).
  cbn [readHandshakeLoop]. unfold bindM at 1. cbn [get]. unfold hsHdrLen.
  rewrite (proj2 (Z.leb_le 4 _)) by lia.
  rewrite (bindM_lift_Ok _ b1), (bindM_lift_Ok _ b2), (bindM_lift_Ok _ b3) by now rewrite Eb.
  cbv zeta. rewrite lor_shift3, Hn, (proj2 (Z.ltb_ge _ _)) by done.
  rewrite (proj2 (Z.leb_le _ _)) by lia.
  rewrite (bindM_lift_Ok _ (z2b t)) by now rewrite Eb.
  assert (Hs : slice (E := error) (hsBuf c) 4 (4 + len body) = Ok body).
  { rewrite E. unfold buildEnvelope. rewrite <- app_assoc. apply slice_app_mid; reflexivity. }
  rewrite (bindM_lift_Ok _ body) by exact Hs.
  rewrite consumeBuffered_Ok by lia. rewrite (bindM_lift_Ok _ _ _ _ eq_refl).
  unfold bindM, modify, ret. rewrite b2z_small by done. do 2 f_equal.
  rewrite E, drop_app.
  replace (Z.to_nat (4 + len body)) with (length (buildEnvelope t body))
    by (rewrite <- to_nat_len, len_buildEnvelope; done).
  now rewrite drop_all, Nat.sub_diag.
Qed.

Lemma hs_reads_first l p ps l' :
  hs_reads l (p :: ps) l' ->
  exists l1, ReadRecord l = (Ok (ContentTypeHandshake, p), l1) /\ hs_reads l1 ps l'.
Proof. inversion 1; subst. eauto. Qed.

Lemma readHandshakeLoop_more fuel c x t body rest p l1 :
  hsBuf c ++ x = buildEnvelope t body ++ rest -> len (hsBuf c) < 4 + len body ->
  len body <= maxHandshakeMsg ->
  ReadRecord (c_layer c) = (Ok (ContentTypeHandshake, p), l1) ->
  readHandshakeLoop (S fuel) c
  = readHandshakeLoop fuel (set_hsBuf (hsBuf c ++ p) (set_layer l1 c)).
Proof.
  intros E Hshort Hl HR. cbn [readHandshakeLoop]. unfold bindM at 1. cbn [get].
  match goal with |- (if _ then _ else ?m) c = ?r => assert (Hmore : m c = r) end.
  { unfold bindM at 1, catch at 1, onLayer, zoom. rewrite HR. reflexivity. }
  unfold hsHdrLen. destruct (4 <=? len (hsBuf c)) eqn:E4; [|exact Hmore]. z_bool.
  destruct (header_bytes _ _ _ _ _ E E4 Hl) as (b1 & b2 & b3 & buf & Eb & Hn).
  rewrite (bindM_lift_Ok _ b1), (bindM_lift_Ok _ b2), (bindM_lift_Ok _ b3) by now rewrite Eb.
  cbv zeta. rewrite lor_shift3, Hn, (proj2 (Z.ltb_ge _ _)) by done.
  rewrite (proj2 (Z.leb_gt _ _)) by lia. exact Hmore.
Qed.

Lemma readHandshakeLoop_reads ps fuel c t body rest l :
  lok c -> 0 <= t < 256 -> len body <= maxHandshakeMsg ->
  hs_reads (c_layer c) ps l -> hsBuf c ++ concat ps = buildEnvelope t body ++ rest ->
  (ps = [] \/ len (hsBuf c ++ concat (removelast ps)) < 4 + len body) ->
  (length (rx (rw (c_layer c))) < fuel)%nat ->
  readHandshakeLoop fuel c = (Ok (t, body), set_hsBuf rest (set_layer l c)).
Proof.
  revert fuel c; induction ps as [|p ps IH]; intros fuel c Hl Ht Hb Hr E Hmin Hf;
    (destruct fuel as [|fuel]; [lia|]).
  - inversion Hr; subst. rewrite app_nil_r in E.
    rewrite (readHandshakeLoop_buffered _ _ _ _ _ E) by done. now destruct c.
  - apply hs_reads_first in Hr as (l1 & HR & Hr). destruct Hmin as [|Hmin]; [done|].
    assert (Hshort : len (hsBuf c) < 4 + len body) by len_lia.
    rewrite (readHandshakeLoop_more fuel c _ t body rest p l1 E) by done.
    pose proof (ReadRecord_ok (c_layer c) Hl) as Hok. rewrite HR in Hok.
    destruct Hok as ((hdr & frag & Hrx & Hh & _) & Hl1 & _).
    rewrite (IH fuel _); [reflexivity|exact Hl1|done|done|exact Hr| | |].
    + cbn [hsBuf set_hsBuf]. cbn [concat] in E. now rewrite <- app_assoc.
    + destruct ps as [|p' ps]; [now left|right]. cbn [hsBuf set_hsBuf].
      cbn [removelast concat] in Hmin |- *. now rewrite <- app_assoc.
    + cbn. apply (f_equal length) in Hrx. rewrite !length_app in Hrx. unfold len in Hh. lia.
Qed.

(** * Properties *)


(** C1. A completed handshake authenticated the server: unless verification is
    switched off, the chain of its certificate was accepted by the verifier of
    its kind, for the configured name, time and roots, and by the application's
    callback; and in an ephemeral suite the key exchange parameters carried a
    signature by that certificate's key, of the kind the suite says (RSA PKCS #1 v1.5
    by an RSA key, ECDSA by an ECDSA key) and with SHA-256 or SHA-384, over both
    randoms of this connection and the parameters, by an algorithm that the
    ClientHello offered; no other suite has a ServerKeyExchange. *)
Theorem Handshake_authenticates c c' :
  fresh c -> Handshake c = (Ok tt, c') ->
  exists s sf suites exts,
    c_suite c' = Some s /\ server_sent c sf /\ hello_sent c c' suites exts /\
    leaf_accepted (c_params c) (c_now c) (sf_certs sf) (sf_gc sf) (sf_chains sf) /\
    callback_ok (c_params c) (sf_certs sf) (sf_chains sf) /\
    match KX s with
    | KexECDHE | KexDHE =>
        exists body, sf_ske sf = Some body /\
          params_signed s exts (Stdlib (sf_gc sf)) (clientRandom c') (serverRandom c')
            body (sf_params sf)
    | _ => sf_ske sf = None
    end.
Proof.
  intros Hf Hr. destruct (Handshake_done c c' Hf Hr) as (s & cr & sf & cke & ms & sp & rp & f & Hd).
  destruct (hd_final _ _ _ _ _ _ _ _ _ _ Hd) as (_ & Es & _ & Ecr & Esr).
  destruct (hd_server _ _ _ _ _ _ _ _ _ _ Hd) as [_ _ _ Hleaf Hcb Hske _].
  exists s, sf, (OfferedSuites (c_params c)), (helloExts c). split; [done|].
  split; [apply (hd_read _ _ _ _ _ _ _ _ _ _ Hd)|]. split; [eapply handshake_hello, Hd|].
  split; [done|]. split; [done|]. rewrite Ecr, Esr.
  unfold flight_ok in Hske.
  destruct (KX s), (sf_ske sf); try done; eexists; (split; [reflexivity|now apply ske_signed_offered]).
Qed.





End Proofs.
