(* ===== verification/ClientRun.v ===== *)
(** * A complete handshake

    A run of the client model on concrete primitives: an ECDHE-RSA server that
    asks for a client certificate and sends its first flight cut into records in
    the middle of a message.  The handshake's properties are evaluated on it. *)

From Stdlib Require Import ZArith Lia.
From stdpp Require Import base list strings gmap.
From S2P Require Import Prelude Errors Wire Extensions Messages Primitives Transcript State Layer Protectors Suites KeySetup KeyExchange Certs Client ClientProofs.

Open Scope Z_scope.

#[local] Existing Instance Toy.prims.
#[local] Existing Instance Toy.laws.
#[local] Existing Instance ToyKex.kex.
#[local] Existing Instance ToyKex.kexLaws.

(** Certificates are one key byte; a signature is the digest itself. *)
#[export] Instance toyX509 : X509 := {|
  x509ParseCertificate b := Some {| Raw := b; PublicKeyOf := RSAPub b |};
  x509Verify c o := if bool_decide (DNSName o = strBytes "example.org") then Some [[c]] else None;
  gostParseCertificate b :=
    Some {| Stdlib := {| Raw := b; PublicKeyOf := RSAPub b |}; HasGOSTPubKey := false;
            IsGOST := false; CurveOID := []; PubKeyRaw := []; SPKIAlgorithmDER := [] |};
  gostVerify c o := None;
  rsaVerifyPKCS1v15 pub h d sig := bool_decide (sig = d);
  ecdsaVerify pub d sigR sigS := false;
  rsaSignPKCS1v15 k h d t := Some (d, t);
  ecdsaSignASN1 k d t := None
|}.

Definition runParams : ClientParams :=
  {| p_ServerName := strBytes "example.org"; OfferedSuites := [0xC02F; 0x009C];
     RootCAs := None; InsecureSkipVerify := false; VerifyPeerCertificate := None;
     GOSTRoots := AnyNil; GOSTIntermediates := AnyNil;
     Certificates := [{| RawCertificate := [Byte.x77]; cc_PrivateKey := RSAPriv [Byte.x78] |}] |}.

Definition runWorld (incoming : bytes) : world :=
  {| rx := incoming; rxEnd := EOF; tx := []; wscript := []; rnd := repeat Byte.x5a 256 |}.

Definition runClient (incoming : bytes) : ClientState :=
  NewClientState (NewLayer (runWorld incoming)) runParams None 0.

(** ** The server's side of the run *)

Definition runServerRandom : bytes := repeat Byte.x33 32.
Definition runECDHEParams : bytes :=
  [Byte.x03] ++ bePut 2 29 ++ [z2b 8] ++ bePut 8 4242.

Definition runServerMsgs : list bytes :=
  let hello := {| sh_Version := 0x0303; sh_Random := runServerRandom; sh_SessionID := [];
                  sh_CipherSuite := 0xC02F; sh_CompressionMethod := Byte.x00;
                  sh_ExtendedMasterSecret := false; sh_RenegotiationInfo := true;
                  sh_ExtensionTypes := [extRenegotiationInfo] |} in
  let sig := digest SHA256 (repeat Byte.x5a 32 ++ runServerRandom ++ runECDHEParams) in
  [MarshalMessage (MServerHello hello);
   MarshalMessage (MCertificate [[Byte.x01]]);
   MarshalMessage (MServerKeyExchange (runECDHEParams ++ [Byte.x04; Byte.x01]
                                       ++ bePut 2 (len sig) ++ sig));
   MarshalMessage (RawMessage Byte.x0d ([Byte.x01; Byte.x01] ++ bePut 2 2 ++ [Byte.x04; Byte.x01]
                                       ++ bePut 2 0));
   MarshalMessage MServerHelloDone].

(** The flight in two records, the first ending inside the Certificate. *)
Definition runFlight1 : bytes :=
  let b := concat runServerMsgs in
  let '(b1, b2) := (take 50 b, drop 50 b) in
  recordHeader 22 (len b1) ++ b1 ++ recordHeader 22 (len b2) ++ b2.

(** The state of a client that has sent its Finished and finds nothing more to
    read: what an honest server computes its own Finished from. *)
Definition runWaiting : ClientState := snd (Handshake (runClient runFlight1)).

Definition runFinish : M (Layer AnyProtector) unit :=
  let c := runWaiting in
  match c_suite c with
  | None => fail EOF
  | Some s =>
    let! km := lift (KeyExpansion s (c_masterSecret c) (clientRandom c) (serverRandom c)) in
    let! p := lift (buildProtector s (ServerEncKey km) (ServerMACKey km) (ServerIV km)) in
    let! th := lift (Sum (c_transcript c) (Some (prf_Hash (suite_PRF s)))) in
    let! vd := lift (FinishedVerifyData s (c_masterSecret c) "server finished" th) in
    WriteRecord ContentTypeChangeCipherSpec [Byte.x01] ;;
    modify (ChangeCipherSpec (Some p) None) ;;
    WriteRecord ContentTypeHandshake (MarshalMessage (MFinished vd))
  end.

Definition runFlight2 : bytes := tx (rw (snd (runFinish (NewLayer (runWorld []))))).

Definition theRun : ClientState := Eval vm_compute in runClient (runFlight1 ++ runFlight2).

(** ** The run *)

Lemma runClient_fresh b : fresh (runClient b).
Proof. apply NewClientState_fresh. split; [done|done|vm_compute; split; congruence..]. Qed.

Lemma theRun_fresh : fresh theRun.
Proof. apply runClient_fresh. Qed.

Lemma theRun_Ok : fst (Handshake theRun) = Ok tt.
Proof. vm_compute. reflexivity. Qed.

Lemma theRun_done : Handshake theRun = (Ok tt, snd (Handshake theRun)).
Proof. rewrite <- theRun_Ok. apply surjective_pairing. Qed.

(** ** Witnesses *)


(** The RSA signature over the parameters of the run. *)
Lemma Handshake_authenticates_witness :
  exists sf suites exts h sig hash k,
    server_sent theRun sf /\ hello_sent theRun (snd (Handshake theRun)) suites exts /\
    leaf_accepted runParams 0 (sf_certs sf) (sf_gc sf) (sf_chains sf) /\
    offers exts h Byte.x01 /\ PublicKeyOf (Stdlib (sf_gc sf)) = RSAPub k /\
    rsaVerifyPKCS1v15 k hash
      (digest hash (repeat Byte.x5a 32 ++ repeat Byte.x33 32 ++ sf_params sf)) sig = true.
Proof.
  destruct (Handshake_authenticates theRun (snd (Handshake theRun)) theRun_fresh theRun_done)
    as (s & sf & suites & exts & H1 & H2 & H3 & H4 & _ & H5).
  assert (E : (fun s => (KX s, Auth s)) <$> c_suite (snd (Handshake theRun)) = Some (KexECDHE, AuthRSA))
    by (vm_compute; reflexivity).
  rewrite H1 in E. injection E as E1 E2. rewrite E1 in H5.
  assert (R1 : clientRandom (snd (Handshake theRun)) = repeat Byte.x5a 32) by (vm_compute; reflexivity).
  assert (R2 : serverRandom (snd (Handshake theRun)) = repeat Byte.x33 32) by (vm_compute; reflexivity).
  rewrite R1, R2 in H5. destruct H5 as (body & _ & _ & h & sg & sig & rest & hash & _ & Ho & _ & Hv).
  cbv zeta in Hv. rewrite E2 in Hv.
  destruct (PublicKeyOf (Stdlib (sf_gc sf))) as [k|k|k] eqn:Ek; [|destruct Hv..]. destruct Hv as [-> Hv].
  exists sf, suites, exts, h, sig, hash, k. split; [exact H2|]. split; [exact H3|]. split; [exact H4|].
  split; [exact Ho|]. split; [exact Ek|exact Hv].
Defined.




