(* ===== verification/Fatal.v ===== *)
(** * How a handshake fails

    The records a run of [Client] writes, as a log from the layer it started with: what
    was sent, what could not be sent, and where the write keys changed.  Every step of
    the machine keeps such a log, by a judgement that is closed under the operations of
    the monad; a handshake that fails after its ClientHello has written, as the last
    thing, one fatal alert. *)

From Stdlib Require Import ZArith Lia.
From stdpp Require Import base list strings gmap.
From S2P Require Import Prelude Errors Wire Extensions Messages Primitives Transcript State Layer Protectors Suites KeySetup KeyExchange Certs Client ClientProofs ClientRun.

Open Scope Z_scope.

(** What the client did to the send side of its layer. *)
Inductive event :=
| Sent (ct : Z) (payload : bytes)
| Failed (ct : Z) (payload : bytes)
| NewKeys (p : AnyProtector).

(** All of the send side but the randomness: nothing was written if it is unchanged. *)
Definition out_view (l : Layer AnyProtector)
  : Z * AnyProtector * bytes * list (option (nat * error)) :=
  (sendSeq l, sendProt l, tx (rw l), wscript (rw l)).

Section Log.
Context {C : Primitives}.

Inductive event_step : Layer AnyProtector -> event -> Layer AnyProtector -> Prop :=
| step_sent l ct b l' : WriteRecord ct b l = (Ok tt, l') -> event_step l (Sent ct b) l'
| step_failed l ct b e l' : WriteRecord ct b l = (Err e, l') -> event_step l (Failed ct b) l'
| step_keys l p : event_step l (NewKeys p) (ChangeCipherSpec (Some p) None l).

(** The events between two layers, in order; in between only the other side changes. *)
Inductive log : Layer AnyProtector -> list event -> Layer AnyProtector -> Prop :=
| log_nil l l' : out_view l' = out_view l -> log l [] l'
| log_cons l l0 ev l1 evs l' :
    out_view l0 = out_view l -> event_step l0 ev l1 -> log l1 evs l' -> log l (ev :: evs) l'.

Lemma log_view l k evs l' : out_view l = out_view k -> log l evs l' -> log k evs l'.
Proof.
  intros E H. destruct H as [l l' F|l l0 ev l1 evs l' F S H].
  - constructor. congruence.
  - eapply log_cons; [|exact S|exact H]. congruence.
Qed.

Lemma log_app l es k fs l' : log l es k -> log k fs l' -> log l (es ++ fs) l'.
Proof.
  induction 1 as [l k E|l l0 ev l1 evs k E S _ IH]; intros H.
  - exact (log_view _ _ _ _ E H).
  - cbn. eapply log_cons; [exact E|exact S|auto].
Qed.

Lemma log_one l ev l' : event_step l ev l' -> log l [ev] l'.
Proof. intros H. eapply log_cons; [reflexivity|exact H|]. now constructor. Qed.

(** A handshake goes on by handshake messages, ChangeCipherSpec and new keys. *)
Definition goes_on (ev : event) : Prop :=
  match ev with
  | Sent ct _ => ct = 22 \/ ct = 20
  | Failed _ _ => False
  | NewKeys _ => True
  end.

(** The log of a run that stopped: at most its last record could not be sent. *)
Definition stopped (evs : list event) : Prop :=
  exists es last, evs = es ++ last /\ Forall goes_on es /\
    (last = [] \/ exists ct b, last = [Failed ct b] /\ (ct = 22 \/ ct = 20)).

(** handshake_failure, unexpected_message, protocol_version, illegal_parameter,
    unsupported_extension, bad_certificate, decrypt_error, internal_error. *)
Definition fatalAlerts : list Z := [40; 10; 70; 47; 110; 42; 51; 80].

(** ... and then wrote a fatal alert: two bytes, the level and one of the descriptions. *)
Definition gave_up (l l' : Layer AnyProtector) : Prop :=
  exists evs k d r, log l evs k /\ stopped evs /\ d ∈ fatalAlerts /\
    WriteRecord 21 [Byte.x02; z2b d] k = (r, l') /\ safe r.

(** [tracks m]: a success of [m] only went on, a failure of [m] gave up. *)
Definition tracks {A} (m : M ClientState A) : Prop := forall c,
  match m c with
  | (Ok _, c') => exists evs, log (c_layer c) evs (c_layer c') /\ Forall goes_on evs
  | (Err _, c') => gave_up (c_layer c) (c_layer c')
  | (Crash _, _) => True
  end.

(** [silent m]: [m] writes nothing, whatever its outcome. *)
Definition silent {A} (m : M ClientState A) : Prop := forall c,
  out_view (c_layer (snd (m c))) = out_view (c_layer c).

(** ** The rules *)

Lemma gave_up_log l es k l' : log l es k -> Forall goes_on es -> gave_up k l' -> gave_up l l'.
Proof.
  intros H1 H2 (evs & k' & d & r & H3 & (fs & last & -> & H4 & H5) & H6).
  exists (es ++ fs ++ last), k', d, r. split; [eapply log_app; eauto|]. split; [|exact H6].
  exists (es ++ fs), last. rewrite app_assoc. split; [done|]. split; [now apply Forall_app|done].
Qed.

Lemma tracks_bind {A B} (m : M ClientState A) (k : A -> M ClientState B) :
  tracks m -> (forall a, tracks (k a)) -> tracks (bindM m k).
Proof.
  intros Hm Hk c. specialize (Hm c). unfold bindM. destruct (m c) as [[a|e|x] c1]; [|done..].
  destruct Hm as (es & H1 & H2). specialize (Hk a c1). destruct (k a c1) as [[b|e|x] c2]; [| |done].
  - destruct Hk as (fs & H3 & H4). exists (es ++ fs). split; [eapply log_app; eauto|now apply Forall_app].
  - eapply gave_up_log; eauto.
Qed.

Lemma tracks_ret {A} (a : A) : tracks (ret a).
Proof. intros c. exists []. split; [now constructor|constructor]. Qed.

Lemma tracks_get : tracks get.
Proof. intros c. exists []. split; [now constructor|constructor]. Qed.

Lemma tracks_modify f : (forall c, out_view (c_layer (f c)) = out_view (c_layer c)) -> tracks (modify f).
Proof. intros H c. exists []. split; [constructor; apply H|constructor]. Qed.

Lemma tracks_lift {A} (r : result A) : (forall e, r <> Err e) -> tracks (lift r).
Proof.
  intros H c. unfold lift. destruct r as [a|e|x]; [|now destruct (H e)|done].
  exists []. split; [now constructor|constructor].
Qed.

Lemma tracks_fatal {A} d e : d ∈ fatalAlerts -> tracks (A := A) (fatal d e).
Proof.
  intros Hd c. unfold fatal, onLayer, zoom.
  change (EncodeAlert AlertLevelFatal d) with [Byte.x02; z2b d].
  change ContentTypeAlert with 21.
  destruct (WriteRecord 21 [Byte.x02; z2b d] (c_layer c)) as [[a|e'|x] l'] eqn:E; [| |done];
    (exists [], (c_layer c), d; eexists; split; [now constructor|]; split; [exists [], []; auto|];
     split; [done|]; split; [exact E|done]).
Qed.

(** [if err != nil { return c.fatal(d, err) }] after a step that writes nothing. *)
Lemma tracks_orFatal {A} d (m : M ClientState A) : d ∈ fatalAlerts -> silent m -> tracks (orFatal d m).
Proof.
  intros Hd Hm c. unfold orFatal, catch. specialize (Hm c). destruct (m c) as [[a|e|x] c1]; [| |done].
  - exists []. split; [now constructor|constructor].
  - pose proof (tracks_fatal (A := A) d e Hd c1) as Hf.
    destruct (fatal d e c1) as [[a|e'|x] c2] eqn:E; [| |done].
    + unfold fatal in E. destruct (onLayer _ c1) as [[] ?]; discriminate E.
    + apply (gave_up_log _ [] (c_layer c1)); [now constructor|constructor|exact Hf].
Qed.

(** ... and after a write. *)
Lemma tracks_write d ct b :
  d ∈ fatalAlerts -> ct = 22 \/ ct = 20 -> tracks (orFatal d (onLayer (WriteRecord ct b))).
Proof.
  intros Hd Hct c. unfold orFatal, catch, onLayer, zoom.
  destruct (WriteRecord ct b (c_layer c)) as [[[]|e|x] l'] eqn:E; [| |done].
  - exists [Sent ct b]. split; [now apply log_one; constructor|]. constructor; [exact Hct|constructor].
  - pose proof (tracks_fatal (A := unit) d e Hd (set_layer l' c)) as Hf.
    destruct (fatal d e (set_layer l' c)) as [[a|e'|x] c2] eqn:E2; [| |done].
    + unfold fatal in E2. destruct (onLayer _ _) as [[] ?]; discriminate E2.
    + unfold fatal, onLayer, zoom in E2.
      change (EncodeAlert AlertLevelFatal d) with [Byte.x02; z2b d] in E2.
      change ContentTypeAlert with 21 in E2. cbn [c_layer set_layer] in E2.
      destruct (WriteRecord 21 [Byte.x02; z2b d] l') as [r l2] eqn:E3.
      assert (Hr : safe r /\ c_layer c2 = l2) by (destruct r; [injection E2 as _ <-; done..|discriminate E2]).
      destruct Hr as [Hr ->]. exists [Failed ct b], l', d, r.
      split; [apply log_one; econstructor; exact E|]. split; [|done].
      exists [], [Failed ct b]. split; [done|]. split; [constructor|]. right. eauto.
Qed.

Lemma tracks_keys p : tracks (onLayer (modify (ChangeCipherSpec (Some p) None))).
Proof. intros c. exists [NewKeys p]. split; [apply log_one; constructor|]. now constructor. Qed.

(** ** Silent computations *)

Lemma silent_bind {A B} (m : M ClientState A) (k : A -> M ClientState B) :
  silent m -> (forall a, silent (k a)) -> silent (bindM m k).
Proof.
  intros Hm Hk c. specialize (Hm c). unfold bindM. destruct (m c) as [[a|e|x] c1]; [|done..].
  rewrite (Hk a c1). exact Hm.
Qed.

Lemma silent_catch {A} (m : M ClientState A) h :
  silent m -> (forall e, silent (h e)) -> silent (catch m h).
Proof.
  intros Hm Hk c. specialize (Hm c). unfold catch. destruct (m c) as [[a|e|x] c1]; [done| |done].
  rewrite (Hk e c1). exact Hm.
Qed.

Lemma silent_id {A} (m : M ClientState A) : (forall c, snd (m c) = c) -> silent m.
Proof. intros H c. now rewrite H. Qed.

Lemma silent_modify f : (forall c, out_view (c_layer (f c)) = out_view (c_layer c)) -> silent (modify f).
Proof. intros H c. apply H. Qed.

Lemma silent_rngs {A} (m : M rngs A) : silent (onRngs m).
Proof. intros c. unfold onRngs, zoom. now destruct (m (getRngs c)). Qed.

(** A read never touches the send side. *)
Lemma ReadRecord_silent (l : Layer AnyProtector) : out_view (snd (ReadRecord l)) = out_view l.
Proof.
  unfold ReadRecord, bindM, get. destruct (recvSeq l =? maxUint64); [done|].
  unfold onWorld, zoom, readFull. destruct (recordHeaderLen <=? len (rx (rw l))); [|done].
  set (l1 := set_rw _ l). change (out_view l) with (out_view l1). unfold lift.
  destruct (index _ 0); [|done..]. destruct (slice _ 1 3); [|done..]. destruct (slice _ 3 5); [|done..].
  destruct (negb _); [done|]. destruct (negb _); [done|]. destruct (_ <? _); [done|].
  destruct (_ <=? _); [|done]. unfold openRecord. destruct (Open _ _ _ _) as [[plain|e|x] p]; [|done..].
  now destruct (_ <? _).
Qed.

Lemma silent_read : silent (onLayer ReadRecord).
Proof.
  intros c. unfold onLayer, zoom. pose proof (ReadRecord_silent (c_layer c)) as H.
  now destruct (ReadRecord (c_layer c)).
Qed.

End Log.

Create HintDb tracks.
#[export] Hint Resolve tracks_ret tracks_get tracks_keys silent_rngs silent_read : tracks.

(** One step of [silent] or [tracks], by the shape of the program. *)
Ltac silent_step :=
  match goal with
  | |- silent (bindM _ _) => apply silent_bind; [|intros]
  | |- silent (catch _ _) => apply silent_catch; [|intros]
  | |- silent (modify _) => apply silent_modify; intros; reflexivity
  | |- silent (if ?b then _ else _) => destruct b
  | |- silent (match ?x with _ => _ end) => destruct x
  | |- silent _ => solve [auto with tracks | apply silent_id; intros; reflexivity]
  end.

Ltac fatal_alert := unfold fatalAlerts; repeat (first [left; reflexivity | right]).

Ltac track_step :=
  match goal with
  | |- tracks (bindM _ _) => apply tracks_bind; [|intros]
  | |- tracks (fatal _ _) => apply tracks_fatal; fatal_alert
  | |- tracks (orFatal _ (onLayer (WriteRecord _ _))) => apply tracks_write; [fatal_alert|auto]
  | |- tracks (orFatal _ _) => apply tracks_orFatal; [fatal_alert|repeat silent_step]
  | |- tracks (modify _) => apply tracks_modify; intros; reflexivity
  | |- tracks (if ?b then _ else _) => destruct b
  | |- tracks (match ?x with _ => _ end) => destruct x
  | |- tracks _ => solve [auto with tracks]
  end.

(** ** The machine *)

Section Machine.
Context {C : Primitives} {K : KexLib} {X : X509}.

Lemma tracks_index {A} (l : list A) i : tracks (lift (index l i)).
Proof. apply tracks_lift. intros e. unfold index. now repeat case_match. Qed.

Lemma tracks_slice {A} (l : list A) lo hi : tracks (lift (slice l lo hi)).
Proof. apply tracks_lift. intros e. unfold slice. now destruct (_ && _). Qed.

Lemma tracks_getSuite : tracks getSuite.
Proof.
  intros c. unfold getSuite, bindM, get. destruct (c_suite c); [|done].
  exists []. split; [now constructor|constructor].
Qed.

Lemma tracks_transcript b : tracks (transcriptWrite b).
Proof. now apply tracks_modify. Qed.

Lemma tracks_sigAlg c : tracks (lift (selectClientSigAlg c)).
Proof. apply tracks_lift. intros e. now rewrite selectClientSigAlg_eq. Qed.

Lemma silent_getSuite : silent getSuite.
Proof. intros c. unfold getSuite, bindM, get. now destruct (c_suite c). Qed.

Hint Resolve tracks_index tracks_slice tracks_getSuite tracks_transcript tracks_sigAlg silent_getSuite : tracks.

Lemma silent_readLoop fuel : silent (readHandshakeLoop fuel).
Proof.
  induction fuel as [|fuel IH]; cbn [readHandshakeLoop]; [now apply silent_id|].
  apply silent_bind; [now apply silent_id|]. intros c. cbv zeta. repeat silent_step.
Qed.

Lemma silent_readHandshake : silent readHandshakeRecord.
Proof. intros c. apply silent_readLoop. Qed.

Lemma silent_chain raw : silent (parseAndVerifyChain raw).
Proof. unfold parseAndVerifyChain. cbv zeta. repeat silent_step. Qed.

Lemma silent_gost2018 : silent buildGOST2018Exchange.
Proof. unfold buildGOST2018Exchange. cbv zeta. repeat silent_step. Qed.

Hint Resolve silent_readHandshake silent_chain silent_gost2018 : tracks.

Lemma silent_gost : silent buildGOSTExchange.
Proof. unfold buildGOSTExchange. cbv zeta. repeat silent_step. Qed.

Hint Resolve silent_gost : tracks.

Lemma tracks_writeHandshake b : tracks (writeHandshake b).
Proof. unfold writeHandshake. track_step. Qed.

Hint Resolve tracks_writeHandshake : tracks.

Lemma tracks_recvServerHello : tracks recvServerHello.
Proof. unfold recvServerHello. repeat track_step. Qed.

Lemma tracks_recvCertificate : tracks recvCertificate.
Proof. unfold recvCertificate. repeat track_step. Qed.

Lemma tracks_verifySKE cert params sigData e1 e2 : tracks (verifySKESignature cert params sigData e1 e2).
Proof. unfold verifySKESignature. cbv zeta. repeat track_step. Qed.

Hint Resolve tracks_verifySKE : tracks.

Lemma tracks_verifyServerKeyExchange body cert : tracks (verifyServerKeyExchange body cert).
Proof.
  unfold verifyServerKeyExchange, verifyECDHEServerKeyExchange, verifyDHEServerKeyExchange. cbv zeta.
  repeat track_step.
Qed.

Hint Resolve tracks_verifyServerKeyExchange : tracks.

Lemma tracks_flightLoop fuel cert b1 b2 params : tracks (serverFlightLoop fuel cert b1 b2 params).
Proof.
  revert b1 b2 params; induction fuel as [|fuel IH]; intros b1 b2 params; cbn [serverFlightLoop].
  - now apply tracks_lift.
  - repeat track_step.
Qed.

Hint Resolve tracks_flightLoop : tracks.

Lemma tracks_recvServerFlight cert : tracks (recvServerFlight cert).
Proof. unfold recvServerFlight. repeat track_step. Qed.

Lemma tracks_computeKeyExchange cert params : tracks (computeKeyExchange cert params).
Proof.
  unfold computeKeyExchange. repeat track_step. now apply tracks_lift.
Qed.

Lemma tracks_expandKeys : tracks expandKeys.
Proof. unfold expandKeys. cbv zeta. repeat track_step. Qed.

Lemma tracks_finished label ms : tracks (finishedVerifyData label ms).
Proof. unfold finishedVerifyData. repeat track_step. Qed.

Hint Resolve tracks_finished : tracks.

Lemma tracks_clientCertificate : tracks sendClientCertificate.
Proof. unfold sendClientCertificate. cbv zeta. repeat track_step. Qed.

Lemma tracks_certificateVerify alg : tracks (sendCertificateVerify alg).
Proof. unfold sendCertificateVerify. cbv zeta. repeat track_step. Qed.

Lemma tracks_receiveKeys p : tracks (onLayer (modify (ChangeCipherSpec None (Some p)))).
Proof. intros c. exists []. split; [now constructor|constructor]. Qed.

Hint Resolve tracks_receiveKeys : tracks.

Lemma tracks_receiveServerFinished ms p : tracks (receiveServerFinished ms p).
Proof. unfold receiveServerFinished. repeat track_step. Qed.

Hint Resolve tracks_recvServerHello tracks_recvCertificate tracks_recvServerFlight
  tracks_computeKeyExchange tracks_expandKeys tracks_clientCertificate tracks_certificateVerify
  tracks_receiveServerFinished : tracks.

(** The ClientHello is one record. *)
Lemma sendClientHello_log c c1 :
  sendClientHello c = (Ok tt, c1) ->
  exists random, log (c_layer c) [Sent 22 (helloEnv c random)] (c_layer c1).
Proof.
  unfold sendClientHello. intros H. apply bindM_Ok in H as (random & c2 & Hr & H).
  pose proof (silent_rngs (randCfg 32) c) as Hs. rewrite Hr in Hs. cbn [snd] in Hs.
  assert (E : c_params c2 = c_params c).
  { unfold onRngs, zoom in Hr. destruct (randCfg 32 (getRngs c)). now injection Hr as _ <-. }
  apply bindM_Ok in H as ([] & c3 & H3 & H). injection H3 as <-.
  apply bindM_Ok in H as (c4 & c4' & H4 & H). injection H4 as <- <-. cbv zeta in H.
  apply bindM_Ok in H as ([] & c5 & H5 & H). injection H as <-.
  unfold onLayer, zoom in H5. exists random.
  assert (Eh : clientHello (set_clientRandom random c2) random = clientHello c random)
    by (unfold clientHello; cbn; now rewrite E).
  rewrite Eh in H5. cbn [c_layer set_clientRandom] in H5.
  destruct (WriteRecord _ _ (c_layer c2)) as [r l] eqn:EW. injection H5 as -> <-.
  eapply log_cons; [exact Hs|apply step_sent, EW|now constructor].
Qed.

Lemma Handshake_gave_up c e c' :
  Handshake c = (Err e, c') ->
  sendClientHello c = (Err e, c') \/
  exists c1, sendClientHello c = (Ok tt, c1) /\ gave_up (c_layer c1) (c_layer c').
Proof.
  unfold Handshake. unfold bindM at 1. intros H.
  destruct (sendClientHello c) as [[[]|e'|x] c1]; [right|left; exact H|discriminate H].
  exists c1. split; [done|].
  match type of H with ?m c1 = _ => assert (Ht : tracks m) by repeat track_step end.
  specialize (Ht c1). now rewrite H in Ht.
Qed.

(** Why an alert may not reach the peer: the sequence number is spent, the protector has
    no randomness for it, or the transport does not take it. *)
Definition alert_lost (l : Layer AnyProtector) (alert : bytes) : Prop :=
  sendSeq l = 2 ^ 64 - 1 \/
  (exists e p t, Seal (sendProt l) (rnd (rw l)) (sendSeq l) (recordHeader 21 0) alert = (Err e, p, t)) \/
  ~ Forall (fun o => o = None) (wscript (rw l)).

Lemma WriteRecord_lost alert e (l l' : Layer AnyProtector) :
  len alert <= 2 ^ 14 -> WriteRecord 21 alert l = (Err e, l') -> alert_lost l alert.
Proof.
  intros Hn H. unfold WriteRecord in H. change (isKnownContentType 21) with true in H. cbn [negb] in H.
  rewrite (proj2 (Z.ltb_ge _ _)) in H by exact Hn. unfold bindM at 1 in H. cbn [get] in H.
  destruct (Z.eqb_spec (sendSeq l) maxUint64) as [E|_]; [left; exact E|right].
  unfold bindM at 1, sealRecord in H.
  destruct (Seal _ _ _ _ _) as [[[frag|e'|x] p] t] eqn:ES; [|left; eauto|discriminate].
  right. intros Hq. revert H. unfold bindM, onWorld, zoom, rwWrite. cbn.
  destruct (wscript (rw l)) as [|[[]|] [|[[]|] ?]]; cbn;
    rewrite ?Forall_cons in Hq; try discriminate; naive_solver.
Qed.

End Machine.

(** * Properties *)

Section Properties.
Context {C : Primitives} {CL : PrimitiveLaws C} {K : KexLib} {KL : KexLaws K} {X : X509}.

(** C17. No server makes the client panic or loop: on any bytes from the network, any
    randomness and any transport failures the handshake of a new connection returns,
    with success or an error.  A failure after the ClientHello ends in an alert: from
    the layer the run started with, the client wrote its ClientHello, then only
    handshake messages and ChangeCipherSpec, of which at most the last could not be
    sent, and then, as the last thing and under the keys it had reached, one record
    with a fatal alert of eight descriptions.  That record went out unless the sequence
    number was spent, the protector could not seal it or the transport refused it.
    Only a ClientHello that could not be sent fails without an alert. *)
Theorem Handshake_total c :
  fresh c ->
  (exists c', Handshake c = (Ok tt, c')) \/
  (exists e c', Handshake c = (Err e, c') /\
     (sendClientHello c = (Err e, c') \/
      exists random evs l d r,
        log (c_layer c) (Sent 22 (helloEnv c random) :: evs) l /\ stopped evs /\ d ∈ fatalAlerts /\
        WriteRecord 21 [Byte.x02; z2b d] l = (r, c_layer c') /\
        (r = Ok tt \/ alert_lost l [Byte.x02; z2b d]))).
Proof.
  intros Hf. pose proof (Handshake_wp c Hf) as H. unfold wp in H.
  destruct (Handshake c) as [[[]|e|k] c'] eqn:E; [eauto| |done]. right. exists e, c'. split; [done|].
  destruct (Handshake_gave_up c e c' E) as [|(c1 & Hs & evs & l & d & r & H1 & H2 & H3 & H4 & H5)]; [now left|right].
  destruct (sendClientHello_log c c1 Hs) as (random & H0). exists random, evs, l, d, r.
  split; [exact (log_app _ _ _ _ _ H0 H1)|]. do 3 (split; [done|]).
  destruct r as [[]|e'|x]; [now left|right|done]. eapply WriteRecord_lost, H4. vm_compute. congruence.
Qed.

End Properties.

(** ** Witness *)

#[local] Existing Instance Toy.prims.
#[local] Existing Instance Toy.laws.
#[local] Existing Instance ToyKex.kex.
#[local] Existing Instance ToyKex.kexLaws.

(** A server that begins with ServerHelloDone. *)
Definition badRun : ClientState :=
  Eval vm_compute in runClient (recordHeader 22 4 ++ [Byte.x0e; Byte.x00; Byte.x00; Byte.x00]).

Lemma badRun_fresh : fresh badRun.
Proof. apply runClient_fresh. Qed.

(** The client answers unexpected_message, and the alert is the last record it sent. *)
Lemma Handshake_total_witness :
  fst (Handshake badRun) = Err errExpectedServerHello /\
  (exists hello, tx (rw (c_layer (snd (Handshake badRun))))
                 = hello ++ [Byte.x15; Byte.x03; Byte.x03; Byte.x00; Byte.x02; Byte.x02; Byte.x0a]) /\
  exists random evs l d r,
    log (c_layer badRun) (Sent 22 (helloEnv badRun random) :: evs) l /\ stopped evs /\ d ∈ fatalAlerts /\
    WriteRecord 21 [Byte.x02; z2b d] l = (r, c_layer (snd (Handshake badRun))).
Proof.
  assert (E : fst (Handshake badRun) = Err errExpectedServerHello) by (vm_compute; reflexivity).
  split; [exact E|]. split.
  { exists (take (Z.to_nat (len (tx (rw (c_layer (snd (Handshake badRun))))) - 7))
              (tx (rw (c_layer (snd (Handshake badRun)))))). vm_compute. reflexivity. }
  destruct (Handshake_total badRun badRun_fresh) as [[c' H]|(e & c' & H & [Hs|H'])].
  - rewrite H in E. discriminate E.
  - assert (F : fst (sendClientHello badRun) = Ok tt) by (vm_compute; reflexivity).
    rewrite Hs in F. discriminate F.
  - rewrite H. destruct H' as (random & evs & l & d & r & H1 & H2 & H3 & H4 & _).
    exists random, evs, l, d, r. split; [exact H1|]. split; [exact H2|]. split; [exact H3|exact H4].
Defined.
