(* ===== verification/Flow.v ===== *)
(** * The message flow of RFC 5246 §7.3

    Figure 1 of the RFC as an automaton over the types of the handshake messages,
    with the ServerKeyExchange of the key exchanges that have one.  A handshake of
    [Client] that completes is a run of it: whatever the server sent, no message
    was skipped, repeated or out of order. *)

From Stdlib Require Import ZArith Lia.
From stdpp Require Import base list strings gmap.
From S2P Require Import Prelude Errors Wire Extensions Messages Primitives Transcript State Layer Protectors Suites KeySetup KeyExchange Certs Client ClientProofs ClientRun.

Open Scope Z_scope.

(** The next message of the flow; [asked] is set by a CertificateRequest. *)
Inductive phase :=
| WaitClientHello
| WaitServerHello
| WaitServerCertificate
| WaitServerKeyExchange
| WaitCertificateRequestOrDone
| WaitServerHelloDone
| WaitClientCertificate
| WaitClientKeyExchange (asked : bool)
| WaitCertificateVerifyOrFinished
| WaitClientFinished
| WaitServerFinished
| FlowComplete.

Definition expect (t want : Z) (p : phase) : option phase := if t =? want then Some p else None.

(** One message; [ske] says that the key exchange has a ServerKeyExchange. *)
Definition flowStep (ske : bool) (p : phase) (t : Z) : option phase :=
  match p with
  | WaitClientHello => expect t TypeClientHello WaitServerHello
  | WaitServerHello => expect t TypeServerHello WaitServerCertificate
  | WaitServerCertificate =>
      expect t TypeCertificate (if ske then WaitServerKeyExchange else WaitCertificateRequestOrDone)
  | WaitServerKeyExchange => expect t TypeServerKeyExchange WaitCertificateRequestOrDone
  | WaitCertificateRequestOrDone =>
      if t =? TypeCertificateRequest then Some WaitServerHelloDone
      else expect t TypeServerHelloDone (WaitClientKeyExchange false)
  | WaitServerHelloDone => expect t TypeServerHelloDone WaitClientCertificate
  | WaitClientCertificate => expect t TypeCertificate (WaitClientKeyExchange true)
  | WaitClientKeyExchange asked =>
      expect t TypeClientKeyExchange (if asked then WaitCertificateVerifyOrFinished else WaitClientFinished)
  | WaitCertificateVerifyOrFinished =>
      if t =? TypeCertificateVerify then Some WaitClientFinished
      else expect t TypeFinished WaitServerFinished
  | WaitClientFinished => expect t TypeFinished WaitServerFinished
  | WaitServerFinished => expect t TypeFinished FlowComplete
  | FlowComplete => None
  end.

Fixpoint flowRun (ske : bool) (p : phase) (ts : list Z) : option phase :=
  match ts with
  | [] => Some p
  | t :: ts => match flowStep ske p t with Some p => flowRun ske p ts | None => None end
  end.

(** RFC 5246 §7.4.3 and RFC 9189: only the ephemeral exchanges send parameters. *)
Definition hasServerKeyExchange (k : KexKind) : bool :=
  match k with KexDHE | KexECDHE => true | _ => false end.

(** The type and the body of an envelope. *)
Definition envelopeType (m : bytes) : Z := b2z (default Byte.x00 (head m)).
Definition is_envelope (m : bytes) : Prop :=
  exists t body, m = z2b t :: bePut 3 (len body) ++ body /\ 0 <= t < 256 /\ len body < 2 ^ 24.

Section Flow.
Context {C : Primitives} {CL : PrimitiveLaws C} {K : KexLib} {KL : KexLaws K} {X : X509}.

Lemma envelopeType_build t body : 0 <= t < 256 -> envelopeType (buildEnvelope t body) = t.
Proof. intros Ht. now apply b2z_small. Qed.

Lemma envelopeType_marshal m : envelopeType (MarshalMessage m) = MessageType m.
Proof. rewrite MarshalMessage_eq. apply b2z_small, MessageType_range. Qed.

Lemma is_envelope_build t body :
  0 <= t < 256 -> len (buildEnvelope t body) <= 4 + maxHandshakeMsg -> is_envelope (buildEnvelope t body).
Proof.
  rewrite len_buildEnvelope. unfold maxHandshakeMsg. intros Ht Hl. exists t, body.
  split; [apply buildEnvelope_eq|]. split; [done|lia].
Qed.

Lemma is_envelope_marshal m : len (MarshalMessage m) <= 2 ^ 14 -> is_envelope (MarshalMessage m).
Proof.
  rewrite MarshalMessage_eq, len_cons, len_app, len_bePut. intros Hl. exists (MessageType m), (Marshal m).
  split; [done|]. split; [apply MessageType_range|lia].
Qed.

(** Bytes are cut into envelopes in one way. *)
Lemma envelope_prefix a b x y :
  is_envelope a -> is_envelope b -> a ++ x = b ++ y -> a = b /\ x = y.
Proof.
  intros (t & body & -> & _ & Hn) (t' & body' & -> & _ & Hn') E.
  rewrite <- !app_comm_cons, <- !app_assoc in E.
  assert (Et : z2b t = z2b t') by (now apply (f_equal (hd Byte.x00)) in E).
  apply (f_equal tail) in E. cbn [tail] in E.
  apply app_inj_1 in E as [El E]; [|apply Nat2Z.inj; change (len (bePut 3 (len body)) = len (bePut 3 (len body'))); now rewrite !len_bePut].
  assert (Hl : len body = len body').
  { apply (f_equal beUint) in El. pose proof (len_nonneg body). pose proof (len_nonneg body').
    now rewrite !beUint_put_small in El by (cbn; lia). }
  apply app_inj_1 in E as [-> ->]; [|now apply Nat2Z.inj]. now rewrite Et.
Qed.

Lemma envelopes_unique xs ys :
  Forall is_envelope xs -> Forall is_envelope ys -> concat xs = concat ys -> xs = ys.
Proof.
  intros Hx. revert ys; induction Hx as [|x xs Hx _ IH]; intros ys Hy E.
  - destruct Hy as [|y ys (t & b & -> & _) _]; [done|discriminate E].
  - destruct Hy as [|y ys Hy Hys]; [destruct Hx as (t & b & -> & _); discriminate E|].
    cbn [concat] in E. destruct (envelope_prefix _ _ _ _ Hx Hy E) as [-> E']. f_equal. auto.
Qed.

(** A record that is delivered holds at most 2^14 bytes. *)
Lemma readAll_bounded n (l : Layer AnyProtector) rs l' :
  layer_ok l -> readAll n l = (Ok rs, l') -> Forall (fun r => len (snd r) <= 2 ^ 14) rs.
Proof.
  revert l rs; induction n as [|n IH]; intros l rs Hl H; cbn [readAll] in H.
  - injection H as <- _. constructor.
  - apply bindM_Ok in H as (r & l1 & HR & H). apply bindM_Ok in H as (rs' & l2 & HA & H).
    injection H as <- <-. pose proof (ReadRecord_ok l Hl) as Hok. rewrite HR in Hok.
    destruct Hok as ((hdr & frag & _ & _ & _ & _ & _ & _ & _ & _ & Hn & _) & Hl1 & _).
    constructor; [exact Hn|]. eapply IH; eauto.
Qed.

Lemma delivered_bounded (l : Layer AnyProtector) rs l' :
  layer_ok l -> delivered l rs l' -> Forall (fun r => len (snd r) <= 2 ^ 14) rs.
Proof.
  intros [H1 H2 H3 H4] (wire & _ & Hr).
  destruct (Hr (set_recv (sendSeq l) (sendProt l) (set_rw (set_rx wire (rw l)) l)) [])
    as (r' & HA & _); [done|done|cbn; now rewrite app_nil_r|].
  eapply readAll_bounded, HA. split; done.
Qed.

(** The types of the two flights. *)
Definition serverTypes (sf : server_flight) : list Z :=
  [TypeServerHello; TypeCertificate] ++
  option_list ((fun _ => TypeServerKeyExchange) <$> sf_ske sf) ++
  option_list ((fun _ => TypeCertificateRequest) <$> sf_creq sf) ++ [TypeServerHelloDone].

Lemma serverMsgs_types sf : map envelopeType (serverMsgs sf) = serverTypes sf.
Proof. unfold serverMsgs, flightMsgs, serverTypes. now destruct (sf_ske sf), (sf_creq sf) as [[]|]. Qed.

Lemma serverMsgs_envelopes sf :
  Forall (fun m => len m <= 4 + maxHandshakeMsg) (serverMsgs sf) -> Forall is_envelope (serverMsgs sf).
Proof.
  unfold serverMsgs, flightMsgs. intros H.
  destruct (sf_ske sf), (sf_creq sf) as [[]|]; cbn in H |- *;
    repeat (apply Forall_cons in H as [? H]; constructor; [now apply is_envelope_build|]); constructor.
Qed.

(** What the client sends is envelopes, too. *)
Lemma flight_envelopes c c' s cr sf cke ms sendP recvP f :
  layer_ok (c_layer c) -> handshake_done c c' s cr sf cke ms sendP recvP f ->
  Forall is_envelope (helloEnv c cr :: beforeFinished f) /\
  is_envelope (MarshalMessage (MFinished (f_finished f))).
Proof.
  intros Hl Hd. destruct (handshake_wrote _ _ _ _ _ _ _ _ _ _ Hd) as (k0 & k1 & k2 & D & _ & _ & _ & W & _).
  apply WriteRecord_guards in W as (_ & Hfin & _). split; [|apply is_envelope_marshal; exact Hfin].
  apply (delivered_bounded _ _ _ Hl) in D. unfold hsRecords in D. rewrite Forall_map in D.
  destruct (hd_auth _ _ _ _ _ _ _ _ _ _ Hd) as [Hc Hv]. pose proof (proj1 (hd_cke _ _ _ _ _ _ _ _ _ _ Hd)) as Hk.
  assert (Hm : Forall (fun m => exists x, m = MarshalMessage x) (helloEnv c cr :: beforeFinished f)).
  { unfold beforeFinished, beforeVerify. rewrite Hc, Hk. constructor; [unfold helloEnv; eauto|].
    repeat (apply Forall_app; split).
    - destruct (snd <$> sf_creq sf) as [req|]; [|constructor].
      constructor; [unfold clientCertMsg; eauto|constructor].
    - constructor; [eauto|constructor].
    - destruct (_ ≫= selectedAlg _); [destruct Hv as (sig & -> & _)|rewrite Hv; constructor].
      constructor; [unfold certVerifyMsg; eauto|constructor]. }
  rewrite Forall_forall in D, Hm |- *. intros m Hin. destruct (Hm m Hin) as (x & ->).
  apply is_envelope_marshal. exact (D _ Hin).
Qed.

Lemma handshake_flow c c' s cr sf cke ms sendP recvP f :
  handshake_done c c' s cr sf cke ms sendP recvP f ->
  flowRun (hasServerKeyExchange (KX s)) WaitClientHello
    (map envelopeType (helloEnv c cr :: serverMsgs sf ++ wholeFlight f)) = Some FlowComplete.
Proof.
  intros Hd. destruct (hd_server _ _ _ _ _ _ _ _ _ _ Hd) as [_ _ _ _ _ Hske _].
  destruct (hd_auth _ _ _ _ _ _ _ _ _ _ Hd) as [Hc Hv]. pose proof (proj1 (hd_cke _ _ _ _ _ _ _ _ _ _ Hd)) as Hk.
  assert (Hske' : hasServerKeyExchange (KX s) = bool_decide (is_Some (sf_ske sf))).
  { unfold flight_ok in Hske. destruct (KX s), (sf_ske sf); try done. }
  assert (Hver : f_verify f = [] \/ exists alg sig, f_verify f = [certVerifyMsg alg sig]).
  { destruct (_ ≫= selectedAlg _); [|now left]. destruct Hv as (sig & -> & _). right. eauto. }
  assert (Hnone : sf_creq sf = None -> f_cert f = [] /\ f_verify f = []).
  { intros E. rewrite E in Hc, Hv. done. }
  unfold wholeFlight, afterFinished, beforeFinished, beforeVerify. rewrite Hk, Hske'.
  cbn [map]. rewrite map_app, serverMsgs_types, !map_app. unfold serverTypes. unfold helloEnv.
  rewrite envelopeType_marshal.
  destruct (sf_ske sf); destruct (sf_creq sf) as [[b req]|] eqn:Ec;
    try (destruct (Hnone eq_refl) as [-> ->]); try rewrite Hc;
    try (destruct Hver as [-> |(alg & sig & ->)]); reflexivity.
Qed.

End Flow.

Section Properties.
Context {C : Primitives} {CL : PrimitiveLaws C} {K : KexLib} {KL : KexLaws K} {X : X509}.

(** C11. The client follows the RFC, and so did the server: everything the client read
    from the start to the end of a completed handshake is handshake records, one
    ChangeCipherSpec, and under the new keys the records of one Finished message; and
    everything it wrote is its messages, one ChangeCipherSpec and its Finished.  The
    bytes of the server's records are cut into messages in one way only, and these
    messages and the client's, in the order of the transcript, are a complete run of the
    message flow of RFC 5246 §7.3, with a ServerKeyExchange exactly for the ephemeral
    key exchanges; so a message that is missing, repeated or out of order, and one that
    the flow does not know, never leads to a connection. *)
Theorem Handshake_flow c c' :
  fresh c -> Handshake c = (Ok tt, c') ->
  exists s sendP recvP l0 ps hello first second fin vd,
    let msgs := hello :: first ++ second ++ [fin; buildEnvelope TypeFinished vd] in
    c_suite c' = Some s /\
    recv_view l0 = recv_view (c_layer c) /\ received l0 ps recvP vd (c_layer c') /\
    wrote (c_layer c) (hello :: second) sendP fin (c_layer c') /\
    concat first = concat ps /\ Forall is_envelope (hello :: first ++ second ++ [fin]) /\
    (forall first', Forall is_envelope first' -> concat first' = concat ps -> first' = first) /\
    c_transcript c' = foldl Write NewTranscript msgs /\
    flowRun (hasServerKeyExchange (KX s)) WaitClientHello (map envelopeType msgs) = Some FlowComplete.
Proof.
  intros Hf Hr. destruct (Handshake_done c c' Hf Hr) as (s & cr & sf & cke & ms & sp & rp & f & Hd).
  destruct (hd_received _ _ _ _ _ _ _ _ _ _ Hd) as (l0 & ps & Ev & _ & Ec & Hrcv).
  destruct (flight_envelopes _ _ _ _ _ _ _ _ _ _ (fr_layer _ Hf) Hd) as [Hown Hfin].
  pose proof (serverMsgs_envelopes _ (hd_lens _ _ _ _ _ _ _ _ _ _ Hd)) as Hsrv.
  exists s, sp, rp, l0, ps, (helloEnv c cr), (serverMsgs sf), (beforeFinished f),
    (MarshalMessage (MFinished (f_finished f))), (f_server f).
  assert (E : helloEnv c cr :: serverMsgs sf ++ wholeFlight f
    = helloEnv c cr :: serverMsgs sf ++ beforeFinished f ++
      [MarshalMessage (MFinished (f_finished f)); buildEnvelope TypeFinished (f_server f)])
    by (unfold wholeFlight, afterFinished; now rewrite <- !app_assoc).
  cbv zeta. rewrite <- E. split; [apply (hd_final _ _ _ _ _ _ _ _ _ _ Hd)|]. split; [done|]. split; [done|].
  split; [eapply handshake_wrote, Hd|]. split; [done|]. split.
  { apply Forall_cons in Hown as [? ?]. constructor; [done|]. apply Forall_app. split; [done|].
    apply Forall_app. split; [done|]. constructor; [exact Hfin|constructor]. }
  split; [intros first' H1 H2; apply envelopes_unique; [done|done|congruence]|].
  split; [apply (hd_transcript _ _ _ _ _ _ _ _ _ _ Hd)|eapply handshake_flow, Hd].
Qed.

End Properties.

(** ** Witness *)

#[local] Existing Instance Toy.prims.
#[local] Existing Instance Toy.laws.
#[local] Existing Instance ToyKex.kex.
#[local] Existing Instance ToyKex.kexLaws.

(** In the run every message of the figure is there. *)
Lemma Handshake_flow_witness :
  exists hello first second fin vd,
    let msgs := hello :: first ++ second ++ [fin; buildEnvelope TypeFinished vd] in
    Forall is_envelope (hello :: first ++ second ++ [fin]) /\
    c_transcript (snd (Handshake theRun)) = foldl Write NewTranscript msgs /\
    flowRun true WaitClientHello (map envelopeType msgs) = Some FlowComplete.
Proof.
  destruct (Handshake_flow theRun (snd (Handshake theRun)) theRun_fresh theRun_done)
    as (s & sp & rp & l0 & ps & hello & first & second & fin & vd & H1 & _ & _ & _ & _ & H2 & _ & H3 & H4).
  assert (E : KX <$> c_suite (snd (Handshake theRun)) = Some KexECDHE) by (vm_compute; reflexivity).
  rewrite H1 in E. injection E as E. rewrite E in H4.
  exists hello, first, second, fin, vd. split; [exact H2|]. split; [exact H3|exact H4].
Defined.
