(* ===== verification/Accept.v ===== *)
(** * Which first flights the client accepts

    [ClientProofs] shows what a completed handshake implies; here is the other half:
    of all sequences of handshake messages a server may send before the client's
    second flight, the client accepts those that pass the checks of
    [server_checked], and no others. *)

From Stdlib Require Import ZArith Lia.
From stdpp Require Import base list strings gmap.
From S2P Require Import Prelude Errors Wire Extensions Messages Primitives Transcript State Layer Protectors Suites KeySetup KeyExchange Certs Client ClientProofs ClientRun.

Open Scope Z_scope.

Section Accept.
Context {C : Primitives} {CL : PrimitiveLaws C} {K : KexLib} {KL : KexLaws K} {X : X509}.

(** ** Messages *)

(** A handshake message: its type and its body. *)
Definition envelope (m : Z * bytes) : bytes := buildEnvelope (fst m) (snd m).

(** What the client is ready to read. *)
Definition fits (m : Z * bytes) : Prop := 0 <= fst m < 256 /\ len (snd m) <= maxHandshakeMsg.

Lemma envelope_inj m m' r r' :
  fits m -> fits m' -> envelope m ++ r = envelope m' ++ r' -> m = m' /\ r = r'.
Proof.
  destruct m as [t b], m' as [t' b']. unfold fits, envelope, maxHandshakeMsg. cbn [fst snd].
  intros [Ht Hb] [Ht' Hb'] E. rewrite !buildEnvelope_eq in E. pose proof (len_nonneg b). pose proof (len_nonneg b').
  change (z2b t :: bePut 3 (len b) ++ b) with ((z2b t :: bePut 3 (len b)) ++ b) in E.
  change (z2b t' :: bePut 3 (len b') ++ b') with ((z2b t' :: bePut 3 (len b')) ++ b') in E.
  rewrite <- !app_assoc in E.
  apply app_inj_1 in E as [Eh E]; [|now rewrite !length_cons, !length_bePut].
  pose proof (f_equal (fun l => match l with x :: _ => b2z x | [] => 0 end) Eh) as Et.
  pose proof (f_equal (fun l => beUint (tail l)) Eh) as El. cbv beta iota in Et, El.
  cbn [tail] in El. rewrite !b2z_small in Et by done. rewrite !beUint_put_small in El by (cbn; lia).
  apply app_inj_1 in E as [-> ->]; [|unfold len in El; lia]. subst t'. done.
Qed.

Lemma envelopes_prefix ms ms' b :
  Forall fits ms -> Forall fits ms' ->
  concat (map envelope ms) ++ b = concat (map envelope ms') -> exists rest, ms' = ms ++ rest.
Proof.
  intros H. revert ms'. induction H as [|m ms Hm _ IH]; intros ms' H' E; [now exists ms'|].
  destruct H' as [|m' ms' Hm' H']; cbn [map concat] in E.
  - unfold envelope in E at 1. rewrite buildEnvelope_eq in E. discriminate E.
  - rewrite <- app_assoc in E. apply envelope_inj in E as [-> E]; [|done..].
    apply IH in E as [rest ->]; [|done]. now exists rest.
Qed.

(** ** The input of the client *)

Lemma hs_reads_split l ps l1 qs l2 :
  hs_reads l ps l1 -> hs_reads l qs l2 ->
  (exists x, ps = qs ++ x /\ hs_reads l2 x l1) \/
  (exists p l3, ReadRecord l1 = (Ok (ContentTypeHandshake, p), l3)).
Proof.
  intros H. revert qs. induction H as [l|l p l0 ps l1 HR H IH]; intros qs H2.
  - inversion H2; subst; [left; exists []; split; [done|constructor]|right; eauto].
  - inversion H2 as [|? q lq qs' ? HR' H2']; subst.
    + left. exists (p :: ps). split; [done|]. econstructor; eauto.
    + rewrite HR in HR'. injection HR' as -> ->.
      destruct (IH _ H2') as [(x & -> & Hx)|Hr]; [left; exists x; done|now right].
Qed.

Local Abbreviation lok c := (layer_ok (c_layer c)).

(** The messages [msgs], and nothing more, are in what is buffered and the payloads [ps]
    of the next handshake records, after which the layer is [l]. *)
Definition available (c : ClientState) (msgs : list (Z * bytes)) (ps : list bytes)
  (l : Layer AnyProtector) : Prop :=
  lok c /\ hs_reads (c_layer c) ps l /\ hsBuf c ++ concat ps = concat (map envelope msgs).

(** They are, and after those records reading fails. *)
Definition pending (c : ClientState) (msgs : list (Z * bytes)) : Prop :=
  exists ps l, available c msgs ps l /\ exists e l', ReadRecord l = (Err e, l').

Lemma available_same c c' msgs ps l :
  c_layer c' = c_layer c -> hsBuf c' = hsBuf c -> available c msgs ps l -> available c' msgs ps l.
Proof. unfold available. now intros -> ->. Qed.

(** The messages a run of the client has taken are a prefix of the pending ones. *)
Lemma pending_prefix c msgs ms ps l b :
  pending c msgs -> Forall fits msgs -> Forall fits ms ->
  hs_reads (c_layer c) ps l -> hsBuf c ++ concat ps = concat (map envelope ms) ++ b ->
  exists rest, msgs = ms ++ rest.
Proof.
  intros (qs & lq & (_ & Hq & Eq) & e & l' & HR) Hf Hm Hp Ep.
  destruct (hs_reads_split _ _ _ _ _ Hq Hp) as [(x & -> & _)|(p & l3 & HR')]; [|congruence].
  rewrite concat_app, app_assoc, Ep, <- app_assoc in Eq. now apply envelopes_prefix in Eq.
Qed.

(** A message is read with the fewest records that complete it. *)
Lemma hs_reads_minimal l ps l' buf n :
  hs_reads l ps l' -> n <= len (buf ++ concat ps) ->
  exists ps1 ps2 l1, ps = ps1 ++ ps2 /\ hs_reads l ps1 l1 /\ hs_reads l1 ps2 l' /\
    n <= len (buf ++ concat ps1) /\ (ps1 = [] \/ len (buf ++ concat (removelast ps1)) < n).
Proof.
  intros H. revert buf. induction H as [l|l p l0 ps l1 HR H IH]; intros buf Hn.
  - exists [], [], l. split; [done|]. split; [constructor|]. split; [constructor|]. auto.
  - destruct (Z.le_gt_cases n (len buf)) as [Hle|Hgt].
    { exists [], (p :: ps), l. split; [done|]. split; [constructor|]. split; [econstructor; eauto|].
      split; [now rewrite app_nil_r|now left]. }
    destruct (IH (buf ++ p)) as (ps1 & ps2 & l2 & -> & H1 & H2 & Hle & Hmin);
      [now rewrite <- app_assoc|].
    exists (p :: ps1), ps2, l2. split; [done|]. split; [econstructor; eauto|]. split; [done|].
    cbn [concat]. rewrite <- app_assoc in Hle. split; [done|]. right.
    destruct ps1 as [|q ps1]; [cbn; now rewrite app_nil_r|].
    destruct Hmin as [|Hmin]; [done|]. cbn [removelast concat] in Hmin |- *. now rewrite <- app_assoc in Hmin.
Qed.

Lemma reads_next c m rest ps l :
  lok c -> fits m -> hs_reads (c_layer c) ps l -> hsBuf c ++ concat ps = envelope m ++ rest ->
  exists b l1 ps2, readHandshakeRecord c = (Ok m, set_hsBuf b (set_layer l1 c)) /\
    layer_ok l1 /\ hs_reads l1 ps2 l /\ b ++ concat ps2 = rest /\ ps2 `suffix_of` ps.
Proof.
  intros Hl [Ht Hb] Hps E.
  destruct (hs_reads_minimal _ _ _ (hsBuf c) (len (envelope m)) Hps) as (ps1 & ps2 & l1 & -> & H1 & H2 & Hle & Hmin).
  { rewrite E, len_app. pose proof (len_nonneg rest). lia. }
  rewrite concat_app, app_assoc in E.
  assert (Hs : exists b, hsBuf c ++ concat ps1 = envelope m ++ b /\ b ++ concat ps2 = rest).
  { exists (drop (length (envelope m)) (hsBuf c ++ concat ps1)).
    assert (Ht1 : take (length (envelope m)) (hsBuf c ++ concat ps1) = envelope m).
    { apply (f_equal (take (length (envelope m)))) in E.
      rewrite take_app_le, take_app_length in E by (unfold len in Hle; lia). exact E. }
    split; [rewrite <- Ht1 at 1; symmetry; apply take_drop|].
    apply (f_equal (drop (length (envelope m)))) in E.
    now rewrite drop_app_le, drop_app_length in E by (unfold len in Hle; lia). }
  destruct Hs as (b & E1 & E2). exists b, l1, ps2. destruct m as [t body]. unfold envelope in *. cbn [fst snd] in *.
  rewrite len_buildEnvelope in Hmin.
  split; [|split; [apply (hs_reads_view _ _ _ H1 Hl)|split; [done|split; [done|now exists ps1]]]].
  eapply (readHandshakeLoop_reads ps1); [exact Hl|done|done|exact H1|exact E1|exact Hmin|lia].
Qed.

(** [c] has read on: to [b] in the buffer and [l] in the layer. *)
Definition readOn (b : bytes) (l : Layer AnyProtector) (c : ClientState) : ClientState :=
  set_hsBuf b (set_layer l c).

(** The messages [msgs] are left of what was available in [ps]. *)
Definition leaves (c : ClientState) (msgs : list (Z * bytes)) (ps : list bytes)
  (l : Layer AnyProtector) : Prop :=
  exists ps', available c msgs ps' l /\ ps' `suffix_of` ps.

Lemma available_read c m msgs ps l :
  available c (m :: msgs) ps l -> fits m ->
  exists b l1, readHandshakeRecord c = (Ok m, readOn b l1 c) /\ leaves (readOn b l1 c) msgs ps l.
Proof.
  intros (Hl & Hps & E) Hm.
  destruct (reads_next c m (concat (map envelope msgs)) ps l Hl Hm Hps E)
    as (b & l1 & ps2 & Hr & Hl1 & H2 & E2 & Hs).
  exists b, l1. split; [done|]. exists ps2. done.
Qed.

Lemma leaves_same c c' msgs ps l :
  c_layer c' = c_layer c -> hsBuf c' = hsBuf c -> leaves c msgs ps l -> leaves c' msgs ps l.
Proof. intros E1 E2 (ps' & H & Hs). exists ps'. split; [now apply (available_same c)|done]. Qed.

Lemma leaves_trans c msgs ps' ps l : ps' `suffix_of` ps -> leaves c msgs ps' l -> leaves c msgs ps l.
Proof. intros Hs (qs & H & Hq). exists qs. split; [done|]. now transitivity ps'. Qed.

(** ** The handlers, on messages that pass *)

Lemma orFatal_run {A} d (m : M ClientState A) c a c1 : m c = (Ok a, c1) -> orFatal d m c = (Ok a, c1).
Proof. unfold orFatal, catch. now intros ->. Qed.

Lemma parse_run {B} d t body msg (k : Message * bytes -> M ClientState B) c :
  fits (t, body) -> parseBody t body = Ok msg ->
  bindM (orFatal d (lift (ParseMessage (buildEnvelope t body)))) k c = k (msg, []) c.
Proof.
  intros [Ht Hb] Hp. apply bind_run, orFatal_run. unfold lift.
  now rewrite ParseMessage_buildEnvelope, Hp by done.
Qed.

Lemma offeredExt_iff c e :
  offeredExt c e = true <->
  e = extSupportedGroups \/ e = extECPointFormats \/ e = extSignatureAlgorithms \/
  e = extRenegotiationInfo \/ (e = extServerName /\ p_ServerName (c_params c) <> []).
Proof.
  split; [apply offeredExt_true|]. unfold offeredExt.
  rewrite !orb_true_iff, andb_true_iff, !Z.eqb_eq, negb_true_iff, Z.eqb_neq.
  intros [H|[H|[H|[H|[H Hn]]]]]; auto. right. split; [|done]. intros E. now apply len_zero_nil in E.
Qed.

Lemma Lookup_complete s : s ∈ allSuites -> Lookup theRegistry (ID s) = Some s.
Proof.
  intros Hs. destruct theRegistry_inv as [[Hi _] Ho]. unfold Lookup. rewrite Hi, Ho.
  split; [exact Hs|reflexivity].
Qed.

(** The state with a ServerHello taken in, with a certificate, with the rest. *)
Definition withHello (body : bytes) (sh : ServerHello) (s : Suite) (c : ClientState) : ClientState :=
  set_transcript (Write (c_transcript c) (buildEnvelope TypeServerHello body))
    (set_serverRandom (sh_Random sh) (set_suite s c)).

Definition withCert (rawCerts : list bytes) (gc : gostCertificate) (c : ClientState) : ClientState :=
  set_transcript (Write (c_transcript c) (buildEnvelope TypeCertificate (marshalCertificate rawCerts)))
    (set_gostLeaf (if HasGOSTPubKey gc then Some gc else gostLeaf c) c).

Definition withFlight (ske : option bytes) (creq : option (bytes * CertificateRequest)) (c : ClientState)
  : ClientState :=
  set_transcript (foldl Write (c_transcript c) (flightMsgs ske creq))
    (set_certReq (match creq with Some (_, req) => Some req | None => certReq c end) c).

Lemma recvServerHello_run c body msgs ps le sh s :
  available c ((TypeServerHello, body) :: msgs) ps le -> fits (TypeServerHello, body) ->
  parseServerHello body = Ok sh -> sh_accepted (c_params c) sh s ->
  exists b l, let c' := readOn b l (withHello body sh s c) in
    recvServerHello c = (Ok tt, c') /\ leaves c' msgs ps le.
Proof.
  intros Hp Hf Hsh [Hv Hof Hid Hreg Hcomp Hems Hext].
  destruct (available_read _ _ _ _ _ Hp Hf) as (b & l & Hr & Hp'). unfold recvServerHello.
  rewrite (bind_run _ _ _ _ _ (orFatal_run _ _ _ _ _ Hr)). cbn [fst snd].
  change (negb (TypeServerHello =? TypeServerHello)) with false. cbv iota.
  rewrite (parse_run _ TypeServerHello body (MServerHello sh)); [|done|].
  2:{ change (parseBody TypeServerHello body) with (let* m := parseServerHello body in Ok (MServerHello m)).
      now rewrite Hsh. }
  unfold bindM at 1. cbn [get]. rewrite Hv. change (negb (0x0303 =? tlsVersion12)) with false. cbv iota.
  rewrite bool_decide_eq_true_2 by (rewrite Hid; exact Hof). cbn [negb].
  rewrite Hid, (Lookup_complete s Hreg). unfold bindM at 1. cbn [modify].
  rewrite Hcomp. change (negb (b2z Byte.x00 =? 0)) with false. cbv iota. rewrite Hems.
  replace (forallb _ _) with true.
  2:{ symmetry. apply forallb_forall. intros e He. apply offeredExt_iff, Hext. now apply list_elem_of_In. }
  cbn [negb]. exists b, l. cbv zeta. split; [reflexivity|]. eapply leaves_same, Hp'; reflexivity.
Qed.

(** *** Certificate *)

Lemma parseAndVerifyChain_run rawCerts gc chains c :
  leaf_accepted (c_params c) (c_now c) rawCerts gc chains ->
  parseAndVerifyChain rawCerts c
  = (Ok (Stdlib gc, chains), set_gostLeaf (if HasGOSTPubKey gc then Some gc else gostLeaf c) c).
Proof.
  intros [(raw & Hraw & Hgc) Hchain]. destruct rawCerts as [|r0 rest]; [done|]. injection Hraw as ->.
  set (c1 := set_gostLeaf (if HasGOSTPubKey gc then Some gc else gostLeaf c) c).
  unfold parseAndVerifyChain. change (index (raw :: rest) 0) with (Ok (E := error) raw).
  rewrite (bind_run _ _ c raw c) by reflexivity. rewrite Hgc.
  rewrite (bind_run _ _ c tt c1) by (unfold c1; destruct (HasGOSTPubKey gc); [done|now destruct c]).
  unfold bindM at 1. cbn [get]. change (c_params c1) with (c_params c).
  destruct (InsecureSkipVerify (c_params c)); [now subst chains|]. unfold chain_verified in Hchain.
  destruct (IsGOST gc).
  - destruct Hchain as (wire & gch & Hr & Hi & Hw & Hv & ->).
    assert (Er : extractGOSTRoots (GOSTRoots (c_params c)) = Ok (gostConfigured (GOSTRoots (c_params c)))).
    { destruct (GOSTRoots (c_params c)) as [|l|]; [done| |done]. cbn in Hr |- *.
      destruct l; [done|]. now rewrite (proj2 (Z.eqb_neq _ 0)) by len_lia. }
    assert (Ei : extractGOSTIntermediates (GOSTIntermediates (c_params c))
                 = Ok (gostConfigured (GOSTIntermediates (c_params c))))
      by now destruct (GOSTIntermediates (c_params c)).
    rewrite Er, Ei. rewrite !(bindM_lift_Ok (Ok _) _ _ c1 eq_refl). rewrite slice_tail by len_lia.
    rewrite (bindM_lift_Ok _ (tail (raw :: rest))) by reflexivity.
    apply parseGOSTIntermediates_spec in Hw. rewrite (bindM_lift_Ok _ _ _ _ Hw). cbv zeta.
    change (c_now c1) with (c_now c). rewrite Hv, gostChainsToStdlib_eq. reflexivity.
  - destruct Hchain as (inter & Hw & Hv). rewrite slice_tail by len_lia.
    rewrite (bindM_lift_Ok _ (tail (raw :: rest))) by reflexivity.
    apply parseStdlibIntermediates_spec in Hw. rewrite (bindM_lift_Ok _ _ _ _ Hw). cbv zeta.
    change (c_now c1) with (c_now c). rewrite Hv. reflexivity.
Qed.

Lemma recvCertificate_run c rawCerts msgs ps le gc chains :
  let m := (TypeCertificate, marshalCertificate rawCerts) in
  available c (m :: msgs) ps le -> fits m -> certs_wf rawCerts ->
  leaf_accepted (c_params c) (c_now c) rawCerts gc chains -> callback_ok (c_params c) rawCerts chains ->
  exists b l, let c' := readOn b l (withCert rawCerts gc c) in
    recvCertificate c = (Ok (Stdlib gc, rawCerts), c') /\ leaves c' msgs ps le.
Proof.
  intros m Hp Hf Hwf Hacc Hcb.
  destruct (available_read _ _ _ _ _ Hp Hf) as (b & l & Hr & Hp'). unfold recvCertificate.
  rewrite (bind_run _ _ _ _ _ (orFatal_run _ _ _ _ _ Hr)). subst m. cbn [fst snd].
  change (negb (TypeCertificate =? TypeCertificate)) with false. cbv iota.
  rewrite (parse_run _ TypeCertificate (marshalCertificate rawCerts) (MCertificate rawCerts)); [|done|].
  2:{ change (parseBody TypeCertificate ?x) with (let* m := parseCertificate x in Ok (MCertificate m)).
      now rewrite parseCertificate_marshal. }
  rewrite (proj2 (Z.eqb_neq _ 0)).
  2:{ destruct Hacc as [(raw & Hraw & _) _]. destruct rawCerts; [done|]. len_lia. }
  set (c0 := readOn b l c) in *.
  rewrite (bind_run _ _ _ _ _ (orFatal_run AlertBadCertificate _ c0 _ _ (parseAndVerifyChain_run rawCerts gc chains c0 Hacc))).
  unfold bindM at 1. cbn [get].
  exists b, l. cbv zeta.
  match goal with |- bindM ?m0 ?k ?c1 = _ /\ _ => rewrite (bind_run m0 k c1 tt c1) end.
  2:{ unfold callback_ok in Hcb. change (c_params (set_gostLeaf _ c0)) with (c_params c).
      destruct (VerifyPeerCertificate (c_params c)) as [f|]; [now rewrite Hcb|done]. }
  split; [reflexivity|]. eapply leaves_same, Hp'; reflexivity.
Qed.

(** *** ServerKeyExchange *)

Lemma verifySKESignature_run s cert params sigData e1 e2 c h sg sig rest :
  c_suite c = Some s -> sigData = [h; sg] ++ bePut 2 (len sig) ++ sig ++ rest ->
  {| Hash := h; Sig := sg |} ∈ clientSigAlgsAdvertised ->
  skeSigAlgMatchesAuth sg (Auth s) = true -> len sig < 65536 ->
  verifySignature cert h sg (clientRandom c ++ serverRandom c ++ params) sig = Ok tt ->
  verifySKESignature cert params sigData e1 e2 c = (Ok params, c).
Proof.
  intros Hs -> Ha Hm Hl Hv. pose proof (len_nonneg sig). pose proof (len_nonneg rest).
  set (d := [h; sg] ++ bePut 2 (len sig) ++ sig ++ rest).
  assert (Hd : len d = 4 + len sig + len rest) by (unfold d; rewrite !len_app, len_bePut; unfold len at 1; cbn; lia).
  unfold verifySKESignature. rewrite (proj2 (Z.ltb_ge _ _)) by lia.
  rewrite (bindM_lift_Ok _ h), (bindM_lift_Ok _ sg) by reflexivity.
  rewrite (bindM_lift_Ok _ (bePut 2 (len sig)))
    by (unfold d; apply slice_app_mid; [reflexivity|rewrite len_bePut; reflexivity]).
  cbv zeta. rewrite beUint_put_small by (cbn; lia). rewrite (proj2 (Z.ltb_ge _ _)) by lia.
  rewrite (bindM_lift_Ok _ sig).
  2:{ unfold d. rewrite app_assoc. apply slice_app_mid; rewrite len_app, len_bePut; reflexivity. }
  rewrite (proj2 (sigAlgAdvertised_iff _ _) Ha). cbn [negb].
  rewrite (bind_run getSuite _ c s c) by (unfold getSuite, bindM, get; now rewrite Hs).
  rewrite Hm. cbn [negb]. unfold bindM at 1. cbn [get].
  rewrite (bind_run _ _ c tt c) by (apply orFatal_run; unfold lift; now rewrite Hv). reflexivity.
Qed.

Lemma verifyServerKeyExchange_run s cert body params c :
  c_suite c = Some s -> ske_signed s cert (clientRandom c) (serverRandom c) body params ->
  verifyServerKeyExchange body cert c = (Ok params, c).
Proof.
  intros Hs [Hfr (h & sg & sig & rest & -> & Hl & Hh & Hsg & Hv%verifySignature_iff)].
  destruct (proj2 (ske_alg_iff h sg (Auth s)) (conj Hh Hsg)) as [Ha Hm]. unfold verifyServerKeyExchange.
  rewrite (bind_run getSuite _ c s c) by (unfold getSuite, bindM, get; now rewrite Hs).
  set (d := [h; sg] ++ bePut 2 (len sig) ++ sig ++ rest).
  pose proof (verifySKESignature_run s cert params d) as Hrun.
  assert (Hd : 4 <= len d).
  { unfold d. rewrite !len_app, len_bePut. pose proof (len_nonneg sig). pose proof (len_nonneg rest).
    unfold len at 1. cbn. lia. }
  unfold params_framed in Hfr. destruct (KX s); try done.
  - destruct Hfr as (p & g & ys & Hp & Hg & Hy & E). unfold verifyDHEServerKeyExchange.
    rewrite (bind_run _ _ c (u16Field g ++ u16Field ys ++ d) c)
      by (apply orFatal_run; unfold lift; rewrite E, <- !app_assoc; now rewrite readU16LenPrefixedBuf_put).
    do 2 (rewrite (bind_run _ _ c _ c) by (apply orFatal_run; unfold lift; now rewrite readU16LenPrefixedBuf_put)).
    cbv zeta. rewrite (bindM_lift_Ok _ params) by (apply slice_app_l; rewrite len_app; lia).
    eapply Hrun; eauto.
  - destruct Hfr as (i1 & i2 & pub & Hpub & ->). pose proof (len_nonneg pub).
    set (params := [curveTypeNamed; i1; i2; z2b (len pub)] ++ pub) in *.
    assert (Hp : len params = 4 + len pub) by (unfold params; rewrite len_app; reflexivity).
    unfold verifyECDHEServerKeyExchange. rewrite (proj2 (Z.ltb_ge _ _)) by (rewrite len_app; lia).
    rewrite (bindM_lift_Ok _ curveTypeNamed) by reflexivity.
    rewrite bool_decide_eq_true_2 by done. cbn [negb].
    rewrite (bindM_lift_Ok _ [i1; i2]).
    2:{ unfold params. rewrite <- app_assoc. 
        change ([curveTypeNamed; i1; i2; z2b (len pub)] ++ pub ++ d)
          with ([curveTypeNamed] ++ [i1; i2] ++ [z2b (len pub)] ++ pub ++ d).
        now apply slice_app_mid. }
    rewrite (bindM_lift_Ok _ (z2b (len pub))) by reflexivity. cbv zeta. rewrite b2z_small by lia.
    rewrite (proj2 (Z.ltb_ge _ _)) by (rewrite len_app; lia).
    rewrite (bindM_lift_Ok _ params) by (apply slice_app_l; lia).
    rewrite (bindM_lift_Ok _ d) by (apply slice_app_r; rewrite ?len_app; lia).
    eapply Hrun; eauto.
Qed.

(** *** The rest of the flight *)

Definition flightMessages (ske : option bytes) (creq : option (bytes * CertificateRequest))
  : list (Z * bytes) :=
  option_list (pair TypeServerKeyExchange <$> ske) ++
  option_list (pair TypeCertificateRequest ∘ fst <$> creq) ++ [(TypeServerHelloDone, [])].

Lemma flightLoop_ske fuel s cert body params p0 msgs ps le c :
  available c ((TypeServerKeyExchange, body) :: msgs) ps le -> fits (TypeServerKeyExchange, body) ->
  c_suite c = Some s -> ske_signed s cert (clientRandom c) (serverRandom c) body params ->
  exists b l,
    let c' := readOn b l (set_transcript (Write (c_transcript c) (buildEnvelope TypeServerKeyExchange body)) c) in
    serverFlightLoop (S fuel) cert false false p0 c = serverFlightLoop fuel cert true false params c' /\
    leaves c' msgs ps le.
Proof.
  intros Hp Hf Hs Hsk. destruct (available_read _ _ _ _ _ Hp Hf) as (b & l & Hr & Hp'). exists b, l. cbv zeta.
  cbn [serverFlightLoop]. rewrite (bind_run _ _ _ _ _ (orFatal_run _ _ _ _ _ Hr)).
  change (TypeServerKeyExchange =? TypeServerKeyExchange) with true. cbv iota.
  rewrite (parse_run _ TypeServerKeyExchange body (MServerKeyExchange body)) by done.
  rewrite (bind_run (transcriptWrite _) _ _ tt _ eq_refl).
  match goal with |- context [bindM (verifyServerKeyExchange body cert) ?k ?c0] =>
    rewrite (bind_run _ k c0 params c0) by (apply (verifyServerKeyExchange_run s); [exact Hs|exact Hsk])
  end.
  split; [reflexivity|]. eapply leaves_same, Hp'; reflexivity.
Qed.

Lemma flightLoop_creq fuel cert sawSKE body req p0 msgs ps le c :
  available c ((TypeCertificateRequest, body) :: msgs) ps le -> fits (TypeCertificateRequest, body) ->
  parseCertificateRequest body = Ok req ->
  exists b l,
    let c' := readOn b l (set_transcript (Write (c_transcript c) (buildEnvelope TypeCertificateRequest body))
                (set_certReq (Some req) c)) in
    serverFlightLoop (S fuel) cert sawSKE false p0 c = serverFlightLoop fuel cert sawSKE true p0 c' /\
    leaves c' msgs ps le.
Proof.
  intros Hp Hf Hreq. destruct (available_read _ _ _ _ _ Hp Hf) as (b & l & Hr & Hp'). exists b, l. cbv zeta.
  cbn [serverFlightLoop]. rewrite (bind_run _ _ _ _ _ (orFatal_run _ _ _ _ _ Hr)).
  change (TypeCertificateRequest =? TypeServerKeyExchange) with false.
  change (TypeCertificateRequest =? TypeCertificateRequest) with true. cbv iota.
  rewrite (parse_run _ TypeCertificateRequest body (MCertificateRequest req)); [|done|].
  2:{ change (parseBody TypeCertificateRequest body)
        with (let* m := parseCertificateRequest body in Ok (MCertificateRequest m)). now rewrite Hreq. }
  rewrite (bind_run (modify _) _ _ tt _ eq_refl), (bind_run (transcriptWrite _) _ _ tt _ eq_refl).
  split; [reflexivity|]. eapply leaves_same, Hp'; reflexivity.
Qed.

Lemma flightLoop_done fuel cert sawSKE sawCR p0 msgs ps le c :
  available c ((TypeServerHelloDone, []) :: msgs) ps le ->
  exists b l,
    let c' := readOn b l (set_transcript (Write (c_transcript c) (buildEnvelope TypeServerHelloDone [])) c) in
    serverFlightLoop (S fuel) cert sawSKE sawCR p0 c = (Ok (sawSKE, p0), c') /\ leaves c' msgs ps le.
Proof.
  intros Hp. assert (Hf : fits (TypeServerHelloDone, [])) by (vm_compute; repeat split; congruence).
  destruct (available_read _ _ _ _ _ Hp Hf) as (b & l & Hr & Hp'). exists b, l. cbv zeta.
  cbn [serverFlightLoop]. rewrite (bind_run _ _ _ _ _ (orFatal_run _ _ _ _ _ Hr)).
  change (TypeServerHelloDone =? TypeServerKeyExchange) with false.
  change (TypeServerHelloDone =? TypeCertificateRequest) with false.
  change (TypeServerHelloDone =? TypeServerHelloDone) with true. cbv iota.
  rewrite (parse_run _ TypeServerHelloDone [] MServerHelloDone) by done.
  split; [reflexivity|]. eapply leaves_same, Hp'; reflexivity.
Qed.

(** The flight from the CertificateRequest on. *)
Lemma flightLoop_rest fuel cert saw p0 creq rest ps le c :
  available c (flightMessages None creq ++ rest) ps le -> Forall fits (flightMessages None creq) ->
  match creq with Some (b, req) => parseCertificateRequest b = Ok req | None => True end ->
  exists b l, let c' := readOn b l (withFlight None creq c) in
    serverFlightLoop (S (S fuel)) cert saw false p0 c = (Ok (saw, p0), c') /\ leaves c' rest ps le.
Proof.
  intros Hp Hf Hc. destruct creq as [[body req]|].
  - apply Forall_inv in Hf.
    destruct (flightLoop_creq (S fuel) cert saw body req p0 _ _ _ c Hp Hf Hc) as (b1 & l1 & E1 & ps1 & Hp1 & Hs1).
    destruct (flightLoop_done fuel cert saw true p0 _ _ _ _ Hp1) as (b2 & l2 & E2 & Hp2).
    exists b2, l2. cbv zeta. rewrite E1, E2. split; [reflexivity|]. eapply leaves_trans, Hp2. exact Hs1.
  - destruct (flightLoop_done (S fuel) cert saw false p0 _ _ _ _ Hp) as (b & l & E & Hp').
    exists b, l. cbv zeta. rewrite E. split; [reflexivity|]. exact Hp'.
Qed.

Lemma recvServerFlight_run s cert ske creq params rest ps le c :
  available c (flightMessages ske creq ++ rest) ps le -> Forall fits (flightMessages ske creq) ->
  c_suite c = Some s -> flight_ok s cert (clientRandom c) (serverRandom c) ske params ->
  match creq with Some (b, req) => parseCertificateRequest b = Ok req | None => True end ->
  exists b l, let c' := readOn b l (withFlight ske creq c) in
    recvServerFlight cert c = (Ok params, c') /\ leaves c' rest ps le.
Proof.
  intros Hp Hf Hs Hok Hc. unfold recvServerFlight, flight_ok in *.
  destruct ske as [body|].
  - assert (Hsk : ske_signed s cert (clientRandom c) (serverRandom c) body params)
      by (destruct (KX s); done).
    apply Forall_cons in Hf as [Hf0 Hf].
    destruct (flightLoop_ske 2 s cert body params [] _ _ _ c Hp Hf0 Hs Hsk) as (b1 & l1 & E1 & ps1 & Hp1 & Hs1).
    destruct (flightLoop_rest 0 cert true params creq rest _ _ _ Hp1 Hf Hc) as (b2 & l2 & E2 & Hp2).
    exists b2, l2. cbv zeta. rewrite (bind_run _ _ _ _ _ (eq_trans E1 E2)). cbn [negb].
    split; [destruct creq as [[]|]; reflexivity|]. eapply leaves_trans; [exact Hs1|].
    eapply leaves_same, Hp2; reflexivity.
  - destruct (flightLoop_rest 1 cert false [] creq rest _ _ _ Hp Hf Hc) as (b & l & E & Hp').
    exists b, l. cbv zeta. rewrite (bind_run _ _ _ _ _ E). cbn [negb].
    rewrite (bind_run getSuite _ _ s _) by (unfold getSuite, bindM, get; cbn; now rewrite Hs).
    split; [|exact Hp']. destruct (KX s); done || (subst params; reflexivity).
Qed.

(** ** The first flight as [Handshake] reads it *)

Definition recvFirstFlight : M ClientState (x509Certificate * bytes) :=
  recvServerHello ;;
  let! (serverCert, rawCerts) := recvCertificate in
  let! serverKeyExchParams := recvServerFlight serverCert in
  ret (serverCert, serverKeyExchParams).

(** What [Handshake] does with it, up to the client's Finished: nothing is read. *)
Definition sendSecondFlight (serverCert : x509Certificate) (serverKeyExchParams : bytes)
  : M ClientState (bytes * bytes * AnyProtector) :=
  let! (preMaster, ckeBody) := computeKeyExchange serverCert serverKeyExchParams in
  let! s := getSuite in
  let! c := get in
  let! masterSecret := orFatal AlertInternalError
    (lift (MasterSecret s preMaster (clientRandom c) (serverRandom c))) in
  modify (set_masterSecret masterSecret) ;;
  let! (_, sendP, recvP) := expandKeys in
  sendTail masterSecret ckeBody sendP ;;
  ret (ckeBody, masterSecret, recvP).

Lemma Handshake_flights c :
  Handshake c =
  (sendClientHello ;;
   let! (cert, params) := recvFirstFlight in
   let! (cke, ms, recvP) := sendSecondFlight cert params in
   finishTail ms recvP) c.
Proof.
  unfold Handshake, recvFirstFlight, sendSecondFlight, sendTail, finishTail.
  repeat (repeat rewrite ?bindM_assoc, ?bindM_ret; apply bindM_ext; intros; repeat case_match).
  all: repeat rewrite ?bindM_assoc, ?bindM_ret; reflexivity.
Qed.

Definition serverMessages (sf : server_flight) : list (Z * bytes) :=
  [(TypeServerHello, sf_hello sf); (TypeCertificate, marshalCertificate (sf_certs sf))] ++
  flightMessages (sf_ske sf) (sf_creq sf).

Lemma serverMessages_envelopes sf : map envelope (serverMessages sf) = serverMsgs sf.
Proof.
  unfold serverMessages, serverMsgs, flightMessages, flightMsgs.
  destruct (sf_ske sf), (sf_creq sf) as [[]|]; reflexivity.
Qed.

(** The bounds on the lengths, from those on the envelopes. *)
Lemma flightMessages_fit ske creq :
  Forall (fun m => len m <= 4 + maxHandshakeMsg) (flightMsgs ske creq) ->
  Forall fits (flightMessages ske creq).
Proof.
  intros H. assert (Hm : forall m : Z * bytes, 0 <= fst m < 256 -> len (envelope m) <= 4 + maxHandshakeMsg -> fits m).
  { intros [t b] Ht Hl. unfold envelope in Hl. rewrite len_buildEnvelope in Hl. split; [done|]. cbn in *. lia. }
  unfold flightMessages, flightMsgs in *. destruct ske, creq as [[]|]; cbn in *; decompose_Forall_hyps;
    repeat constructor; apply Hm; (done || (vm_compute; split; congruence)).
Qed.

(** The state after a first flight. *)
Definition withFirst (s : Suite) (sf : server_flight) (c : ClientState) : ClientState :=
  withFlight (sf_ske sf) (sf_creq sf)
    (withCert (sf_certs sf) (sf_gc sf) (withHello (sf_hello sf) (sf_sh sf) s c)).

Lemma recvFirstFlight_run c s sf rest ps le :
  available c (serverMessages sf ++ rest) ps le -> Forall fits (serverMessages sf) ->
  server_checked (c_params c) (c_now c) (clientRandom c) s sf ->
  exists b l, let c' := readOn b l (withFirst s sf c) in
    recvFirstFlight c = (Ok (Stdlib (sf_gc sf), sf_params sf), c') /\ leaves c' rest ps le.
Proof.
  intros Hp Hf [Hsh Hacc Hwf Hleaf Hcb Hske Hcreq]. unfold serverMessages in Hp, Hf.
  apply Forall_app in Hf as [Hf1 Hf2]. apply Forall_cons in Hf1 as [Hfh Hf1]. apply Forall_inv in Hf1.
  rewrite <- app_assoc in Hp.
  destruct (recvServerHello_run _ _ _ _ _ _ _ Hp Hfh Hsh Hacc) as (b1 & l1 & H1 & ps1 & Hp1 & S1).
  destruct (recvCertificate_run _ _ _ _ _ _ _ Hp1 Hf1 Hwf Hleaf Hcb) as (b2 & l2 & H2 & ps2 & Hp2 & S2).
  destruct (recvServerFlight_run s _ _ _ _ _ _ _ _ Hp2 Hf2 eq_refl Hske Hcreq) as (b3 & l3 & H3 & Hp3).
  exists b3, l3. cbv zeta. unfold recvFirstFlight.
  rewrite (bind_run _ _ _ _ _ H1), (bind_run _ _ _ _ _ H2), (bind_run _ _ _ _ _ H3).
  split; [reflexivity|]. eapply leaves_trans; [exact S1|]. eapply leaves_trans; [exact S2|].
  eapply leaves_same, Hp3; reflexivity.
Qed.

Lemma recvFirstFlight_wp c :
  lok c -> certReq c = None ->
  wp recvFirstFlight (fun out c' => exists s sf ps l,
      hs_reads (c_layer c) ps l /\ hsBuf c ++ concat ps = concat (serverMsgs sf) ++ hsBuf c' /\
      Forall fits (serverMessages sf) /\
      server_checked (c_params c) (c_now c) (clientRandom c) s sf /\
      out = (Stdlib (sf_gc sf), sf_params sf)) via_fatal c.
Proof.
  intros Hl Hq. unfold recvFirstFlight.
  eapply wp_step; [apply recvServerHello_wp; exact Hl|done|].
  intros _ c2 (body & sh & s & c1' & Hr1 & Hsh & Hacc & ->).
  destruct Hr1 as (l2 & ps1 & b1 & R1 & Hl2 & Ht1 & Hn1 & B1 & ->).
  eapply wp_step; [apply recvCertificate_wp; exact Hl2|done|].
  intros [leaf rawCerts] c3 (cbody & gc & chains & c2' & Hr2 & -> & Hwf & -> & Hleaf & Hcb & ->).
  destruct Hr2 as (l3 & ps2 & b2 & R2 & Hl3 & Ht2 & Hn2 & B2 & ->).
  eapply wp_step; [apply (recvServerFlight_wp s); [exact Hl3|reflexivity|exact Hq]|done|].
  intros params c4 (ske & creq & Hfl & Hcreq & (l4 & ps3 & b3 & R3 & Hl4 & B3 & F3 & ->)). apply wp_ret.
  set (sf := {| sf_hello := body; sf_sh := sh; sf_certs := rawCerts; sf_gc := gc; sf_chains := chains;
                sf_ske := ske; sf_params := params; sf_creq := creq |}).
  exists s, sf, (ps1 ++ ps2 ++ ps3), l4.
  split; [eapply hs_reads_app; [exact R1|]; eapply hs_reads_app; [exact R2|exact R3]|].
  change (hsBuf c ++ concat ps1 = buildEnvelope TypeServerHello body ++ b1) in B1.
  change (b1 ++ concat ps2 = buildEnvelope TypeCertificate (marshalCertificate rawCerts) ++ b2) in B2.
  change (b2 ++ concat ps3 = concat (flightMsgs ske creq) ++ b3) in B3.
  split.
  { change (hsBuf (set_hsBuf b3 _)) with b3. rewrite !concat_app, app_assoc, B1, <- app_assoc, (app_assoc b1), B2.
    rewrite <- app_assoc, B3. unfold serverMsgs, sf. cbn [sf_hello sf_certs sf_ske sf_creq app concat].
    now rewrite <- !app_assoc. }
  split; [constructor; [done|]; constructor; [done|]; now apply flightMessages_fit|].
  split; [split; done|reflexivity].
Qed.

(** * Properties *)


Lemma finishedVerifyData_run s ms label vd c :
  c_suite c = Some s -> verify_data s ms label (c_transcript c) vd ->
  finishedVerifyData label ms c = (Ok vd, c).
Proof.
  intros Hs (th & Hth & Hvd). unfold finishedVerifyData.
  rewrite (bind_run getSuite _ c s c) by (unfold getSuite, bindM, get; now rewrite Hs).
  unfold bindM at 1. cbn [get].
  rewrite (bind_run _ _ c th c) by (apply orFatal_run; unfold lift; now rewrite Hth).
  apply orFatal_run. unfold lift. now rewrite Hvd.
Qed.

(** The server's ChangeCipherSpec and Finished are the next thing to read. *)
Definition finish_to_come (s : Suite) (ms : bytes) (recvP : AnyProtector) (c : ClientState) : Prop :=
  exists vd l, server_finished (c_layer c) (c_transcript c) s ms recvP vd l.

Lemma verify_data_parses s ms label t vd :
  strBytes label <> [] -> verify_data s ms label t vd ->
  fits (TypeFinished, vd) /\ parseBody TypeFinished vd = Ok (MFinished vd).
Proof.
  intros Hl (th & _ & Hvd). destruct (FinishedVerifyData_Ok s ms label th Hl) as (vd' & E & Hn).
  rewrite E in Hvd. injection Hvd as ->.
  change (parseBody TypeFinished vd) with (let* m := parseFinished vd in Ok (MFinished m)).
  unfold parseFinished, fits, maxHandshakeMsg. cbn [fst snd]. rewrite Hn.
  destruct (decide _); (split; [split; [compute; split; congruence|lia]|reflexivity]).
Qed.

Lemma receiveServerFinished_run s ms recvP c vd l :
  lok c -> c_suite c = Some s -> any_ok recvP -> hsBuf c = [] ->
  server_finished (c_layer c) (c_transcript c) s ms recvP vd l ->
  exists c', receiveServerFinished ms recvP c = (Ok tt, c').
Proof.
  intros Hl Hs Hp Hbuf (l1 & ps & HR & Hps & E & Hvd).
  destruct (verify_data_parses _ _ "server finished" _ _ ltac:(done) Hvd) as [Hf Hparse].
  pose proof (ReadRecord_ok (c_layer c) Hl) as H. rewrite HR in H. destruct H as (_ & Hl1 & _).
  unfold receiveServerFinished.
  rewrite (bind_run _ _ c (ContentTypeChangeCipherSpec, [Byte.x01]) (set_layer l1 c))
    by (apply orFatal_run; unfold onLayer, zoom; now rewrite HR).
  change (negb (ContentTypeChangeCipherSpec =? ContentTypeChangeCipherSpec)) with false. cbv iota.
  rewrite (bind_run _ _ _ false (set_layer l1 c)) by reflexivity. cbv iota.
  set (c1 := set_layer (ChangeCipherSpec None (Some recvP) l1) c).
  rewrite (bind_run _ _ _ tt c1) by reflexivity.
  destruct (reads_next c1 (TypeFinished, vd) [] ps l) as (b & l2 & ps2 & Hr & _ & _ & Hb & _).
  { apply layer_ok_CCS; [done|done|now intros ? [= <-]]. }
  { exact Hf. } { exact Hps. }
  { change (hsBuf c1) with (hsBuf c). now rewrite Hbuf, app_nil_r. }
  apply app_eq_nil in Hb as [-> _]. rewrite (bind_run _ _ _ _ _ (orFatal_run _ _ _ _ _ Hr)).
  change (negb (TypeFinished =? TypeFinished)) with false. cbv iota.
  rewrite (parse_run _ TypeFinished vd (MFinished vd) _ _ Hf Hparse).
  rewrite (bind_run _ _ _ _ _ (finishedVerifyData_run s ms "server finished" vd
    (readOn [] l2 c1) Hs Hvd)).
  unfold EqualVerifyData. rewrite ConstantTimeCompare_eqb, bool_decide_eq_true_2 by done.
  eexists. reflexivity.
Qed.

(** C9. The client accepts exactly the right end of a handshake: after its own Finished
    it succeeds when, and only when, the next record is a ChangeCipherSpec of one byte
    1 under the old keys, and the records after it, under the new keys and cut in any
    way, hold a Finished message whose verify data is that of the whole transcript,
    and nothing else. *)
Theorem server_finished_accepted s ms recvP c :
  lok c -> c_suite c = Some s -> any_ok recvP -> hsBuf c = [] ->
  (exists c', receiveServerFinished ms recvP c = (Ok tt, c')) <->
  finish_to_come s ms recvP c.
Proof.
  intros Hl Hs Hp Hbuf. unfold finish_to_come. split.
  - intros [c' Hrun].
    destruct (wp_Ok _ _ _ _ _ _ Hrun (receiveServerFinished_wp s ms recvP c Hl Hs Hp Hbuf))
      as (vd & l & _ & H & _). eauto.
  - intros (vd & l & H). now apply (receiveServerFinished_run s ms recvP c vd l).
Qed.

End Accept.

(** ** A flight that is accepted

    The first flight of the run of [ClientRun], with nothing behind it. *)

#[local] Existing Instance Toy.prims.
#[local] Existing Instance Toy.laws.
#[local] Existing Instance ToyKex.kex.
#[local] Existing Instance ToyKex.kexLaws.

Definition runMessages : list (Z * bytes) :=
  map (fun m => (b2z (default Byte.x00 (head m)), drop 4 m)) runServerMsgs.

Definition runListening : ClientState := Eval vm_compute in snd (sendClientHello (runClient runFlight1)).

Lemma runListening_pending : pending runListening runMessages /\ Forall fits runMessages.
Proof.
  split.
  - set (b := concat runServerMsgs). exists [take 50 b; drop 50 b]. eexists. split.
    { split; [split; [exact I|exact I|vm_compute; split; congruence..]|]. split.
      { econstructor; [vm_compute; reflexivity|]. econstructor; [vm_compute; reflexivity|]. constructor. }
      vm_compute. reflexivity. }
    eexists _, _. vm_compute. reflexivity.
  - repeat constructor; vm_compute; congruence.
Qed.


(** The client of that run after its own Finished, with the server's last flight to
    come, and the protector of the server's records. *)
Definition runExpecting : ClientState := Eval vm_compute in
  set_layer (set_rw (set_rx runFlight2 (rw (c_layer runWaiting))) (c_layer runWaiting)) runWaiting.

Definition runRecvP : AnyProtector :=
  match c_suite runExpecting with
  | None => PNull
  | Some s =>
      match
        (let* km := KeyExpansion s (c_masterSecret runExpecting) (clientRandom runExpecting)
                      (serverRandom runExpecting) in
         buildProtector s (ServerEncKey km) (ServerMACKey km) (ServerIV km))
      with Ok p => p | _ => PNull end
  end.

Lemma server_finished_accepted_witness :
  exists s vd l, c_suite runExpecting = Some s /\
    server_finished (c_layer runExpecting) (c_transcript runExpecting) s
      (c_masterSecret runExpecting) runRecvP vd l.
Proof.
  destruct (c_suite runExpecting) as [s|] eqn:Es; [|vm_compute in Es; discriminate Es].
  destruct (server_finished_accepted s (c_masterSecret runExpecting) runRecvP runExpecting) as [H _].
  - split; [exact I|exact I|vm_compute; split; congruence..].
  - exact Es.
  - vm_compute. exact I.
  - reflexivity.
  - destruct H as (vd & l & H).
    + assert (E : fst (receiveServerFinished (c_masterSecret runExpecting) runRecvP runExpecting) = Ok tt)
        by (vm_compute; reflexivity).
      exists (snd (receiveServerFinished (c_masterSecret runExpecting) runRecvP runExpecting)).
      rewrite <- E. apply surjective_pairing.
    + exists s, vd, l. split; [reflexivity|exact H].
Defined.
