(* ===== verification/Conn.v ===== *)
(** * The connection ([conn.go], [config.go], [dialer.go], [dialer_default.go])

    [Conn] over the handshake and the record layer, [Config] and what it is
    turned into, and the dialer.  The operations here are sequential: one call
    after another.  What other goroutines can do to a call enters as a parameter:
    that a [Write] holds [outMu] when [Close] runs, and what the context sent when
    the dialer's handshake ended.  [Threads] and [DialRace] have the goroutines
    and show where the parameters come from. *)

From Stdlib Require Import ZArith Lia.
From stdpp Require Import base list strings gmap.
From S2P Require Import Prelude Errors Primitives State Layer Protectors Suites KeyExchange Certs Client ClientProofs.

Open Scope Z_scope.

(** ** What the standard library provides for PEM

    [AppendCertsFromPEM]: the certificates added and the boolean result;
    [pem.Decode]: the block's type and the rest, [None] for a nil block. *)
Class PEM := {
  appendCertsFromPEM : bytes -> list x509Certificate * bool;
  pemDecode : bytes -> option (string * bytes)
}.

(** Each decoded block takes bytes of the input. *)
Class PEMLaws (P : PEM) : Prop := {
  pemDecode_shrinks b t rest : pemDecode b = Some (t, rest) -> (length rest < length b)%nat
}.

(** ** Config *)

(** [cert_Certificate] tells whether the parsed certificate is present. *)
Record Certificate := {
  cert_Certificate : option x509Certificate;
  cert_RawCertificate : bytes;
  cert_PrivateKey : PrivateKey
}.

(** Nil slices that the code tells from empty ones are [None]. *)
Record Config := {
  cfg_RootCAs : option (list x509Certificate);
  RootCAPEMs : list bytes;
  cfg_GOSTRoots : option (list gostCertificate);
  cfg_GOSTIntermediates : option (list gostCertificate);
  cfg_Certificates : list Certificate;
  ServerNameOf : bytes;
  CipherSuites : option (list Z);
  cfg_InsecureSkipVerify : bool;
  cfg_VerifyPeerCertificate :
    option (list bytes -> list (list x509Certificate) -> option error);
  Rand : option tape
}.

Definition emptyConfig : Config :=
  {| cfg_RootCAs := None; RootCAPEMs := []; cfg_GOSTRoots := None; cfg_GOSTIntermediates := None;
     cfg_Certificates := []; ServerNameOf := []; CipherSuites := None;
     cfg_InsecureSkipVerify := false; cfg_VerifyPeerCertificate := None; Rand := None |}.

Definition gostCertsParam (certs : option (list gostCertificate)) : anyGOST :=
  match certs with None => AnyNil | Some l => AnyCerts l end.

Section Configuration.
Context {X : X509} {PM : PEM}.

(** The inner loop of [rootCAPool]: every turn decodes a block. *)
Fixpoint hasCertBlock (fuel : nat) (rest : bytes) : result bool :=
  match fuel with
  | O => Crash OutOfFuel
  | S fuel =>
    match pemDecode rest with
    | None => Ok false
    | Some (t, rest) =>
        if bool_decide (t = "CERTIFICATE"%string) then Ok true else hasCertBlock fuel rest
    end
  end.

Fixpoint rootPEMLoop (pool : list x509Certificate) (blocks : list bytes)
  : result (list x509Certificate) :=
  match blocks with
  | [] => Ok pool
  | block :: blocks =>
      let '(certs, ok) := appendCertsFromPEM block in
      let pool := pool ++ certs in
      if negb ok then
        let* h := hasCertBlock (S (length block)) block in
        if h : bool then Err errRootCAPEMParseFailed else Err errRootCAPEMNoCerts
      else rootPEMLoop pool blocks
  end.

Definition rootCAPool (c : Config) : result (option (list x509Certificate)) :=
  match cfg_RootCAs c with
  | Some pool =>
      if 0 <? len (RootCAPEMs c) then Err errRootCAsMutuallyExclusive else Ok (Some pool)
  | None =>
      if len (RootCAPEMs c) =? 0 then Ok None
      else let* pool := rootPEMLoop [] (RootCAPEMs c) in Ok (Some pool)
  end.

Fixpoint clientCertsLoop (result' : list ClientCertificate) (certs : list Certificate)
  : result (list ClientCertificate) :=
  match certs with
  | [] => Ok result'
  | cert :: certs =>
      match cert_PrivateKey cert with
      | OtherPriv => Err errCertUnsupportedKeyType
      | _ =>
        if len (cert_RawCertificate cert) =? 0 then Err errCertEmptyRaw
        else
          let* _ :=
            (match cert_Certificate cert with
             | Some p => Ok p
             | None => orLib LibX509Parse (x509ParseCertificate (cert_RawCertificate cert))
             end) in
          clientCertsLoop
            (result' ++ [{| RawCertificate := cert_RawCertificate cert;
                            cc_PrivateKey := cert_PrivateKey cert |}]) certs
      end
  end.

Definition clientCerts (c : Config) : result (list ClientCertificate) :=
  if len (cfg_Certificates c) =? 0 then Ok [] else clientCertsLoop [] (cfg_Certificates c).

End Configuration.

(** ** Conn *)

Definition alertMinLen : Z := 2.
Definition maxEmptyRecords : Z := 32.
Definition maxChunk : Z := Z.shiftl 1 14.

(** [handshakeDone] says that [handshakeOnce] has fired; [transportCloses] counts
    the calls of [conn.Close()], [closeResult] is what they return; [now] and
    [rand] are the clock and the reader of [Config.Rand]. *)
Record Conn := {
  config : Config;
  cn_layer : Layer AnyProtector;
  handshakeDone : bool;
  handshakeErr : option error;
  closed : bool;
  readBuf : bytes;
  readErr : option error;
  handshakeOK : bool;
  serverNameFromDial : bytes;
  transportCloses : nat;
  closeResult : option error;
  cn_rand : option tape;
  cn_now : Z
}.

Definition cn_set_layer (l : Layer AnyProtector) (c : Conn) : Conn :=
  {| config := config c; cn_layer := l; handshakeDone := handshakeDone c;
     handshakeErr := handshakeErr c; closed := closed c; readBuf := readBuf c;
     readErr := readErr c; handshakeOK := handshakeOK c;
     serverNameFromDial := serverNameFromDial c; transportCloses := transportCloses c;
     closeResult := closeResult c; cn_rand := cn_rand c; cn_now := cn_now c |}.
Definition cn_set_rand (r : option tape) (c : Conn) : Conn :=
  {| config := config c; cn_layer := cn_layer c; handshakeDone := handshakeDone c;
     handshakeErr := handshakeErr c; closed := closed c; readBuf := readBuf c;
     readErr := readErr c; handshakeOK := handshakeOK c;
     serverNameFromDial := serverNameFromDial c; transportCloses := transportCloses c;
     closeResult := closeResult c; cn_rand := r; cn_now := cn_now c |}.
Definition cn_set_handshake (e : option error) (c : Conn) : Conn :=
  {| config := config c; cn_layer := cn_layer c; handshakeDone := true;
     handshakeErr := e; closed := closed c; readBuf := readBuf c;
     readErr := readErr c;
     handshakeOK := match e with None => true | Some _ => handshakeOK c end;
     serverNameFromDial := serverNameFromDial c; transportCloses := transportCloses c;
     closeResult := closeResult c; cn_rand := cn_rand c; cn_now := cn_now c |}.
Definition cn_set_readBuf (b : bytes) (c : Conn) : Conn :=
  {| config := config c; cn_layer := cn_layer c; handshakeDone := handshakeDone c;
     handshakeErr := handshakeErr c; closed := closed c; readBuf := b;
     readErr := readErr c; handshakeOK := handshakeOK c;
     serverNameFromDial := serverNameFromDial c; transportCloses := transportCloses c;
     closeResult := closeResult c; cn_rand := cn_rand c; cn_now := cn_now c |}.
Definition cn_set_readErr (e : error) (c : Conn) : Conn :=
  {| config := config c; cn_layer := cn_layer c; handshakeDone := handshakeDone c;
     handshakeErr := handshakeErr c; closed := closed c; readBuf := readBuf c;
     readErr := Some e; handshakeOK := handshakeOK c;
     serverNameFromDial := serverNameFromDial c; transportCloses := transportCloses c;
     closeResult := closeResult c; cn_rand := cn_rand c; cn_now := cn_now c |}.
Definition cn_set_closed (c : Conn) : Conn :=
  {| config := config c; cn_layer := cn_layer c; handshakeDone := handshakeDone c;
     handshakeErr := handshakeErr c; closed := true; readBuf := readBuf c;
     readErr := readErr c; handshakeOK := handshakeOK c;
     serverNameFromDial := serverNameFromDial c; transportCloses := transportCloses c;
     closeResult := closeResult c; cn_rand := cn_rand c; cn_now := cn_now c |}.
Definition cn_closeTransport (c : Conn) : Conn :=
  {| config := config c; cn_layer := cn_layer c; handshakeDone := handshakeDone c;
     handshakeErr := handshakeErr c; closed := closed c; readBuf := readBuf c;
     readErr := readErr c; handshakeOK := handshakeOK c;
     serverNameFromDial := serverNameFromDial c; transportCloses := S (transportCloses c);
     closeResult := closeResult c; cn_rand := cn_rand c; cn_now := cn_now c |}.
Definition cn_set_dialName (h : bytes) (c : Conn) : Conn :=
  {| config := config c; cn_layer := cn_layer c; handshakeDone := handshakeDone c;
     handshakeErr := handshakeErr c; closed := closed c; readBuf := readBuf c;
     readErr := readErr c; handshakeOK := handshakeOK c;
     serverNameFromDial := h; transportCloses := transportCloses c;
     closeResult := closeResult c; cn_rand := cn_rand c; cn_now := cn_now c |}.

(** [Config.rand], on a pointer that may be nil; [None] is [crypto/rand.Reader]. *)
Definition configRand (c : option Config) : option tape :=
  match c with
  | Some c => match Rand c with Some r => Some r | None => None end
  | None => None
  end.

Section Operations.
Context {C : Primitives} {K : KexLib} {X : X509} {PM : PEM}.

Definition newConn (w : world) (cfg : option Config) (closeRes : option error) (now : Z) : Conn :=
  let config := match cfg with Some c => c | None => emptyConfig end in
  {| config := config; cn_layer := NewLayer w; handshakeDone := false; handshakeErr := None;
     closed := false; readBuf := []; readErr := None; handshakeOK := false;
     serverNameFromDial := []; transportCloses := 0; closeResult := closeRes;
     cn_rand := configRand (Some config); cn_now := now |}.

Definition NewConn := newConn.

Definition onConnLayer {A} : M (Layer AnyProtector) A -> M Conn A := zoom cn_layer cn_set_layer.

(** [errOf]: run a step for its error value. *)
Definition errOf (m : M Conn unit) : M Conn (option error) :=
  catch (m ;; ret None) (fun e => ret (Some e)).

(** The name the client verifies: the configured one, else the dialled host. *)
Definition effectiveName (c : Conn) : bytes :=
  if len (ServerNameOf (config c)) =? 0 then serverNameFromDial c else ServerNameOf (config c).

Definition handshakeParams (c : Conn) (offered : list Z) (roots : option (list x509Certificate))
  (certs : list ClientCertificate) : ClientParams :=
  {| p_ServerName := effectiveName c;
     OfferedSuites := offered;
     RootCAs := roots;
     InsecureSkipVerify := cfg_InsecureSkipVerify (config c);
     VerifyPeerCertificate := cfg_VerifyPeerCertificate (config c);
     GOSTRoots := gostCertsParam (cfg_GOSTRoots (config c));
     GOSTIntermediates := gostCertsParam (cfg_GOSTIntermediates (config c));
     Certificates := certs |}.

Definition doHandshake : M Conn unit :=
  let! c := get in
  let offeredSuites :=
    match CipherSuites (config c) with Some l => l | None => AvailableSuites theRegistry end in
  if len offeredSuites =? 0 then fail errNoSuites
  else
    let! rootCAs := lift (rootCAPool (config c)) in
    let! certs := lift (clientCerts (config c)) in
    if (len (effectiveName c) =? 0) && negb (cfg_InsecureSkipVerify (config c)) then
      fail errNoServerName
    else
      let params := handshakeParams c offeredSuites rootCAs certs in
      (* the state shares the connection's layer and random reader *)
      let state := NewClientState (cn_layer c) params (cn_rand c) (cn_now c) in
      let '(r, state) := Handshake state in
      modify (fun c => cn_set_rand (c_rand state) (cn_set_layer (c_layer state) c)) ;;
      lift r.

(** [Conn.Handshake]; [handshakeOnce.Do] runs the body once. *)
Definition connHandshake : M Conn unit :=
  let! c := get in
  (if handshakeDone c then ret tt
   else if closed c then modify (cn_set_handshake (Some errConnClosed))
   else
     let! err := errOf doHandshake in
     modify (cn_set_handshake err)) ;;
  let! c := get in
  match handshakeErr c with Some e => fail e | None => ret tt end.

(** [c.readErr = err; return 0, err]. *)
Definition failRead {A} (e : error) : M Conn A := modify (cn_set_readErr e) ;; fail e.

(** One turn of the loop of [Read], for a buffer of [n] bytes, after [emptyRecords]
    empty records: data to return, or [None] to [continue]. *)
Definition readTurn (n : Z) (emptyRecords : Z) : M Conn (option bytes) :=
  let! (ct, payload) := catch (onConnLayer ReadRecord) (fun e => failRead e) in
  if ct =? ContentTypeApplicationData then
    if len payload =? 0 then
      let emptyRecords := emptyRecords + 1 in
      if maxEmptyRecords <? emptyRecords then failRead errTooManyEmptyRecords else ret None
    else
      let k := Z.min n (len payload) in
      let! d := lift (slice payload 0 k) in
      (if k <? len payload then
         let! rest := lift (slice payload k (len payload)) in
         modify (fun c => cn_set_readBuf (readBuf c ++ rest) c)
       else ret tt) ;;
      ret (Some d)
  else if ct =? ContentTypeAlert then
    if len payload <? alertMinLen then failRead errAlertTruncated
    else
      let! (_, desc) := lift (DecodeAlert payload) in
      if desc =? AlertCloseNotify then failRead EOF else failRead errAlertReceived
  else failRead errUnexpectedRecord.

(** The loop: at most [maxEmptyRecords] turns end in [continue], so one more than
    that, and one, are enough. *)
Fixpoint readLoop (fuel : nat) (n : Z) (emptyRecords : Z) : M Conn bytes :=
  match fuel with
  | O => lift (Crash OutOfFuel)
  | S fuel =>
    let! r := readTurn n emptyRecords in
    match r with
    | Some d => ret d
    | None => readLoop fuel n (emptyRecords + 1)
    end
  end.

(** [Conn.Read] with [len(b) = n]: the bytes put into [b]. *)
Definition connRead (n : Z) : M Conn bytes :=
  connHandshake ;;
  let! c := get in
  if closed c then fail errConnClosed
  else if 0 <? len (readBuf c) then
    let k := Z.min n (len (readBuf c)) in
    let! d := lift (slice (readBuf c) 0 k) in
    let! rest := lift (slice (readBuf c) k (len (readBuf c))) in
    modify (cn_set_readBuf rest) ;;
    ret d
  else
    match readErr c with
    | Some e => fail e
    | None => readLoop (Z.to_nat (maxEmptyRecords + 2)) n 0
    end.

(** The loop of [Write]: every turn sends at least one byte. *)
Fixpoint writeLoop (fuel : nat) (b : bytes) (written : Z) : M Conn (Z * option error) :=
  match fuel with
  | O => lift (Crash OutOfFuel)
  | S fuel =>
    if 0 <? len b then
      let! chunk := (if maxChunk <? len b then lift (slice b 0 maxChunk) else ret b) in
      let! err := errOf (onConnLayer (WriteRecord ContentTypeApplicationData chunk)) in
      match err with
      | Some e => ret (written, Some e)
      | None =>
          let! rest := lift (slice b (len chunk) (len b)) in
          writeLoop fuel rest (written + len chunk)
      end
    else ret (written, None)
  end.

(** [Conn.Write]: the number of bytes written and the error. *)
Definition connWrite (b : bytes) : M Conn (Z * option error) :=
  let! err := errOf connHandshake in
  match err with
  | Some e => ret (0, Some e)
  | None =>
    let! c := get in
    if closed c then ret (0, Some errConnClosed)
    else writeLoop (S (length b)) b 0
  end.

(** [Conn.Close]; [outHeld] says that a concurrent [Write] holds [outMu], so that
    [TryLock] fails.  The result is the transport's. *)
Definition connClose (outHeld : bool) : M Conn (option error) :=
  let! c := get in
  if closed c then ret None
  else
    modify cn_set_closed ;;
    let! c := get in
    (if handshakeOK c && negb outHeld then
       let alertBody := EncodeAlert AlertLevelWarning AlertCloseNotify in
       errOf (onConnLayer (WriteRecord ContentTypeAlert alertBody)) ;; ret tt
     else ret tt) ;;
    modify cn_closeTransport ;;
    let! c := get in
    ret (closeResult c).

(** ** The dialer *)

Definition colon : byte := Byte.x3a.
Definition lbracket : byte := Byte.x5b.
Definition rbracket : byte := Byte.x5d.

(** The first position of a byte, and the last. *)
Definition indexByte (b : byte) (s : bytes) : option nat := fst <$> list_find (fun x => x = b) s.
Definition lastIndexByte (b : byte) (s : bytes) : option nat :=
  (fun i => length s - 1 - i)%nat <$> indexByte b (rev s).

(** [net.SplitHostPort], its host; [None] is an error. *)
Definition SplitHostPort (hostport : bytes) : option bytes :=
  match lastIndexByte colon hostport with
  | None => None
  | Some i =>
    match
      (if bool_decide (head hostport = Some lbracket) then
         match indexByte rbracket hostport with
         | None => None
         | Some e =>
             if bool_decide (S e = i) then Some (take (e - 1) (drop 1 hostport), 1, S e)%nat
             else None
         end
       else
         let host := take i hostport in
         match indexByte colon host with Some _ => None | None => Some (host, 0, 0)%nat end)
    with
    | None => None
    | Some (host, j, k) =>
      match indexByte lbracket (drop j hostport), indexByte rbracket (drop k hostport) with
      | None, None => Some host
      | _, _ => None
      end
    end
  end.

(** [handshakeContext]: [ctx] is [None] when [ctx.Done()] is nil, else what the
    goroutine put into [interrupt].  Deadlines act on the transport. *)
Definition handshakeContext (ctx : option (option error)) : M Conn unit :=
  match ctx with
  | None => connHandshake
  | Some interrupt =>
    let! err := errOf connHandshake in
    match interrupt with
    | Some ctxErr => fail ctxErr
    | None => match err with Some e => fail e | None => ret tt end
    end
  end.

(** [dialBackend]: [dialled] is the network dialer's connection or error; on a
    failed handshake the connection is closed.  The [Conn] is also returned with
    an error, to speak of the transport. *)
Definition dialBackend (ctx : option (option error)) (addr : bytes) (dialled : result world)
  (cfg : Config) (closeRes : option error) (now : Z) : result unit * option Conn :=
  match dialled with
  | Err e => (Err e, None)
  | Crash k => (Crash k, None)
  | Ok w =>
    let tlsConn := newConn w (Some cfg) closeRes now in
    let tlsConn :=
      if len (ServerNameOf cfg) =? 0 then
        match SplitHostPort addr with Some host => cn_set_dialName host tlsConn | None => tlsConn end
      else tlsConn in
    match handshakeContext ctx tlsConn with
    | (Ok _, c) => (Ok tt, Some c)
    | (Err e, c) => (Err e, Some (cn_closeTransport c))
    | (Crash k, c) => (Crash k, Some c)
    end
  end.

Definition DialContext (ctx : option (option error)) (addr : bytes) (dialled : result world)
  (cfg : option Config) (closeRes : option error) (now : Z) : result unit * option Conn :=
  let cfg := match cfg with Some c => c | None => emptyConfig end in
  dialBackend ctx addr dialled cfg closeRes now.

End Operations.

(** ** What a connection passes to its transport

    [net.Conn]: its addresses, and its deadlines with the error of setting them. *)
Class NetConn (T : Type) := {
  nc_LocalAddr : T -> bytes;
  nc_RemoteAddr : T -> bytes;
  nc_SetDeadline : Z -> T -> option error * T;
  nc_SetReadDeadline : Z -> T -> option error * T;
  nc_SetWriteDeadline : Z -> T -> option error * T
}.

Section Transport.
Context {T : Type} `{NetConn T}.

Definition LocalAddr (conn : T) : bytes := nc_LocalAddr conn.
Definition RemoteAddr (conn : T) : bytes := nc_RemoteAddr conn.
Definition SetDeadline (t : Z) (conn : T) : option error * T := nc_SetDeadline t conn.
Definition SetReadDeadline (t : Z) (conn : T) : option error * T := nc_SetReadDeadline t conn.
Definition SetWriteDeadline (t : Z) (conn : T) : option error * T := nc_SetWriteDeadline t conn.

End Transport.

(** [ConnectionState]; nothing fills it. *)
Record ConnectionState := {
  csVersion : Z;
  csCipherSuite : Z;
  csSuite : option Suite
}.

Definition backendTag : string := "default".
Definition BackendTag : string := backendTag.
