(* ===== verification/ConnProofs.v ===== *)
(** * The connection's proofs

    The handshake of a connection runs once and its outcome is kept; reads
    deliver the application data of the records in order; an error ends the read
    side for good; writes cut the data into records that a peer reassembles;
    closing is final. *)

From Stdlib Require Import ZArith Lia.
From stdpp Require Import base list strings gmap.
From S2P Require Import Prelude Errors Messages Primitives Transcript State Layer Protectors Suites KeyExchange Certs Client ClientProofs Conn.

Open Scope Z_scope.

(** ** Configuration *)

Section Config.
Context {X : X509} {PM : PEM} {PML : PEMLaws PM}.

Lemma hasCertBlock_safe fuel b : (length b < fuel)%nat -> safe (hasCertBlock fuel b).
Proof.
  revert b; induction fuel as [|fuel IH]; intros b Hf; [lia|]. cbn [hasCertBlock].
  destruct (pemDecode b) as [[t rest]|] eqn:E; [|done]. apply pemDecode_shrinks in E.
  case_bool_decide; [done|]. apply IH. lia.
Qed.

Lemma rootPEMLoop_safe pool blocks : safe (rootPEMLoop pool blocks).
Proof.
  revert pool; induction blocks as [|b bs IH]; intros pool; cbn [rootPEMLoop]; [done|].
  destruct (appendCertsFromPEM b) as [certs ok]. destruct ok; cbn [negb]; [apply IH|].
  apply safe_bind; [apply hasCertBlock_safe; lia|]. now intros [].
Qed.

Lemma rootCAPool_safe c : safe (rootCAPool c).
Proof.
  unfold rootCAPool. destruct (cfg_RootCAs c); [now destruct (_ <? _)|].
  destruct (_ =? _); [done|]. apply safe_bind; [apply rootPEMLoop_safe|done].
Qed.

(** The trust anchors a configuration gives: its pool, or the certificates of all its
    PEM inputs, each of which holds some, or those of the platform. *)
Definition trust_anchors (cfg : Config) (roots : option (list x509Certificate)) : Prop :=
  match cfg_RootCAs cfg, RootCAPEMs cfg with
  | Some pool, [] => roots = Some pool
  | Some _, _ :: _ => False
  | None, [] => roots = None
  | None, pems =>
      Forall (fun pem => snd (appendCertsFromPEM pem) = true) pems /\
      roots = Some (concat (map (fun pem => fst (appendCertsFromPEM pem)) pems))
  end.

Lemma rootPEMLoop_spec pool pems out :
  rootPEMLoop pool pems = Ok out <->
  Forall (fun pem => snd (appendCertsFromPEM pem) = true) pems /\
  out = pool ++ concat (map (fun pem => fst (appendCertsFromPEM pem)) pems).
Proof.
  revert pool; induction pems as [|b bs IH]; intros pool; cbn [rootPEMLoop map concat].
  { rewrite app_nil_r. split; [intros [= <-]; done|now intros [_ ->]]. }
  rewrite Forall_cons. destruct (appendCertsFromPEM b) as [certs ok]. cbn [fst snd].
  destruct ok; cbn [negb].
  - rewrite IH, app_assoc. naive_solver.
  - split; [|naive_solver]. intros H. now apply bind_Ok in H as ([] & _ & H).
Qed.

Lemma rootCAPool_spec c roots : rootCAPool c = Ok roots <-> trust_anchors c roots.
Proof.
  unfold rootCAPool, trust_anchors. destruct (cfg_RootCAs c) as [pool|], (RootCAPEMs c) as [|b bs].
  - cbn. naive_solver.
  - rewrite (proj2 (Z.ltb_lt _ _)) by len_lia. done.
  - cbn. naive_solver.
  - rewrite (proj2 (Z.eqb_neq _ 0)) by len_lia. split.
    + intros (out & Ho & [= <-])%bind_Ok. apply rootPEMLoop_spec in Ho as [Hf ->]. done.
    + intros [Hf ->]. now rewrite (proj2 (rootPEMLoop_spec [] (b :: bs) _) (conj Hf eq_refl)).
Qed.

(** A certificate [clientCerts] accepts. *)
Definition cert_usable (cert : Certificate) : Prop :=
  cert_PrivateKey cert <> OtherPriv /\ cert_RawCertificate cert <> [] /\
  (cert_Certificate cert = None -> x509ParseCertificate (cert_RawCertificate cert) <> None).

Definition toClientCert (cert : Certificate) : ClientCertificate :=
  {| RawCertificate := cert_RawCertificate cert; cc_PrivateKey := cert_PrivateKey cert |}.

Lemma clientCertsLoop_cons acc cert certs :
  (cert_usable cert /\
   clientCertsLoop acc (cert :: certs) = clientCertsLoop (acc ++ [toClientCert cert]) certs) \/
  (~ cert_usable cert /\ exists e, clientCertsLoop acc (cert :: certs) = Err e).
Proof.
  cbn [clientCertsLoop]. unfold cert_usable, toClientCert.
  assert (HK : cert_PrivateKey cert = OtherPriv \/ cert_PrivateKey cert <> OtherPriv)
    by (destruct (cert_PrivateKey cert); auto; now right).
  destruct HK as [Ek|Hk].
  { right. rewrite Ek. split; [naive_solver|eauto]. }
  match goal with |- _ /\ ?a = _ \/ _ => set (r := a) end.
  assert (Hr : r = if len (cert_RawCertificate cert) =? 0 then Err errCertEmptyRaw
    else let* _ := (match cert_Certificate cert with Some p => Ok p
      | None => orLib LibX509Parse (x509ParseCertificate (cert_RawCertificate cert)) end) in
    clientCertsLoop (acc ++ [{| RawCertificate := cert_RawCertificate cert;
                                cc_PrivateKey := cert_PrivateKey cert |}]) certs)
    by (unfold r; now destruct (cert_PrivateKey cert)).
  rewrite Hr. destruct (Z.eqb_spec (len (cert_RawCertificate cert)) 0) as [E0|Hne].
  { right. apply len_zero_nil in E0. split; [naive_solver|eauto]. }
  assert (Hraw : cert_RawCertificate cert <> []) by (intros E; now rewrite E in Hne).
  destruct (cert_Certificate cert) as [p|]; [left; naive_solver|].
  destruct (x509ParseCertificate (cert_RawCertificate cert)) as [p|]; [left; naive_solver|].
  right. split; [naive_solver|]. now eexists.
Qed.

Lemma clientCertsLoop_spec acc certs :
  safe (clientCertsLoop acc certs) /\
  forall out, clientCertsLoop acc certs = Ok out <->
    Forall cert_usable certs /\ out = acc ++ map toClientCert certs.
Proof.
  revert acc; induction certs as [|cert certs IH]; intros acc.
  { split; [done|]. intros out. cbn [map]. rewrite app_nil_r.
    split; [intros [= <-]; split; [constructor|done]|now intros [_ ->]]. }
  destruct (clientCertsLoop_cons acc cert certs) as [[Hu ->]|[Hu [e ->]]].
  - specialize (IH (acc ++ [toClientCert cert])) as [IHs IH]. split; [exact IHs|].
    intros out. rewrite IH, <- app_assoc, Forall_cons. naive_solver.
  - split; [done|]. intros out. rewrite Forall_cons. split; [done|]. now intros [[? _] _].
Qed.

Lemma clientCerts_spec c :
  safe (clientCerts c) /\
  forall out, clientCerts c = Ok out <->
    Forall cert_usable (cfg_Certificates c) /\ out = map toClientCert (cfg_Certificates c).
Proof.
  unfold clientCerts. destruct (Z.eqb_spec (len (cfg_Certificates c)) 0) as [E|_].
  - apply len_zero_nil in E as ->. split; [done|]. intros out.
    split; [intros [= <-]; split; [constructor|done]|now intros [_ ->]].
  - apply (clientCertsLoop_spec []).
Qed.
End Config.

(** ** The handshake of a connection *)

Section Proofs.
Context {C : Primitives} {CL : PrimitiveLaws C} {K : KexLib} {KL : KexLaws K} {X : X509}
  {PM : PEM} {PML : PEMLaws PM}.

Abbreviation cok c := (layer_ok (cn_layer c)).

Lemma Handshake_lok (c : ClientState) :
  fresh c ->
  match Handshake c with
  | (Crash _, _) => False
  | (_, c') => layer_ok (c_layer c')
  end.
Proof.
  intros Hf. pose proof (Handshake_wp c Hf) as H. unfold wp in H.
  destruct (Handshake c) as [[[]|e|k] c']; [|destruct H as [[_ H]|H]|done].
  - destruct H as (? & ? & ? & ? & ? & ? & ? & ? & H). apply (hd_layer _ _ _ _ _ _ _ _ _ _ H).
  - exact H.
  - destruct H as (d & c1 & Hl & H). unfold fatal, onLayer, zoom in H.
    pose proof (WriteRecord_ok ContentTypeAlert (EncodeAlert AlertLevelFatal d) _ Hl) as Hw.
    destruct (WriteRecord _ _ _) as [[] ?]; [| |contradiction]; injection H as <-; exact Hw.
Qed.

(** The fields the handshake of a connection leaves alone. *)
Definition same_conn (c c' : Conn) : Prop :=
  config c' = config c /\ closed c' = closed c /\ readBuf c' = readBuf c /\ readErr c' = readErr c /\
  serverNameFromDial c' = serverNameFromDial c /\ transportCloses c' = transportCloses c /\
  closeResult c' = closeResult c.

(** The state the handshake of [c] starts in. *)
Definition clientStart (c : Conn) (roots : option (list x509Certificate))
  (certs : list ClientCertificate) : ClientState :=
  NewClientState (cn_layer c)
    (handshakeParams c (match CipherSuites (config c) with
                        | Some l => l | None => AvailableSuites theRegistry end) roots certs)
    (cn_rand c) (cn_now c).

(** A successful handshake of [c], on the client's side. *)
Definition handshaken (c c' : Conn) : Prop :=
  exists roots certs st,
    rootCAPool (config c) = Ok roots /\ clientCerts (config c) = Ok certs /\
    (cfg_InsecureSkipVerify (config c) = false -> effectiveName c <> []) /\
    Handshake (clientStart c roots certs) = (Ok tt, st) /\ cn_layer c' = c_layer st.

Lemma doHandshake_wp c :
  cok c ->
  wp doHandshake (fun _ c' => cok c' /\ handshaken c c' /\
      exists l r, c' = cn_set_rand r (cn_set_layer l c))
    (fun _ c' => cok c' /\ exists l r, c' = cn_set_rand r (cn_set_layer l c)) c.
Proof.
  intros Hl. assert (Hc : exists l r, c = cn_set_rand r (cn_set_layer l c))
    by (exists (cn_layer c), (cn_rand c); now destruct c).
  unfold doHandshake. apply wp_bind, wp_get.
  destruct (len _ =? 0) eqn:E0; [done|].
  apply wp_bind, wp_lift; [apply rootCAPool_safe|intros roots Hroots|done].
  apply wp_bind, wp_lift; [apply clientCerts_spec|intros certs Hcerts|done].
  destruct ((len (effectiveName c) =? 0) && negb (cfg_InsecureSkipVerify (config c))) eqn:En; [done|].
  set (st0 := NewClientState _ _ _ _).
  assert (Hf : fresh st0) by now apply NewClientState_fresh.
  pose proof (Handshake_lok st0 Hf) as Hlok. destruct (Handshake st0) as [r st] eqn:EH.
  apply wp_bind, wp_modify. apply wp_lift; [now destruct r| |].
  - intros [] ->. split; [exact Hlok|]. split; [|eauto].
    exists roots, certs, st. split; [done|]. split; [done|].
    split; [|split; [exact EH|reflexivity]].
    intros Hskip Hn. rewrite Hn, Hskip in En. discriminate En.
  - intros e ->. split; [exact Hlok|]. eauto.
Qed.

Lemma wp_errOf (m : M Conn unit) (Q : option error -> Conn -> Prop) E c :
  wp m (fun _ c' => Q None c') (fun e c' => Q (Some e) c') c -> wp (errOf m) Q E c.
Proof.
  intros H. unfold errOf. apply wp_catch. apply wp_bind. eapply wp_mono; [exact H| |].
  - intros [] c' HQ. exact HQ.
  - intros e c' HQ. exact HQ.
Qed.

(** The outcome of [connHandshake], and that it is recorded. *)
Definition handshake_recorded (o : option error) (c' : Conn) : Prop :=
  handshakeDone c' = true /\ handshakeErr c' = o.

Lemma connHandshake_wp c :
  cok c ->
  wp connHandshake
    (fun _ c' => cok c' /\ same_conn c c' /\ handshake_recorded None c' /\
       (handshakeDone c = true -> c' = c) /\
       (handshakeDone c = false -> closed c = false /\ handshakeOK c' = true /\ handshaken c c'))
    (fun e c' => cok c' /\ same_conn c c' /\ handshake_recorded (Some e) c' /\
       (handshakeDone c = true -> c' = c) /\
       (handshakeDone c = false -> handshakeOK c' = handshakeOK c)) c.
Proof.
  intros Hl. unfold connHandshake. apply wp_bind, wp_get. apply wp_bind.
  destruct (handshakeDone c) eqn:Hd.
  { apply wp_ret. apply wp_bind, wp_get.
    destruct (handshakeErr c) eqn:He; [apply wp_fail|apply wp_ret]; done. }
  destruct (closed c) eqn:Hcl.
  { apply wp_modify. apply wp_bind, wp_get. apply wp_fail. done. }
  apply wp_bind, wp_errOf. eapply wp_mono; [now apply doHandshake_wp| |].
  - intros _ c1 (Hl1 & Hh & l & r & ->). apply wp_modify. apply wp_bind, wp_get. apply wp_ret.
    done.
  - intros e c1 (Hl1 & l & r & ->). apply wp_modify. apply wp_bind, wp_get. apply wp_fail. done.
Qed.

(** Once run, the handshake only repeats its outcome. *)
Lemma connHandshake_recorded o c :
  handshake_recorded o c ->
  connHandshake c = (match o with Some e => Err e | None => Ok tt end, c).
Proof.
  intros [Hd He]. unfold connHandshake, bindM, get, ret. rewrite Hd, He. now destruct o.
Qed.

(** ** Reading *)

(** Application-data records read one after another, with their payloads. *)
Inductive app_reads : Layer AnyProtector -> list bytes -> Layer AnyProtector -> Prop :=
| app_reads_nil l : app_reads l [] l
| app_reads_cons l p l1 ps l2 :
    ReadRecord l = (Ok (ContentTypeApplicationData, p), l1) -> app_reads l1 ps l2 ->
    app_reads l (p :: ps) l2.

Lemma app_reads_app l ps l1 qs l2 :
  app_reads l ps l1 -> app_reads l1 qs l2 -> app_reads l (ps ++ qs) l2.
Proof. induction 1; [done|]. intros. cbn [app]. econstructor; eauto. Qed.

(** The read side failed with [e], which is kept. *)
Definition read_failed (c : Conn) (e : error) (c' : Conn) : Prop :=
  exists l, layer_ok l /\ c' = cn_set_readErr e (cn_set_layer l c).

Lemma wp_failRead {A} e (Q : A -> Conn -> Prop) c l :
  layer_ok l -> wp (failRead e) Q (read_failed c) (cn_set_layer l c).
Proof. intros Hl. unfold failRead. apply wp_bind, wp_modify, wp_fail. exists l. done. Qed.

(** What a turn of reading gives: a non-empty piece of at most [n] bytes off the
    front of the next data, the rest of which is kept. *)
Definition read_data (n : Z) (c : Conn) (d : bytes) (c' : Conn) : Prop :=
  exists ps l rest,
    app_reads (cn_layer c) ps l /\ layer_ok l /\ concat ps = d ++ rest /\
    len d <= n /\ (0 < n -> d <> []) /\ c' = cn_set_readBuf rest (cn_set_layer l c).

(** An empty record was read, and it was not one too many. *)
Definition read_empty (k : Z) (c c' : Conn) : Prop :=
  k + 1 <= maxEmptyRecords /\
  exists l, ReadRecord (cn_layer c) = (Ok (ContentTypeApplicationData, []), l) /\ layer_ok l /\
    c' = cn_set_layer l c.

Lemma readTurn_wp n k c :
  0 <= n -> cok c -> readBuf c = [] ->
  wp (readTurn n k)
    (fun o c' => match o with Some d => read_data n c d c' | None => read_empty k c c' end)
    (read_failed c) c.
Proof.
  intros Hn Hl Hbuf. unfold readTurn. apply wp_bind, wp_catch, wp_zoom.
  pose proof (ReadRecord_ok (cn_layer c) Hl) as HR.
  unfold wp at 1. destruct (ReadRecord (cn_layer c)) as [[[ct payload]|e|x] l] eqn:ER;
    [|apply wp_failRead, HR|done].
  destruct HR as (_ & Hl' & _).
  destruct (Z.eqb_spec ct ContentTypeApplicationData) as [->|_].
  - destruct (Z.eqb_spec (len payload) 0) as [E0|Hne].
    + apply len_zero_nil in E0. subst payload. cbv zeta.
      destruct (maxEmptyRecords <? k + 1) eqn:Ek; [now apply wp_failRead|]. z_bool.
      apply wp_ret. split; [lia|]. exists l. done.
    + pose proof (len_nonneg payload).
      apply wp_bind, wp_slice; [lia..|]. intros d Hd.
      assert (Hd2 : len d = Z.min n (len payload)) by (apply slice_Ok in Hd; lia).
      assert (Hnz : 0 < n -> d <> []) by (intros Hn0 ->; rewrite len_nil in Hd2; lia).
      apply wp_bind. destruct (Z.min n (len payload) <? len payload) eqn:Ek; z_bool.
      * apply wp_bind, wp_slice; [lia..|]. intros rest Hrest. apply wp_modify, wp_ret.
        exists [payload], l, rest. split; [econstructor; [exact ER|constructor]|].
        split; [done|]. split; [cbn [concat]; rewrite app_nil_r; eapply slice_split; eauto|].
        split; [lia|]. split; [done|]. cbn. rewrite Hbuf. reflexivity.
      * apply wp_ret, wp_ret. exists [payload], l, [].
        split; [econstructor; [exact ER|constructor]|]. split; [done|].
        rewrite slice_all in Hd by lia. injection Hd as <-.
        split; [done|]. split; [lia|]. split; [done|]. rewrite <- Hbuf. now destruct c.
  - destruct (ct =? ContentTypeAlert); [|now apply wp_failRead].
    unfold alertMinLen. destruct (len payload <? 2) eqn:E2; [now apply wp_failRead|]. z_bool.
    apply wp_bind. unfold wp. cbn [lift]. pose proof (DecodeAlert_safe payload E2) as Hs.
    unfold DecodeAlert, index in *. destruct payload as [|x [|y payload]]; [len_lia..|]. cbn.
    change (wp (if b2z y =? AlertCloseNotify then failRead EOF else failRead errAlertReceived)
      (fun (o : option bytes) c' =>
         match o with Some d => read_data n c d c' | None => read_empty k c c' end)
      (read_failed c) (cn_set_layer l c)).
    destruct (_ =? _); now apply wp_failRead.
Qed.

Lemma readLoop_wp fuel n k c :
  0 <= n -> 0 <= k <= maxEmptyRecords -> maxEmptyRecords + 1 - k <= Z.of_nat fuel ->
  cok c -> readBuf c = [] ->
  wp (readLoop fuel n k) (read_data n c) (read_failed c) c.
Proof.
  intros Hn. revert k c. induction fuel as [|fuel IH]; intros k c Hk Hf Hl Hbuf; [lia|].
  cbn [readLoop]. apply wp_bind. eapply wp_mono; [now apply readTurn_wp| |done].
  intros [d|] c1 H1; [exact H1|]. destruct H1 as (Hk1 & l1 & ER & Hl1 & ->).
  eapply wp_mono; [apply IH; [lia|lia|exact Hl1|exact Hbuf]| |].
  - intros d c' (ps & l2 & rest & R & Hl2 & Hc & Hd & Hd' & ->).
    exists ([] :: ps), l2, rest. split; [econstructor; [exact ER|exact R]|]. done.
  - intros e c' (l2 & Hl2 & ->). exists l2. done.
Qed.

(** A connection past its handshake, not closed. *)
Record ready (c : Conn) : Prop := {
  rd_ok : cok c;
  rd_handshake : handshake_recorded None c;
  rd_open : closed c = false
}.

(** [connRead] on a ready connection: data, or the error that ends reading. *)
Lemma connRead_ready n c :
  ready c -> 0 <= n ->
  wp (connRead n)
    (fun d c' => ready c' /\ len d <= n /\ (0 < n -> d <> []) /\
       exists ps, app_reads (cn_layer c) ps (cn_layer c') /\
         readBuf c ++ concat ps = d ++ readBuf c')
    (fun e c' => ready c' /\ readBuf c' = [] /\ readErr c' = Some e) c.
Proof.
  intros [Hl Hh Ho] Hn. unfold connRead. apply wp_bind. unfold wp at 1.
  rewrite (connHandshake_recorded None c Hh). apply wp_bind, wp_get. rewrite Ho.
  destruct (0 <? len (readBuf c)) eqn:Eb; z_bool.
  - apply wp_bind, wp_slice; [lia..|]. intros d Hd.
    assert (len d = Z.min n (len (readBuf c))) by (apply slice_Ok in Hd; lia).
    apply wp_bind, wp_slice; [lia..|]. intros rest Hrest. apply wp_bind, wp_modify, wp_ret.
    split; [split; done|]. split; [lia|]. split; [intros ? ->; rewrite len_nil in *; lia|].
    exists []. split; [constructor|]. cbn. rewrite app_nil_r. eapply slice_split; eauto.
  - assert (Hb : readBuf c = []) by (apply len_zero_nil; len_lia).
    destruct (readErr c) as [e|] eqn:He; [apply wp_fail; done|].
    eapply wp_mono; [apply readLoop_wp; unfold maxEmptyRecords; [done|lia|lia|done|done]| |].
    + intros d c' (ps & l & rest & R & Hl' & Hc & Hd & Hd' & ->).
      split; [split; [exact Hl'|exact Hh|exact Ho]|]. split; [done|]. split; [done|].
      exists ps. split; [exact R|]. now rewrite Hb.
    + intros e c' (l & Hl' & ->). split; [split; [exact Hl'|exact Hh|exact Ho]|]. done.
Qed.

Fixpoint readMany (ns : list Z) : M Conn (list bytes) :=
  match ns with
  | [] => ret []
  | n :: ns => let! d := connRead n in let! ds := readMany ns in ret (d :: ds)
  end.

Lemma readMany_stream ns c ds c' :
  ready c -> Forall (fun n => 0 <= n) ns -> readMany ns c = (Ok ds, c') ->
  ready c' /\ Forall2 (fun d n => len d <= n) ds ns /\
  exists ps, app_reads (cn_layer c) ps (cn_layer c') /\
    readBuf c ++ concat ps = concat ds ++ readBuf c'.
Proof.
  revert c ds; induction ns as [|n ns IH]; intros c ds Hr Hns Hrun; cbn [readMany] in Hrun.
  { injection Hrun as <- <-. split; [done|]. split; [constructor|]. exists [].
    split; [constructor|]. now rewrite app_nil_r. }
  apply Forall_cons in Hns as [Hn Hns].
  apply bindM_Ok in Hrun as (d & c1 & H1 & Hrun). apply bindM_Ok in Hrun as (ds' & c2 & H2 & Hrun).
  injection Hrun as <- <-.
  pose proof (wp_Ok _ _ _ _ _ _ H1 (connRead_ready n c Hr Hn)) as (Hr1 & Hd & _ & ps & R & E).
  destruct (IH c1 ds' Hr1 Hns H2) as (Hr2 & Hds & qs & R2 & E2).
  split; [done|]. split; [now constructor|]. exists (ps ++ qs).
  split; [eapply app_reads_app; eauto|]. cbn [concat].
  now rewrite concat_app, app_assoc, E, <- !app_assoc, E2.
Qed.

(** [connRead] never panics, whatever the state. *)
Lemma connRead_safe n c : cok c -> 0 <= n -> safe (fst (connRead n c)).
Proof.
  intros Hl Hn.
  enough (H : wp (connRead n) (fun _ _ => True) (fun _ _ => True) c)
    by (unfold wp in H; now destruct (connRead n c) as [[] ?]).
  unfold connRead. apply wp_bind. eapply wp_mono; [now apply connHandshake_wp| |done].
  intros _ c1 (Hl1 & _ & Hrec & _). 
  destruct (closed c1) eqn:Hcl.
  { apply wp_bind, wp_get. now rewrite Hcl. }
  assert (Hready : ready c1) by now split.
  pose proof (connRead_ready n c1 Hready Hn) as H. unfold connRead in H.
  unfold wp, bindM at 1 in H. rewrite (connHandshake_recorded None c1 Hrec) in H.
  eapply wp_mono; [exact H|done|done].
Qed.

(** A read that failed fails again, in the same way and without effect. *)
Lemma connRead_again n m c e c' :
  cok c -> 0 <= n -> connRead n c = (Err e, c') -> connRead m c' = (Err e, c').
Proof.
  intros Hl Hn Hrun. pose proof (connHandshake_wp c Hl) as Hh. unfold wp in Hh.
  unfold connRead in Hrun. unfold bindM at 1 in Hrun.
  destruct (connHandshake c) as [[[]|e1|k] c1] eqn:EH; [| |done].
  2:{ injection Hrun as <- <-. destruct Hh as (_ & _ & Hrec & _).
      unfold connRead, bindM at 1. now rewrite (connHandshake_recorded _ _ Hrec). }
  destruct Hh as (Hl1 & _ & Hrec & _).
  assert (Hrun1 : connRead n c1 = (Err e, c'))
    by (unfold connRead, bindM at 1; now rewrite (connHandshake_recorded _ _ Hrec)).
  destruct (closed c1) eqn:Hcl.
  { unfold bindM at 1 in Hrun. cbn [get] in Hrun. rewrite Hcl in Hrun. injection Hrun as <- <-.
    unfold connRead, bindM at 1. rewrite (connHandshake_recorded _ _ Hrec).
    unfold bindM at 1. cbn [get]. now rewrite Hcl. }
  assert (Hready : ready c1) by now split.
  pose proof (connRead_ready n c1 Hready Hn) as H. unfold wp in H. rewrite Hrun1 in H.
  destruct H as ([_ Hrec' Ho'] & Hb & He).
  unfold connRead, bindM at 1. rewrite (connHandshake_recorded _ _ Hrec').
  unfold bindM at 1. cbn [get]. now rewrite Ho', Hb, He.
Qed.

(** ** Writing *)

Definition appRecords (chunks : list bytes) : list (Z * bytes) :=
  map (pair ContentTypeApplicationData) chunks.

(** What [Write] sent of [b]: whole records of at most 2^14 bytes, in order; all
    of [b] without an error, a proper prefix with one. *)
Definition write_done (b : bytes) (c : Conn) (out : Z * option error) (c' : Conn) : Prop :=
  exists chunks rest l,
    b = concat chunks ++ rest /\ Forall (fun p => 0 < len p <= tlsMaxPlaintextLen) chunks /\
    fst out = len (concat chunks) /\
    writeAll (appRecords chunks) (cn_layer c) = (Ok tt, l) /\
    match snd out with
    | None => rest = [] /\ c' = cn_set_layer l c
    | Some e => rest <> [] /\ exists chunk l',
        WriteRecord ContentTypeApplicationData chunk l = (Err e, l') /\ c' = cn_set_layer l' c
    end.

Lemma writeLoop_wp fuel b written c :
  (length b < fuel)%nat -> cok c ->
  wp (writeLoop fuel b written)
    (fun out c' => cok c' /\ write_done b c (fst out - written, snd out) c') (fun _ _ => False) c.
Proof.
  revert b written c; induction fuel as [|fuel IH]; intros b written c Hf Hl; [lia|].
  cbn [writeLoop]. destruct (0 <? len b) eqn:Eb; z_bool.
  2:{ apply wp_ret. split; [done|]. exists [], b, (cn_layer c). 
      assert (b = []) as -> by (apply len_zero_nil; len_lia).
      split; [done|]. split; [constructor|]. split; [cbn [fst concat]; rewrite len_nil; lia|].
      split; [done|]. split; [done|]. now destruct c. }
  assert (Hchunk : exists chunk rest, b = chunk ++ rest /\ 0 < len chunk <= tlsMaxPlaintextLen /\
    (if maxChunk <? len b then lift (slice b 0 maxChunk) else ret b) c = (Ok chunk, c) /\
    slice (E := error) b (len chunk) (len b) = Ok rest).
  { unfold tlsMaxPlaintextLen. change maxChunk with 16384. destruct (16384 <? len b) eqn:E; z_bool.
    - exists (take (Z.to_nat 16384) b), (drop (Z.to_nat 16384) b). split; [now rewrite take_drop|].
      assert (Hlt : len (take (Z.to_nat 16384) b) = 16384) by (rewrite len_take, Z2Nat.id; lia). rewrite Hlt.
      split; [lia|]. unfold lift. rewrite slice_to by lia. split; [done|]. now rewrite slice_from by lia.
    - exists b, []. rewrite app_nil_r. split; [done|]. split; [lia|]. split; [done|].
      rewrite slice_from by lia. rewrite to_nat_len, drop_all. done. }
  destruct Hchunk as (chunk & rest & -> & Hc & Ec & Er).
  apply wp_bind. unfold wp at 1. rewrite Ec.
  apply wp_bind, wp_errOf, wp_zoom. unfold wp at 1.
  pose proof (WriteRecord_ok ContentTypeApplicationData chunk _ Hl) as Hw.
  destruct (WriteRecord ContentTypeApplicationData chunk (cn_layer c)) as [[[]|e|x] l] eqn:EW; [| |done].
  - rewrite Er. apply wp_bind. apply (wp_ret rest).
    eapply wp_mono; [apply IH; [|exact Hw]| |done].
    { unfold len in Hc. rewrite length_app in Hf. lia. }
    intros [n err] c' (Hok & chunks & rest' & l' & E & Hall & Hn & Hwa & Hout). cbn [fst snd] in *.
    split; [done|]. exists (chunk :: chunks), rest', l'. cbn [concat fst snd].
    split; [now rewrite <- app_assoc, <- E|]. split; [now constructor|].
    split; [rewrite len_app; lia|]. split; [|done].
    cbn [appRecords map writeAll]. unfold bindM. rewrite EW. exact Hwa.
  - apply wp_ret. split; [exact Hw|]. exists [], (chunk ++ rest), (cn_layer c). cbn [fst snd concat].
    split; [done|]. split; [constructor|]. split; [rewrite len_nil; lia|]. split; [done|].
    split; [|eauto]. destruct chunk; [len_lia|done].
Qed.

Lemma connWrite_ready b c :
  ready c ->
  wp (connWrite b) (fun out c' => cok c' /\ write_done b c out c') (fun _ _ => False) c.
Proof.
  intros [Hl Hh Ho]. unfold connWrite. apply wp_bind, wp_errOf. unfold wp at 1.
  rewrite (connHandshake_recorded None c Hh). apply wp_bind, wp_get. rewrite Ho.
  eapply wp_mono; [apply (writeLoop_wp _ b 0); [lia|done]| |done].
  intros [n e] c' [H1 H2]. split; [done|]. cbn [fst snd] in H2. now rewrite Z.sub_0_r in H2.
Qed.

Lemma connWrite_wp b c :
  cok c -> wp (connWrite b) (fun _ c' => cok c') (fun _ _ => False) c.
Proof.
  intros Hl. unfold connWrite. apply wp_bind, wp_errOf.
  eapply wp_mono; [now apply connHandshake_wp| |].
  - intros _ c1 (Hl1 & _). apply wp_bind, wp_get. destruct (closed c1); [done|].
    eapply wp_mono; [apply writeLoop_wp; [lia|done]| |done]. now intros [n e] c' [H _].
  - intros e c1 (Hl1 & _). done.
Qed.

(** Records written by one side are the application data the other reads. *)
Lemma readAll_app_reads chunks r r' :
  readAll (length (appRecords chunks)) r = (Ok (appRecords chunks), r') -> app_reads r chunks r'.
Proof.
  revert r; induction chunks as [|p ps IH]; intros r Hr; cbn in Hr.
  - injection Hr as <-. constructor.
  - apply bindM_Ok in Hr as (x & r1 & H1 & Hr). apply bindM_Ok in Hr as (xs & r2 & H2 & Hr).
    injection Hr as -> -> ->. econstructor; eauto.
Qed.

(** ** Closing *)

Lemma connClose_wp held c :
  cok c ->
  wp (connClose held) (fun out c' =>
      cok c' /\ closed c' = true /\
      handshakeDone c' = handshakeDone c /\ handshakeErr c' = handshakeErr c /\
      if closed c then out = None /\ c' = c
      else out = closeResult c /\ transportCloses c' = S (transportCloses c) /\
        if handshakeOK c && negb held
        then exists r, WriteRecord ContentTypeAlert (EncodeAlert AlertLevelWarning AlertCloseNotify)
                         (cn_layer c) = (r, cn_layer c')
        else cn_layer c' = cn_layer c)
    (fun _ _ => False) c.
Proof.
  intros Hl. unfold connClose. apply wp_bind, wp_get. destruct (closed c) eqn:Hc; [done|].
  apply wp_bind, wp_modify. apply wp_bind, wp_get. apply wp_bind.
  change (handshakeOK (cn_set_closed c)) with (handshakeOK c).
  destruct (handshakeOK c && negb held); [|done].
  apply wp_bind, wp_errOf, wp_zoom. unfold wp at 1.
  change (cn_layer (cn_set_closed c)) with (cn_layer c).
  pose proof (WriteRecord_ok ContentTypeAlert (EncodeAlert AlertLevelWarning AlertCloseNotify) _ Hl) as Hw.
  destruct (WriteRecord _ _ (cn_layer c)) as [[[]|e|x] l]; [| |done]; apply wp_ret; cbn;
    (split; [exact Hw|]; repeat (split; [done|]); eauto).
Qed.

(** ** A connection's life

    Any sequence of calls of the application on a connection. *)

Inductive conn_step : Conn -> Conn -> Prop :=
| step_handshake c r c' : connHandshake c = (r, c') -> conn_step c c'
| step_read n c r c' : 0 <= n -> connRead n c = (r, c') -> conn_step c c'
| step_write b c r c' : connWrite b c = (r, c') -> conn_step c c'
| step_close held c r c' : connClose held c = (r, c') -> conn_step c c'.

Record conn_inv (c : Conn) : Prop := {
  ci_layer : cok c;
  ci_handshake : handshakeOK c = true <-> handshake_recorded None c;
  ci_closes : transportCloses c = if closed c then 1%nat else 0%nat;
  ci_reads : readBuf c <> [] \/ readErr c <> None -> handshakeOK c = true
}.

Lemma conn_inv_new w cfg closeRes now h : conn_inv (cn_set_dialName h (newConn w cfg closeRes now)).
Proof.
  split; [split; [done|done|cbn; unfold maxUint64; lia..]| |done|].
  - split; [done|]. now intros [? _].
  - now intros [?|?].
Qed.

Lemma inv_handshake c :
  conn_inv c ->
  wp connHandshake (fun _ c' => conn_inv c' /\ handshakeOK c' = true) (fun _ c' => conn_inv c') c.
Proof.
  intros [Hl Hh Hc Hr]. eapply wp_mono; [now apply connHandshake_wp| |].
  - intros _ c' (Hl' & (_ & Ecl & Eb & Ee & _ & Et & _) & Hrec & Hdone & Hnew).
    assert (Hok : handshakeOK c' = true).
    { destruct (handshakeDone c) eqn:Hd; [|now apply Hnew]. rewrite (Hdone eq_refl) in *. now apply Hh. }
    split; [|exact Hok]. split; [done|split; auto|now rewrite Ecl, Et|done].
  - intros e c' (Hl' & (_ & Ecl & Eb & Ee & _ & Et & _) & Hrec & Hdone & Hsame).
    destruct (handshakeDone c) eqn:Hd; [now rewrite (Hdone eq_refl)|].
    assert (Hno : handshakeOK c = false).
    { destruct (handshakeOK c) eqn:E; [|done]. destruct (proj1 Hh eq_refl). congruence. }
    specialize (Hsame eq_refl). split; [done| |now rewrite Ecl, Et|rewrite Eb, Ee; intros H; specialize (Hr H); congruence].
    rewrite Hsame, Hno. split; [done|]. destruct Hrec as [_ Hrec]. intros [_ H]. congruence.
Qed.

(** Changes to the layer and the read side of a connection past its handshake. *)
Lemma inv_update c c' :
  conn_inv c -> handshakeOK c = true -> cok c' -> handshakeOK c' = handshakeOK c ->
  handshakeDone c' = handshakeDone c -> handshakeErr c' = handshakeErr c ->
  closed c' = closed c -> transportCloses c' = transportCloses c -> conn_inv c'.
Proof.
  intros [_ Hh Hc _] Hok Hl E1 E2 E3 E4 E5. split; [done| |now rewrite E4, E5|congruence].
  unfold handshake_recorded in *. now rewrite E1, E2, E3.
Qed.

Lemma inv_read n c :
  0 <= n -> conn_inv c -> wp (connRead n) (fun _ c' => conn_inv c') (fun _ c' => conn_inv c') c.
Proof.
  intros Hn Hi. unfold connRead. apply wp_bind. eapply wp_mono; [now apply inv_handshake| |done].
  intros _ c1 [Hi1 Hok]. apply wp_bind, wp_get. destruct (closed c1); [done|].
  destruct (0 <? len (readBuf c1)) eqn:Eb; z_bool.
  - apply wp_bind, wp_slice; [lia..|]. intros d _. apply wp_bind, wp_slice; [lia..|]. intros rest _.
    apply wp_bind, wp_modify, wp_ret. apply (inv_update c1); try done. exact (ci_layer c1 Hi1).
  - assert (Hb : readBuf c1 = []) by (apply len_zero_nil; len_lia).
    destruct (readErr c1); [done|].
    eapply wp_mono; [apply readLoop_wp; unfold maxEmptyRecords; [done|lia|lia|apply ci_layer, Hi1|done]| |].
    + intros d c' (ps & l & rest & _ & Hl' & _ & _ & _ & ->). now apply (inv_update c1).
    + intros e c' (l & Hl' & ->). now apply (inv_update c1).
Qed.

Lemma inv_write b c :
  conn_inv c -> wp (connWrite b) (fun _ c' => conn_inv c') (fun _ c' => conn_inv c') c.
Proof.
  intros Hi. unfold connWrite. apply wp_bind, wp_errOf. eapply wp_mono; [now apply inv_handshake| |].
  - intros _ c1 [Hi1 Hok]. apply wp_bind, wp_get. destruct (closed c1); [done|].
    eapply wp_mono; [apply (writeLoop_wp _ b 0); [lia|apply ci_layer, Hi1]| |done].
    intros [n e] c' (Hl' & chunks & rest & l & _ & _ & _ & _ & Hout). destruct (snd _) as [e'|].
    + destruct Hout as (_ & chunk & l' & _ & ->). now apply (inv_update c1).
    + destruct Hout as (_ & ->). now apply (inv_update c1).
  - intros e c1 Hi1. exact Hi1.
Qed.

Lemma inv_close held c :
  conn_inv c -> wp (connClose held) (fun _ c' => conn_inv c') (fun _ c' => conn_inv c') c.
Proof.
  intros Hi. unfold connClose. apply wp_bind, wp_get. destruct (closed c) eqn:Hc; [done|].
  apply wp_bind, wp_modify. apply wp_bind, wp_get. apply wp_bind.
  destruct Hi as [Hl Hh Hcl Hr]. rewrite Hc in Hcl.
  destruct (_ && negb held).
  - apply wp_bind, wp_errOf, wp_zoom. unfold wp at 1.
    change (cn_layer (cn_set_closed c)) with (cn_layer c).
    pose proof (WriteRecord_ok ContentTypeAlert (EncodeAlert AlertLevelWarning AlertCloseNotify) _ Hl) as Hw.
    destruct (WriteRecord _ _ (cn_layer c)) as [[[]|e|x] l]; [| |done];
      (change (conn_inv (cn_closeTransport (cn_set_layer l (cn_set_closed c))));
       split; [exact Hw|exact Hh|cbn; now rewrite Hcl|exact Hr]).
  - change (conn_inv (cn_closeTransport (cn_set_closed c))).
    split; [exact Hl|exact Hh|cbn; now rewrite Hcl|exact Hr].
Qed.

Lemma wp_inv_step {A} (m : M Conn A) c r c' :
  wp m (fun _ c' => conn_inv c') (fun _ c' => conn_inv c') c -> m c = (r, c') -> conn_inv c'.
Proof. unfold wp. intros H E. rewrite E in H. now destruct r. Qed.

Lemma wp_inv_safe {A} (m : M Conn A) c :
  wp m (fun _ c' => conn_inv c') (fun _ c' => conn_inv c') c -> safe (fst (m c)).
Proof. unfold wp. now destruct (m c) as [[] ?]. Qed.

Lemma inv_handshake' c :
  conn_inv c -> wp connHandshake (fun _ c' => conn_inv c') (fun _ c' => conn_inv c') c.
Proof. intros Hi. eapply wp_mono; [now apply inv_handshake| |done]. now intros _ c' [H _]. Qed.

Lemma conn_steps_inv c c' : conn_inv c -> rtc conn_step c c' -> conn_inv c'.
Proof.
  intros Hi Hs. induction Hs as [|c c1 c2 Hstep _ IH]; [done|]. apply IH. clear IH.
  destruct Hstep as [c r c1 E|n c r c1 Hn E|b c r c1 E|held c r c1 E];
    eapply wp_inv_step, E; auto using inv_handshake', inv_read, inv_write, inv_close.
Qed.

(** * Properties *)

(** The handshake runs once: whatever its outcome, calling [Handshake] again
    gives the same outcome and changes nothing, so nothing more is read from or
    written to the transport, and after a failure every [Read] and every [Write]
    gives that error, too. *)
Theorem conn_handshake_once c r c' :
  layer_ok (cn_layer c) -> connHandshake c = (r, c') ->
  connHandshake c' = (r, c') /\
  exists o, r = match o with Some e => Err e | None => Ok tt end /\ handshake_recorded o c' /\
    forall e n b, o = Some e ->
      connRead n c' = (Err e, c') /\ connWrite b c' = (Ok (0, Some e), c').
Proof.
  intros Hl Hrun. pose proof (connHandshake_wp c Hl) as H. unfold wp in H. rewrite Hrun in H.
  assert (Hrec : exists o, r = match o with Some e => Err e | None => Ok tt end /\ handshake_recorded o c').
  { destruct r as [[]|e|k]; [exists None|exists (Some e)|done]; destruct H as (_ & _ & Hrec & _); done. }
  destruct Hrec as (o & -> & Hrec). pose proof (connHandshake_recorded o c' Hrec) as E.
  split; [exact E|]. exists o. split; [done|]. split; [done|]. intros e n b ->.
  unfold connRead, connWrite, errOf, catch, bindM. now rewrite E.
Qed.

(** C20. Name verification fails closed: with verification on, a handshake succeeds
    only if there is a non-empty name, the configured one or else the dialled host,
    and the chain of the certificate the server sent was verified for that name at the
    connection's time: a GOST certificate by the GOST verifier with the configured,
    non-empty GOST roots and the configured and received intermediates, any other by
    the standard one with the received intermediates and the roots of the
    configuration: its pool, or the certificates of all its PEM inputs, or the
    platform's when it has neither. *)
Theorem conn_verifies_name c c' :
  layer_ok (cn_layer c) -> handshakeDone c = false -> cfg_InsecureSkipVerify (config c) = false ->
  connHandshake c = (Ok tt, c') ->
  exists name roots certs sf raw rest,
    name <> [] /\
    (ServerNameOf (config c) <> [] /\ name = ServerNameOf (config c) \/
     ServerNameOf (config c) = [] /\ name = serverNameFromDial c) /\
    trust_anchors (config c) roots /\
    server_sent (clientStart c roots certs) sf /\ sf_certs sf = raw :: rest /\
    gostParseCertificate raw = Some (sf_gc sf) /\
    if IsGOST (sf_gc sf) then
      exists groots received chains,
        cfg_GOSTRoots (config c) = Some groots /\ groots <> [] /\
        mapM gostParseCertificate rest = Some received /\
        gostVerify (sf_gc sf)
          {| GRoots := groots;
             GIntermediates := default [] (cfg_GOSTIntermediates (config c)) ++ received;
             GDNSName := name; GCurrentTime := cn_now c |} = Some chains
    else
      exists received chains,
        mapM x509ParseCertificate rest = Some received /\
        x509Verify (Stdlib (sf_gc sf))
          {| Roots := roots; Intermediates := received; DNSName := name;
             CurrentTime := cn_now c |} = Some chains.
Proof.
  intros Hl Hd Hskip Hrun. pose proof (connHandshake_wp c Hl) as H. unfold wp in H. rewrite Hrun in H.
  destruct H as (_ & _ & _ & _ & H). destruct (H Hd) as (_ & _ & roots & certs & st & H1 & H2 & H3 & H4 & _).
  assert (Hf : fresh (clientStart c roots certs)) by now apply NewClientState_fresh.
  destruct (Handshake_done _ _ Hf H4) as (s & cr & sf & cke & ms & sp & rp & f & Hdn).
  destruct (hd_server _ _ _ _ _ _ _ _ _ _ Hdn) as [_ _ _ [(raw & Hraw & Hgc) Hleaf] _ _ _].
  cbn in Hleaf. rewrite Hskip in Hleaf. destruct (sf_certs sf) as [|raw' rest] eqn:Ec; [done|].
  injection Hraw as ->.
  exists (effectiveName c), roots, certs, sf, raw, rest. split; [auto|]. split.
  { unfold effectiveName. destruct (ServerNameOf (config c)); [now right|left; split; [discriminate|done]]. }
  split; [now apply rootCAPool_spec|]. split; [apply (hd_read _ _ _ _ _ _ _ _ _ _ Hdn)|].
  split; [done|]. split; [done|]. unfold chain_verified in Hleaf. destruct (IsGOST (sf_gc sf)).
  - destruct Hleaf as (wire & gch & Hne & _ & Hw & Hv & _). cbn in Hne, Hw, Hv.
    destruct (cfg_GOSTRoots (config c)) as [groots|]; [|done]. exists groots, wire, gch.
    split; [done|]. split; [exact Hne|]. split; [exact Hw|].
    destruct (cfg_GOSTIntermediates (config c)); exact Hv.
  - destruct Hleaf as (inter & Hi & Hv). exists inter, (sf_chains sf). done.
Qed.

(** Reads deliver the stream: on a connection past its handshake, the results
    of any sequence of successful reads, of any sizes, followed by what is still
    buffered, are what was buffered before followed by the payloads of the
    application-data records read meanwhile; nothing is lost, repeated or
    reordered, and no read returns more than it was asked for. *)
Theorem conn_read_stream ns c ds c' :
  ready c -> Forall (fun n => 0 <= n) ns -> readMany ns c = (Ok ds, c') ->
  ready c' /\ Forall2 (fun d n => len d <= n) ds ns /\
  exists ps, app_reads (cn_layer c) ps (cn_layer c') /\
    readBuf c ++ concat ps = concat ds ++ readBuf c'.
Proof. apply readMany_stream. Qed.

(** C27. A failed read is final: whatever the reason (handshake, closed connection,
    transport, alert, unexpected record, too many empty records), every later
    read, alone or in a sequence of reads of any sizes, fails with the same error
    and leaves the connection as it is. *)
Theorem conn_read_sticky n c e c' :
  layer_ok (cn_layer c) -> 0 <= n -> connRead n c = (Err e, c') ->
  forall m ms, connRead m c' = (Err e, c') /\ readMany (m :: ms) c' = (Err e, c').
Proof.
  intros Hl Hn Hrun m ms. assert (E : connRead m c' = (Err e, c')) by eauto using connRead_again.
  split; [exact E|]. cbn [readMany]. unfold bindM at 1. now rewrite E.
Qed.

(** C29. The life of a connection: after any sequence of calls of [Handshake],
    [Read], [Write] and [Close] on a new connection, on any input from the
    network, the next call of any of them returns, without a panic and without an
    endless loop; the transport has been closed exactly once if the connection is
    closed and not at all otherwise; [handshakeOK] is set exactly when the handshake
    has run without an error; data or an error on the read side means that it has. *)
Theorem conn_total w cfg closeRes now h c :
  rtc conn_step (cn_set_dialName h (newConn w cfg closeRes now)) c ->
  conn_inv c /\
  forall n b held, 0 <= n ->
    safe (fst (connRead n c)) /\ safe (fst (connWrite b c)) /\ safe (fst (connClose held c)) /\
    safe (fst (connHandshake c)).
Proof.
  intros Hs. assert (Hi : conn_inv c) by (eapply conn_steps_inv, Hs; apply conn_inv_new).
  split; [done|]. intros n b held Hn.
  repeat split; apply wp_inv_safe; auto using inv_handshake', inv_read, inv_write, inv_close.
Qed.

(** Writes arrive: when [Write] reports no error it reports the length of its
    argument, and a peer whose receive side mirrors the sender's send side reads
    from the bytes put on the transport application-data records of 1 to 2^14
    bytes whose concatenation is the argument, and nothing else. *)
Theorem conn_write_delivers b c n c' :
  ready c -> connWrite b c = (Ok (n, None), c') ->
  n = len b /\
  exists wire chunks,
    tx (rw (cn_layer c')) = tx (rw (cn_layer c)) ++ wire /\ concat chunks = b /\
    Forall (fun p => 0 < len p <= 2 ^ 14) chunks /\
    forall (peer : Layer AnyProtector) rest,
      recvProt peer = sendProt (cn_layer c) -> recvSeq peer = sendSeq (cn_layer c) ->
      rx (rw peer) = wire ++ rest ->
      exists peer', app_reads peer chunks peer' /\ rx (rw peer') = rest.
Proof.
  intros Hr Hrun. pose proof (wp_Ok _ _ _ _ _ _ Hrun (connWrite_ready b c Hr)) as (_ & Hw).
  destruct Hw as (chunks & rest & l & E & Hall & Hn & Hwa & -> & ->). rewrite app_nil_r in E.
  subst b. split; [exact Hn|].
  destruct (writeAll_readAll _ _ _ (rd_ok _ Hr) Hwa) as (wire & Htx & Hread).
  exists wire, chunks. split; [exact Htx|]. split; [done|]. split; [exact Hall|].
  intros peer tail H1 H2 H3. destruct (Hread peer tail H1 H2 H3) as (r' & Ha & Hb & _).
  exists r'. split; [now apply readAll_app_reads|done].
Qed.

(** An interrupted write reports what it sent: with an error, the count is
    the length of the whole records written before the failing one, which hold
    exactly that prefix of the argument, and something was left to send. *)
Theorem conn_write_prefix b c n e c' :
  ready c -> connWrite b c = (Ok (n, Some e), c') ->
  n < len b /\
  exists chunks l, concat chunks = take (Z.to_nat n) b /\
    writeAll (appRecords chunks) (cn_layer c) = (Ok tt, l).
Proof.
  intros Hr Hrun. pose proof (wp_Ok _ _ _ _ _ _ Hrun (connWrite_ready b c Hr)) as (_ & Hw).
  destruct Hw as (chunks & rest & l & -> & _ & Hn & Hwa & Hne & _). cbn [fst] in Hn. subst n.
  assert (0 < len rest) by (destruct rest; [done|len_lia]).
  split; [len_lia|]. exists chunks, l. split; [|done]. now rewrite to_nat_len, take_app_length.
Qed.

(** C28. Closing is final: [Close] closes the transport, exactly once, and sends
    close_notify exactly when the handshake had succeeded and no write was in
    progress; a second [Close] returns nil and does nothing; after it, reads and
    writes of a connection whose handshake had succeeded fail with the closed
    error, and nothing is sent. *)
Theorem conn_close_final held held2 n b c out c' :
  layer_ok (cn_layer c) -> closed c = false -> connClose held c = (Ok out, c') ->
  out = closeResult c /\ transportCloses c' = S (transportCloses c) /\
  (if handshakeOK c && negb held
   then exists r, WriteRecord ContentTypeAlert [Byte.x01; Byte.x00] (cn_layer c) = (r, cn_layer c')
   else cn_layer c' = cn_layer c) /\
  connClose held2 c' = (Ok None, c') /\
  (handshake_recorded None c ->
   connRead n c' = (Err errConnClosed, c') /\
   connWrite b c' = (Ok (0, Some errConnClosed), c')).
Proof.
  intros Hl Hc Hrun. pose proof (wp_Ok _ _ _ _ _ _ Hrun (connClose_wp held c Hl)) as H.
  rewrite Hc in H. destruct H as (_ & Hc' & Hd & He & -> & Ht & Hw).
  split; [done|]. split; [done|]. split; [exact Hw|].
  split; [unfold connClose, bindM, get; now rewrite Hc'|].
  intros [Hd0 He0]. assert (Hrec : handshake_recorded None c') by (split; congruence).
  split.
  - unfold connRead, bindM at 1. rewrite (connHandshake_recorded None c' Hrec).
    unfold bindM, get. now rewrite Hc'.
  - unfold connWrite, errOf, catch, bindM. rewrite (connHandshake_recorded None c' Hrec).
    unfold ret, get. now rewrite Hc'.
Qed.

(** [clientCerts] accepts a configuration exactly when every certificate has
    an RSA or ECDSA key and DER bytes that are not empty (and parse, when no
    parsed form is given), and then hands all of them on in order. *)
Theorem clientCerts_accepts c out :
  clientCerts c = Ok out <->
  Forall cert_usable (cfg_Certificates c) /\ out = map toClientCert (cfg_Certificates c).
Proof. apply clientCerts_spec. Qed.

(** C30. Dialling gives a verified connection or none: on success the connection is
    past its handshake and open, and with verification on its name, taken from
    the configuration or the dialled address, is not empty; on a failure after
    the network connection was made that connection was closed. *)
Theorem dial_outcome ctx addr w cfg closeRes now r oc :
  dialBackend ctx addr (Ok w) cfg closeRes now = (r, oc) ->
  exists c, oc = Some c /\ config c = cfg /\
    match r with
    | Ok _ => ready c /\ transportCloses c = 0%nat /\
        (cfg_InsecureSkipVerify cfg = false -> effectiveName c <> [])
    | Err _ => transportCloses c = 1%nat
    | Crash _ => False
    end.
Proof.
  unfold dialBackend. set (c0 := if len (ServerNameOf cfg) =? 0 then _ else _).
  assert (H0 : cok c0 /\ handshakeDone c0 = false /\ config c0 = cfg /\ transportCloses c0 = 0%nat).
  { unfold c0. destruct (_ =? 0); [destruct (SplitHostPort addr)|];
      (split; [split; [done|done|vm_compute; split; congruence..]|done]). }
  destruct H0 as (Hl & Hd & Hcfg & Ht). intros Hrun.
  pose proof (connHandshake_wp c0 Hl) as H.
  assert (Hcl : wp (handshakeContext ctx)
    (fun _ c' => ready c' /\ config c' = cfg /\ transportCloses c' = 0%nat /\
       (cfg_InsecureSkipVerify cfg = false -> effectiveName c' <> []))
    (fun _ c' => config c' = cfg /\ transportCloses c' = 0%nat) c0).
  { assert (HQ : wp connHandshake
      (fun _ c' => ready c' /\ config c' = cfg /\ transportCloses c' = 0%nat /\
         (cfg_InsecureSkipVerify cfg = false -> effectiveName c' <> []))
      (fun _ c' => config c' = cfg /\ transportCloses c' = 0%nat) c0).
    { eapply wp_mono; [exact H| |].
      - intros _ c' (Hl' & (E1 & E2 & _ & _ & E5 & E6 & _) & Hrec & _ & Hsome).
        destruct (Hsome Hd) as (Hopen & _ & roots & certs & st & _ & _ & Hn & _).
        split; [split; [done|done|congruence]|]. split; [congruence|]. split; [congruence|].
        intros Hs. unfold effectiveName. rewrite E1, E5. apply Hn. now rewrite Hcfg.
      - intros e c' (_ & (E1 & _ & _ & _ & _ & E6 & _) & _). split; congruence. }
    destruct ctx as [interrupt|]; cbn [handshakeContext]; [|exact HQ].
    apply wp_bind, wp_errOf. eapply wp_mono; [exact HQ| |].
    - intros [] c' Hout. destruct interrupt; [apply wp_fail; naive_solver|exact Hout].
    - intros e c' Hout. destruct interrupt; exact Hout. }
  unfold wp in Hcl. destruct (handshakeContext ctx c0) as [[[]|e|k] c1]; [| |done];
    injection Hrun as <- <-.
  - destruct Hcl as (? & ? & ? & ?). exists c1. auto.
  - destruct Hcl as (? & Ht1). exists (cn_closeTransport c1). split; [done|]. split; [done|].
    cbn. now rewrite Ht1.
Qed.

End Proofs.
