(* ===== verification/ConnRun.v ===== *)
(** * A connection in use

    The run of [ClientRun] behind a [Conn]: handshake, three records of
    application data (one of them empty), close_notify; and a write and a close
    on the client's side. *)

From Stdlib Require Import ZArith Lia.
From stdpp Require Import base list strings gmap.
From S2P Require Import Prelude Errors Messages Primitives State Layer Protectors Suites KeyExchange Certs Client ClientProofs ClientRun Conn ConnProofs.

Open Scope Z_scope.

#[local] Existing Instance Toy.prims.
#[local] Existing Instance Toy.laws.
#[local] Existing Instance ToyKex.kex.
#[local] Existing Instance ToyKex.kexLaws.

(** Every byte is a PEM block of one certificate. *)
#[local] Instance toyPEM : PEM := {|
  appendCertsFromPEM b := (map (fun x => {| Raw := [x]; PublicKeyOf := RSAPub [x] |}) b,
                           negb (len b =? 0));
  pemDecode b := match b with [] => None | x :: rest => Some ("CERTIFICATE"%string, rest) end
|}.

#[local] Instance toyPEMLaws : PEMLaws toyPEM.
Proof. split. intros [|x b] t rest [= <- <-]. cbn. lia. Qed.

Definition runConfig : Config :=
  {| cfg_RootCAs := None; RootCAPEMs := []; cfg_GOSTRoots := None; cfg_GOSTIntermediates := None;
     cfg_Certificates := [{| cert_Certificate := None; cert_RawCertificate := [Byte.x77];
                             cert_PrivateKey := RSAPriv [Byte.x78] |}];
     ServerNameOf := []; CipherSuites := Some [0xC02F; 0x009C];
     cfg_InsecureSkipVerify := false; cfg_VerifyPeerCertificate := None; Rand := None |}.

(** The server's records after its Finished. *)
Definition runData : list (Z * bytes) :=
  [(23, strBytes "hello"); (23, []); (23, strBytes " world"); (21, EncodeAlert 1 0)].

Definition runFlight3 : bytes :=
  tx (rw (snd (writeAll runData (snd (runFinish (NewLayer (runWorld []))))))).

Definition runInput : bytes := Eval vm_compute in runFlight1 ++ runFlight3.

(** The connection as [dialBackend] makes it for [example.org:443]. *)
Definition theConn : Conn :=
  cn_set_dialName (strBytes "example.org") (newConn (runWorld runInput) (Some runConfig) None 0).

Lemma theConn_ok : layer_ok (cn_layer theConn).
Proof. split; [done|done|vm_compute; split; congruence..]. Qed.

Lemma theConn_Ok : fst (connHandshake theConn) = Ok tt.
Proof. vm_compute. reflexivity. Qed.

Definition openConn : Conn := snd (connHandshake theConn).

Lemma theConn_run : connHandshake theConn = (Ok tt, openConn).
Proof. unfold openConn. rewrite <- theConn_Ok. apply surjective_pairing. Qed.

Lemma openConn_ready : ready openConn.
Proof.
  pose proof (wp_Ok _ _ _ _ _ _ theConn_run (connHandshake_wp theConn theConn_ok))
    as (H1 & (_ & H2 & _) & H3 & _).
  split; [exact H1|exact H3|rewrite H2; reflexivity].
Qed.

(** ** Witnesses *)

Lemma conn_handshake_once_witness : connHandshake openConn = (Ok tt, openConn).
Proof. exact (proj1 (conn_handshake_once theConn (Ok tt) openConn theConn_ok theConn_run)). Defined.

(** The same run with a name and two PEM inputs configured, and another host dialled. *)
Definition namedConfig : Config :=
  {| cfg_RootCAs := None; RootCAPEMs := [[Byte.x11]; [Byte.x12; Byte.x13]];
     cfg_GOSTRoots := None; cfg_GOSTIntermediates := None;
     cfg_Certificates := cfg_Certificates runConfig; ServerNameOf := strBytes "example.org";
     CipherSuites := CipherSuites runConfig; cfg_InsecureSkipVerify := false;
     cfg_VerifyPeerCertificate := None; Rand := None |}.

Definition namedConn : Conn :=
  cn_set_dialName (strBytes "192.0.2.1") (newConn (runWorld runInput) (Some namedConfig) None 0).

Lemma namedConn_ok : layer_ok (cn_layer namedConn).
Proof. split; [done|done|vm_compute; split; congruence..]. Qed.

Lemma namedConn_run : connHandshake namedConn = (Ok tt, snd (connHandshake namedConn)).
Proof.
  assert (E : fst (connHandshake namedConn) = Ok tt) by (vm_compute; reflexivity).
  rewrite <- E. apply surjective_pairing.
Qed.

Lemma conn_verifies_name_witness :
  (exists sf received chains,
    x509Verify (Stdlib (sf_gc sf))
      {| Roots := None; Intermediates := received; DNSName := strBytes "example.org";
         CurrentTime := 0 |} = Some chains) /\
  exists sf received chains,
    x509Verify (Stdlib (sf_gc sf))
      {| Roots := Some (map (fun x => {| Raw := [x]; PublicKeyOf := RSAPub [x] |})
                          [Byte.x11; Byte.x12; Byte.x13]);
         Intermediates := received; DNSName := strBytes "example.org";
         CurrentTime := 0 |} = Some chains.
Proof.
  split.
  - destruct (conn_verifies_name theConn openConn theConn_ok eq_refl eq_refl theConn_run)
      as (name & roots & certs & sf & raw & rest & _ & Hn & Hr & _ & _ & Hp & H).
    injection Hp as Hgc. rewrite <- Hgc in H. cbn in H. destruct H as (rcv & ch & _ & Hv).
    destruct Hn as [[[] _]|[_ ->]]; [reflexivity|]. cbn in Hr. subst roots.
    exists sf, rcv, ch. rewrite <- Hgc. exact Hv.
  - destruct (conn_verifies_name namedConn (snd (connHandshake namedConn)) namedConn_ok eq_refl eq_refl
      namedConn_run) as (name & roots & certs & sf & raw & rest & _ & Hn & Hr & _ & _ & Hp & H).
    injection Hp as Hgc. rewrite <- Hgc in H. cbn in H. destruct H as (rcv & ch & _ & Hv).
    destruct Hn as [[_ ->]|[Hn _]]; [|discriminate Hn]. destruct Hr as [_ ->].
    exists sf, rcv, ch. rewrite <- Hgc. exact Hv.
Defined.

Lemma conn_read_stream_witness :
  fst (readMany [3; 100; 100] openConn) = Ok [strBytes "hel"; strBytes "lo"; strBytes " world"] /\
  exists ps, app_reads (cn_layer openConn) ps (cn_layer (snd (readMany [3; 100; 100] openConn))).
Proof.
  assert (E : fst (readMany [3; 100; 100] openConn)
    = Ok [strBytes "hel"; strBytes "lo"; strBytes " world"]) by (vm_compute; reflexivity).
  split; [exact E|].
  destruct (conn_read_stream [3; 100; 100] openConn
    [strBytes "hel"; strBytes "lo"; strBytes " world"] (snd (readMany [3; 100; 100] openConn)))
    as (_ & _ & ps & H & _).
  - exact openConn_ready.
  - repeat constructor; vm_compute; congruence.
  - rewrite <- E. apply surjective_pairing.
  - exists ps. exact H.
Defined.

(** After the close_notify every read is at the end of the file. *)
Definition drainedConn : Conn := snd (readMany [100; 100] openConn).

Lemma drainedConn_ok : layer_ok (cn_layer drainedConn).
Proof.
  assert (E : readMany [100; 100] openConn
    = (Ok [strBytes "hello"; strBytes " world"], drainedConn)).
  { assert (F : fst (readMany [100; 100] openConn) = Ok [strBytes "hello"; strBytes " world"])
      by (vm_compute; reflexivity).
    rewrite <- F. apply surjective_pairing. }
  apply readMany_stream in E as ([H _ _] & _).
  - exact H.
  - exact openConn_ready.
  - repeat constructor; vm_compute; congruence.
Qed.

Lemma conn_read_sticky_witness :
  fst (connRead 10 drainedConn) = Err EOF /\
  connRead 7 (snd (connRead 10 drainedConn)) = (Err EOF, snd (connRead 10 drainedConn)).
Proof.
  assert (E : fst (connRead 10 drainedConn) = Err EOF) by (vm_compute; reflexivity).
  split; [exact E|]. refine (proj1 (conn_read_sticky 10 drainedConn EOF (snd (connRead 10 drainedConn)) _ _ _ 7 [])).
  - exact drainedConn_ok.
  - lia.
  - rewrite <- E. apply surjective_pairing.
Defined.

Lemma conn_total_witness :
  conn_inv (snd (connClose false openConn)) /\
  transportCloses (snd (connClose false openConn)) = 1%nat /\
  safe (fst (connRead 5 (snd (connClose false openConn)))).
Proof.
  assert (Hs : rtc conn_step theConn (snd (connClose false openConn))).
  { eapply rtc_l; [exact (step_handshake _ _ _ theConn_run)|]. apply rtc_once.
    eapply step_close. apply surjective_pairing. }
  destruct (conn_total _ _ _ _ _ _ Hs) as [Hi H].
  split; [exact Hi|]. split; [vm_compute; reflexivity|].
  exact (proj1 (H 5 [] false ltac:(lia))).
Defined.

Lemma conn_write_delivers_witness :
  exists wire chunks, concat chunks = strBytes "ping" /\
    tx (rw (cn_layer (snd (connWrite (strBytes "ping") openConn))))
    = tx (rw (cn_layer openConn)) ++ wire.
Proof.
  destruct (conn_write_delivers (strBytes "ping") openConn 4 (snd (connWrite (strBytes "ping") openConn)))
    as (_ & wire & chunks & H1 & H2 & _).
  - exact openConn_ready.
  - assert (E : fst (connWrite (strBytes "ping") openConn) = Ok (4, None))
      by (vm_compute; reflexivity).
    rewrite <- E. apply surjective_pairing.
  - exists wire, chunks. split; [exact H2|exact H1].
Defined.

(** A transport whose next write fails. *)
Definition breakConn (c : Conn) : Conn :=
  let l := cn_layer c in
  cn_set_layer (set_rw (set_tx (tx (rw l)) [Some (2%nat, ErrTransport 7)] (rw l)) l) c.

Lemma breakConn_ready c : ready c -> ready (breakConn c).
Proof. intros [[H1 H2 H3 H4] H5 H6]. split; [split; assumption|exact H5|exact H6]. Qed.

Definition brokenConn : Conn := breakConn openConn.

Lemma brokenConn_ready : ready brokenConn.
Proof. apply breakConn_ready, openConn_ready. Qed.

Lemma conn_write_prefix_witness :
  fst (connWrite (strBytes "ping") brokenConn) = Ok (0, Some (ErrTransport 7)) /\
  0 < len (strBytes "ping").
Proof.
  assert (E : fst (connWrite (strBytes "ping") brokenConn) = Ok (0, Some (ErrTransport 7)))
    by (vm_compute; reflexivity).
  split; [exact E|].
  apply (conn_write_prefix (strBytes "ping") brokenConn 0 (ErrTransport 7)
    (snd (connWrite (strBytes "ping") brokenConn))).
  - exact brokenConn_ready.
  - rewrite <- E. apply surjective_pairing.
Defined.

Lemma conn_close_final_witness :
  connRead 9 (snd (connClose false openConn)) = (Err errConnClosed, snd (connClose false openConn)) /\
  transportCloses (snd (connClose false openConn)) = 1%nat.
Proof.
  destruct (conn_close_final false true 9 [] openConn None (snd (connClose false openConn)))
    as (_ & H1 & _ & _ & H2).
  - apply openConn_ready.
  - vm_compute. reflexivity.
  - assert (E : fst (connClose false openConn) = Ok None) by (vm_compute; reflexivity).
    rewrite <- E. apply surjective_pairing.
  - split; [exact (proj1 (H2 (rd_handshake _ openConn_ready)))|exact H1].
Defined.

Lemma dial_outcome_witness :
  match dialBackend (Some None) (strBytes "example.org:443") (Ok (runWorld runInput)) runConfig None 0 with
  | (Ok _, Some c) => ready c
  | _ => False
  end.
Proof.
  assert (E : fst (dialBackend (Some None) (strBytes "example.org:443") (Ok (runWorld runInput))
                     runConfig None 0) = Ok tt) by (vm_compute; reflexivity).
  destruct (dialBackend (Some None) (strBytes "example.org:443") (Ok (runWorld runInput))
              runConfig None 0) as [r oc] eqn:D.
  destruct (dial_outcome _ _ _ _ _ _ _ _ D) as (c & -> & _ & H).
  cbn [fst] in E. subst r. exact (proj1 H).
Defined.
