(* ===== verification/Agreement.v ===== *)
(** * The two ends of a connection

    [KexServer] has the server's side of the key exchanges; here it is put at the other
    end of a handshake.  A server that holds the secret of what it sent derives the
    client's master secret and both protectors from the ClientKeyExchange, and with
    them it reads everything the client sends, from the ClientHello to the last record
    of application data.  The protector the client reads the server's records with is
    the server's own, so the round trip of [Layer] covers the other direction. *)

From Stdlib Require Import ZArith Lia.
From stdpp Require Import base list strings gmap.
From S2P Require Import Prelude Errors Asn1 KeyTransport Wire Extensions Messages Primitives Transcript State Layer Protectors Suites KeySetup KeyExchange KexServer Certs Client ClientProofs Conn ConnProofs.

Open Scope Z_scope.

Section Agreement.
Context {C : Primitives} {CL : PrimitiveLaws C} {K : KexLib} {KL : KexLaws K} {X : X509}
  {PM : PEM} {PML : PEMLaws PM} {L : ServerLib} {SL : ServerLaws L}.

(** ** The server *)

(** The GOST key of the certificate is that of the holder of [k]. *)
Definition gost_holds (gc : gostCertificate) (k : serverKey) : Prop :=
  exists curve, gostCurveByOID (CurveOID gc) = Some curve /\ gost_certified k curve (PubKeyRaw gc).

(** [k] is the secret of what the server sent: of its ServerKeyExchange, or of its
    certificate. *)
Definition server_holds (s : Suite) (sf : server_flight) (k : serverKey) : Prop :=
  sends_params k (sf_params sf) /\
  match KX s, k with
  | KexECDHE, SKECDHE _ _ _ | KexDHE, SKDHE _ _ _ => True
  | KexRSA, SKRSA _ =>
      exists pub, PublicKeyOf (Stdlib (sf_gc sf)) = RSAPub pub /\ rsa_certified k pub
  | KexGOST2001, SKGost2001 _ _ | KexGOST2012_256, SKGost2012 _ _ => gost_holds (sf_gc sf) k
  | KexGOST2018_256, SKGost2018 _ _ v => gost_holds (sf_gc sf) k /\ variantOf s = Some v
  | _, _ => False
  end.

(** Its master secret, and the protectors of the client's and of its own records, from
    the body of the ClientKeyExchange. *)
Definition serverSecrets (s : Suite) (k : serverKey) (cr sr cke : bytes)
  : result (bytes * AnyProtector * AnyProtector) :=
  let* pm := serverPreMaster k cr sr cke in
  let* ms := MasterSecret s pm cr sr in
  let* km := KeyExpansion s ms cr sr in
  let* readP := buildProtector s (ClientEncKey km) (ClientMACKey km) (ClientIV km) in
  let* writeP := buildProtector s (ServerEncKey km) (ServerMACKey km) (ServerIV km) in
  Ok (ms, readP, writeP).

(** ** The key exchange of the handshake *)

Lemma gostLeaf_is sf gc : gostLeafOf sf = Some gc -> sf_gc sf = gc.
Proof. unfold gostLeafOf. destruct (HasGOSTPubKey _); congruence. Qed.

Lemma NewVKOGost2001Exchange_paired curve a p u r v r' :
  len u = 8 -> NewVKOGost2001Exchange (Some curve) a p u r = (Ok v, r') ->
  vko_curve v = curve /\ vko_pubRaw v = p /\ len (vko_ukm v) = 8 /\
  gostPublicKeyRaw (vko_curve v) (vko_prvRaw v) = Some (vko_ephemPubRaw v).
Proof.
  intros Hu. unfold NewVKOGost2001Exchange, vkoUKMMinLen. intros H. run_inv.
  apply drawSys_inv in Hr as (t & t' & Hg). apply slice_Ok in Hr0 as (_ & _ & _ & Hl & _).
  split; [done|]. split; [done|]. split; [cbn; lia|]. now apply generated_public in Hg.
Qed.

Lemma NewVKOGost2012_256Exchange_paired curve a p u r v r' :
  len u = 8 -> NewVKOGost2012_256Exchange (Some curve) a p u r = (Ok v, r') ->
  vko_curve v = curve /\ vko_pubRaw v = p /\ len (vko_ukm v) = 8 /\
  gostPublicKeyRaw (vko_curve v) (vko_prvRaw v) = Some (vko_ephemPubRaw v).
Proof.
  intros Hu. unfold NewVKOGost2012_256Exchange, vkoUKMMinLen. intros H. run_inv.
  apply drawSys_inv in Hr as (t & t' & Hg). apply slice_Ok in Hr0 as (_ & _ & _ & Hl & _).
  split; [done|]. split; [done|]. split; [cbn; lia|]. now apply generated_public in Hg.
Qed.

(** The exchange the client built is one with the holder of the secret. *)
Lemma exchange_paired s sf k cr sr e :
  server_holds s sf k -> len cr = 32 -> len sr = 32 ->
  exchange_for s (Stdlib (sf_gc sf)) (gostLeafOf sf) cr sr e ->
  paired e k cr sr (sf_params sf).
Proof.
  intros [Hs Hk] Hcr Hsr He. split; [exact Hs|]. unfold exchange_for in He.
  assert (Hu : len (take 8 cr) = 8) by (rewrite len_take; lia).
  destruct (KX s), k; try done; try (now subst e).
  - destruct He as (pub & Hp & ->). destruct Hk as (pub' & Hp' & Hk). congruence.
  - destruct He as (gc & crv & w & r & r' & Hl%gostLeaf_is & Hc & Hv & ->).
    destruct Hk as (crv' & Hc' & Hk). rewrite Hl in *. rewrite Hc in Hc'. injection Hc' as <-.
    apply NewVKOGost2001Exchange_paired in Hv as (E1 & E2 & Hv); [|done]. now rewrite E1, E2 in *.
  - destruct He as (gc & crv & w & r & r' & Hl%gostLeaf_is & Hc & Hv & ->).
    destruct Hk as (crv' & Hc' & Hk). rewrite Hl in *. rewrite Hc in Hc'. injection Hc' as <-.
    apply NewVKOGost2012_256Exchange_paired in Hv as (E1 & E2 & Hv); [|done]. now rewrite E1, E2 in *.
  - destruct He as (gc & crv & w & g & Hl%gostLeaf_is & Hc & Hw & Hg & ->).
    destruct Hk as [(crv' & Hc' & Hk) Hv]. rewrite Hl in *. rewrite Hc in Hc'. injection Hc' as <-.
    apply NewGost2018Exchange_Ok in Hg as [Hok (c0 & [= <-] & -> & Hr)]. cbn in *.
    rewrite Hw in Hv. injection Hv as <-. done.
Qed.

(** The client's secrets are the server's. *)
Lemma secrets_agree s sf k cr cke ms sendP recvP :
  server_holds s sf k -> len cr = 32 -> len (sh_Random (sf_sh sf)) = 32 -> len cke < 2 ^ 24 ->
  secrets s cr sf cke ms sendP recvP ->
  serverSecrets s k cr (sh_Random (sf_sh sf)) cke = Ok (ms, sendP, recvP).
Proof.
  intros Hk Hcr Hsr Hn (e & r0 & r & pm & He & Hx & Hms & (km & Hkm & Hs & Hr) & _).
  pose proof (kex_recovers _ _ _ _ _ _ _ _ _ (exchange_paired _ _ _ _ _ _ Hk Hcr Hsr He) Hx Hn) as Hpm.
  unfold serverSecrets. rewrite Hpm. cbn [bind]. rewrite Hms. cbn [bind]. rewrite Hkm. cbn [bind].
  rewrite Hs. cbn [bind]. rewrite Hr. reflexivity.
Qed.

(** ** The records of the session *)

Lemma keys_from_ok s ms cr sr sendP recvP :
  s ∈ allSuites -> len cr = 32 -> len sr = 32 -> keys_from s ms cr sr sendP recvP ->
  any_ok sendP /\ any_ok recvP.
Proof.
  intros Hs Hc Hr (km & E1 & E2 & E3).
  destruct (suite_protectors s ms cr sr Hs Hc Hr) as (km' & sp & rp & _ & F1 & F2 & F3 & O1 & O2 & _).
  rewrite E1 in F1. injection F1 as <-. rewrite E2 in F2. injection F2 as <-.
  rewrite E3 in F3. injection F3 as <-. done.
Qed.

(** What goes over the wire before the keys change, and the client's Finished. *)
Definition plainRecords (hello : bytes) (f : client_flight) : list (Z * bytes) :=
  hsRecords (hello :: beforeFinished f) ++ [(ContentTypeChangeCipherSpec, [Byte.x01])].

Definition finishedRecord (f : client_flight) : Z * bytes :=
  (ContentTypeHandshake, MarshalMessage (MFinished (f_finished f))).

(** The facts of a completed handshake, with the bounds its parts need. *)
Lemma handshake_facts c c' s cr sf cke ms sendP recvP f :
  handshake_done c c' s cr sf cke ms sendP recvP f ->
  len cr = 32 /\ len (sh_Random (sf_sh sf)) = 32 /\ len cke < 2 ^ 24 /\
  any_ok sendP /\ any_ok recvP.
Proof.
  intros [Hcr Hsrv Hsec _ [Hcke Hn] _ _ _ _ _ _ _]. destruct Hsrv as [Hsh Hacc _ _ _ _ _].
  pose proof (parseServerHello_random _ _ Hsh) as Hsr. split; [done|]. split; [done|]. split.
  - rewrite Hcke, MarshalMessage_eq in Hn. unfold tlsMaxPlaintextLen in Hn. cbn [Marshal] in Hn.
    rewrite ?len_cons, ?len_app in Hn. len_pose. lia.
  - destruct Hsec as (e & r0 & r & pm & _ & _ & _ & Hk & _).
    eapply keys_from_ok; [apply (sa_registered _ _ _ Hacc)|exact Hcr|exact Hsr|exact Hk].
Qed.

(** The client's whole stream, up to the records [rs] written after the handshake. *)
Lemma client_stream c c' s cr sf cke ms sendP recvP f rs l' :
  handshake_done c c' s cr sf cke ms sendP recvP f -> writeAll rs (c_layer c') = (Ok tt, l') ->
  exists l1, delivered (c_layer c) (plainRecords (helloEnv c cr) f) l1 /\
    delivered (ChangeCipherSpec (Some sendP) None l1) (finishedRecord f :: rs) l'.
Proof.
  intros Hd Hw. destruct (handshake_facts _ _ _ _ _ _ _ _ _ _ Hd) as (_ & _ & _ & Hsp & Hrp).
  destruct (hd_switch _ _ _ _ _ _ _ _ _ _ Hd) as (l0 & l1 & l2 & Hd0 & Hl0 & Hccs & Hfin & _ & Hsf).
  assert (Hl1 : layer_ok l1) by (pose proof (WriteRecord_ok ContentTypeChangeCipherSpec [Byte.x01] l0 Hl0) as H; now rewrite Hccs in H).
  assert (Hlc : layer_ok (ChangeCipherSpec (Some sendP) None l1))
    by (apply layer_ok_CCS; [done|now intros ? [= <-]|done]).
  exists l1. split; [eapply delivered_app; [exact Hd0|now apply delivered_write]|].
  change (finishedRecord f :: rs) with ([finishedRecord f] ++ rs).
  eapply delivered_app; [eapply delivered_ext; [reflexivity| |now apply delivered_write, Hfin]|].
  2:{ apply writeAll_delivered, Hw. apply (hd_layer _ _ _ _ _ _ _ _ _ _ Hd). }
  assert (Hl2 : layer_ok l2).
  { pose proof (WriteRecord_ok ContentTypeHandshake (MarshalMessage (MFinished (f_finished f))) _ Hlc) as H.
    now rewrite Hfin in H. }
  destruct Hsf as (l3 & ps & Hr & Hps & _).
  pose proof (ReadRecord_ok l2 Hl2) as H. rewrite Hr in H. destruct H as (_ & Hl3 & [= V1 V2 V3 _ _]).
  apply hs_reads_view in Hps as [_ ->]; [|apply layer_ok_CCS; [done|done|now intros ? [= <-]]].
  unfold send_view. cbn. now rewrite V1, V2, V3.
Qed.

(** A server at the other end of the stream reads the messages of the client in the
    clear, derives its keys from the ClientKeyExchange, and reads the rest. *)
Definition server_reads (c c' : ClientState) (s : Suite) (sf : server_flight) (f : client_flight)
  (cke : bytes) (rs : list (Z * bytes)) (wire : bytes) : Prop :=
  let plain := plainRecords (helloEnv c (clientRandom c')) f in
  forall k (server : Layer AnyProtector) rest,
    server_holds s sf k ->
    recvProt server = sendProt (c_layer c) -> recvSeq server = sendSeq (c_layer c) ->
    rx (rw server) = wire ++ rest ->
    exists readP writeP s1 s2,
      readAll (length plain) server = (Ok plain, s1) /\
      serverSecrets s k (clientRandom c') (serverRandom c') cke
      = Ok (c_masterSecret c', readP, writeP) /\
      readAll (S (length rs)) (ChangeCipherSpec None (Some readP) s1)
      = (Ok (finishedRecord f :: rs), s2) /\
      rx (rw s2) = rest.

Lemma session_server_reads c c' s cr sf cke ms sendP recvP f rs l' :
  handshake_done c c' s cr sf cke ms sendP recvP f -> writeAll rs (c_layer c') = (Ok tt, l') ->
  exists wire, tx (rw l') = tx (rw (c_layer c)) ++ wire /\ server_reads c c' s sf f cke rs wire.
Proof.
  intros Hd Hw. destruct (client_stream _ _ _ _ _ _ _ _ _ _ _ _ Hd Hw) as (l1 & (w1 & T1 & R1) & (w2 & T2 & R2)).
  destruct (handshake_facts _ _ _ _ _ _ _ _ _ _ Hd) as (Hcr & Hsr & Hn & _).
  destruct (hd_final _ _ _ _ _ _ _ _ _ _ Hd) as (_ & _ & Ems & Ecr & Esr).
  exists (w1 ++ w2). split; [rewrite T2; cbn; rewrite T1; now rewrite app_assoc|].
  unfold server_reads. cbv zeta. rewrite Ecr, Esr, Ems.
  intros k server rest Hk HP HS Hrx. rewrite <- app_assoc in Hrx.
  destruct (R1 server (w2 ++ rest) HP HS Hrx) as (s1 & A1 & X1 & _ & _).
  destruct (R2 (ChangeCipherSpec None (Some sendP) s1) rest) as (s2 & A2 & X2 & _ & _);
    [reflexivity|reflexivity|exact X1|].
  exists sendP, recvP, s1, s2. split; [exact A1|].
  split; [|done]. eapply secrets_agree; eauto using hd_secrets.
Qed.

(** * Properties *)

(** C4. Both ends of a completed handshake agree: a server that holds the secret of
    what it sent (of its ServerKeyExchange, or of its certificate) derives from the
    ClientKeyExchange the client's master secret and the protectors of both
    directions, those the client's Finished was sealed and the server's was opened
    with; and the Finished it computes over its own view of the messages is the one
    the client sent. *)
Theorem Handshake_agreement c c' :
  fresh c -> Handshake c = (Ok tt, c') ->
  exists s sf f cke sendP recvP,
    let hello := helloEnv c (clientRandom c') in
    let t := foldl Write NewTranscript (hello :: serverMsgs sf) in
    c_suite c' = Some s /\ server_sent c sf /\
    server_checked (c_params c) (c_now c) (clientRandom c') s sf /\
    c_transcript c' = foldl Write t (wholeFlight f) /\
    f_cke f = MarshalMessage (MClientKeyExchange cke) /\
    key_switch s (c_masterSecret c') sendP recvP t (c_layer c) [hello] f (c_layer c') /\
    forall k, server_holds s sf k ->
      serverSecrets s k (clientRandom c') (serverRandom c') cke
      = Ok (c_masterSecret c', sendP, recvP) /\
      FinishedVerifyData s (c_masterSecret c') "client finished"
        (digest (prf_Hash (suite_PRF s)) (concat (hello :: serverMsgs sf ++ beforeFinished f)))
      = Ok (f_finished f).
Proof.
  intros Hf Hr. destruct (Handshake_done c c' Hf Hr) as (s & cr & sf & cke & ms & sp & rp & f & Hd).
  destruct (handshake_facts _ _ _ _ _ _ _ _ _ _ Hd) as (Hcr & Hsr & Hn & _).
  destruct (hd_final _ _ _ _ _ _ _ _ _ _ Hd) as (_ & Es & -> & -> & ->).
  exists s, sf, f, cke, sp, rp. cbv zeta. split; [done|].
  split; [apply (hd_read _ _ _ _ _ _ _ _ _ _ Hd)|].
  split; [apply (hd_server _ _ _ _ _ _ _ _ _ _ Hd)|].
  split; [rewrite <- foldl_app; apply (hd_transcript _ _ _ _ _ _ _ _ _ _ Hd)|].
  split; [apply (proj1 (hd_cke _ _ _ _ _ _ _ _ _ _ Hd))|].
  split; [apply (hd_switch _ _ _ _ _ _ _ _ _ _ Hd)|].
  intros k Hk. split; [eapply secrets_agree; eauto using hd_secrets|].
  destruct (hd_switch _ _ _ _ _ _ _ _ _ _ Hd) as (k0 & k1 & k2 & _ & _ & _ & _ & Hc & _).
  rewrite <- foldl_app in Hc. apply verify_data_writes, Hc.
Qed.

(** C5. Data written by the application reaches the server: after [Conn.Handshake] and
    a [Conn.Write] of [b] without an error, the bytes the connection has put on the
    transport are a stream from which a server that holds the secret of what it sent
    reads, in order, the client's handshake messages and its ChangeCipherSpec, then,
    under the keys it derives from the ClientKeyExchange, the client's Finished and
    application data that is [b], and nothing else. *)
Theorem conn_session b c c1 n c2 :
  layer_ok (cn_layer c) -> handshakeDone c = false ->
  connHandshake c = (Ok tt, c1) -> connWrite b c1 = (Ok (n, None), c2) ->
  exists roots certs st s sf f cke chunks wire,
    let st0 := clientStart c roots certs in
    Handshake st0 = (Ok tt, st) /\ cn_layer c1 = c_layer st /\
    c_suite st = Some s /\ server_sent st0 sf /\
    server_checked (c_params st0) (c_now st0) (clientRandom st) s sf /\
    f_cke f = MarshalMessage (MClientKeyExchange cke) /\
    concat chunks = b /\
    tx (rw (cn_layer c2)) = tx (rw (cn_layer c)) ++ wire /\
    server_reads st0 st s sf f cke (appRecords chunks) wire.
Proof.
  intros Hl Hd0 Hh Hw.
  destruct (wp_Ok _ _ _ _ _ _ Hh (connHandshake_wp c Hl)) as (Hl1 & Hsame & Hrec & _ & Hnew).
  destruct (Hnew Hd0) as (Hcl & _ & (roots & certs & st & _ & _ & _ & Hst & El)).
  assert (Hready : ready c1) by (destruct Hsame as (_ & Hc & _); split; [done|done|congruence]).
  destruct (wp_Ok _ _ _ _ _ _ Hw (connWrite_ready b c1 Hready)) as (_ & chunks & rest & l & E & _ & _ & Hwa & -> & ->).
  rewrite app_nil_r in E.
  destruct (Handshake_done _ _ (NewClientState_fresh _ _ _ _ Hl) Hst)
    as (s & cr & sf & cke & ms & sp & rp & f & Hd).
  rewrite El in Hwa. destruct (session_server_reads _ _ _ _ _ _ _ _ _ _ _ _ Hd Hwa) as (wire & Htx & Hsr).
  exists roots, certs, st, s, sf, f, cke, chunks, wire. cbv zeta.
  destruct (hd_final _ _ _ _ _ _ _ _ _ _ Hd) as (_ & Es & _ & Ecr & _). rewrite Ecr.
  split; [exact Hst|]. split; [exact El|]. split; [exact Es|].
  split; [apply (hd_read _ _ _ _ _ _ _ _ _ _ Hd)|].
  split; [apply (hd_server _ _ _ _ _ _ _ _ _ _ Hd)|].
  split; [apply (proj1 (hd_cke _ _ _ _ _ _ _ _ _ _ Hd))|]. split; [done|]. split; [exact Htx|exact Hsr].
Qed.

End Agreement.
