(* ===== verification/AgreementRun.v ===== *)
(** * A session with both ends

    A run on concrete primitives: a server with a GOST R 34.10-2012 certificate and a
    2018 suite, which takes its keys from the ClientKeyExchange in the bytes the client
    sent, and a client that writes to it after the handshake. *)

From Stdlib Require Import ZArith Lia.
From stdpp Require Import base list strings gmap.
From S2P Require Import Prelude Errors Asn1 KeyTransport Wire Extensions Messages Primitives Transcript State Layer Protectors Suites KeySetup KeyExchange KexServer Certs Client ClientProofs Conn ConnProofs Agreement.

Open Scope Z_scope.

#[local] Existing Instance Toy.prims.
#[local] Existing Instance Toy.laws.
#[local] Existing Instance ToyKex.kex.
#[local] Existing Instance ToyKex.kexLaws.
#[local] Existing Instance ToyServer.server.
#[local] Existing Instance ToyServer.serverLaws.

(** One certificate, with the public key of the server's private key [9]. *)
Definition gostCert : gostCertificate :=
  {| Stdlib := {| Raw := [Byte.x01]; PublicKeyOf := OtherPub [] |}; HasGOSTPubKey := true;
     IsGOST := true; CurveOID := [Byte.x01]; PubKeyRaw := ToyKex.gostPublic [Byte.x09];
     SPKIAlgorithmDER := testAlgorithm |}.

#[local] Instance gostX509 : X509 := {|
  x509ParseCertificate b := None;
  x509Verify c o := None;
  gostParseCertificate b := Some gostCert;
  gostVerify c o := if bool_decide (GDNSName o = strBytes "example.org") then Some [[c]] else None;
  rsaVerifyPKCS1v15 pub h d sig := false;
  ecdsaVerify pub d sigR sigS := false;
  rsaSignPKCS1v15 k h d t := None;
  ecdsaSignASN1 k d t := None
|}.

#[local] Instance noPEM : PEM := {| appendCertsFromPEM b := ([], false); pemDecode b := None |}.
#[local] Instance noPEMLaws : PEMLaws noPEM.
Proof. split. done. Qed.

Definition sessionConfig : Config :=
  {| cfg_RootCAs := None; RootCAPEMs := []; cfg_GOSTRoots := Some [gostCert]; cfg_GOSTIntermediates := None;
     cfg_Certificates := []; ServerNameOf := []; CipherSuites := Some [suiteGOSTMagma];
     cfg_InsecureSkipVerify := false; cfg_VerifyPeerCertificate := None; Rand := None |}.

Definition sessionWorld (incoming : bytes) : world :=
  {| rx := incoming; rxEnd := EOF; tx := []; wscript := []; rnd := repeat Byte.x5a 256 |}.

Definition sessionConn (incoming : bytes) : Conn :=
  cn_set_dialName (strBytes "example.org") (newConn (sessionWorld incoming) (Some sessionConfig) None 0).

(** ** The server *)

Definition sessionKey : serverKey := SKGost2018 [Byte.x01] [Byte.x09] Variant2018Magma.
Definition sessionRandom : bytes := repeat Byte.x33 32.

Definition sessionMsgs : list bytes :=
  [MarshalMessage (MServerHello {| sh_Version := 0x0303; sh_Random := sessionRandom; sh_SessionID := [];
      sh_CipherSuite := suiteGOSTMagma; sh_CompressionMethod := Byte.x00;
      sh_ExtendedMasterSecret := false; sh_RenegotiationInfo := true;
      sh_ExtensionTypes := [extRenegotiationInfo] |});
   MarshalMessage (MCertificate [[Byte.x01]]);
   MarshalMessage MServerHelloDone].

Definition sessionFlight : bytes :=
  let b := concat sessionMsgs in recordHeader 22 (len b) ++ b.

(** What the client has sent when it waits for the server's Finished: ClientHello,
    ClientKeyExchange, ChangeCipherSpec and Finished. *)
Definition sentByClient : bytes := tx (rw (cn_layer (snd (connHandshake (sessionConn sessionFlight))))).

(** The server reads that, derives its keys, checks the client's Finished and answers. *)
Definition serverAnswer : M (Layer AnyProtector) unit :=
  let! rs := readAll 3 in
  match rs, Lookup theRegistry suiteGOSTMagma with
  | [(_, hello); (_, cke); (_, ccs)], Some s =>
    let! cr := lift (slice hello 6 38) in
    let! body := lift (slice cke 4 (len cke)) in
    let! (ms, readP, writeP) := lift (serverSecrets s sessionKey cr sessionRandom body) in
    modify (ChangeCipherSpec None (Some readP)) ;;
    let! (_, fin) := ReadRecord in
    let th msgs := digest (prf_Hash (suite_PRF s)) (concat msgs) in
    let msgs := hello :: sessionMsgs ++ [cke] in
    let! cvd := lift (FinishedVerifyData s ms "client finished" (th msgs)) in
    if negb (bool_decide (fin = MarshalMessage (MFinished cvd))) then fail errFinishedMismatch
    else
      let! svd := lift (FinishedVerifyData s ms "server finished" (th (msgs ++ [fin]))) in
      WriteRecord ContentTypeChangeCipherSpec [Byte.x01] ;;
      modify (ChangeCipherSpec (Some writeP) None) ;;
      WriteRecord ContentTypeHandshake (MarshalMessage (MFinished svd))
  | _, _ => fail EOF
  end.

Definition serverEnd : result unit * Layer AnyProtector :=
  serverAnswer (NewLayer (sessionWorld sentByClient)).

Definition sessionInput : bytes := Eval vm_compute in sessionFlight ++ tx (rw (snd serverEnd)).

(** ** The session *)

Definition session : Conn := sessionConn sessionInput.
Definition sessionOpen : Conn := snd (connHandshake session).
Definition sessionData : bytes := strBytes "GET /".
Definition sessionWritten : Conn := snd (connWrite sessionData sessionOpen).

(** The server accepts the client's Finished, the client the server's. *)
Lemma session_runs :
  fst serverEnd = Ok tt /\ fst (connHandshake session) = Ok tt /\
  fst (connWrite sessionData sessionOpen) = Ok (5, None).
Proof. vm_compute. auto. Qed.

Lemma session_ok : layer_ok (cn_layer session).
Proof. split; [done|done|vm_compute; split; congruence..]. Qed.

Lemma session_open : connHandshake session = (Ok tt, sessionOpen).
Proof. unfold sessionOpen. rewrite <- (proj1 (proj2 session_runs)). apply surjective_pairing. Qed.

Lemma session_written : connWrite sessionData sessionOpen = (Ok (5, None), sessionWritten).
Proof. unfold sessionWritten. rewrite <- (proj2 (proj2 session_runs)). apply surjective_pairing. Qed.

(** The handshake of the session, by itself. *)
Definition sessionStart : ClientState := clientStart session None [].
Definition sessionDone : ClientState := snd (Handshake sessionStart).

Lemma sessionStart_fresh : fresh sessionStart.
Proof. apply NewClientState_fresh, session_ok. Qed.

Lemma sessionStart_done : Handshake sessionStart = (Ok tt, sessionDone).
Proof.
  assert (E : fst (Handshake sessionStart) = Ok tt) by (vm_compute; reflexivity).
  unfold sessionDone. rewrite <- E. apply surjective_pairing.
Qed.

(** The only suite the client offers is the one of [sessionKey], and the only
    certificate it accepts has the public key of [sessionKey]. *)
Lemma session_holds p now cr s sf :
  OfferedSuites p = [suiteGOSTMagma] -> server_checked p now cr s sf ->
  server_holds s sf sessionKey.
Proof.
  intros Ho [_ [_ Hid _ Hall _ _ _] _ [(raw & _ & Hgc) _] _ _ _]. rewrite Ho in Hid.
  apply list_elem_of_singleton in Hid. injection Hgc as Hgc.
  assert (Hs : forallb (fun s => negb (ID s =? suiteGOSTMagma) ||
    match KX s with KexGOST2018_256 => true | _ => false end) allSuites = true) by (vm_compute; reflexivity).
  rewrite forallb_forall in Hs. specialize (Hs s (proj1 (list_elem_of_In _ _) Hall)).
  rewrite Hid, Z.eqb_refl in Hs. split; [exact I|]. unfold sessionKey.
  destruct (KX s); try discriminate Hs. split; [|unfold variantOf; rewrite Hid; reflexivity].
  exists [Byte.x01]. rewrite <- Hgc. repeat split.
Qed.

(** ** Witnesses *)

Lemma Handshake_agreement_witness :
  exists s cke sendP recvP,
    c_suite sessionDone = Some s /\
    serverSecrets s sessionKey (clientRandom sessionDone) sessionRandom cke
    = Ok (c_masterSecret sessionDone, sendP, recvP).
Proof.
  destruct (Handshake_agreement sessionStart sessionDone sessionStart_fresh sessionStart_done)
    as (s & sf & f & cke & sp & rp & Hs & _ & Hc & _ & _ & _ & Hk).
  exists s, cke, sp, rp. split; [exact Hs|].
  assert (Hr : serverRandom sessionDone = sessionRandom) by (vm_compute; reflexivity).
  rewrite <- Hr. apply Hk. eapply session_holds; [|exact Hc]. reflexivity.
Defined.

(** From the bytes the client has sent, the server gets the application's data. *)
Lemma conn_session_witness :
  exists plain readP fin chunks s1 s2,
    concat chunks = sessionData /\
    readAll (length plain) (NewLayer (sessionWorld (tx (rw (cn_layer sessionWritten))))) = (Ok plain, s1) /\
    readAll (S (length chunks)) (ChangeCipherSpec None (Some readP) s1)
    = (Ok (fin :: appRecords chunks), s2) /\
    rx (rw s2) = [].
Proof.
  destruct (conn_session sessionData session sessionOpen 5 sessionWritten session_ok eq_refl
    session_open session_written)
    as (roots & certs & st & s & sf & f & cke & chunks & wire & H1 & _ & _ & _ & Hc & _ & Hd & Htx & Hr).
  destruct (Hr sessionKey (NewLayer (sessionWorld (tx (rw (cn_layer sessionWritten))))) [])
    as (readP & writeP & s1 & s2 & R1 & _ & R2 & R3).
  - eapply session_holds; [|exact Hc]. reflexivity.
  - reflexivity.
  - reflexivity.
  - rewrite app_nil_r. exact Htx.
  - eexists _, readP, _, chunks, s1, s2. split; [exact Hd|]. split; [exact R1|].
    split; [|exact R3]. unfold appRecords in R2 at 1. rewrite length_map in R2. exact R2.
Defined.
