(* ===== verification/Receive.v ===== *)
(** * What the server sends after the handshake

    The other direction of [Agreement]: a server writes its flight, its Finished,
    application data and close_notify; a connection whose handshake succeeds on those
    bytes returns that data from its reads, and then [io.EOF]. *)

From Stdlib Require Import ZArith Lia.
From stdpp Require Import base list strings gmap.
From S2P Require Import Prelude Errors Asn1 KeyTransport Wire Extensions Messages Primitives Transcript State Layer Protectors Suites KeySetup KeyExchange KexServer Certs Client ClientProofs Accept Conn ConnProofs Agreement.

Open Scope Z_scope.

Section Receive.
Context {C : Primitives} {CL : PrimitiveLaws C} {K : KexLib} {KL : KexLaws K} {X : X509}
  {PM : PEM} {PML : PEMLaws PM} {L : ServerLib} {SL : ServerLaws L}.

(** ** Reading to the end *)

Definition closeNotifyRecord : Z * bytes :=
  (ContentTypeAlert, EncodeAlert AlertLevelWarning AlertCloseNotify).

(** Reads of the sizes [ns], one after another, up to the first error: the data they
    returned and the error. *)
Fixpoint readToEnd (ns : list Z) (c : Conn) : list bytes * option error * Conn :=
  match ns with
  | [] => ([], None, c)
  | n :: ns =>
      match connRead n c with
      | (Ok d, c) => let '(ds, e, c) := readToEnd ns c in (d :: ds, e, c)
      | (Err e, c) => ([], Some e, c)
      | (Crash _, c) => ([], None, c)
      end
  end.

(** Records [chunks] of application data and then close_notify are to come. *)
Record incoming (c : Conn) (chunks : list bytes) : Prop := {
  in_ready : ready c;
  in_err : readErr c = None;
  in_chunks : Forall (fun p => p <> []) chunks;
  in_records : exists l l', app_reads (cn_layer c) chunks l /\ ReadRecord l = (Ok closeNotifyRecord, l')
}.

(** The data that is to come. *)
Definition toCome (c : Conn) (chunks : list bytes) : bytes := readBuf c ++ concat chunks.

Lemma connRead_start n c :
  ready c -> connRead n c =
  (if 0 <? len (readBuf c) then
    let k := Z.min n (len (readBuf c)) in
    let! d := lift (slice (readBuf c) 0 k) in
    let! rest := lift (slice (readBuf c) k (len (readBuf c))) in
    modify (cn_set_readBuf rest) ;;
    ret d
  else
    match readErr c with
    | Some e => fail e
    | None => readLoop (Z.to_nat (maxEmptyRecords + 2)) n 0
    end) c.
Proof.
  intros [_ Hh Ho]. unfold connRead. rewrite (bind_run _ _ _ _ _ (connHandshake_recorded None c Hh)).
  unfold bindM at 1. cbn [get]. now rewrite Ho.
Qed.

(** The three cases of a read: buffered data, a record of data, the end. *)
Lemma connRead_buffered n c chunks :
  incoming c chunks -> 0 < n -> readBuf c <> [] ->
  exists d rest, connRead n c = (Ok d, cn_set_readBuf rest c) /\ readBuf c = d ++ rest /\
    d <> [] /\ len d <= n.
Proof.
  intros [Hr _ _ _] Hn Hb. rewrite (connRead_start _ _ Hr).
  assert (0 < len (readBuf c)) by (destruct (readBuf c); [done|len_lia]).
  rewrite (proj2 (Z.ltb_lt _ _)) by done. cbv zeta. set (k := Z.min n (len (readBuf c))).
  rewrite slice_to, slice_from by (unfold k; lia).
  eexists _, _. split; [reflexivity|]. rewrite take_drop. split; [done|].
  assert (Hl : len (take (Z.to_nat k) (readBuf c)) = k) by (rewrite len_take, Z2Nat.id; unfold k; lia).
  split; [intros E; rewrite E, len_nil in Hl; lia|lia].
Qed.

Lemma connRead_record n c p chunks :
  incoming c (p :: chunks) -> 0 < n -> readBuf c = [] ->
  exists d rest l, connRead n c = (Ok d, cn_set_readBuf rest (cn_set_layer l c)) /\ p = d ++ rest /\
    d <> [] /\ len d <= n /\ ReadRecord (cn_layer c) = (Ok (ContentTypeApplicationData, p), l).
Proof.
  intros [Hr He Hp (l & l' & Ha & _)] Hn Hb. apply Forall_cons in Hp as [Hp _].
  inversion Ha as [|? ? l1 ? ? HR _]; subst. rewrite (connRead_start _ _ Hr), Hb, He.
  change (0 <? len []) with false. cbv iota.
  change (Z.to_nat (maxEmptyRecords + 2)) with 34%nat. cbn [readLoop].
  assert (0 < len p) by (destruct p; [done|len_lia]).
  set (k := Z.min n (len p)).
  assert (Hl : len (take (Z.to_nat k) p) = k) by (rewrite len_take, Z2Nat.id; unfold k; lia).
  assert (Ht : readTurn n 0 c = (Ok (Some (take (Z.to_nat k) p)),
                cn_set_readBuf (drop (Z.to_nat k) p) (cn_set_layer l1 c))).
  { unfold readTurn. rewrite (bind_run _ _ c (ContentTypeApplicationData, p) (cn_set_layer l1 c))
      by (unfold catch, onConnLayer, zoom; now rewrite HR).
    change (ContentTypeApplicationData =? ContentTypeApplicationData) with true. cbv iota zeta.
    rewrite (proj2 (Z.eqb_neq _ _)) by lia. fold k.
    rewrite slice_to by (unfold k; lia). rewrite (bindM_lift_Ok _ _ _ _ eq_refl).
    destruct (Z.ltb_spec k (len p)) as [Hk|Hk].
    - rewrite slice_from by (unfold k; lia). cbn. rewrite Hb. reflexivity.
    - rewrite drop_ge by (unfold len in Hk; lia). cbn. rewrite <- Hb. now destruct c. }
  rewrite (bind_run _ _ _ _ _ Ht). eexists _, _, l1. split; [reflexivity|].
  rewrite take_drop. split; [done|]. split; [|split; [lia|exact HR]].
  intros E. rewrite E, len_nil in Hl. lia.
Qed.

Lemma connRead_eof n c :
  incoming c [] -> readBuf c = [] -> exists c', connRead n c = (Err EOF, c').
Proof.
  intros [Hr He _ (l & l' & Ha & HR)] Hb. inversion Ha; subst. rewrite (connRead_start _ _ Hr), Hb, He.
  change (0 <? len []) with false. cbv iota.
  change (Z.to_nat (maxEmptyRecords + 2)) with 34%nat. cbn [readLoop].
  eexists. unfold bindM at 1, readTurn.
  rewrite (bind_run _ _ c closeNotifyRecord (cn_set_layer l' c))
    by (unfold catch, onConnLayer, zoom; now rewrite HR).
  reflexivity.
Qed.

(** One read of a stream that is not at its end. *)
Lemma connRead_incoming n c chunks :
  incoming c chunks -> 0 < n -> toCome c chunks <> [] ->
  exists d chunks' c', connRead n c = (Ok d, c') /\ d <> [] /\ len d <= n /\ incoming c' chunks' /\
    toCome c chunks = d ++ toCome c' chunks'.
Proof.
  intros Hi Hn Hne. unfold toCome in *. destruct (decide (readBuf c = [])) as [Hb|Hb].
  - rewrite Hb in Hne. destruct chunks as [|p chunks]; [done|].
    destruct (connRead_record _ _ _ _ Hi Hn Hb) as (d & rest & l & HR & -> & Hd & Hdn & HL).
    exists d, chunks, (cn_set_readBuf rest (cn_set_layer l c)).
    split; [done|]. split; [done|]. split; [done|]. split.
    + destruct Hi as [[Hl Hh Ho] He Hp (l1 & l2 & Ha & Hend)].
      pose proof (ReadRecord_ok (cn_layer c) Hl) as H. rewrite HL in H. destruct H as (_ & Hl1 & _).
      inversion Ha as [|? ? l3 ? ? HR' Ha']; subst. rewrite HL in HR'. injection HR' as <-.
      split; [split; [exact Hl1|exact Hh|exact Ho]|exact He|now apply Forall_cons in Hp|eauto].
    + rewrite Hb. cbn. now rewrite <- app_assoc.
  - destruct (connRead_buffered _ _ _ Hi Hn Hb) as (d & rest & HR & E & Hd & Hdn).
    exists d, chunks, (cn_set_readBuf rest c). split; [done|]. split; [done|]. split; [done|]. split.
    + destruct Hi as [[Hl Hh Ho] He Hp Hrec]. split; [split; [exact Hl|exact Hh|exact Ho]|done..].
    + rewrite E. cbn. now rewrite <- app_assoc.
Qed.

(** What reads of any sizes make of a stream [b]: a piece of it each, and, when there
    are more of them than bytes, all of it and the end. *)
Definition reads_stream (b : bytes) (c : Conn) : Prop :=
  forall ns, Forall (fun n => 0 < n) ns ->
    exists ds e c' rest, readToEnd ns c = (ds, e, c') /\ b = concat ds ++ rest /\
      Forall (fun d => d <> []) ds /\ Forall2 (fun d n => len d <= n) ds (take (length ds) ns) /\
      (e = None /\ length ds = length ns \/ e = Some EOF /\ rest = []) /\
      ((length b < length ns)%nat -> e = Some EOF).

(** Pieces that are not empty are at most as many as their bytes. *)
Lemma pieces_length (ds : list bytes) : Forall (fun d => d <> []) ds -> (length ds <= length (concat ds))%nat.
Proof.
  induction 1 as [|d ds Hd _ IH]; [done|]. cbn. rewrite length_app. destruct d; [done|]. cbn. lia.
Qed.

Lemma incoming_stream c chunks : incoming c chunks -> reads_stream (toCome c chunks) c.
Proof.
  intros Hi ns Hns. revert c chunks Hi. induction Hns as [|n ns Hn _ IH]; intros c chunks Hi.
  { eexists [], None, c, _. split; [reflexivity|]. split; [reflexivity|]. split; [constructor|].
    split; [constructor|]. split; [now left|cbn; lia]. }
  cbn [readToEnd]. destruct (decide (toCome c chunks = [])) as [E|Hne].
  - assert (chunks = [] /\ readBuf c = []) as [-> Hb].
    { unfold toCome in E. apply app_eq_nil in E as [Eb Ec]. split; [|done].
      destruct chunks as [|p chunks]; [done|]. cbn in Ec. apply app_eq_nil in Ec as [-> _].
      destruct Hi as [_ _ Hp _]. now apply Forall_cons in Hp as [Hp _]. }
    destruct (connRead_eof n c Hi Hb) as [c' ->]. rewrite E.
    eexists [], (Some EOF), c', []. split; [reflexivity|]. split; [done|]. split; [constructor|].
    split; [constructor|]. split; [now right|done].
  - destruct (connRead_incoming n c chunks Hi Hn Hne) as (d & chunks' & c' & -> & Hd & Hdn & Hi' & E).
    destruct (IH c' chunks' Hi') as (ds & e & c2 & rest & -> & E2 & Hds & Hle & Hend).
    assert (Eb : toCome c chunks = concat (d :: ds) ++ rest) by (rewrite E, E2; cbn; now rewrite app_assoc).
    assert (Hall : Forall (fun x => x <> []) (d :: ds)) by now constructor.
    exists (d :: ds), e, c2, rest. split; [done|]. split; [done|].
    split; [done|]. split; [cbn; now constructor|]. cbn [length].
    destruct Hend as [Hend _]. split; [destruct Hend as [[? ?]|?]; auto with lia|].
    destruct Hend as [[-> Hlen]|[-> _]]; [|done]. apply pieces_length in Hall.
    rewrite Eb, length_app. cbn [length] in *. lia.
Qed.

(** ** The records of both ends *)

(** The next records of [l] are [rs]. *)
Definition stream (l : Layer AnyProtector) (rs : list (Z * bytes)) (l' : Layer AnyProtector) : Prop :=
  readAll (length rs) l = (Ok rs, l').

Lemma stream_cons l r rs l' :
  stream l (r :: rs) l' -> exists l1, ReadRecord l = (Ok r, l1) /\ stream l1 rs l'.
Proof.
  unfold stream. cbn [length readAll]. intros H. apply bindM_Ok in H as (y & l1 & H1 & H).
  apply bindM_Ok in H as (ys & l2 & H2 & H). injection H as -> -> ->. eauto.
Qed.

Lemma stream_step l r rs l1 l' : ReadRecord l = (Ok r, l1) -> stream l1 rs l' -> stream l (r :: rs) l'.
Proof. unfold stream, bindM. cbn [length readAll]. unfold bindM. now intros -> ->. Qed.

Lemma stream_app l rs ss l' :
  stream l (rs ++ ss) l' -> exists l1, stream l rs l1 /\ stream l1 ss l'.
Proof.
  revert l. induction rs as [|r rs IH]; intros l H; [now exists l|].
  apply stream_cons in H as (l1 & H1 & (l2 & H2 & H3)%IH). eauto using stream_step.
Qed.

Lemma ReadRecord_keeps l r l' : layer_ok l -> ReadRecord l = (Ok r, l') -> layer_ok l'.
Proof. intros Hl HR. pose proof (ReadRecord_ok l Hl) as H. rewrite HR in H. apply H. Qed.

(** It depends on the receive side only. *)
Lemma stream_recv m rs m' l :
  layer_ok m -> recv_view l = recv_view m -> stream m rs m' -> exists l', stream l rs l'.
Proof.
  revert m l. induction rs as [|r rs IH]; intros m l Hm V H; [now exists l|].
  apply stream_cons in H as (m1 & HR & H).
  destruct (ReadRecord_recv _ _ _ _ V Hm HR) as (l1 & HR' & V1).
  destruct (IH m1 l1 (ReadRecord_keeps _ _ _ Hm HR) V1 H) as [l' Hl]. eauto using stream_step.
Qed.

(** Two readers with the same view: the next record of one is that of the other. *)
Lemma stream_next m r rs m' l r' l' :
  layer_ok m -> recv_view m = recv_view l -> stream m (r :: rs) m' -> ReadRecord l = (Ok r', l') ->
  r' = r /\ exists m1, layer_ok m1 /\ recv_view m1 = recv_view l' /\ stream m1 rs m'.
Proof.
  intros Hm V (m1 & HR & H)%stream_cons HR'.
  destruct (ReadRecord_recv _ _ _ _ (eq_sym V) Hm HR) as (l1 & HR1 & V1).
  rewrite HR' in HR1. injection HR1 as -> ->. split; [done|]. exists m1. eauto using ReadRecord_keeps.
Qed.

(** The handshake records a client has read are the first ones that were sent. *)
Lemma hs_reads_stream l ps l1 ct p rest m' :
  ct <> ContentTypeHandshake -> hs_reads l ps l1 ->
  forall m qs, layer_ok m -> recv_view m = recv_view l -> stream m (hsRecords qs ++ (ct, p) :: rest) m' ->
  exists x m1, qs = ps ++ x /\ layer_ok m1 /\ recv_view m1 = recv_view l1 /\
    stream m1 (hsRecords x ++ (ct, p) :: rest) m'.
Proof.
  intros Hct. induction 1 as [l|l q l0 ps l1 HR _ IH]; intros m qs Hm V H; [now exists qs, m|].
  destruct qs as [|q' qs]; destruct (stream_next _ _ _ _ _ _ _ Hm V H HR) as [E (m0 & Hm0 & V0 & H0)];
    injection E as E; [done|]. subst q'.
  destruct (IH m0 qs Hm0 V0 H0) as (x & m1 & -> & H1). now exists x, m1.
Qed.

(** A record that is no handshake record ends them. *)
Lemma stream_other l r l' m x ct p rest m' :
  layer_ok m -> recv_view m = recv_view l -> ReadRecord l = (Ok r, l') ->
  fst r <> ContentTypeHandshake -> stream m (hsRecords x ++ (ct, p) :: rest) m' ->
  x = [] /\ exists m1, layer_ok m1 /\ recv_view m1 = recv_view l' /\ stream m1 rest m'.
Proof.
  intros Hm V HR Hr H.
  destruct x as [|q x]; destruct (stream_next _ _ _ _ _ _ _ Hm V H HR) as [-> H1]; done.
Qed.

(** ** The server's side of the stream *)

(** The server wrote handshake records [qs] and its ChangeCipherSpec in the clear, and
    under [writeP] the records [fs] of its Finished and the records [after]; [wire] are
    the bytes. *)
Definition server_wrote (srv : Layer AnyProtector) (writeP : AnyProtector) (qs fs : list bytes)
  (after : list (Z * bytes)) (wire : bytes) : Prop :=
  exists srv1 srv2,
    writeAll (hsRecords qs ++ [(ContentTypeChangeCipherSpec, [Byte.x01])]) srv = (Ok tt, srv1) /\
    writeAll (hsRecords fs ++ after) (ChangeCipherSpec (Some writeP) None srv1) = (Ok tt, srv2) /\
    tx (rw srv2) = tx (rw srv) ++ wire.

Lemma writeAll_ok rs (l l' : Layer AnyProtector) : layer_ok l -> writeAll rs l = (Ok tt, l') -> layer_ok l'.
Proof.
  revert l. induction rs as [|[ct p] rs IH]; intros l Hl H; [now injection H as <-|].
  cbn [writeAll] in H. apply bindM_Ok in H as ([] & l1 & H1 & H). apply (IH l1); [|done].
  pose proof (WriteRecord_ok ct p l Hl) as Hw. now rewrite H1 in Hw.
Qed.

(** Writing only adds to the bytes on the transport. *)
Lemma writeAll_tx rs (l l' : Layer AnyProtector) :
  writeAll rs l = (Ok tt, l') -> exists w, tx (rw l') = tx (rw l) ++ w.
Proof.
  revert l. induction rs as [|[ct p] rs IH]; intros l H.
  { injection H as <-. exists []. now rewrite app_nil_r. }
  cbn [writeAll] in H. apply bindM_Ok in H as ([] & l1 & H1 & (w & ->)%IH).
  enough (E : exists w, tx (rw l1) = tx (rw l) ++ w) by (destruct E as [v ->]; exists (v ++ w); now rewrite app_assoc).
  destruct (WriteRecord_guards _ _ _ _ H1) as (Hct & Hpl & Hne). revert H1. unfold WriteRecord.
  rewrite Hct. cbn [negb]. rewrite (proj2 (Z.ltb_ge _ _)) by lia.
  unfold bindM at 1. cbn [get]. rewrite (proj2 (Z.eqb_neq _ _)) by done. intros H.
  apply bindM_Ok in H as (frag & l2 & E2 & H). unfold sealRecord in E2.
  destruct (Seal _ _ _ _ _) as [[r p'] t']. injection E2 as -> <-.
  apply bindM_Ok in H as ([] & l3 & E3 & H). apply bindM_Ok in H as ([] & l4 & E4 & H). injection H as <-.
  unfold onWorld, zoom, rwWrite in E3, E4. cbn in E3.
  destruct (wscript (rw l)) as [|[[]|] ws]; [|done|]; injection E3 as <-; cbn in E4;
    [|destruct ws as [|[[]|] ws]; [|done|]]; injection E4 as <-; cbn; rewrite <- app_assoc; eauto.
Qed.

(** A reader in step with the server's send side reads those records. *)
Lemma server_wrote_stream srv writeP qs fs after wire l rest :
  layer_ok srv -> server_wrote srv writeP qs fs after wire ->
  recvProt l = sendProt srv -> recvSeq l = sendSeq srv -> rx (rw l) = wire ++ rest ->
  exists m, stream l (hsRecords qs ++ [(ContentTypeChangeCipherSpec, [Byte.x01])]) m /\
    (any_ok writeP -> exists m', stream (ChangeCipherSpec None (Some writeP) m) (hsRecords fs ++ after) m').
Proof.
  intros Hs (srv1 & srv2 & W1 & W2 & Htx) EP ES Hrx.
  pose proof (writeAll_ok _ _ _ Hs W1) as Hs1.
  apply writeAll_delivered in W1 as (w1 & T1 & R1); [|done].
  destruct (writeAll_tx _ _ _ W2) as [w2 T2].
  change (tx (rw (ChangeCipherSpec (Some writeP) None srv1))) with (tx (rw srv1)) in T2.
  rewrite T2, T1, <- app_assoc in Htx. apply app_inv_head in Htx. subst wire. rewrite <- app_assoc in Hrx.
  destruct (R1 l (w2 ++ rest) EP ES Hrx) as (m & A1 & X1 & _ & _). exists m. split; [exact A1|].
  intros Hp. apply writeAll_delivered in W2 as (w2' & T2' & R2);
    [|apply layer_ok_CCS; [done|now intros ? [= <-]|done]].
  change (tx (rw (ChangeCipherSpec (Some writeP) None srv1))) with (tx (rw srv1)) in T2'.
  rewrite T2 in T2'. apply app_inv_head in T2'. subst w2'.
  destruct (R2 (ChangeCipherSpec None (Some writeP) m) rest) as (m' & A2 & _); [reflexivity..|exact X1|].
  exists m'. exact A2.
Qed.

Lemma finished_records fs qs x vd vd' :
  fits (TypeFinished, vd) -> fits (TypeFinished, vd') -> Forall (fun p => p <> []) fs ->
  fs = qs ++ x -> concat fs = buildEnvelope TypeFinished vd' -> concat qs = buildEnvelope TypeFinished vd ->
  x = [].
Proof.
  intros F F' Hne -> E1 E2. rewrite concat_app, E2 in E1.
  assert (E : envelope (TypeFinished, vd) ++ concat x = envelope (TypeFinished, vd') ++ [])
    by (rewrite app_nil_r; exact E1).
  apply envelope_inj in E as [_ E]; [|done..].
  destruct x as [|p x]; [done|]. apply Forall_app in Hne as [_ Hne]. apply Forall_cons in Hne as [Hp _].
  cbn in E. now apply app_eq_nil in E as [-> _].
Qed.

(** After the handshake the client is where the server's data begins. *)
Lemma received_stream l0 ps recvP vd l srv qs fs vd' chunks wire rest :
  received l0 ps recvP vd l -> layer_ok l0 -> layer_ok srv -> any_ok recvP ->
  recvProt l0 = sendProt srv -> recvSeq l0 = sendSeq srv -> rx (rw l0) = wire ++ rest ->
  server_wrote srv recvP qs fs (appRecords chunks ++ [closeNotifyRecord]) wire ->
  fits (TypeFinished, vd) -> fits (TypeFinished, vd') -> Forall (fun p => p <> []) fs ->
  concat fs = buildEnvelope TypeFinished vd' ->
  qs = ps /\ exists l', stream l (appRecords chunks ++ [closeNotifyRecord]) l'.
Proof.
  intros (l1 & l2 & l3 & rs & R1 & V2 & HR2 & R3 & Efin) Hl0 Hs Hp EP ES Hrx Hw F F' Hne Efs.
  destruct (server_wrote_stream _ _ _ _ _ _ _ _ Hs Hw EP ES Hrx) as (m & S1 & [m' S2]%(fun f => f Hp)).
  assert (Hccs : ContentTypeChangeCipherSpec <> ContentTypeHandshake) by done.
  destruct (hs_reads_stream l0 ps l1 _ _ _ _ Hccs R1 l0 qs Hl0 eq_refl S1)
    as (x & m1 & -> & Hm1 & V1 & S1').
  destruct (stream_other l2 _ l3 m1 x _ _ _ _ Hm1 ltac:(congruence) HR2 Hccs S1')
    as (-> & m2 & Hm2 & V3 & S3). injection S3 as ->. rewrite app_nil_r. split; [done|].
  assert (Hend : exists ct p tl, appRecords chunks ++ [closeNotifyRecord] = (ct, p) :: tl /\ ct <> ContentTypeHandshake)
    by (destruct chunks; eexists _, _, _; done).
  destruct Hend as (ct & p & tl & Etl & Hct). rewrite Etl in S2 |- *.
  set (lk := ChangeCipherSpec None (Some recvP) m) in *.
  assert (Hk : layer_ok lk) by (apply layer_ok_CCS; [done|done|now intros ? [= <-]]).
  destruct (hs_reads_stream _ _ _ ct p tl m' Hct R3 lk fs Hk) as (x & m3 & E & Hm3 & V4 & S4).
  { injection V3 as E1 E2 E3. unfold recv_view, lk. cbn. now rewrite E3. }
  { exact S2. }
  rewrite (finished_records fs rs x vd vd' F F' Hne E Efs Efin) in S4.
  eapply stream_recv; [exact Hm3|now symmetry|exact S4].
Qed.

(** When a server that protects its records with [writeP] has sent the bytes on the
    transport of [c], the client has its messages, and reads of [c1] give its data. *)
Definition server_delivers (c c1 : Conn) (sf : server_flight) (writeP : AnyProtector) : Prop :=
  forall srv qs fs vd chunks wire rest,
    layer_ok srv -> sendProt srv = recvProt (cn_layer c) -> sendSeq srv = recvSeq (cn_layer c) ->
    server_wrote srv writeP qs fs (appRecords chunks ++ [closeNotifyRecord]) wire ->
    Forall (fun p => p <> []) fs -> concat fs = MarshalMessage (MFinished vd) ->
    len vd <= maxHandshakeMsg -> Forall (fun p => p <> []) chunks ->
    rx (rw (cn_layer c)) = wire ++ rest ->
    concat qs = concat (serverMsgs sf) /\ reads_stream (concat chunks) c1.

Lemma handshake_finish_fits c c' s cr sf cke ms sendP recvP f :
  handshake_done c c' s cr sf cke ms sendP recvP f -> fits (TypeFinished, f_server f).
Proof.
  intros Hd. destruct (hd_switch _ _ _ _ _ _ _ _ _ _ Hd) as (k0 & k1 & k2 & _ & _ & _ & _ & _ & Hsf).
  destruct Hsf as (k3 & ps & _ & _ & _ & Hvd). exact (proj1 (verify_data_parses _ _ "server finished" _ _ ltac:(done) Hvd)).
Qed.

Lemma stream_incoming c chunks l' :
  ready c -> readErr c = None -> Forall (fun p => p <> []) chunks ->
  stream (cn_layer c) (appRecords chunks ++ [closeNotifyRecord]) l' -> incoming c chunks.
Proof.
  intros Hr He Hc (l1 & S1 & (l2 & HR & _)%stream_cons)%stream_app. split; [done..|].
  exists l1, l2. split; [now apply readAll_app_reads|done].
Qed.

(** * Properties *)

(** C6. Data the server sends reaches the application: after [Conn.Handshake] without an
    error on a new connection there is a protector, which every server that holds the
    secret of what it sent derives from the ClientKeyExchange, such that when the
    bytes on the transport are those of a server (handshake records cut in any way,
    ChangeCipherSpec, then, under that protector, its Finished cut in any way,
    application data in any non-empty records and close_notify), its handshake bytes
    are the messages the client has in its transcript, and reads of any positive
    sizes return non-empty pieces of its data from the start, in order, none longer
    than asked for, and [io.EOF] only when there is no more: more reads than bytes
    always get there. *)
Theorem conn_receives c c1 :
  layer_ok (cn_layer c) -> handshakeDone c = false -> readBuf c = [] -> readErr c = None ->
  connHandshake c = (Ok tt, c1) ->
  exists roots certs st s sf f cke readP writeP,
    rootCAPool (config c) = Ok roots /\ clientCerts (config c) = Ok certs /\
    let st0 := clientStart c roots certs in
    Handshake st0 = (Ok tt, st) /\ cn_layer c1 = c_layer st /\ c_suite st = Some s /\
    c_transcript st = foldl Write NewTranscript
      (helloEnv st0 (clientRandom st) :: serverMsgs sf ++ wholeFlight f) /\
    server_checked (c_params st0) (c_now st0) (clientRandom st) s sf /\
    f_cke f = MarshalMessage (MClientKeyExchange cke) /\
    (forall k, server_holds s sf k ->
       serverSecrets s k (clientRandom st) (serverRandom st) cke = Ok (c_masterSecret st, readP, writeP)) /\
    server_delivers c c1 sf writeP.
Proof.
  intros Hl Hd0 Hbuf Herr Hh.
  destruct (wp_Ok _ _ _ _ _ _ Hh (connHandshake_wp c Hl)) as (Hl1 & Hsame & Hrec & _ & Hnew).
  destruct (Hnew Hd0) as (Hcl & _ & (roots & certs & st & Hroots & Hcerts & _ & Hst & El)).
  destruct Hsame as (_ & Ec & Eb & Ee & _).
  assert (Hready : ready c1) by (split; [done|done|congruence]).
  destruct (Handshake_done _ _ (NewClientState_fresh _ _ _ _ Hl) Hst)
    as (s & cr & sf & cke & ms & sp & rp & f & Hd).
  destruct (hd_final _ _ _ _ _ _ _ _ _ _ Hd) as (_ & Es & Ems & Ecr & Esr).
  destruct (handshake_facts _ _ _ _ _ _ _ _ _ _ Hd) as (Hcr & Hsr & Hn & _ & Hrp).
  exists roots, certs, st, s, sf, f, cke, sp, rp. split; [done|]. split; [done|]. cbv zeta. rewrite Ecr, Esr, Ems.
  split; [exact Hst|]. split; [exact El|]. split; [exact Es|].
  split; [apply (hd_transcript _ _ _ _ _ _ _ _ _ _ Hd)|].
  split; [apply (hd_server _ _ _ _ _ _ _ _ _ _ Hd)|].
  split; [apply (proj1 (hd_cke _ _ _ _ _ _ _ _ _ _ Hd))|].
  split; [intros k Hk; eapply secrets_agree; eauto using hd_secrets|].
  intros srv qs fs vd chunks wire rest Hs HP HS Hw Hne Efs Hvd Hch Hrx.
  destruct (hd_received _ _ _ _ _ _ _ _ _ _ Hd) as (l0 & ps & V0 & Hl0 & Eps & Hrcv).
  injection V0 as V1 V2 V3.
  destruct (received_stream _ _ _ _ _ srv qs fs vd chunks wire rest Hrcv Hl0 Hs Hrp) as [-> [l' Hstr]].
  { now rewrite V2. } { now rewrite V1. } { now rewrite V3. } { done. }
  { exact (handshake_finish_fits _ _ _ _ _ _ _ _ _ _ Hd). }
  { split; [compute; split; congruence|exact Hvd]. } { done. }
  { rewrite Efs, MarshalMessage_eq, buildEnvelope_eq. reflexivity. }
  split; [exact Eps|]. rewrite <- El in Hstr.
  pose proof (incoming_stream c1 chunks) as Hin. unfold toCome in Hin. rewrite Eb, Hbuf in Hin.
  apply Hin, (stream_incoming _ _ l'); [done|congruence|done|exact Hstr].
Qed.

End Receive.
