(* ===== verification/Complete.v ===== *)
(** * An honest server is accepted

    [ClientProofs] and [Agreement] say what a completed handshake implies; here a
    handshake completes: with a server that sends a flight which passes the client's
    checks, derives its keys from the ClientKeyExchange and sends the Finished of the
    transcript, nothing but the client's own sending can fail. *)

From Stdlib Require Import ZArith Lia.
From stdpp Require Import base list strings gmap.
From S2P Require Import Prelude Errors Asn1 KeyTransport Wire Extensions Messages Primitives Transcript State Layer Protectors Suites KeySetup KeyExchange KexServer Certs Client ClientProofs Accept Conn ConnProofs Agreement Receive.

Open Scope Z_scope.

Section Complete.
Context {C : Primitives} {CL : PrimitiveLaws C} {K : KexLib} {KL : KexLaws K} {X : X509}
  {L : ServerLib} {SL : ServerLaws L}.

(** ** The client's second flight *)

Lemma cke_short f cke :
  f_cke f = MarshalMessage (MClientKeyExchange cke) -> len (f_cke f) <= tlsMaxPlaintextLen -> len cke < 2 ^ 24.
Proof.
  intros ->. rewrite MarshalMessage_eq. unfold tlsMaxPlaintextLen. cbn [Marshal].
  rewrite ?len_cons, ?len_app. len_pose. lia.
Qed.

(** It reads nothing, and its secrets are those of the flight. *)
Lemma sendSecondFlight_wp s sf l c :
  gostLeaf c = None -> clientCertSent c = false -> len (clientRandom c) = 32 -> layer_ok l ->
  server_checked (c_params c) (c_now c) (clientRandom c) s sf ->
  wp (sendSecondFlight (Stdlib (sf_gc sf)) (sf_params sf)) (fun '(cke, ms, recvP) c' =>
      exists sendP, secrets s (clientRandom c) sf cke ms sendP recvP /\
        recv_view (c_layer c') = recv_view l /\ layer_ok (c_layer c') /\ any_ok recvP /\
        hsBuf c' = [] /\ c_suite c' = Some s /\ len cke < 2 ^ 24)
    via_fatal (readOn [] l (withFirst s sf c)).
Proof.
  intros Hlf Hsnt Hcr Hl [Hsh Hacc _ _ _ _ _]. pose proof (parseServerHello_random _ _ Hsh) as Hsr.
  set (c0 := readOn [] l (withFirst s sf c)). unfold sendSecondFlight.
  eapply wp_step; [apply (computeKeyExchange_wp s); [exact Hl|reflexivity|exact Hcr]|done|].
  intros [pm cke] c1 (e & r0 & r & Hex & Hkx & ->). cbn [fst snd] in Hkx.
  apply wp_bind, (wp_getSuite s); [reflexivity|]. apply wp_bind, wp_get.
  destruct (MasterSecret_Ok s pm (clientRandom c) (sh_Random (sf_sh sf)) Hcr Hsr) as (ms & Hms & _).
  match goal with |- wp (bindM (orFatal _ (lift ?m)) _) _ _ _ =>
    change m with (MasterSecret s pm (clientRandom c) (sh_Random (sf_sh sf))) end.
  rewrite Hms. apply wp_bind, wp_orFatal_lift; [done|now apply lok_setRngs|]. intros ? [= <-].
  apply wp_bind, wp_modify.
  eapply wp_step; [apply (expandKeys_wp s); [now apply lok_setRngs|reflexivity|apply (sa_registered _ _ _ Hacc)|exact Hcr|exact Hsr]|done|].
  intros [[km sendP] recvP] c2 (-> & Hkeys & Hsp & Hrp & Ns & Nr).
  eapply wp_step; [apply (sendTail_wp s ms cke sendP); [now apply lok_setRngs|reflexivity|done|exact Hsnt]|done|].
  intros _ c3 (f & [[Hcke Hn] _ _ Hrv Hl3 (Eb & Es & _) _]). apply wp_ret. exists sendP.
  split; [|split; [exact Hrv|]; split; [done|]; split; [done|]; split; [exact Eb|];
           split; [exact Es|now apply (cke_short f)]].
  exists e, r0, r, pm. split; [|done].
  change (gostLeaf c0) with (if HasGOSTPubKey (sf_gc sf) then Some (sf_gc sf) else gostLeaf c) in Hex.
  rewrite Hlf in Hex. exact Hex.
Qed.

(** ** Reading the server's flight *)

Lemma stream_hs l ps l' : stream l (hsRecords ps) l' -> hs_reads l ps l'.
Proof.
  revert l. induction ps as [|p ps IH]; intros l H; [injection H as <-; constructor|].
  apply stream_cons in H as (l1 & HR & H). econstructor; eauto.
Qed.

Lemma leaves_nothing b l1 c ps l :
  leaves (readOn b l1 c) [] ps l -> Forall (fun p => p <> []) ps -> b = [] /\ l1 = l.
Proof.
  intros (ps' & (_ & Hr & E) & [pre ->]) Hne. apply app_eq_nil in E as [Eb E]. split; [exact Eb|].
  destruct ps' as [|p ps']; [now inversion Hr|]. apply Forall_app in Hne as [_ Hne].
  apply Forall_cons in Hne as [Hp _]. now apply app_eq_nil in E as [-> _].
Qed.

(** A flight that passes the checks is read, to its last record. *)
Lemma first_flight_run s sf c qs l :
  layer_ok (c_layer c) -> hsBuf c = [] -> stream (c_layer c) (hsRecords qs) l -> Forall (fun p => p <> []) qs ->
  concat qs = concat (serverMsgs sf) -> Forall fits (serverMessages sf) ->
  server_checked (c_params c) (c_now c) (clientRandom c) s sf ->
  recvFirstFlight c = (Ok (Stdlib (sf_gc sf), sf_params sf), readOn [] l (withFirst s sf c)).
Proof.
  intros Hl Hb Hs Hne Hcat Hf Hc.
  destruct (recvFirstFlight_run c s sf [] qs l) as (b & l1 & Hr & Hlv); [|done|done|].
  { split; [done|]. split; [now apply stream_hs|].
    now rewrite Hb, app_nil_r, serverMessages_envelopes. }
  destruct (leaves_nothing _ _ _ _ _ Hlv Hne) as [-> ->]. exact Hr.
Qed.

(** ** The server's Finished *)

Lemma finish_run s ms recvP c l m m' fs after vd :
  layer_ok l -> recv_view (c_layer c) = recv_view l -> layer_ok (c_layer c) -> c_suite c = Some s -> any_ok recvP ->
  hsBuf c = [] -> stream l [(ContentTypeChangeCipherSpec, [Byte.x01])] m ->
  stream (ChangeCipherSpec None (Some recvP) m) (hsRecords fs ++ after) m' ->
  concat fs = MarshalMessage (MFinished vd) -> verify_data s ms "server finished" (c_transcript c) vd ->
  exists c', finishTail ms recvP c = (Ok tt, c').
Proof.
  intros Hl V Hlc Hs Hp Hb (m0 & HR & Hm)%stream_cons S2 Efs Hvd. injection Hm as ->.
  destruct (ReadRecord_recv _ _ _ _ V Hl HR) as (l3 & HR3 & V3).
  apply stream_app in S2 as (m1 & S2 & _). apply stream_recv with (l := ChangeCipherSpec None (Some recvP) l3) in S2.
  - destruct S2 as [l4 S2]. apply stream_hs in S2.
    destruct (receiveServerFinished_run s ms recvP c vd l4) as [c' Hr]; [done..| |].
    { exists l3, fs. split; [done|]. split; [done|]. split; [|done].
      rewrite Efs, MarshalMessage_eq, buildEnvelope_eq. reflexivity. }
    unfold finishTail. rewrite (bind_run get _ c c c eq_refl), Hb.
    change (negb (len [] =? 0)) with false. cbv iota. rewrite (bind_run _ _ _ _ _ Hr). eexists. reflexivity.
  - apply layer_ok_CCS; [exact (ReadRecord_keeps _ _ _ Hl HR)|done|now intros ? [= <-]].
  - injection V3 as _ _ E. unfold recv_view. cbn. now rewrite E.
Qed.

(** What sending the ClientHello leaves. *)
Lemma hello_sent c c1 :
  fresh c -> sendClientHello c = (Ok tt, c1) ->
  layer_ok (c_layer c1) /\ hsBuf c1 = [] /\ clientCertSent c1 = false /\ gostLeaf c1 = None /\
  len (clientRandom c1) = 32 /\ c_params c1 = c_params c /\ c_now c1 = c_now c /\
  recvProt (c_layer c1) = recvProt (c_layer c) /\ recvSeq (c_layer c1) = recvSeq (c_layer c) /\
  rx (rw (c_layer c1)) = rx (rw (c_layer c)).
Proof.
  intros [Hl _ Hb _ Hsnt Hlf] Hsend.
  destruct (wp_Ok _ _ _ _ _ _ Hsend (sendClientHello_wp c Hl)) as (cr & rand & l1 & Hcr & Hl1 & [_ V1] & ->).
  injection V1 as E1 E2 E3. done.
Qed.

(** What is left of a handshake whose first flight was read. *)
Lemma Handshake_second c c1 cert params cw :
  sendClientHello c = (Ok tt, c1) -> recvFirstFlight c1 = (Ok (cert, params), cw) ->
  Handshake c = match sendSecondFlight cert params cw with
                | (Ok (_, ms, recvP), c2) => finishTail ms recvP c2
                | (Err e, c2) => (Err e, c2)
                | (Crash x, c2) => (Crash x, c2)
                end.
Proof.
  intros H1 H2. rewrite Handshake_flights, (bind_run _ _ _ _ _ H1), (bind_run _ _ _ _ _ H2).
  unfold bindM. now destruct (sendSecondFlight cert params cw) as [[[[]]| |] ?].
Qed.

(** A server that holds [k], whose first flight [sf] passes the checks of the client [c]
    that has sent its ClientHello in [c1], and whose bytes are those on the transport:
    the flight cut into records in any way, its ChangeCipherSpec, a Finished with [vd]
    under [writeP], and any records behind it. *)
Record honest_server (c c1 : ClientState) (s : Suite) (sf : server_flight) (k : serverKey)
  (writeP : AnyProtector) (vd : bytes) : Prop := {
  ho_checked : server_checked (c_params c) (c_now c) (clientRandom c1) s sf;
  ho_fits : Forall fits (serverMessages sf);
  ho_holds : server_holds s sf k;
  ho_bytes : exists srv qs fs after wire rest,
    layer_ok srv /\ sendProt srv = recvProt (c_layer c) /\ sendSeq srv = recvSeq (c_layer c) /\
    server_wrote srv writeP qs fs after wire /\ rx (rw (c_layer c)) = wire ++ rest /\
    Forall (fun p => p <> []) qs /\ concat qs = concat (serverMsgs sf) /\
    concat fs = MarshalMessage (MFinished vd)
}.

(** * Properties *)

(** C7. An honest server is accepted: when the bytes on the transport are those of a
    server whose first flight, cut into records in any way, passes the client's checks,
    the client reads that flight to its end; if its own second flight (key exchange,
    signature, sending) then fails, the handshake fails with that error and no other;
    and if it does not fail, and the server protects its records with the keys it
    derives from the ClientKeyExchange and ends with the Finished of the transcript,
    the handshake succeeds, whatever the server sends behind it. *)
Theorem Handshake_completes c c1 s sf k writeP vd :
  fresh c -> sendClientHello c = (Ok tt, c1) -> honest_server c c1 s sf k writeP vd ->
  exists l, let cw := readOn [] l (withFirst s sf c1) in
    recvFirstFlight c1 = (Ok (Stdlib (sf_gc sf), sf_params sf), cw) /\
    match sendSecondFlight (Stdlib (sf_gc sf)) (sf_params sf) cw with
    | (Err e, c2) => Handshake c = (Err e, c2)
    | (Crash _, _) => False
    | (Ok (cke, ms, _), c2) =>
        forall ms' readP,
          serverSecrets s k (clientRandom c1) (sh_Random (sf_sh sf)) cke = Ok (ms', readP, writeP) ->
          verify_data s ms' "server finished" (c_transcript c2) vd ->
          exists c', Handshake c = (Ok tt, c')
    end.
Proof.
  intros Hfr Hsend [Hc Hf Hk (srv & qs & fs & after & wire & rest & Hsrv & HP & HS & Hw & Hrx & Hne & Hcat & Efs)].
  destruct (hello_sent c c1 Hfr Hsend) as (Hl1 & Hb & Hsnt & Hlf & Hcr & Ep & En & E1 & E2 & E3).
  rewrite <- Ep, <- En in Hc.
  destruct (server_wrote_stream srv writeP qs fs after wire (c_layer c1) rest Hsrv Hw) as (m & S1 & S2);
    [congruence..|]. apply stream_app in S1 as (l & S1 & Sc).
  pose proof (first_flight_run s sf c1 qs l Hl1 Hb S1 Hne Hcat Hf Hc) as Hff.
  assert (Hlok : layer_ok l) by (apply stream_hs in S1; now apply (hs_reads_view _ _ _ S1)).
  exists l. cbv zeta. split; [exact Hff|].
  pose proof (Handshake_second _ _ _ _ _ Hsend Hff) as Hh.
  destruct (wp_cases _ _ _ _ (sendSecondFlight_wp s sf l c1 Hlf Hsnt Hcr Hlok Hc))
    as [([[cke ms] recvP] & c2 & E & H2)|(e & c2 & E & _)]; rewrite E in Hh |- *; [|exact Hh].
  destruct H2 as (sendP & Hsec & V & Hl2 & Hp & Hb2 & Hs2 & Hn). intros ms' readP Hss Hvd.
  pose proof (parseServerHello_random _ _ (sc_hello _ _ _ _ _ Hc)) as Hsr.
  rewrite (secrets_agree _ _ _ _ _ _ _ _ Hk Hcr Hsr Hn Hsec) in Hss. injection Hss as <- <- <-.
  destruct (S2 Hp) as [m' S2']. rewrite Hh.
  exact (finish_run s ms recvP c2 l m m' fs after vd Hlok V Hl2 Hs2 Hp Hb2 Sc S2' Efs Hvd).
Qed.

End Complete.
