(* ===== verification/ReceiveRun.v ===== *)
(** * A session in which the server answers

    The server of [AgreementRun] sends data and close_notify behind its Finished; the
    client reads it with buffers of different sizes. *)

From Stdlib Require Import ZArith Lia.
From stdpp Require Import base list strings gmap.
From S2P Require Import Prelude Errors Asn1 KeyTransport Wire Extensions Messages Primitives Transcript State Layer Protectors Suites KeySetup KeyExchange KexServer Certs Client ClientProofs Accept Conn ConnProofs Agreement AgreementRun Receive Complete.

Open Scope Z_scope.

#[local] Existing Instance Toy.prims.
#[local] Existing Instance Toy.laws.
#[local] Existing Instance ToyKex.kex.
#[local] Existing Instance ToyKex.kexLaws.
#[local] Existing Instance ToyServer.server.
#[local] Existing Instance ToyServer.serverLaws.
#[local] Existing Instance gostX509.
#[local] Existing Instance noPEM.
#[local] Existing Instance noPEMLaws.

(** What the server makes of the client's bytes: its protector and its Finished. *)
Definition reply : result (AnyProtector * bytes) :=
  match readAll 3 (NewLayer (sessionWorld sentByClient)), Lookup theRegistry suiteGOSTMagma with
  | (Ok [(_, hello); (_, cke); (_, ccs)], l), Some s =>
    let* cr := slice hello 6 38 in
    let* body := slice cke 4 (len cke) in
    let* (ms, readP, writeP) := serverSecrets s sessionKey cr sessionRandom body in
    let* (_, fin) := fst (ReadRecord (ChangeCipherSpec None (Some readP) l)) in
    let* svd := FinishedVerifyData s ms "server finished"
      (digest (prf_Hash (suite_PRF s)) (concat (hello :: sessionMsgs ++ [cke; fin]))) in
    Ok (writeP, svd)
  | _, _ => Err EOF
  end.

Definition replyProtector : AnyProtector := match reply with Ok (p, _) => p | _ => PNull end.
Definition replyFinished : bytes := match reply with Ok (_, vd) => vd | _ => [] end.
Definition replyChunks : list bytes := [strBytes "200"; strBytes " OK"].

(** The Finished goes out in two records. *)
Definition replyFinishedRecords : list bytes :=
  let b := MarshalMessage (MFinished replyFinished) in [take 5 b; drop 5 b].

Definition replyLayer : Layer AnyProtector := NewLayer (sessionWorld []).
Definition replyPlain : result unit * Layer AnyProtector :=
  writeAll (hsRecords [concat sessionMsgs] ++ [(ContentTypeChangeCipherSpec, [Byte.x01])]) replyLayer.
Definition replyProtected : result unit * Layer AnyProtector :=
  writeAll (hsRecords replyFinishedRecords ++ appRecords replyChunks ++ [closeNotifyRecord])
    (ChangeCipherSpec (Some replyProtector) None (snd replyPlain)).

Definition replyWire : bytes := Eval vm_compute in tx (rw (snd replyProtected)).

Definition replySession : Conn := sessionConn replyWire.
Definition replyOpen : Conn := snd (connHandshake replySession).

Lemma reply_open : connHandshake replySession = (Ok tt, replyOpen).
Proof.
  assert (E : fst (connHandshake replySession) = Ok tt) by (vm_compute; reflexivity).
  unfold replyOpen. rewrite <- E. apply surjective_pairing.
Qed.

Lemma replySession_ok : layer_ok (cn_layer replySession).
Proof. split; [done|done|vm_compute; split; congruence..]. Qed.

Lemma replyLayer_ok : layer_ok replyLayer.
Proof. split; [done|done|vm_compute; split; congruence..]. Qed.

Lemma reply_wrote :
  server_wrote replyLayer replyProtector [concat sessionMsgs] replyFinishedRecords
    (appRecords replyChunks ++ [closeNotifyRecord]) replyWire.
Proof.
  eexists _, _. split; [vm_compute; reflexivity|]. split; vm_compute; reflexivity.
Qed.

(** The keys the server writes with follow from the master secret. *)
Lemma serverSecrets_writes s k cr sr cke ms readP writeP :
  serverSecrets s k cr sr cke = Ok (ms, readP, writeP) ->
  (let* km := KeyExpansion s ms cr sr in
   buildProtector s (ServerEncKey km) (ServerMACKey km) (ServerIV km)) = Ok writeP.
Proof.
  unfold serverSecrets. intros H. apply bind_Ok in H as (pm & _ & H). apply bind_Ok in H as (ms' & _ & H).
  apply bind_Ok in H as (km & Hkm & H). apply bind_Ok in H as (rp & _ & H).
  apply bind_Ok in H as (wp & Hw & H). injection H as -> -> ->. rewrite Hkm. exact Hw.
Qed.

Definition replyDone : ClientState := snd (Handshake (clientStart replySession None [])).

(** Seven reads of one to three bytes: the data, and the end. *)
Lemma conn_receives_witness :
  exists ds c', readToEnd [1; 2; 3; 1; 3; 2; 1] replyOpen = (ds, Some EOF, c') /\
    concat ds = strBytes "200 OK".
Proof.
  destruct (conn_receives replySession replyOpen replySession_ok eq_refl eq_refl eq_refl reply_open)
    as (roots & certs & st & s & sf & f & cke & readP & writeP & H1 & H2 & H3 & _ & Hs & _ & Hc & _ & Hk & Hr).
  injection H1 as <-. injection H2 as <-.
  assert (Est : st = replyDone) by (unfold replyDone; now rewrite H3). subst st.
  assert (Hw : writeP = replyProtector).
  { assert (Hh : server_holds s sf sessionKey) by (eapply session_holds; [|exact Hc]; reflexivity).
    pose proof (serverSecrets_writes _ _ _ _ _ _ _ _ (Hk sessionKey Hh)) as E.
    assert (E' : (match c_suite replyDone with
      | Some s => let* km := KeyExpansion s (c_masterSecret replyDone) (clientRandom replyDone)
                    (serverRandom replyDone) in
                  buildProtector s (ServerEncKey km) (ServerMACKey km) (ServerIV km)
      | None => Err EOF end) = Ok replyProtector) by (vm_compute; reflexivity).
    rewrite Hs in E'. congruence. }
  subst writeP.
  destruct (Hr replyLayer [concat sessionMsgs] replyFinishedRecords replyFinished replyChunks replyWire [])
    as [_ Hread].
  - exact replyLayer_ok.
  - reflexivity.
  - reflexivity.
  - exact reply_wrote.
  - repeat constructor; vm_compute; discriminate.
  - vm_compute. reflexivity.
  - vm_compute. discriminate.
  - repeat constructor; discriminate.
  - rewrite app_nil_r. reflexivity.
  - destruct (Hread [1; 2; 3; 1; 3; 2; 1]) as (ds & e & c' & rest & HR & E & _ & _ & Hend & Hlong).
    { repeat constructor. }
    exists ds, c'. rewrite HR. destruct Hend as [[-> _]|[-> ->]].
    + discriminate Hlong. vm_compute. lia.
    + split; [reflexivity|]. rewrite app_nil_r in E. exact (eq_sym E).
Defined.

(** ** The same server is accepted *)

Definition replyStart : ClientState := clientStart replySession None [].
Definition replyHello : ClientState := snd (sendClientHello replyStart).

Definition replyServerHello : ServerHello :=
  {| sh_Version := 0x0303; sh_Random := sessionRandom; sh_SessionID := [];
     sh_CipherSuite := suiteGOSTMagma; sh_CompressionMethod := Byte.x00;
     sh_ExtendedMasterSecret := false; sh_RenegotiationInfo := true;
     sh_ExtensionTypes := [extRenegotiationInfo] |}.

Definition replyFlight : server_flight :=
  {| sf_hello := Marshal (MServerHello replyServerHello); sf_sh := replyServerHello;
     sf_certs := [[Byte.x01]]; sf_gc := gostCert; sf_chains := [[Stdlib gostCert]];
     sf_ske := None; sf_params := []; sf_creq := None |}.

Lemma replySuite_registered :
  exists s, Lookup theRegistry suiteGOSTMagma = Some s /\ s ∈ allSuites /\ ID s = suiteGOSTMagma /\
    KX s = KexGOST2018_256.
Proof.
  destruct (Lookup theRegistry suiteGOSTMagma) as [s|] eqn:E; [|vm_compute in E; discriminate E].
  exists s. split; [done|]. destruct (Lookup_registered _ _ E) as [Hs Hid]. split; [done|]. split; [done|].
  vm_compute in E. injection E as <-. reflexivity.
Qed.

Lemma replyFlight_checked s cr :
  s ∈ allSuites -> ID s = suiteGOSTMagma -> KX s = KexGOST2018_256 ->
  server_checked (c_params replyStart) (c_now replyStart) cr s replyFlight.
Proof.
  intros Hs Hid Hk. split.
  - vm_compute. reflexivity.
  - split; try reflexivity; [rewrite Hid; now apply list_elem_of_singleton|now rewrite Hid|done|].
    intros e He. apply list_elem_of_singleton in He as ->. auto.
  - split; [repeat constructor; discriminate|vm_compute; reflexivity].
  - split; [now exists [Byte.x01]|]. exists [], [[gostCert]]. split; [discriminate|].
    split; [discriminate|]. split; [reflexivity|]. split; reflexivity.
  - exact I.
  - unfold flight_ok. rewrite Hk. reflexivity.
  - exact I.
Qed.

(** The client's second flight, and what the server makes of it: the protector and the
    Finished of [reply]. *)
Lemma replySecond_answered :
  exists r, sendSecondFlight (Stdlib (sf_gc replyFlight)) (sf_params replyFlight)
              (snd (recvFirstFlight replyHello)) = r /\
  match fst r, Lookup theRegistry suiteGOSTMagma with
  | Ok (cke, _, _), Some s =>
      match serverSecrets s sessionKey (clientRandom replyHello) sessionRandom cke with
      | Ok (ms, _, writeP) =>
          writeP = replyProtector /\
          (let* th := Sum (c_transcript (snd r)) (Some (prf_Hash (suite_PRF s))) in
           FinishedVerifyData s ms "server finished" th) = Ok replyFinished
      | _ => False
      end
  | _, _ => False
  end.
Proof.
  exists (sendSecondFlight (Stdlib (sf_gc replyFlight)) (sf_params replyFlight)
            (snd (recvFirstFlight replyHello))).
  split; [reflexivity|]. vm_compute. split; reflexivity.
Qed.

Lemma Handshake_completes_witness : exists c', Handshake replyStart = (Ok tt, c').
Proof.
  destruct replySuite_registered as (s & Hlk & Hs & Hid & Hk).
  pose proof (replyFlight_checked s (clientRandom replyHello) Hs Hid Hk) as Hc.
  destruct (Handshake_completes replyStart replyHello s replyFlight sessionKey replyProtector replyFinished)
    as (l & Hff & Hrun).
  - apply NewClientState_fresh, replySession_ok.
  - assert (E : fst (sendClientHello replyStart) = Ok tt) by (vm_compute; reflexivity).
    unfold replyHello. rewrite <- E. apply surjective_pairing.
  - split; [exact Hc|repeat constructor; vm_compute; congruence|eapply session_holds; [|exact Hc]; reflexivity|].
    exists replyLayer, [concat sessionMsgs], replyFinishedRecords, (appRecords replyChunks ++ [closeNotifyRecord]),
      replyWire, [].
    split; [exact replyLayer_ok|]. split; [reflexivity|]. split; [reflexivity|]. split; [exact reply_wrote|].
    split; [rewrite app_nil_r; reflexivity|]. split; [repeat constructor; vm_compute; discriminate|].
    split; vm_compute; reflexivity.
  - assert (Ecw : readOn [] l (withFirst s replyFlight replyHello) = snd (recvFirstFlight replyHello))
      by (rewrite Hff; reflexivity).
    destruct replySecond_answered as (r & Er & Ha). rewrite Ecw, Er in Hrun. rewrite Hlk in Ha.
    destruct r as [[[[cke ms] recvP]|e|x] c2]; [|destruct Ha..]. cbn [fst snd] in Ha.
    destruct (serverSecrets s sessionKey (clientRandom replyHello) sessionRandom cke)
      as [[[ms' readP] writeP]|e|x] eqn:Ess; [|destruct Ha..]. destruct Ha as [-> Hvd].
    apply (Hrun ms' readP); [exact Ess|]. apply bind_Ok in Hvd as (th & Hth & Hvd). exists th. split; [exact Hth|exact Hvd].
Defined.
