(* ===== verification/Threads.v ===== *)
(** * Goroutines on one connection ([conn.go])

    The calls of a connection as they interleave.  A goroutine runs one call of
    [Handshake], [Read], [Write] or [Close], cut at every synchronisation point
    of the source: [sync.Once], the two mutexes, the atomic flags, and each
    operation on the record layer.  [tstep] is one step of a goroutine, [None]
    when it has to wait; the scheduler and the network are the relation [step].

    [doHandshake] is one step: while it runs no other goroutine touches the layer
    ([ThreadProofs.race_free]), and what the network does meanwhile, the transport
    being closed under it included, is the environment's step before it.  A call
    of the transport can stall; it returns when the peer goes on or the transport
    is closed.  [Close] sets a write deadline, so its own write does not stall. *)

From Stdlib Require Import ZArith Lia.
From stdpp Require Import base list strings gmap relations.
From S2P Require Import Prelude Errors Primitives State Layer Protectors Suites KeyExchange Certs Client ClientProofs Conn.

Open Scope Z_scope.

Definition tid := nat.

(** What a goroutine was asked to do, and what it answered. *)
Inductive call := CHandshake | CRead (n : Z) | CWrite (b : bytes) | CClose.

Inductive outcome :=
| OHandshake (r : result unit)
| ORead (r : result bytes)
| OWrite (r : result (Z * option error))
| OClose (r : result (option error)).

(** Where a goroutine stands; each constructor is the next thing it does. *)
Inductive pc :=
(* Conn.Handshake *)
| HsEnter (k : call)                        (* handshakeOnce.Do *)
| HsLoad (k : call)                         (* in the function: closed.Load *)
| HsRun (k : call)                          (* doHandshake *)
| HsStore (k : call) (e : option error)     (* handshakeErr, handshakeOK; Do ends *)
| HsRet (k : call)                          (* return handshakeErr *)
(* Conn.Read *)
| RdLock (n : Z)                            (* inMu.Lock *)
| RdCheck (n : Z)                           (* closed.Load, readBuf, readErr *)
| RdLoop (n : Z) (emptyRecords : Z)         (* one turn of the loop *)
| RdUnlock (r : result bytes)               (* deferred inMu.Unlock *)
(* Conn.Write *)
| WrLock (b : bytes)                        (* outMu.Lock *)
| WrCheck (b : bytes)                       (* closed.Load *)
| WrLoop (b : bytes) (written : Z)          (* one turn of the loop *)
| WrUnlock (r : result (Z * option error))  (* deferred outMu.Unlock *)
(* Conn.Close *)
| ClSwap                                    (* closed.CompareAndSwap *)
| ClLoad                                    (* handshakeOK.Load *)
| ClTry                                     (* outMu.TryLock *)
| ClAlert                                   (* WriteRecord of close_notify *)
| ClUnlock                                  (* outMu.Unlock *)
| ClClose                                   (* conn.Close *)
| Fin (o : outcome).

(** A call of [WriteRecord]: by whom, of what, and whether it succeeded. *)
Record sentRecord := {
  sr_by : tid;
  sr_type : Z;
  sr_payload : bytes;
  sr_ok : bool
}.

(** The connection with its [Once], its mutexes and the state of the network.
    [sentLog] records every call of [WriteRecord] after the handshake. *)
Record shared := {
  sh_conn : Conn;
  onceRunning : option tid;
  inMu : option tid;
  outMu : option tid;
  stalled : bool;
  sentLog : list sentRecord
}.

Definition sh_set_conn (c : Conn) (s : shared) : shared :=
  {| sh_conn := c; onceRunning := onceRunning s; inMu := inMu s; outMu := outMu s;
     stalled := stalled s; sentLog := sentLog s |}.
Definition sh_set_once (o : option tid) (s : shared) : shared :=
  {| sh_conn := sh_conn s; onceRunning := o; inMu := inMu s; outMu := outMu s;
     stalled := stalled s; sentLog := sentLog s |}.
Definition sh_set_in (o : option tid) (s : shared) : shared :=
  {| sh_conn := sh_conn s; onceRunning := onceRunning s; inMu := o; outMu := outMu s;
     stalled := stalled s; sentLog := sentLog s |}.
Definition sh_set_out (o : option tid) (s : shared) : shared :=
  {| sh_conn := sh_conn s; onceRunning := onceRunning s; inMu := inMu s; outMu := o;
     stalled := stalled s; sentLog := sentLog s |}.
Definition sh_log (e : sentRecord) (s : shared) : shared :=
  {| sh_conn := sh_conn s; onceRunning := onceRunning s; inMu := inMu s; outMu := outMu s;
     stalled := stalled s; sentLog := sentLog s ++ [e] |}.

Definition start (k : call) : pc := match k with CClose => ClSwap | _ => HsEnter k end.

(** A transport call returns: the peer goes on, or the transport is closed. *)
Definition ioReady (s : shared) : bool := negb (stalled s) || (0 <? transportCloses (sh_conn s))%nat.

Section Threads.
Context {C : Primitives} {K : KexLib} {X : X509} {PM : PEM}.

(** The chunk one turn of the loop of [Write] sends. *)
Definition writeChunk (b : bytes) : bytes :=
  if maxChunk <? len b then take (Z.to_nat maxChunk) b else b.

Definition closeNotify : bytes := EncodeAlert AlertLevelWarning AlertCloseNotify.

(** A step of the goroutine [t] that stands at [p]. *)
Definition tstep (t : tid) (s : shared) (p : pc) : option (shared * pc) :=
  let c := sh_conn s in
  match p with
  | HsEnter k =>
      if handshakeDone c then Some (s, HsRet k)
      else match onceRunning s with
           | None => Some (sh_set_once (Some t) s, HsLoad k)
           | Some _ => None
           end
  | HsLoad k => Some (s, if closed c then HsStore k (Some errConnClosed) else HsRun k)
  | HsRun k =>
      if ioReady s then
        match doHandshake c with
        | (Ok _, c') => Some (sh_set_conn c' s, HsStore k None)
        | (Err e, c') => Some (sh_set_conn c' s, HsStore k (Some e))
        | (Crash x, c') => Some (sh_set_conn c' s, Fin (OHandshake (Crash x)))
        end
      else None
  | HsStore k e => Some (sh_set_once None (sh_set_conn (cn_set_handshake e c) s), HsRet k)
  | HsRet k =>
      Some (s, match k, handshakeErr c with
               | CRead n, None => RdLock n
               | CRead n, Some e => Fin (ORead (Err e))
               | CWrite b, None => WrLock b
               | CWrite b, Some e => Fin (OWrite (Ok (0, Some e)))
               | _, None => Fin (OHandshake (Ok tt))
               | _, Some e => Fin (OHandshake (Err e))
               end)
  | RdLock n =>
      match inMu s with None => Some (sh_set_in (Some t) s, RdCheck n) | Some _ => None end
  | RdCheck n =>
      if closed c then Some (s, RdUnlock (Err errConnClosed))
      else if 0 <? len (readBuf c) then
        let k := Z.to_nat (Z.min n (len (readBuf c))) in
        Some (sh_set_conn (cn_set_readBuf (drop k (readBuf c)) c) s,
              RdUnlock (Ok (take k (readBuf c))))
      else match readErr c with
           | Some e => Some (s, RdUnlock (Err e))
           | None => Some (s, RdLoop n 0)
           end
  | RdLoop n k =>
      if ioReady s then
        match readTurn n k c with
        | (Ok (Some d), c') => Some (sh_set_conn c' s, RdUnlock (Ok d))
        | (Ok None, c') => Some (sh_set_conn c' s, RdLoop n (k + 1))
        | (Err e, c') => Some (sh_set_conn c' s, RdUnlock (Err e))
        | (Crash x, c') => Some (sh_set_conn c' s, RdUnlock (Crash x))
        end
      else None
  | RdUnlock r => Some (sh_set_in None s, Fin (ORead r))
  | WrLock b =>
      match outMu s with None => Some (sh_set_out (Some t) s, WrCheck b) | Some _ => None end
  | WrCheck b =>
      Some (s, if closed c then WrUnlock (Ok (0, Some errConnClosed)) else WrLoop b 0)
  | WrLoop b written =>
      if 0 <? len b then
        if ioReady s then
          let chunk := writeChunk b in
          let log ok := sh_log {| sr_by := t; sr_type := ContentTypeApplicationData;
                                  sr_payload := chunk; sr_ok := ok |} s in
          match onConnLayer (WriteRecord ContentTypeApplicationData chunk) c with
          | (Ok _, c') =>
              Some (sh_set_conn c' (log true), WrLoop (drop (length chunk) b) (written + len chunk))
          | (Err e, c') => Some (sh_set_conn c' (log false), WrUnlock (Ok (written, Some e)))
          | (Crash x, c') => Some (sh_set_conn c' (log false), WrUnlock (Crash x))
          end
        else None
      else Some (s, WrUnlock (Ok (written, None)))
  | WrUnlock r => Some (sh_set_out None s, Fin (OWrite r))
  | ClSwap =>
      if closed c then Some (s, Fin (OClose (Ok None)))
      else Some (sh_set_conn (cn_set_closed c) s, ClLoad)
  | ClLoad => Some (s, if handshakeOK c then ClTry else ClClose)
  | ClTry =>
      match outMu s with None => Some (sh_set_out (Some t) s, ClAlert) | Some _ => Some (s, ClClose) end
  | ClAlert =>
      let log ok := sh_log {| sr_by := t; sr_type := ContentTypeAlert;
                              sr_payload := closeNotify; sr_ok := ok |} s in
      match onConnLayer (WriteRecord ContentTypeAlert closeNotify) c with
      | (Ok _, c') => Some (sh_set_conn c' (log true), ClUnlock)
      | (Err _, c') => Some (sh_set_conn c' (log false), ClUnlock)
      | (Crash x, c') => Some (sh_set_conn c' (log false), Fin (OClose (Crash x)))
      end
  | ClUnlock => Some (sh_set_out None s, ClClose)
  | ClClose => Some (sh_set_conn (cn_closeTransport c) s, Fin (OClose (Ok (closeResult c))))
  | Fin _ => None
  end.

(** ** Executions *)

(** The goroutines by number, and the calls they were started with. *)
Record config := {
  cf_sh : shared;
  cf_threads : gmap tid pc;
  cf_calls : gmap tid call
}.

(** What the network may change: what is still to come, how coming writes end,
    the bytes of crypto/rand, whether the peer stalls; never what was already sent. *)
Definition env_step (s s' : shared) : Prop :=
  exists w st, tx w = tx (rw (cn_layer (sh_conn s))) /\
    s' = {| sh_conn := cn_set_layer (set_rw w (cn_layer (sh_conn s))) (sh_conn s);
            onceRunning := onceRunning s; inMu := inMu s; outMu := outMu s;
            stalled := st; sentLog := sentLog s |}.

Inductive thread_step : config -> config -> Prop :=
| thread_step_intro t p s s' p' ths cs :
    ths !! t = Some p -> tstep t s p = Some (s', p') ->
    thread_step {| cf_sh := s; cf_threads := ths; cf_calls := cs |}
                {| cf_sh := s'; cf_threads := <[t := p']> ths; cf_calls := cs |}.

Definition call_ok (k : call) : Prop := match k with CRead n => 0 <= n | _ => True end.

Inductive step : config -> config -> Prop :=
| step_thread c c' : thread_step c c' -> step c c'
| step_call t k s ths cs :
    ths !! t = None -> call_ok k ->
    step {| cf_sh := s; cf_threads := ths; cf_calls := cs |}
         {| cf_sh := s; cf_threads := <[t := start k]> ths; cf_calls := <[t := k]> cs |}
| step_env s s' ths cs :
    env_step s s' ->
    step {| cf_sh := s; cf_threads := ths; cf_calls := cs |}
         {| cf_sh := s'; cf_threads := ths; cf_calls := cs |}.

(** A connection no goroutine is using. *)
Definition idle (c : Conn) (log : list sentRecord) : shared :=
  {| sh_conn := c; onceRunning := None; inMu := None; outMu := None; stalled := false;
     sentLog := log |}.

Definition initial (c : Conn) : config :=
  {| cf_sh := idle c []; cf_threads := ∅; cf_calls := ∅ |}.

End Threads.
