(* ===== verification/ThreadOrder.v ===== *)
(** * Goroutines on one connection: what is sent, and in which order

    The calls of [WriteRecord] after the handshake, as [sentLog] records them:
    the records of one [Write] are together and carry its argument, close_notify
    is the last record, and the peer reads what was sent. *)

From Stdlib Require Import ZArith Lia.
From stdpp Require Import base list strings gmap relations.
From S2P Require Import Prelude Errors Primitives State Layer Protectors Suites KeyExchange Certs Client ClientProofs Conn ConnProofs Threads ThreadProofs.

Open Scope Z_scope.

Definition mine (t : tid) (log : list sentRecord) : list sentRecord := filter (fun e => sr_by e = t) log.

Definition payloads (log : list sentRecord) : bytes := concat (map sr_payload log).

(** A record of a [Write] that was sent. *)
Definition chunk_sent (e : sentRecord) : Prop :=
  sr_type e = ContentTypeApplicationData /\ sr_ok e = true /\ 0 < len (sr_payload e) <= tlsMaxPlaintextLen.

(** What a [Write] of [b] left in the log and what it answered: everything, or a
    proper prefix and perhaps one record that failed, with an error. *)
Definition written (b : bytes) (log : list sentRecord) (r : result (Z * option error)) : Prop :=
  exists good bad rest,
    log = good ++ bad /\ Forall chunk_sent good /\ b = payloads good ++ rest /\
    match r with
    | Ok (n, None) => bad = [] /\ rest = [] /\ n = len b
    | Ok (n, Some _) => n = len (payloads good) /\ (length bad <= 1)%nat /\ Forall (fun e => sr_ok e = false) bad
    | _ => False
    end.

(** The records of one goroutine are together. *)
Definition grouped (log : list sentRecord) : Prop :=
  forall l1 e l2 e' l3, log = l1 ++ e :: l2 ++ e' :: l3 -> sr_by e = sr_by e' ->
    Forall (fun x => sr_by x = sr_by e) l2.

(** Nothing follows a close_notify. *)
Definition alert_last (log : list sentRecord) : Prop :=
  forall l1 e l2, log = l1 ++ e :: l2 -> sr_type e = ContentTypeAlert -> l2 = [].

(** What a goroutine has sent so far for its call [k]. *)
Definition progress (k : call) (p : pc) (log : list sentRecord) : Prop :=
  match p with
  | HsEnter k' | HsLoad k' | HsRun k' | HsStore k' _ | HsRet k' => k' = k /\ k <> CClose /\ log = []
  | RdLock _ | RdCheck _ | RdLoop _ _ | RdUnlock _ | Fin (ORead _) => (exists n, k = CRead n) /\ log = []
  | Fin (OHandshake _) => k = CHandshake /\ log = []
  | WrLock b | WrCheck b => k = CWrite b /\ log = []
  | WrLoop b w => k = CWrite (payloads log ++ b) /\ w = len (payloads log) /\ Forall chunk_sent log
  | WrUnlock r | Fin (OWrite r) => exists b, k = CWrite b /\ written b log r
  | ClSwap | ClLoad | ClTry | ClAlert => k = CClose /\ log = []
  | ClUnlock | ClClose | Fin (OClose _) =>
      k = CClose /\ Forall (fun e => sr_type e = ContentTypeAlert) log /\ (length log <= 1)%nat
  end.

Definition in_write (p : pc) : bool := match p with WrLoop _ _ => true | _ => false end.
Definition may_alert (p : pc) : bool := match p with ClLoad | ClTry | ClAlert => true | _ => false end.

Lemma mine_app t l l' : mine t (l ++ l') = mine t l ++ mine t l'.
Proof. apply filter_app. Qed.

Lemma mine_single t e : mine t [e] = if decide (sr_by e = t) then [e] else [].
Proof. unfold mine. rewrite filter_cons. now destruct (decide _). Qed.

Lemma mine_none t l : (forall e, e ∈ l -> sr_by e <> t) -> mine t l = [].
Proof.
  intros H. unfold mine. induction l as [|x l IH]; [done|]. rewrite filter_cons_False.
  - apply IH. intros e He. apply H. now right.
  - apply H. now left.
Qed.

Lemma payloads_snoc l e : payloads (l ++ [e]) = payloads l ++ sr_payload e.
Proof. unfold payloads. rewrite map_app, concat_app. cbn. now rewrite app_nil_r. Qed.

(** ** Appending a record *)

Lemma grouped_snoc log e :
  grouped log -> (mine (sr_by e) log = [] \/ sr_by <$> last log = Some (sr_by e)) -> grouped (log ++ [e]).
Proof.
  intros Hg Hlast l1 x l2 y l3 E Hby. destruct (decide (l3 = [])) as [->|Hne].
  - rewrite app_comm_cons, app_assoc in E. apply app_inj_tail in E as [-> ->].
    destruct Hlast as [Hm|Hlast].
    { exfalso. rewrite mine_app in Hm. apply app_nil in Hm as [_ Hm]. unfold mine in Hm.
      rewrite filter_cons_True in Hm by done. done. }
    destruct l2 as [|z l2' _] using rev_ind; [constructor|].
    rewrite app_comm_cons, app_assoc, last_snoc in Hlast. injection Hlast as Hz.
    apply Forall_app. split; [|repeat constructor; congruence].
    apply (Hg l1 x l2' z []); [now rewrite app_comm_cons, app_assoc|congruence].
  - destruct l3 as [|z l3' _] using rev_ind; [done|].
    rewrite !app_comm_cons, !app_assoc in E. apply app_inj_tail in E as [E ->].
    apply (Hg l1 x l2 y l3'); [|done]. rewrite E. now rewrite <- !app_assoc.
Qed.

Lemma alert_last_snoc log e :
  Forall (fun x => sr_type x <> ContentTypeAlert) log -> alert_last (log ++ [e]).
Proof.
  intros Hf l1 x l2 E Hx. destruct l2 as [|z l2' _] using rev_ind; [done|].
  rewrite app_comm_cons, app_assoc in E. apply app_inj_tail in E as [-> _].
  apply Forall_app in Hf as [_ Hf]. inversion Hf. congruence.
Qed.

(** ** The invariant *)

Section Order.
Context {C : Primitives} {CL : PrimitiveLaws C} {K : KexLib} {KL : KexLaws K} {X : X509}
  {PM : PEM} {PML : PEMLaws PM}.

Record order_inv (cf : config) : Prop := {
  oi_calls t p : cf_threads cf !! t = Some p ->
    exists k, cf_calls cf !! t = Some k /\ progress k p (mine t (sentLog (cf_sh cf)));
  oi_known e : e ∈ sentLog (cf_sh cf) -> is_Some (cf_threads cf !! sr_by e);
  oi_grouped : grouped (sentLog (cf_sh cf));
  oi_last t : somewhere in_write cf t ->
    mine t (sentLog (cf_sh cf)) = [] \/ sr_by <$> last (sentLog (cf_sh cf)) = Some t;
  oi_alert : Forall (fun e => sr_type e <> ContentTypeAlert) (sentLog (cf_sh cf)) \/
    (alert_last (sentLog (cf_sh cf)) /\ closed (sh_conn (cf_sh cf)) = true /\
     forall t, ~ somewhere in_write cf t /\ ~ somewhere may_alert cf t)
}.

(** A step sends nothing, or one record. *)
Definition step_quiet (k : call) (t : tid) (s : shared) (p : pc) (s' : shared) (p' : pc) : Prop :=
  sentLog s' = sentLog s /\ progress k p' (mine t (sentLog s)) /\
  (in_write p' = true -> in_write p = true \/ (mine t (sentLog s) = [] /\ closed (sh_conn s) = false)) /\
  (may_alert p' = true -> may_alert p = true \/ closed (sh_conn s) = false).

Definition step_sends (k : call) (t : tid) (s : shared) (p : pc) (s' : shared) (p' : pc) : Prop :=
  exists e, sentLog s' = sentLog s ++ [e] /\ sr_by e = t /\ progress k p' (mine t (sentLog s) ++ [e]) /\
    ((in_write p = true /\ may_alert p' = false /\ sr_type e = ContentTypeApplicationData) \/
     (p = ClAlert /\ p' = ClUnlock)).

(** A turn of the loop of [Write]. *)
Lemma writeChunk_split b :
  0 < len b -> exists rest, b = writeChunk b ++ rest /\ drop (length (writeChunk b)) b = rest /\
    0 < len (writeChunk b) <= tlsMaxPlaintextLen.
Proof.
  intros Hb. unfold writeChunk, tlsMaxPlaintextLen. change maxChunk with 16384.
  destruct (16384 <? len b) eqn:E; z_bool.
  - assert (Hl : len (take (Z.to_nat 16384) b) = 16384) by (rewrite len_take, Z2Nat.id; lia).
    exists (drop (Z.to_nat 16384) b). split; [now rewrite take_drop|]. split; [|lia].
    f_equal. unfold len in Hl. lia.
  - exists []. rewrite app_nil_r. split; [done|]. split; [apply drop_all|lia].
Qed.

Lemma tstep_order k t s p s' p' :
  local t s p -> layer_ok (cn_layer (sh_conn s)) -> progress k p (mine t (sentLog s)) ->
  tstep t s p = Some (s', p') -> step_quiet k t s p s' p' \/ step_sends k t s p s' p'.
Proof.
  intros (_ & _ & _ & _ & L5) Hl Hk Hs.
  destruct p; cbn [tstep] in Hs; cbv zeta in Hs; cbn in Hk;
    try (left; unfold step_quiet; repeat case_match; simplify_eq; cbn; naive_solver; fail).
  - pose proof (doHandshake_wp (sh_conn s) Hl) as Hw. unfold wp in Hw. left. unfold step_quiet.
    destruct (ioReady s); [|done].
    destruct (doHandshake (sh_conn s)) as [[] c'] eqn:E; [| |done]; simplify_eq; cbn; naive_solver.
  - destruct Hk as (-> & Hne & Hm). left. unfold step_quiet. rewrite Hm.
    destruct (handshakeErr (sh_conn s)), k; simplify_eq; cbn; split_and!; try done; eauto.
    exists b. split; [done|]. exists [], [], b. split_and!; try done. cbn. lia.
  - destruct Hk as (-> & Hm). left. unfold step_quiet. rewrite Hm.
    destruct (closed (sh_conn s)); simplify_eq; cbn; split_and!; try done; eauto.
    exists b. split; [done|]. exists [], [], b. split_and!; try done. cbn. lia.
  - destruct Hk as (-> & -> & Hf). destruct (0 <? len b) eqn:Eb; z_bool.
    2:{ assert (b = []) as -> by (apply len_zero_nil; len_lia). left. unfold step_quiet.
        injection Hs as <- <-. cbn. split_and!; try done. eexists. split; [done|].
        exists (mine t (sentLog s)), [], []. rewrite !app_nil_r. split_and!; done. }
    destruct (ioReady s); [|done]. destruct (writeChunk_split b Eb) as (rest & Er & Ed & Hlen).
    pose proof (WriteRecord_ok ContentTypeApplicationData (writeChunk b) _ Hl) as Hw.
    unfold onConnLayer, zoom in Hs. right.
    destruct (WriteRecord _ _ (cn_layer (sh_conn s))) as [[[]|e|x] l]; [| |done]; injection Hs as <- <-;
      (eexists; split; [reflexivity|]; split; [done|]; split; [|now left]).
    + cbn. rewrite payloads_snoc, Ed. cbn [sr_payload]. rewrite <- app_assoc, <- Er, len_app.
      split_and!; try done. apply Forall_app. split; [done|]. repeat constructor; cbn; lia.
    + cbn. eexists. split; [done|]. exists (mine t (sentLog s)). do 2 eexists.
      split; [done|]. split; [done|]. split; [done|]. cbn. split_and!; [done|lia|].
      repeat constructor.
  - destruct Hk as (-> & Hm). left. unfold step_quiet. rewrite Hm.
    destruct (closed (sh_conn s)); simplify_eq; cbn; split_and!; try done; auto; lia.
  - destruct Hk as (-> & Hm). left. unfold step_quiet. rewrite Hm.
    destruct (handshakeOK (sh_conn s)); simplify_eq; cbn; split_and!; try done; auto; lia.
  - destruct Hk as (-> & Hm). left. unfold step_quiet. rewrite Hm.
    destruct (outMu s); simplify_eq; cbn; split_and!; try done; auto; lia.
  - destruct Hk as (-> & Hm). right. pose proof (WriteRecord_ok ContentTypeAlert closeNotify _ Hl) as Hw.
    unfold onConnLayer, zoom in Hs.
    destruct (WriteRecord _ _ (cn_layer (sh_conn s))) as [[[]|e|x] l]; [| |done]; injection Hs as <- <-;
      (eexists; split; [reflexivity|]; split; [done|]; split; [|now right]);
      rewrite Hm; cbn; (split; [done|]; split; [repeat constructor|lia]).
Qed.

Lemma order_inv_quiet k t p s s' p' ths cs :
  order_inv {| cf_sh := s; cf_threads := ths; cf_calls := cs |} ->
  ths !! t = Some p -> cs !! t = Some k -> (closed (sh_conn s) = true -> closed (sh_conn s') = true) ->
  step_quiet k t s p s' p' ->
  order_inv {| cf_sh := s'; cf_threads := <[t := p']> ths; cf_calls := cs |}.
Proof.
  intros [Oc Ok Og Ol Oa] Hp Hc Hcl (Elog & Hpr & Hw & Ha). cbn in *.
  assert (Hsome : forall P : pc -> bool, P p = true ->
    somewhere P {| cf_sh := s; cf_threads := ths; cf_calls := cs |} t) by (intros P HP; now exists p).
  split; cbn; rewrite ?Elog; try done.
  - intros u q. destruct (decide (u = t)) as [->|Hne];
      [rewrite lookup_insert_eq|rewrite lookup_insert_ne by done]; intros Hq; simplify_eq; eauto.
  - intros e He. destruct (decide (sr_by e = t)) as [->|Hne];
      [rewrite lookup_insert_eq|rewrite lookup_insert_ne by done]; eauto.
  - intros u Hu. apply (somewhere_insert _ s) in Hu as [[-> Hu]|[_ Hu]]; [|auto].
    destruct (Hw Hu) as [H|[H _]]; auto.
  - destruct Oa as [H|(H1 & H2 & H3)]; [now left|right]. split; [done|]. split; [auto|].
    intros u. split; intros Hu; apply (somewhere_insert _ s) in Hu as [[-> Hu]|[_ Hu]].
    + destruct (Hw Hu) as [H|[_ H]]; [now apply (proj1 (H3 t)), Hsome|congruence].
    + now apply (proj1 (H3 u)).
    + destruct (Ha Hu) as [H|H]; [now apply (proj2 (H3 t)), Hsome|congruence].
    + now apply (proj2 (H3 u)).
Qed.

Lemma order_inv_sends k t p s s' p' ths cs :
  conc_inv {| cf_sh := s; cf_threads := ths; cf_calls := cs |} ->
  order_inv {| cf_sh := s; cf_threads := ths; cf_calls := cs |} ->
  ths !! t = Some p -> cs !! t = Some k -> progress k p (mine t (sentLog s)) ->
  (closed (sh_conn s) = true -> closed (sh_conn s') = true) ->
  step_sends k t s p s' p' ->
  order_inv {| cf_sh := s'; cf_threads := <[t := p']> ths; cf_calls := cs |}.
Proof.
  intros Hi [Oc Ok Og Ol Oa] Hp Hc Hpr0 Hcl (e & Elog & Hby & Hpr & Hcase). cbn in *.
  assert (Hout : holds_out p = true) by (destruct Hcase as [[H _]|[-> _]]; [now destruct p|done]).
  assert (Hother : forall u, u <> t -> ~ somewhere in_write {| cf_sh := s; cf_threads := ths; cf_calls := cs |} u).
  { intros u Hne (q & Hq & Hw). destruct (inv_exclusive _ t u p q Hi) as (_ & _ & H & _); try done.
    apply H. split; [done|]. now destruct q. }
  assert (Hmine : forall u, mine u (sentLog s ++ [e]) = mine u (sentLog s) ++ (if decide (u = t) then [e] else [])).
  { intros u. rewrite mine_app, mine_single, Hby. repeat case_decide; congruence. }
  split; cbn; rewrite ?Elog; try done.
  - intros u q. rewrite Hmine. destruct (decide (u = t)) as [->|Hne];
      [rewrite lookup_insert_eq|rewrite lookup_insert_ne, app_nil_r by done];
      intros Hq; simplify_eq; eauto.
  - intros x Hx. apply elem_of_app in Hx as [Hx|Hx%list_elem_of_singleton];
      (destruct (decide (sr_by x = t)) as [->|Hne]; [rewrite lookup_insert_eq|rewrite lookup_insert_ne by done]);
      eauto. congruence.
  - apply grouped_snoc; [done|]. rewrite Hby. destruct Hcase as [[H _]|[-> _]]; [|left; apply Hpr0].
    apply Ol. now exists p.
  - intros u Hu. right. rewrite last_snoc. cbn.
    apply (somewhere_insert _ s) in Hu as [[-> _]|[Hne Hu]]; [now rewrite Hby|]. now apply Hother in Hu.
  - destruct Hcase as [(Hw & Hma & Hty)|[-> ->]].
    + destruct Oa as [H|(_ & _ & H3)]; [left|]; [|exfalso; apply (proj1 (H3 t)); now exists p].
      apply Forall_app. split; [done|]. constructor; [|constructor]. rewrite Hty. discriminate.
    + destruct Oa as [H|(_ & _ & H3)]; [right|exfalso; apply (proj2 (H3 t)); now exists ClAlert].
      split; [now apply alert_last_snoc|]. split.
      { apply Hcl. destruct (cv_local _ Hi t _ Hp) as (_ & _ & _ & L4 & _). now apply L4. }
      intros u. split; intros Hu; apply (somewhere_insert _ s) in Hu as [[-> Hu]|[Hne Hu]]; try done.
      * now apply Hother in Hu.
      * destruct Hu as (q & Hq & Hma). destruct (inv_exclusive _ t u ClAlert q Hi) as (_ & _ & _ & H'); try done.
        apply H'. split; [done|]. now destruct q.
Qed.

Lemma order_inv_step c c' : conc_inv c -> order_inv c -> step c c' -> order_inv c'.
Proof.
  intros Hi Ho Hs. destruct Hs as [c1 c2 [t p s s' p' ths cs Hp Hs]|t k s ths cs Ht Hk|s s' ths cs He].
  - destruct (oi_calls _ Ho t p Hp) as (k & Hk & Hpr). pose proof (cv_local _ Hi t p Hp) as Hloc.
    pose proof (cv_layer _ Hi) as Hl.
    destruct (tstep_post t s p s' p' Hloc Hl (cv_hs _ Hi) Hs (cv_open _ Hi)) as (_ & _ & _ & HF).
    pose proof (sf_closed _ _ _ _ _ HF) as Hcl.
    destruct (tstep_order k t s p s' p' Hloc Hl Hpr Hs); eauto using order_inv_quiet, order_inv_sends.
  - destruct Ho as [Oc Ok Og Ol Oa]. cbn in *.
    assert (Hnone : mine t (sentLog s) = []).
    { apply mine_none. intros e He <-. destruct (Ok e He). congruence. }
    assert (Hback : forall P u, P (start k) = false ->
      somewhere P {| cf_sh := s; cf_threads := <[t := start k]> ths; cf_calls := <[t := k]> cs |} u ->
      somewhere P {| cf_sh := s; cf_threads := ths; cf_calls := cs |} u).
    { intros P u HP Hu. apply (somewhere_insert _ s) in Hu as [[-> Hu]|[_ Hu]]; [congruence|done]. }
    split; cbn; try done.
    + intros u q. destruct (decide (u = t)) as [->|Hne];
        [rewrite !lookup_insert_eq|rewrite !lookup_insert_ne by done]; intros Hq; simplify_eq; [|eauto].
      exists k. split; [done|]. rewrite Hnone. now destruct k.
    + intros e He. destruct (decide (sr_by e = t)) as [->|Hne];
        [rewrite lookup_insert_eq|rewrite lookup_insert_ne by done]; eauto.
    + intros u Hu. apply Ol. apply Hback in Hu; [done|now destruct k].
    + destruct Oa as [H|(H1 & H2 & H3)]; [now left|right]. split; [done|]. split; [done|].
      intros u. split; intros Hu; apply Hback in Hu; try (now destruct k).
      * now apply (proj1 (H3 u)).
      * now apply (proj2 (H3 u)).
  - destruct (env_step_frame s s' He) as (_ & _ & _ & El & w & Ec).
    destruct Ho as [Oc Ok Og Ol Oa]. split; cbn in *; rewrite ?El, ?Ec; done.
Qed.

Lemma order_inv_initial c : order_inv (initial c).
Proof.
  split; cbn; try done.
  - intros e He. now apply not_elem_of_nil in He.
  - intros l1 e l2 e' l3 E. now destruct l1.
  - now intros t (p & Hp & _).
  - left. constructor.
Qed.

(** ** What the peer reads *)

Definition sentRecords (log : list sentRecord) : list (Z * bytes) :=
  map (fun e => (sr_type e, sr_payload e)) log.

(** As long as no write has failed. *)
Definition delivery (l0 : Layer AnyProtector) (s : shared) : Prop :=
  Forall (fun e => sr_ok e = true) (sentLog s) ->
  delivered l0 (sentRecords (sentLog s)) (cn_layer (sh_conn s)).

Lemma delivery_ext l0 s s' : send_state s' = send_state s -> delivery l0 s -> delivery l0 s'.
Proof.
  unfold send_state, delivery. intros E H. injection E as E1 E2 E3 E4. rewrite E4. intros Hok.
  eapply delivered_ext; [reflexivity| |exact (H Hok)]. unfold send_view. congruence.
Qed.

Lemma delivery_snoc l0 s ct payload l t :
  layer_ok (cn_layer (sh_conn s)) -> delivery l0 s ->
  WriteRecord ct payload (cn_layer (sh_conn s)) = (Ok tt, l) ->
  delivery l0 (sh_set_conn (cn_set_layer l (sh_conn s))
    (sh_log {| sr_by := t; sr_type := ct; sr_payload := payload; sr_ok := true |} s)).
Proof.
  intros Hl Hd HW Hok. cbn in Hok. apply Forall_app in Hok as [Hok _].
  unfold sentRecords. cbn. rewrite map_app. eapply delivered_snoc; [exact (Hd Hok)|exact Hl|exact HW].
Qed.

(** A failed write ends the promise. *)
Lemma delivery_failed l0 s c e : sr_ok e = false -> delivery l0 (sh_set_conn c (sh_log e s)).
Proof. intros He Hok. cbn in Hok. apply Forall_app in Hok as [_ Hok]. inversion Hok. congruence. Qed.

Lemma tstep_delivers l0 t s p s' p' :
  local t s p -> layer_ok (cn_layer (sh_conn s)) -> in_once p = false ->
  tstep t s p = Some (s', p') -> delivery l0 s -> delivery l0 s'.
Proof.
  intros Hloc Hl Ho Hs Hd. destruct (uses_send p) eqn:Eu.
  2:{ destruct (tstep_touches t s p s' p' Hloc Hl Hs) as (_ & H & _). exact (delivery_ext l0 s s' (H Eu) Hd). }
  destruct p; try done; cbn [tstep] in Hs; cbv zeta in Hs; unfold onConnLayer, zoom in Hs.
  - destruct (0 <? len b); [|now simplify_eq]. destruct (ioReady s); [|done].
    destruct (WriteRecord _ _ (cn_layer (sh_conn s))) as [[[]|e|x] l] eqn:EW; injection Hs as <- <-;
      auto using delivery_snoc, delivery_failed.
  - destruct (WriteRecord _ _ (cn_layer (sh_conn s))) as [[[]|e|x] l] eqn:EW; injection Hs as <- <-;
      auto using delivery_snoc, delivery_failed.
Qed.

Definition delivery_inv (l0 : Layer AnyProtector) (cf : config) : Prop :=
  handshakeDone (sh_conn (cf_sh cf)) = true /\ delivery l0 (cf_sh cf).

Lemma delivery_inv_step l0 c c' : conc_inv c -> delivery_inv l0 c -> step c c' -> delivery_inv l0 c'.
Proof.
  intros Hi [Hdone Hd] Hs. destruct Hs as [c1 c2 [t p s s' p' ths cs Hp Hs]|t k s ths cs Ht Hk|s s' ths cs He].
  - pose proof (cv_local _ Hi t p Hp) as Hloc. pose proof (cv_layer _ Hi) as Hl. cbn in *.
    destruct (tstep_post t s p s' p' Hloc Hl (cv_hs _ Hi) Hs (cv_open _ Hi)) as (_ & _ & _ & HF).
    assert (Ho : in_once p = false).
    { destruct (in_once p) eqn:E; [|done]. destruct Hloc as (L1 & _). destruct (L1 E). congruence. }
    destruct (sf_done _ _ _ _ _ HF) as (E & _); [now left|]. split; cbn; [congruence|].
    eapply tstep_delivers; eauto.
  - done.
  - destruct He as (w & st & Etx & ->). split; [exact Hdone|]. cbn in *.
    eapply delivery_ext; [|exact Hd]. unfold send_state. cbn. now rewrite Etx.
Qed.

End Order.

(** * Properties *)

Section Properties.
Context {C : Primitives} {CL : PrimitiveLaws C} {K : KexLib} {KL : KexLaws K} {X : X509}
  {PM : PEM} {PML : PEMLaws PM}.

(** C14. [Write] is atomic and close_notify is last: in every interleaving of calls
    on a connection the records a [Write] sends are adjacent in the stream, in the
    order of its argument; when it returns without an error they carry exactly its
    argument, in pieces of 1 to 2^14 bytes, and otherwise the prefix it reports,
    with at most one record that failed after it; no record follows a close_notify. *)
Theorem writes_atomic c cf :
  conn_inv c -> rtc step (initial c) cf ->
  let log := sentLog (cf_sh cf) in
  grouped log /\ alert_last log /\
  forall t b r, cf_calls cf !! t = Some (CWrite b) -> cf_threads cf !! t = Some (Fin r) ->
    exists out, r = OWrite out /\ written b (mine t log) out.
Proof.
  intros Hc Hr. destruct (steps_inv order_inv c cf Hc (order_inv_initial c)) as [_ [Oc Ok Og Ol Oa]];
    [exact order_inv_step|done|]. cbn. split; [done|]. split.
  - destruct Oa as [Hf|[H _]]; [|done]. intros l1 e l2 E He. rewrite E in Hf.
    apply Forall_app in Hf as [_ Hf]. inversion Hf. done.
  - intros t b r Hk Hp. destruct (Oc t _ Hp) as (k & Hk' & Hpr). simplify_eq.
    destruct r; cbn in Hpr; [destruct Hpr; done|destruct Hpr as [[? ?] _]; done| |destruct Hpr; done].
    destruct Hpr as (b' & E & Hw). simplify_eq. eauto.
Qed.

(** C24. Concurrent writers deliver: on a connection past its handshake, after any
    interleaving of calls in which no write failed, a peer whose receive side was
    in step with the connection's send side and that gets the bytes sent since
    reads exactly the records of the log, in order, and is in step again. *)
Theorem concurrent_delivery c cf :
  conn_inv c -> ready c -> rtc step (initial c) cf ->
  Forall (fun e => sr_ok e = true) (sentLog (cf_sh cf)) ->
  delivered (cn_layer c) (sentRecords (sentLog (cf_sh cf))) (cn_layer (sh_conn (cf_sh cf))).
Proof.
  intros Hc [Hl [Hdone _] _] Hr.
  destruct (steps_inv (delivery_inv (cn_layer c)) c cf Hc) as [_ [_ H]]; [|apply delivery_inv_step|done|exact H].
  split; [done|]. intros _. apply delivered_nil.
Qed.

End Properties.
