(* ===== verification/ThreadProgress.v ===== *)
(** * Goroutines on one connection: calls return

    Every step of a goroutine lowers a measure of the work left ([work]), and once
    the connection is being closed some goroutine can always move: every call
    returns.  A goroutine that runs alone is the sequential operation of [Conn]. *)

From Stdlib Require Import ZArith Lia.
From stdpp Require Import base list strings gmap relations.
From S2P Require Import Prelude Errors Primitives State Layer Protectors Suites KeyExchange Certs Client ClientProofs Conn ConnProofs Threads ThreadProofs ThreadOrder.

Open Scope Z_scope.

(** ** The work left *)

Definition readWork : nat := Z.to_nat maxEmptyRecords + 4.
Definition writeWork (b : bytes) : nat := length b + 4.

Definition afterHandshake (k : call) : nat :=
  match k with CRead _ => readWork | CWrite b => writeWork b | _ => 0 end.

Definition work (p : pc) : nat :=
  match p with
  | HsEnter k => afterHandshake k + 5
  | HsLoad k => afterHandshake k + 4
  | HsRun k => afterHandshake k + 3
  | HsStore k _ => afterHandshake k + 2
  | HsRet k => afterHandshake k + 1
  | RdLock _ => readWork
  | RdCheck _ => Z.to_nat maxEmptyRecords + 3
  | RdLoop _ k => Z.to_nat (maxEmptyRecords - k) + 2
  | WrLock b => writeWork b
  | WrCheck b => length b + 3
  | WrLoop b _ => length b + 2
  | RdUnlock _ | WrUnlock _ => 1
  | ClSwap => 6 | ClLoad => 5 | ClTry => 4 | ClAlert => 3 | ClUnlock => 2 | ClClose => 1
  | Fin _ => 0
  end.

Lemma work_zero p : work p = 0%nat -> exists o, p = Fin o.
Proof. destruct p; cbn; unfold readWork, writeWork; intros; try lia. eauto. Qed.

Definition totalWork (ths : gmap tid pc) : nat := map_fold (fun _ p n => work p + n)%nat 0%nat ths.

Lemma totalWork_lookup ths t p :
  ths !! t = Some p -> totalWork ths = (work p + totalWork (delete t ths))%nat.
Proof.
  intros Hp. unfold totalWork.
  apply (map_fold_delete_L (fun (_ : tid) p n => (work p + n)%nat) 0%nat t p ths); [intros; lia|done].
Qed.

Lemma totalWork_insert ths t p p' :
  ths !! t = Some p -> (work p' < work p)%nat -> (totalWork (<[t := p']> ths) < totalWork ths)%nat.
Proof.
  intros Hp Hlt. rewrite (totalWork_lookup ths t p Hp).
  rewrite (totalWork_lookup (<[t := p']> ths) t p') by apply lookup_insert_eq.
  rewrite delete_insert_eq. lia.
Qed.

Definition returned (cf : config) : Prop :=
  forall t p, cf_threads cf !! t = Some p -> exists o, p = Fin o.

(** The network moves, the goroutines stay. *)
Inductive net_step : config -> config -> Prop :=
| net_step_intro s s' ths cs :
    env_step s s' ->
    net_step {| cf_sh := s; cf_threads := ths; cf_calls := cs |}
             {| cf_sh := s'; cf_threads := ths; cf_calls := cs |}.

(** However the network moves and whichever goroutine runs next, some goroutine can
    run, until all have returned: every maximal execution of the calls at hand is
    finite and ends with every call returned. *)
Inductive finishes {C : Primitives} {K : KexLib} {X : X509} {PM : PEM} : config -> Prop :=
| finishes_returned cf : returned cf -> finishes cf
| finishes_step cf :
    (forall cf1, rtc net_step cf cf1 ->
       (exists cf', thread_step cf1 cf') /\ forall cf', thread_step cf1 cf' -> finishes cf') ->
    finishes cf.

(** A place of [Close]. *)
Definition in_close (p : pc) : bool :=
  match p with ClSwap | ClLoad | ClTry | ClAlert | ClUnlock | ClClose => true | _ => false end.

Section Progress.
Context {C : Primitives} {CL : PrimitiveLaws C} {K : KexLib} {KL : KexLaws K} {X : X509}
  {PM : PEM} {PML : PEMLaws PM}.

Lemma tstep_work t s p s' p' :
  local t s p -> layer_ok (cn_layer (sh_conn s)) -> tstep t s p = Some (s', p') -> (work p' < work p)%nat.
Proof.
  intros (_ & _ & _ & _ & L5) Hl Hs.
  destruct p; cbn [tstep] in Hs; cbv zeta in Hs;
    try (unfold readWork, writeWork in *; repeat case_match; simplify_eq; cbn; unfold readWork, writeWork; lia).
  - destruct L5 as (Hn & _ & Hk & Hb). destruct (ioReady s); [|done].
    pose proof (readTurn_wp n emptyRecords (sh_conn s) Hn Hl Hb) as Hw. unfold wp in Hw.
    destruct (readTurn n emptyRecords (sh_conn s)) as [[[d|]|e|x] c']; simplify_eq; cbn; try lia.
    destruct Hw as [Hk' _]. lia.
  - destruct (0 <? len b) eqn:Eb; [|simplify_eq; cbn; lia]. z_bool. destruct (ioReady s); [|done].
    destruct (writeChunk_split b Eb) as (rest & Er & Ed & Hc).
    destruct (onConnLayer _ _) as [[[]|e|x] c']; simplify_eq; cbn [work]; try lia.
    rewrite length_drop. unfold len in Hc, Eb. lia.
Qed.

(** [Close] never waits. *)
Lemma close_never_waits t s p : in_close p = true -> exists s' p', tstep t s p = Some (s', p').
Proof.
  intros H. destruct p; try done; cbn [tstep]; cbv zeta; repeat case_match; eauto.
Qed.

(** Who can move when the transport answers. *)
Lemma ready_moves t s p :
  ioReady s = true -> (in_once p || holds_in p || holds_out p) = true ->
  exists s' p', tstep t s p = Some (s', p').
Proof.
  intros Hr H. destruct p; try done; cbn [tstep]; cbv zeta; rewrite ?Hr; repeat case_match; eauto.
Qed.

Lemma some_moves cf t p :
  conc_inv cf -> cf_threads cf !! t = Some p -> (forall o, p <> Fin o) -> ioReady (cf_sh cf) = true ->
  exists u q s' q', cf_threads cf !! u = Some q /\ tstep u (cf_sh cf) q = Some (s', q').
Proof.
  intros Hi Hp Hf Hr.
  assert (Hown : forall P : pc -> bool, (forall q, P q = true -> (in_once q || holds_in q || holds_out q) = true) ->
    forall u, somewhere P cf u ->
    exists u q s' q', cf_threads cf !! u = Some q /\ tstep u (cf_sh cf) q = Some (s', q')).
  { intros P HP u (q & Hq & E). destruct (ready_moves u (cf_sh cf) q Hr (HP q E)) as (s' & q' & Hs). eauto 6. }
  destruct (tstep t (cf_sh cf) p) as [[s' p']|] eqn:Hs; [eauto 6|].
  destruct (in_close p) eqn:Ec; [destruct (close_never_waits t (cf_sh cf) p Ec) as (? & ? & ?); congruence|].
  destruct (in_once p || holds_in p || holds_out p) eqn:Eh;
    [destruct (ready_moves t (cf_sh cf) p Hr Eh) as (? & ? & ?); congruence|].
  destruct p; try done; cbn [tstep] in Hs; cbv zeta in Hs.
  - destruct (handshakeDone _); [done|]. destruct (onceRunning (cf_sh cf)) as [u|] eqn:E; [|done].
    apply (Hown in_once) with u; [intros q ->; done|]. exact (cv_once _ Hi u E).
  - destruct (inMu (cf_sh cf)) as [u|] eqn:E; [|done].
    apply (Hown holds_in) with u; [intros q ->; now rewrite orb_true_r|]. exact (cv_in _ Hi u E).
  - destruct (outMu (cf_sh cf)) as [u|] eqn:E; [|done].
    apply (Hown holds_out) with u; [intros q ->; now rewrite orb_true_r|]. exact (cv_out _ Hi u E).
  - now destruct (Hf o).
Qed.

(** The connection is closed, or a [Close] has been called. *)
Definition shutting_down (cf : config) : Prop :=
  closed (sh_conn (cf_sh cf)) = true \/ exists t, cf_threads cf !! t = Some ClSwap.

Lemma shutting_down_moves cf :
  conc_inv cf -> shutting_down cf -> ~ returned cf -> exists cf', thread_step cf cf'.
Proof.
  intros Hi Hsd Hnr.
  assert (Hgo : forall u q s' q', cf_threads cf !! u = Some q -> tstep u (cf_sh cf) q = Some (s', q') ->
    exists cf', thread_step cf cf').
  { intros u q s' q' Hq Hs. destruct cf as [s ths cs]. eexists. econstructor; eauto. }
  assert (Hclose : forall u q, cf_threads cf !! u = Some q -> in_close q = true -> exists cf', thread_step cf cf').
  { intros u q Hq E. destruct (close_never_waits u (cf_sh cf) q E) as (s' & q' & Hs). eauto. }
  destruct Hsd as [Hc|[t Ht]]; [|eapply Hclose; eauto; done].
  destruct (cv_closed _ Hi Hc) as [E|(u & q & Hq & E)]; [|apply (Hclose u q Hq); now destruct q].
  assert (Hr : ioReady (cf_sh cf) = true) by (unfold ioReady; rewrite E; apply orb_true_r).
  destruct (decide (map_Forall (fun _ p => work p = 0%nat) (cf_threads cf))) as [Hall|Hex].
  - exfalso. apply Hnr. intros t p Hp. apply work_zero, (Hall t p Hp).
  - apply map_not_Forall in Hex as (t & p & Hp & Hw); [|intros ? ?; apply _].
    destruct (some_moves cf t p Hi Hp) as (u & q & s' & q' & Hq & Hs); [|done|eauto].
    intros o ->. now apply Hw.
Qed.

Lemma net_steps_keep cf cf1 :
  rtc net_step cf cf1 -> conc_inv cf -> shutting_down cf ->
  conc_inv cf1 /\ shutting_down cf1 /\ cf_threads cf1 = cf_threads cf.
Proof.
  induction 1 as [|cf cf1 cf2 [s s' ths cs He] _ IH]; [done|]. intros Hi Hsd.
  destruct IH as (H1 & H2 & H3); [exact (conc_inv_env _ _ _ _ Hi He)| |done].
  destruct (env_step_frame s s' He) as (_ & _ & _ & _ & w & E).
  destruct Hsd as [Hc|Ht]; [left|right; done]. cbn in *. now rewrite E.
Qed.

Lemma shutting_down_finishes n cf :
  (totalWork (cf_threads cf) < n)%nat -> conc_inv cf -> shutting_down cf -> finishes cf.
Proof.
  revert cf. induction n as [|n IH]; intros cf Hn Hi Hsd; [lia|].
  destruct (decide (map_Forall (fun _ p => work p = 0%nat) (cf_threads cf))) as [Hall|Hex].
  { apply finishes_returned. intros t p Hp. apply work_zero, (Hall t p Hp). }
  apply finishes_step. intros cf1 Hnet.
  destruct (net_steps_keep cf cf1 Hnet Hi Hsd) as (Hi1 & Hsd1 & Eth). split.
  - apply shutting_down_moves; [done|done|]. intros Hret. apply Hex. intros t p Hp.
    rewrite <- Eth in Hp. destruct (Hret t p Hp) as [o ->]. done.
  - intros cf' Hs. apply IH; [|exact (conc_inv_thread _ _ Hi1 Hs)|].
    + destruct Hs as [t p s s' p' ths cs Hp Hs]. cbn in *. subst ths.
      pose proof (totalWork_insert (cf_threads cf) t p p' Hp
        (tstep_work t s p s' p' (cv_local _ Hi1 t p Hp) (cv_layer _ Hi1) Hs)). lia.
    + destruct Hs as [t p s s' p' ths cs Hp Hs].
      destruct (tstep_post t s p s' p' (cv_local _ Hi1 t p Hp) (cv_layer _ Hi1) (cv_hs _ Hi1) Hs (cv_open _ Hi1))
        as (_ & _ & _ & HF).
      destruct Hsd1 as [Hc|[u Hu]]; [left; cbn in *; eapply sf_closed; eauto|].
      cbn in Hu. destruct (decide (u = t)) as [->|Hne].
      * left. simplify_eq. cbn [tstep] in Hs. cbv zeta in Hs. cbn.
        destruct (closed (sh_conn s)) eqn:Ec; simplify_eq; done.
      * right. exists u. cbn. now rewrite lookup_insert_ne.
Qed.

(** ** One goroutine alone *)

(** The sequential meaning of a call, as in [Conn]. *)
Definition seqCall (k : call) (c : Conn) : outcome * Conn :=
  match k with
  | CHandshake => let '(r, c') := connHandshake c in (OHandshake r, c')
  | CRead n => let '(r, c') := connRead n c in (ORead r, c')
  | CWrite b => let '(r, c') := connWrite b c in (OWrite r, c')
  | CClose => let '(r, c') := connClose false c in (OClose r, c')
  end.

(** One goroutine running alone. *)
Definition solo (t : tid) (x y : shared * pc) : Prop := tstep t (fst x) (snd x) = Some y.

Lemma solo_step t s p s' p' : tstep t s p = Some (s', p') -> rtc (solo t) (s, p) (s', p').
Proof. intros H. now apply rtc_once. Qed.

Lemma solo_cons t s p s' p' y : tstep t s p = Some (s', p') -> rtc (solo t) (s', p') y -> rtc (solo t) (s, p) y.
Proof. intros H. now apply rtc_l. Qed.

(** The state while [t] holds one of the locks. *)
Definition inside (o i w : option tid) (c : Conn) (log : list sentRecord) : shared :=
  {| sh_conn := c; onceRunning := o; inMu := i; outMu := w; stalled := false; sentLog := log |}.

Ltac open_step :=
  unfold tstep, ioReady; cbv zeta;
  cbn [sh_conn onceRunning inMu outMu stalled idle inside sh_set_conn sh_set_once sh_set_in sh_set_out
       sh_log negb orb].

Lemma solo_handshake t c log k :
  layer_ok (cn_layer c) ->
  exists c1, rtc (solo t) (idle c log, HsEnter k) (idle c1 log, HsRet k) /\ layer_ok (cn_layer c1) /\
    connHandshake c = (match handshakeErr c1 with Some e => Err e | None => Ok tt end, c1).
Proof.
  intros Hl. unfold connHandshake, bindM at 1, get. cbv beta.
  destruct (handshakeDone c) eqn:Hd.
  { exists c. split; [|split; [done|]].
    - apply solo_step. open_step. now rewrite Hd.
    - unfold bindM, ret, get. cbn. destruct (handshakeErr c); reflexivity. }
  destruct (closed c) eqn:Hc.
  { exists (cn_set_handshake (Some errConnClosed) c). split; [|split; [done|reflexivity]].
    eapply solo_cons; [open_step; now rewrite Hd|].
    eapply solo_cons; [open_step; rewrite Hc; reflexivity|].
    apply solo_step. reflexivity. }
  pose proof (doHandshake_wp c Hl) as Hw. unfold wp in Hw.
  unfold bindM at 1. unfold bindM at 1. unfold errOf, catch, bindM at 1, ret.
  destruct (doHandshake c) as [[[]|e|x] c'] eqn:E; [| |done]; [exists (cn_set_handshake None c')|exists (cn_set_handshake (Some e) c')];
    (split; [|split; [apply Hw|reflexivity]]);
    (eapply solo_cons; [open_step; now rewrite Hd|]);
    (eapply solo_cons; [open_step; rewrite Hc; reflexivity|]);
    (eapply solo_cons; [open_step; rewrite E; reflexivity|]);
    apply solo_step; reflexivity.
Qed.

Lemma solo_readLoop t log fuel n k c r c' :
  readLoop fuel n k c = (r, c') -> r <> Crash OutOfFuel ->
  rtc (solo t) (inside None (Some t) None c log, RdLoop n k) (inside None (Some t) None c' log, RdUnlock r).
Proof.
  revert k c. induction fuel as [|fuel IH]; intros k c E Hr; cbn [readLoop] in E.
  { injection E as <- <-. done. }
  unfold bindM in E. destruct (readTurn n k c) as [[[d|]|e|x] c1] eqn:ET.
  - injection E as <- <-. apply solo_step. open_step. now rewrite ET.
  - eapply solo_cons; [open_step; rewrite ET; reflexivity|]. now apply IH.
  - injection E as <- <-. apply solo_step. open_step. now rewrite ET.
  - injection E as <- <-. apply solo_step. open_step. now rewrite ET.
Qed.

Lemma solo_read t n c log r c' :
  layer_ok (cn_layer c) -> 0 <= n -> handshake_recorded None c -> connRead n c = (r, c') ->
  rtc (solo t) (idle c log, RdLock n) (idle c' log, Fin (ORead r)).
Proof.
  intros Hl Hn Hrec E. eapply solo_cons; [reflexivity|].
  etrans; [|apply (solo_step t (inside None (Some t) None c' log) (RdUnlock r)); reflexivity].
  change (sh_set_in (Some t) (idle c log)) with (inside None (Some t) None c log).
  unfold connRead, bindM at 1 in E. rewrite (connHandshake_recorded None c Hrec) in E.
  unfold bindM at 1, get in E.
  destruct (closed c) eqn:Hc; [injection E as <- <-; apply solo_step; open_step; now rewrite Hc|].
  destruct (0 <? len (readBuf c)) eqn:Eb.
  - z_bool. unfold bindM, lift in E. rewrite slice_to, slice_from in E by lia. injection E as <- <-.
    apply solo_step. open_step. now rewrite Hc, (proj2 (Z.ltb_lt _ _) Eb).
  - assert (Hb : readBuf c = []) by (z_bool; apply len_zero_nil; len_lia).
    destruct (readErr c) as [e|] eqn:He.
    { injection E as <- <-. apply solo_step. open_step. now rewrite Hc, Eb, He. }
    eapply solo_cons; [open_step; rewrite Hc, Eb, He; reflexivity|].
    eapply solo_readLoop; [exact E|]. intros ->.
    pose proof (readLoop_wp (Z.to_nat (maxEmptyRecords + 2)) n 0 c) as Hw. unfold wp in Hw.
    rewrite E in Hw. apply Hw; unfold maxEmptyRecords; (done || lia).
Qed.

Lemma solo_writeLoop t fuel b w c log r c' :
  writeLoop fuel b w c = (r, c') -> r <> Crash OutOfFuel ->
  exists log', rtc (solo t) (inside None None (Some t) c log, WrLoop b w)
      (inside None None (Some t) c' log', WrUnlock r).
Proof.
  revert b w c log. induction fuel as [|fuel IH]; intros b w c log E Hr; cbn [writeLoop] in E.
  { injection E as <- <-. done. }
  destruct (0 <? len b) eqn:Eb.
  2:{ injection E as <- <-. exists log. apply solo_step. open_step. now rewrite Eb. }
  assert (Hchunk : (if maxChunk <? len b then lift (slice b 0 maxChunk) else ret b) c = (Ok (writeChunk b), c)).
  { unfold writeChunk, lift. change maxChunk with 16384. destruct (16384 <? len b) eqn:Em; [|done]. z_bool.
    now rewrite slice_to by lia. }
  z_bool. destruct (writeChunk_split b Eb) as (rest & Er & Ed & Hlen).
  assert (Hle : len (writeChunk b) <= len b).
  { apply (f_equal len) in Er. rewrite len_app in Er. pose proof (len_nonneg rest). lia. }
  unfold bindM at 1 in E. rewrite Hchunk in E. unfold bindM at 1, errOf, catch in E. unfold bindM at 1 in E.
  destruct (onConnLayer (WriteRecord ContentTypeApplicationData (writeChunk b)) c) as [[[]|e|x] c1] eqn:EW.
  - unfold ret, bindM, lift in E. rewrite slice_from in E by lia.
    rewrite to_nat_len, Ed in E.
    edestruct (IH rest (w + len (writeChunk b)) c1) as (log' & H); [exact E|done|].
    exists log'. eapply solo_cons; [|exact H].
    open_step. rewrite (proj2 (Z.ltb_lt _ _) Eb), EW, Ed. reflexivity.
  - unfold ret in E. injection E as <- <-. eexists. apply solo_step. open_step.
    rewrite (proj2 (Z.ltb_lt _ _) Eb), EW. reflexivity.
  - unfold ret in E. injection E as <- <-. eexists. apply solo_step. open_step.
    rewrite (proj2 (Z.ltb_lt _ _) Eb), EW. reflexivity.
Qed.

Lemma solo_write t b c log r c' :
  layer_ok (cn_layer c) -> handshake_recorded None c -> connWrite b c = (r, c') ->
  exists log', rtc (solo t) (idle c log, WrLock b) (idle c' log', Fin (OWrite r)).
Proof.
  intros Hl Hrec E. unfold connWrite, bindM at 1, errOf, catch, bindM at 1 in E.
  rewrite (connHandshake_recorded None c Hrec) in E. unfold ret, bindM at 1, get in E.
  assert (H : exists log', rtc (solo t) (inside None None (Some t) c log, WrCheck b)
    (inside None None (Some t) c' log', WrUnlock r)).
  { destruct (closed c) eqn:Hc.
    - injection E as <- <-. exists log. apply solo_step. open_step. now rewrite Hc.
    - pose proof (writeLoop_wp (S (length b)) b 0 c ltac:(lia) Hl) as Hw. unfold wp in Hw. rewrite E in Hw.
      destruct (solo_writeLoop t _ _ _ _ log _ _ E) as (log' & H); [now intros ->|].
      exists log'. eapply solo_cons; [open_step; rewrite Hc; reflexivity|exact H]. }
  destruct H as [log' H]. exists log'. eapply solo_cons; [reflexivity|].
  etrans; [exact H|]. now apply solo_step.
Qed.

Lemma solo_close t c log r c' :
  layer_ok (cn_layer c) -> connClose false c = (r, c') ->
  exists log', rtc (solo t) (idle c log, ClSwap) (idle c' log', Fin (OClose r)).
Proof.
  intros Hl E. unfold connClose, bindM at 1, get in E. destruct (closed c) eqn:Hc.
  { injection E as <- <-. exists log. apply solo_step. open_step. now rewrite Hc. }
  unfold bindM at 1, modify at 1, bindM at 1 in E. cbv beta iota in E.
  change (handshakeOK (cn_set_closed c)) with (handshakeOK c) in E.
  assert (Hend : forall c1 log1, bindM (modify cn_closeTransport) (fun _ => let! c := get in ret (closeResult c)) c1
      = (r, c') -> rtc (solo t) (idle c1 log1, ClClose) (idle c' log1, Fin (OClose r))).
  { intros c1 log1 E1. injection E1 as <- <-. now apply solo_step. }
  destruct (handshakeOK c) eqn:Hok; cbn [andb negb] in E; unfold bindM at 1 in E.
  - unfold bindM at 1, errOf, catch, bindM at 1 in E.
    pose proof (WriteRecord_ok ContentTypeAlert closeNotify (cn_layer c) Hl) as Hw.
    destruct (onConnLayer _ _) as [[[]|e|x] c1] eqn:EW; cbv beta iota delta [ret] in E;
      unfold onConnLayer, zoom in EW; change (cn_layer (cn_set_closed c)) with (cn_layer c) in EW;
      fold closeNotify in EW;
      destruct (WriteRecord ContentTypeAlert closeNotify (cn_layer c)) as [[[]|e'|x'] l] eqn:EW'; try done;
      (eexists; (eapply solo_cons; [open_step; rewrite Hc; reflexivity|]);
       (eapply solo_cons; [open_step; change (handshakeOK (cn_set_closed c)) with (handshakeOK c); rewrite Hok; reflexivity|]);
       (eapply solo_cons; [reflexivity|]);
       (eapply solo_cons; [open_step; unfold onConnLayer, zoom;
          change (cn_layer (cn_set_closed c)) with (cn_layer c); rewrite EW'; reflexivity|]);
       (eapply solo_cons; [reflexivity|]); simplify_eq; apply Hend; exact E).
  - exists log. (eapply solo_cons; [open_step; rewrite Hc; reflexivity|]).
    (eapply solo_cons; [open_step; change (handshakeOK (cn_set_closed c)) with (handshakeOK c); rewrite Hok; reflexivity|]).
    apply Hend. exact E.
Qed.

(** A call's own part, once the handshake has been done. *)
Lemma connRead_after n c c1 :
  connHandshake c = (Ok tt, c1) -> handshake_recorded None c1 -> connRead n c = connRead n c1.
Proof.
  intros E Hr. unfold connRead. unfold bindM at 1. rewrite E. symmetry. unfold bindM at 1.
  now rewrite (connHandshake_recorded None c1 Hr).
Qed.

Lemma connWrite_after b c c1 :
  connHandshake c = (Ok tt, c1) -> handshake_recorded None c1 -> connWrite b c = connWrite b c1.
Proof.
  intros E Hr. unfold connWrite, errOf, catch, bindM. now rewrite E, (connHandshake_recorded None c1 Hr).
Qed.

Lemma solo_call t k c log :
  layer_ok (cn_layer c) -> call_ok k ->
  exists log', rtc (solo t) (idle c log, start k) (idle (snd (seqCall k c)) log', Fin (fst (seqCall k c))).
Proof.
  intros Hl Hk. assert (Hcase : k = CClose \/ start k = HsEnter k) by (destruct k; auto).
  destruct Hcase as [->|Hstart].
  { unfold seqCall. destruct (connClose false c) as [r c'] eqn:EC.
    exact (solo_close t c log r c' Hl EC). }
  destruct (solo_handshake t c log k Hl) as (c1 & Hrun & Hl1 & EH).
  pose proof (connHandshake_wp c Hl) as Hw. unfold wp in Hw. rewrite EH in Hw.
  rewrite Hstart.
  destruct (handshakeErr c1) as [e|] eqn:He.
  - exists log. etrans; [exact Hrun|]. apply solo_step. open_step. rewrite He.
    destruct k; try done; unfold seqCall.
    + now rewrite EH.
    + assert (connRead n c = (Err e, c1)) as ->; [|done]. unfold connRead, bindM at 1. now rewrite EH.
    + assert (connWrite b c = (Ok (0, Some e), c1)) as ->; [|done].
      unfold connWrite, errOf, catch, bindM. now rewrite EH.
  - destruct Hw as (_ & _ & Hrec & _).
    assert (Hgo : forall p, tstep t (idle c1 log) (HsRet k) = Some (idle c1 log, p) ->
      (exists log', rtc (solo t) (idle c1 log, p) (idle (snd (seqCall k c)) log', Fin (fst (seqCall k c)))) ->
      exists log', rtc (solo t) (idle c log, HsEnter k) (idle (snd (seqCall k c)) log', Fin (fst (seqCall k c)))).
    { intros p Hs [log' H]. exists log'. etrans; [exact Hrun|]. eapply solo_cons; eauto. }
    destruct k; try done; (eapply Hgo; [open_step; rewrite He; reflexivity|]); unfold seqCall.
    + exists log. rewrite EH. reflexivity.
    + rewrite (connRead_after n c c1 EH Hrec). destruct (connRead n c1) as [r c'] eqn:ER. exists log.
      now apply solo_read.
    + rewrite (connWrite_after b c c1 EH Hrec). destruct (connWrite b c1) as [r c'] eqn:EW.
      now apply solo_write.
Qed.

Lemma solo_deterministic t x y z : rtc (solo t) x y -> rtc (solo t) x z -> (forall w, ~ solo t z w) -> rtc (solo t) y z.
Proof.
  intros H. revert z. induction H as [|x x1 y H1 _ IH]; [done|]. intros z Hz Hend.
  inversion Hz as [|? x2 ? H2 Hz']; subst; [now destruct (Hend x1)|].
  unfold solo in H1, H2. rewrite H1 in H2. injection H2 as <-. now apply IH.
Qed.

End Progress.

(** * Properties *)

Section Properties.
Context {C : Primitives} {CL : PrimitiveLaws C} {K : KexLib} {KL : KexLaws K} {X : X509}
  {PM : PEM} {PML : PEMLaws PM}.

(** C15. Closing a connection makes every call on it return: from any state in which
    the connection is closed or a [Close] has been called, even with a peer that
    stalls for ever, some goroutine can move until all have returned, and every
    order in which they run is finite; [Close] itself never waits for a lock or for
    another goroutine. *)
Theorem close_unblocks c cf :
  conn_inv c -> rtc step (initial c) cf -> shutting_down cf ->
  finishes cf /\ forall t s p, in_close p = true -> exists s' p', tstep t s p = Some (s', p').
Proof.
  intros Hc Hr Hsd. split; [|intros t s p; apply close_never_waits].
  destruct (steps_inv (fun _ => True) c cf Hc) as [Hi _]; [done..|].
  exact (shutting_down_finishes _ cf (Nat.lt_succ_diag_r _) Hi Hsd).
Qed.

(** C25. The interleaving model refines the sequential one: a goroutine that runs a
    call alone, on a connection nobody else uses, always reaches the end of the
    call, every partial run of it extends to that end, the answer and the
    connection are those of [connHandshake], [connRead], [connWrite] or
    [connClose], and it has released every lock. *)
Theorem solo_refines t k c log :
  layer_ok (cn_layer c) -> call_ok k ->
  exists log', let final := (idle (snd (seqCall k c)) log', Fin (fst (seqCall k c))) in
    rtc (solo t) (idle c log, start k) final /\
    forall y, rtc (solo t) (idle c log, start k) y -> rtc (solo t) y final.
Proof.
  intros Hl Hk. destruct (solo_call t k c log Hl Hk) as [log' H]. exists log'. split; [exact H|].
  intros y Hy. apply (solo_deterministic t _ y _ Hy H). now intros w.
Qed.

End Properties.
