(* ===== verification/ThreadRun.v ===== *)
(** * Goroutines in use

    Schedules of calls on the connection of [ConnRun]: two writers, a reader and a
    [Close] with a peer that stalls. *)

From Stdlib Require Import ZArith Lia.
From stdpp Require Import base list strings gmap relations.
From S2P Require Import Prelude Errors Messages Primitives State Layer Protectors Suites KeyExchange Certs Client ClientProofs ClientRun Conn ConnProofs ConnRun Threads ThreadProofs ThreadOrder ThreadProgress.

Open Scope Z_scope.

#[local] Existing Instance Toy.prims.
#[local] Existing Instance Toy.laws.
#[local] Existing Instance ToyKex.kex.
#[local] Existing Instance ToyKex.kexLaws.
#[local] Existing Instance toyPEM.
#[local] Existing Instance toyPEMLaws.

(** ** Schedules *)

Inductive sched := SCall (t : tid) (k : call) | SRun (t : tid) | SStall.

Definition callOkb (k : call) : bool := match k with CRead n => 0 <=? n | _ => true end.

Definition schedule1 (e : sched) (cf : config) : option config :=
  match e with
  | SCall t k =>
      match cf_threads cf !! t with
      | None => if callOkb k then
          Some {| cf_sh := cf_sh cf; cf_threads := <[t := start k]> (cf_threads cf);
                  cf_calls := <[t := k]> (cf_calls cf) |} else None
      | Some _ => None
      end
  | SRun t =>
      match cf_threads cf !! t with
      | None => None
      | Some p =>
          match tstep t (cf_sh cf) p with
          | Some (s', p') => Some {| cf_sh := s'; cf_threads := <[t := p']> (cf_threads cf); cf_calls := cf_calls cf |}
          | None => None
          end
      end
  | SStall =>
      let s := cf_sh cf in
      Some {| cf_sh := {| sh_conn := sh_conn s; onceRunning := onceRunning s; inMu := inMu s; outMu := outMu s;
                          stalled := true; sentLog := sentLog s |};
              cf_threads := cf_threads cf; cf_calls := cf_calls cf |}
  end.

Fixpoint schedule (es : list sched) (cf : config) : option config :=
  match es with
  | [] => Some cf
  | e :: es => match schedule1 e cf with Some cf => schedule es cf | None => None end
  end.

Lemma schedule1_step e cf cf' : schedule1 e cf = Some cf' -> step cf cf'.
Proof.
  destruct cf as [s ths cs], e as [t k|t|]; cbn; intros H.
  - destruct (ths !! t) eqn:Ht; [done|]. destruct (callOkb k) eqn:Ek; [|done]. injection H as <-.
    apply step_call; [done|]. destruct k; cbn in *; try done. now apply Z.leb_le.
  - destruct (ths !! t) as [p|] eqn:Ht; [|done]. destruct (tstep t s p) as [[s' p']|] eqn:Hs; [|done].
    injection H as <-. apply step_thread. exact (thread_step_intro t p s s' p' ths cs Ht Hs).
  - injection H as <-. apply step_env. exists (rw (cn_layer (sh_conn s))), true. split; [done|].
    destruct s as [[] ? ? ? ? ?]. unfold cn_set_layer, set_rw. cbn. now destruct cn_layer.
Qed.

Lemma schedule_steps es cf cf' : schedule es cf = Some cf' -> rtc step cf cf'.
Proof.
  revert cf. induction es as [|e es IH]; intros cf H; cbn in H; [injection H as <-; reflexivity|].
  destruct (schedule1 e cf) as [cf1|] eqn:E; [|done]. eapply rtc_l; [exact (schedule1_step e cf cf1 E)|auto].
Qed.

(** The configuration a schedule ends in. *)
Definition after (es : list sched) (c : Conn) : config := default (initial c) (schedule es (initial c)).

Lemma after_steps es c : rtc step (initial c) (after es c).
Proof.
  unfold after. destruct (schedule es (initial c)) as [cf|] eqn:E; [now apply schedule_steps in E|reflexivity].
Qed.

Lemma theConn_inv : conn_inv theConn.
Proof. apply conn_inv_new. Qed.

Lemma openConn_inv : conn_inv openConn.
Proof. apply (conn_steps_inv theConn); [apply theConn_inv|]. apply rtc_once. exact (step_handshake _ _ _ theConn_run). Qed.

Definition runs (t : tid) (n : nat) : list sched := repeat (SRun t) n.

(** ** Witnesses *)

(** A reader runs the handshake, a writer waits for it. *)
Definition handshaking : list sched :=
  [SCall 1%nat (CRead 3); SCall 2%nat (CWrite (strBytes "hi"))] ++ runs 1%nat 2%nat.

Lemma race_free_witness :
  cf_threads (after handshaking theConn) !! 1%nat = Some (HsRun (CRead 3)) /\
  ~ (uses_send (HsRun (CRead 3)) = true /\ uses_send (HsEnter (CWrite (strBytes "hi"))) = true).
Proof.
  assert (H1 : cf_threads (after handshaking theConn) !! 1%nat = Some (HsRun (CRead 3))) by (vm_compute; reflexivity).
  split; [exact H1|].
  refine (proj1 (proj2 (proj1 (race_free theConn (after handshaking theConn) 1%nat (HsRun (CRead 3))
    theConn_inv (after_steps _ _) H1) 2%nat (HsEnter (CWrite (strBytes "hi"))) _ _))).
  - discriminate.
  - vm_compute. reflexivity.
Defined.

(** Two writers and a [Close]. *)
Definition writers : list sched :=
  [SCall 1%nat (CWrite (strBytes "hi")); SCall 2%nat (CWrite (strBytes "there")); SCall 3%nat CClose] ++
  runs 2%nat 3%nat ++ runs 1%nat 2%nat ++ runs 2%nat 4%nat ++ runs 1%nat 5%nat ++ runs 3%nat 6%nat.

Definition writersLog : list sentRecord := Eval vm_compute in sentLog (cf_sh (after writers openConn)).

Lemma writersLog_eq : sentLog (cf_sh (after writers openConn)) = writersLog.
Proof. vm_compute. reflexivity. Qed.

Lemma writes_atomic_witness :
  cf_threads (after writers openConn) !! 2%nat = Some (Fin (OWrite (Ok (5, None)))) /\
  written (strBytes "there") (mine 2%nat (sentLog (cf_sh (after writers openConn)))) (Ok (5, None)) /\
  map sr_by writersLog = [2; 1; 3]%nat.
Proof.
  assert (H1 : cf_threads (after writers openConn) !! 2%nat = Some (Fin (OWrite (Ok (5, None)))))
    by (vm_compute; reflexivity).
  split; [exact H1|]. split; [|reflexivity].
  destruct (writes_atomic openConn (after writers openConn) openConn_inv (after_steps _ _)) as (_ & _ & H).
  destruct (H 2%nat (strBytes "there") (OWrite (Ok (5, None)))) as (out & E & Hw).
  - vm_compute. reflexivity.
  - exact H1.
  - injection E as <-. exact Hw.
Defined.

Lemma concurrent_delivery_witness :
  sentRecords writersLog = [(23, strBytes "there"); (23, strBytes "hi"); (21, closeNotify)] /\
  delivered (cn_layer openConn) (sentRecords writersLog)
    (cn_layer (sh_conn (cf_sh (after writers openConn)))).
Proof.
  split; [reflexivity|]. rewrite <- writersLog_eq.
  apply (concurrent_delivery openConn (after writers openConn) openConn_inv openConn_ready (after_steps _ _)).
  rewrite writersLog_eq. repeat constructor.
Defined.

(** A reader waits for a peer that stalls; [Close] is called. *)
Definition stalledReader : list sched := [SCall 1%nat (CRead 3)] ++ runs 1%nat 4%nat ++ [SStall; SCall 2%nat CClose].

Lemma close_unblocks_witness :
  (exists n k, cf_threads (after stalledReader openConn) !! 1%nat = Some (RdLoop n k)) /\
  finishes (after stalledReader openConn).
Proof.
  split; [exists 3, 0; vm_compute; reflexivity|].
  apply (close_unblocks openConn (after stalledReader openConn) openConn_inv (after_steps _ _)).
  right. exists 2%nat. vm_compute. reflexivity.
Defined.

Lemma seqCall_read n c r c' : connRead n c = (r, c') -> seqCall (CRead n) c = (ORead r, c').
Proof. intros E. unfold seqCall. now rewrite E. Qed.

Lemma openConn_read : exists c', connRead 3 openConn = (Ok (strBytes "hel"), c').
Proof.
  assert (E : fst (connRead 3 openConn) = Ok (strBytes "hel")) by (vm_compute; reflexivity).
  destruct (connRead 3 openConn) as [r c']. cbn [fst] in E. subst r. now exists c'.
Qed.

Lemma solo_refines_witness :
  exists c' log', connRead 3 openConn = (Ok (strBytes "hel"), c') /\
    rtc (solo 1%nat) (idle openConn [], start (CRead 3)) (idle c' log', Fin (ORead (Ok (strBytes "hel")))).
Proof.
  destruct openConn_read as [c' E].
  destruct (solo_refines 1%nat (CRead 3) openConn []) as (log' & H & _).
  - exact (ci_layer _ openConn_inv).
  - cbn. lia.
  - cbv zeta in H. rewrite (seqCall_read _ _ _ _ E) in H. exists c', log'. split; [exact E|exact H].
Defined.
