(* ===== verification/DialRace.v ===== *)
(** * The dialer's two goroutines ([dialer_default.go])

    [handshakeContext] as it runs: the caller's goroutine and the one it starts to
    watch the context, with the channels [done] and [interrupt] between them, the
    transport's deadline, the clock and the context.  [Conn.handshakeContext] takes
    what came through [interrupt] as an argument; here that value is decided by the
    race, and the two are shown to agree. *)

From Stdlib Require Import ZArith Lia.
From stdpp Require Import base list strings gmap relations.
From S2P Require Import Prelude Errors Primitives State Layer Protectors Suites KeyExchange Certs Client ClientProofs Conn ConnProofs.

Open Scope Z_scope.

(** The caller: each constructor is the next thing it does. *)
Inductive mainPc :=
| MDeadline                            (* ctx.Deadline, c.conn.SetDeadline *)
| MGo                                  (* make, make, go *)
| MHandshake                           (* c.Handshake *)
| MClose (err : option error)          (* close(done) *)
| MRecv (err : option error)           (* <-interrupt *)
| MReturn (r : result unit)            (* the deferred c.conn.SetDeadline(time.Time{}) *)
| MFin (r : result unit).

(** The goroutine that watches the context. *)
Inductive watchPc :=
| WOff
| WSelect
| WDeadline                            (* c.conn.SetDeadline(time.Now()) *)
| WSend (v : option error)             (* interrupt <- v *)
| WDone.

(** [d_ctxErr] is [ctx.Err()], [None] while the context has not ended; a deadline of
    the transport that is not set is [None]. *)
Record dialState := {
  d_conn : Conn;
  d_main : mainPc;
  d_watch : watchPc;
  d_done : bool;
  d_interrupt : option (option error);
  d_deadline : option Z;
  d_clock : Z;
  d_ctxErr : option error;
  d_stalled : bool
}.

Definition d_set_main (p : mainPc) (d : dialState) : dialState :=
  {| d_conn := d_conn d; d_main := p; d_watch := d_watch d; d_done := d_done d;
     d_interrupt := d_interrupt d; d_deadline := d_deadline d; d_clock := d_clock d;
     d_ctxErr := d_ctxErr d; d_stalled := d_stalled d |}.
Definition d_set_conn (c : Conn) (d : dialState) : dialState :=
  {| d_conn := c; d_main := d_main d; d_watch := d_watch d; d_done := d_done d;
     d_interrupt := d_interrupt d; d_deadline := d_deadline d; d_clock := d_clock d;
     d_ctxErr := d_ctxErr d; d_stalled := d_stalled d |}.
Definition d_set_watch (p : watchPc) (d : dialState) : dialState :=
  {| d_conn := d_conn d; d_main := d_main d; d_watch := p; d_done := d_done d;
     d_interrupt := d_interrupt d; d_deadline := d_deadline d; d_clock := d_clock d;
     d_ctxErr := d_ctxErr d; d_stalled := d_stalled d |}.
Definition d_close_done (d : dialState) : dialState :=
  {| d_conn := d_conn d; d_main := d_main d; d_watch := d_watch d; d_done := true;
     d_interrupt := d_interrupt d; d_deadline := d_deadline d; d_clock := d_clock d;
     d_ctxErr := d_ctxErr d; d_stalled := d_stalled d |}.
Definition d_set_interrupt (v : option (option error)) (d : dialState) : dialState :=
  {| d_conn := d_conn d; d_main := d_main d; d_watch := d_watch d; d_done := d_done d;
     d_interrupt := v; d_deadline := d_deadline d; d_clock := d_clock d;
     d_ctxErr := d_ctxErr d; d_stalled := d_stalled d |}.
Definition d_set_deadline (t : option Z) (d : dialState) : dialState :=
  {| d_conn := d_conn d; d_main := d_main d; d_watch := d_watch d; d_done := d_done d;
     d_interrupt := d_interrupt d; d_deadline := t; d_clock := d_clock d;
     d_ctxErr := d_ctxErr d; d_stalled := d_stalled d |}.

(** A transport call returns when the peer goes on or the deadline has passed. *)
Definition dialReady (d : dialState) : bool :=
  negb (d_stalled d) || match d_deadline d with Some t => t <=? d_clock d | None => false end.

Section Dial.
Context {C : Primitives} {K : KexLib} {X : X509} {PM : PEM}.

(** A step of the caller; [ctxDeadline] is [ctx.Deadline()]. *)
Definition mainStep (ctxDeadline : option Z) (d : dialState) : option dialState :=
  match d_main d with
  | MDeadline =>
      Some (d_set_main MGo
        (match ctxDeadline with Some t => d_set_deadline (Some t) d | None => d end))
  | MGo => Some (d_set_main MHandshake (d_set_watch WSelect d))
  | MHandshake =>
      if dialReady d then
        match connHandshake (d_conn d) with
        | (Ok _, c) => Some (d_set_main (MClose None) (d_set_conn c d))
        | (Err e, c) => Some (d_set_main (MClose (Some e)) (d_set_conn c d))
        | (Crash x, c) => Some (d_set_main (MFin (Crash x)) (d_set_conn c d))
        end
      else None
  | MClose err => Some (d_set_main (MRecv err) (d_close_done d))
  | MRecv err =>
      match d_interrupt d with
      | None => None
      | Some (Some ctxErr) => Some (d_set_main (MReturn (Err ctxErr)) (d_set_interrupt None d))
      | Some None =>
          Some (d_set_main (MReturn (match err with Some e => Err e | None => Ok tt end))
                  (d_set_interrupt None d))
      end
  | MReturn r =>
      Some (d_set_main (MFin r)
        (match ctxDeadline with Some _ => d_set_deadline None d | None => d end))
  | MFin _ => None
  end.

(** A step of the watcher; [pick] chooses between the cases of [select] that are
    ready: [true] for [ctx.Done()]. *)
Definition watchStep (pick : bool) (d : dialState) : option dialState :=
  match d_watch d with
  | WOff => None
  | WSelect =>
      if pick then match d_ctxErr d with Some _ => Some (d_set_watch WDeadline d) | None => None end
      else if d_done d then Some (d_set_watch (WSend None) d) else None
  | WDeadline =>
      Some (d_set_watch (WSend (d_ctxErr d)) (d_set_deadline (Some (d_clock d)) d))
  | WSend v =>
      match d_interrupt d with
      | None => Some (d_set_watch WDone (d_set_interrupt (Some v) d))
      | Some _ => None
      end
  | WDone => None
  end.

(** Time passes, the context ends, the peer sends or stalls. *)
Definition worldStep (d d' : dialState) : Prop :=
  exists w clock ctxErr st,
    tx w = tx (rw (cn_layer (d_conn d))) /\ d_clock d <= clock /\
    (d_ctxErr d <> None -> ctxErr = d_ctxErr d) /\
    d' = {| d_conn := cn_set_layer (set_rw w (cn_layer (d_conn d))) (d_conn d);
            d_main := d_main d; d_watch := d_watch d; d_done := d_done d;
            d_interrupt := d_interrupt d; d_deadline := d_deadline d; d_clock := clock;
            d_ctxErr := ctxErr; d_stalled := st |}.

Inductive goStep (dl : option Z) (d d' : dialState) : Prop :=
| go_main : mainStep dl d = Some d' -> goStep dl d d'
| go_watch pick : watchStep pick d = Some d' -> goStep dl d d'.

Definition dialStep (dl : option Z) (d d' : dialState) : Prop := goStep dl d d' \/ worldStep d d'.

(** [handshakeContext] is called, with a context whose [Done] channel is not nil. *)
Definition dialStart (c : Conn) (clock : Z) (ctxErr : option error) : dialState :=
  {| d_conn := c; d_main := MDeadline; d_watch := WOff; d_done := false; d_interrupt := None;
     d_deadline := None; d_clock := clock; d_ctxErr := ctxErr; d_stalled := false |}.

(** Both goroutines have ended. *)
Definition dialOver (d : dialState) : Prop := (exists r, d_main d = MFin r) /\ d_watch d = WDone.

(** Whatever the world does and whoever runs next, someone can run until both
    goroutines have ended, and every order is finite. *)
Inductive dialEnds (dl : option Z) : dialState -> Prop :=
| ends_over d : dialOver d -> dialEnds dl d
| ends_step d :
    (forall d1, rtc worldStep d d1 ->
       (exists d', goStep dl d1 d') /\ forall d', goStep dl d1 d' -> dialEnds dl d') ->
    dialEnds dl d.

End Dial.

(** ** The invariant *)

Section Proofs.
Context {C : Primitives} {CL : PrimitiveLaws C} {K : KexLib} {KL : KexLaws K} {X : X509}
  {PM : PEM} {PML : PEMLaws PM}.

(** The same connection with another world. *)
Definition moved (c c' : Conn) : Prop :=
  exists w, tx w = tx (rw (cn_layer c)) /\ c' = cn_set_layer (set_rw w (cn_layer c)) c.

Lemma moved_refl c : moved c c.
Proof. exists (rw (cn_layer c)). split; [done|]. destruct c as [? []]. done. Qed.

Lemma moved_trans c c1 c2 : moved c c1 -> moved c1 c2 -> moved c c2.
Proof. intros (w & E & ->) (w' & E' & ->). exists w'. split; [now rewrite E'|done]. Qed.

Lemma moved_ok c c' : moved c c' -> layer_ok (cn_layer c) -> layer_ok (cn_layer c').
Proof. intros (w & _ & ->) []. now split. Qed.

(** The connection a handshake of [c] left, the network having moved before and
    after it, and its error. *)
Definition shaken (c : Conn) (err : option error) (c' : Conn) : Prop :=
  exists c1 c2, moved c c1 /\ errOf connHandshake c1 = (Ok err, c2) /\ moved c2 c'.

(** The deadline the transport has, given what the watcher has seen. *)
Definition deadline_for (dl : option Z) (v : option error) (d : dialState) : Prop :=
  match v with
  | None => d_deadline d = dl
  | Some e => d_ctxErr d = Some e /\ exists t, d_deadline d = Some t /\ t <= d_clock d
  end.

(** Where the watcher stands and what the caller will find in [interrupt]. *)
Definition watching (dl : option Z) (d : dialState) : Prop :=
  match d_watch d with
  | WOff => False
  | WSelect => d_interrupt d = None /\ d_deadline d = dl
  | WDeadline => d_interrupt d = None /\ d_deadline d = dl /\ d_ctxErr d <> None
  | WSend v => d_interrupt d = None /\ deadline_for dl v d /\ (v = None -> d_done d = true)
  | WDone => exists v, d_interrupt d = Some v /\ deadline_for dl v d /\ (v = None -> d_done d = true)
  end.

(** The outcome [r] with [v] received and [err] from the handshake. *)
Definition outcomeOf (v err : option error) : result unit :=
  match v with
  | Some e => Err e
  | None => match err with Some e => Err e | None => Ok tt end
  end.

Definition dial_inv (dl : option Z) (c : Conn) (d : dialState) : Prop :=
  match d_main d with
  | MDeadline => d_watch d = WOff /\ d_done d = false /\ d_interrupt d = None /\ d_deadline d = None /\
      moved c (d_conn d)
  | MGo => d_watch d = WOff /\ d_done d = false /\ d_interrupt d = None /\ d_deadline d = dl /\
      moved c (d_conn d)
  | MHandshake => watching dl d /\ d_done d = false /\ moved c (d_conn d)
  | MClose err => watching dl d /\ d_done d = false /\ shaken c err (d_conn d)
  | MRecv err => watching dl d /\ d_done d = true /\ shaken c err (d_conn d)
  | MReturn r => d_watch d = WDone /\ d_interrupt d = None /\
      exists v err, deadline_for dl v d /\ shaken c err (d_conn d) /\ r = outcomeOf v err
  | MFin r => d_watch d = WDone /\ d_interrupt d = None /\
      exists v err, shaken c err (d_conn d) /\ r = outcomeOf v err /\
        match v with
        | None => d_deadline d = None
        | Some e => d_ctxErr d = Some e
        end
  end.

Lemma handshake_errOf c :
  layer_ok (cn_layer c) ->
  match connHandshake c with
  | (Ok _, c') => errOf connHandshake c = (Ok None, c')
  | (Err e, c') => errOf connHandshake c = (Ok (Some e), c')
  | (Crash _, _) => False
  end.
Proof.
  intros Hl. pose proof (connHandshake_wp c Hl) as Hw. unfold wp in Hw.
  unfold errOf, catch, bindM. destruct (connHandshake c) as [[[]|e|x] c']; done.
Qed.

Lemma main_inv dl c d d' :
  layer_ok (cn_layer c) -> dial_inv dl c d -> mainStep dl d = Some d' -> dial_inv dl c d'.
Proof.
  intros Hl Hi Hs. unfold dial_inv, mainStep in *. destruct (d_main d) eqn:Em.
  - injection Hs as <-. destruct Hi as (A & B & D & E & F). destruct dl; cbn; split_and!; done.
  - injection Hs as <-. cbn. destruct Hi as (A & B & D & E & F). unfold watching. cbn. split_and!; done.
  - destruct (dialReady d); [|done]. destruct Hi as (A & B & D).
    pose proof (handshake_errOf (d_conn d) (moved_ok _ _ D Hl)) as Hh.
    destruct (connHandshake (d_conn d)) as [[[]|e|x] c'] eqn:EH; [| |done]; injection Hs as <-; cbn;
      (split; [exact A|]; split; [exact B|]; exists (d_conn d), c'; split_and!;
       [done|exact Hh|apply moved_refl]).
  - injection Hs as <-. destruct Hi as (A & B & D). cbn. split; [|done].
    unfold watching in *. cbn. destruct (d_watch d); naive_solver.
  - destruct Hi as (A & B & D). unfold watching in A.
    destruct (d_interrupt d) as [v|] eqn:Ei; [|done].
    destruct (d_watch d) eqn:Ew; try (destruct A as [? _]; done); [done|].
    destruct A as (v' & [= <-] & A & _).
    destruct v as [e|]; injection Hs as <-; cbn; (split; [done|]; split; [done|]).
    + exists (Some e), err. done.
    + exists None, err. done.
  - injection Hs as <-. destruct Hi as (A & B & v & err & D & E & F). destruct dl as [t|]; cbn;
      (split; [done|]; split; [done|]; exists v, err; split; [done|]; split; [done|]);
      destruct v; cbn in *; try done; now destruct D.
  - done.
Qed.

Lemma watch_inv dl c d pick d' :
  dial_inv dl c d -> watchStep pick d = Some d' -> dial_inv dl c d'.
Proof.
  intros Hi Hs.
  assert (Hw : d_main d' = d_main d /\ d_conn d' = d_conn d /\ d_done d' = d_done d /\
    d_watch d <> WOff /\ d_watch d <> WDone /\ (watching dl d -> watching dl d')).
  { unfold watchStep, watching in *. destruct (d_watch d) as [| | |v|] eqn:Ew; [done| | | |done].
    - destruct pick; [destruct (d_ctxErr d) eqn:Ec; [|done]|destruct (d_done d) eqn:Ed; [|done]];
        injection Hs as <-; cbn; rewrite ?Ec, ?Ed; naive_solver.
    - injection Hs as <-. cbn. split_and!; try done. intros (A & B & D).
      destruct (d_ctxErr d) as [e|] eqn:Ec; [|done]. cbn. rewrite Ec. split_and!; try done.
      exists (d_clock d). split; [done|lia].
    - destruct (d_interrupt d) eqn:Ei; [done|]. injection Hs as <-. cbn. split_and!; try done.
      intros (A & B & D). exists v. split_and!; try done. }
  destruct Hw as (E1 & E2 & E3 & Hne & Hne' & Hw). unfold dial_inv in *. rewrite E1, E2, E3.
  destruct (d_main d); try (destruct Hi as (? & _); congruence); destruct Hi as (A & B); auto.
Qed.

Lemma world_inv dl c d d' : dial_inv dl c d -> worldStep d d' -> dial_inv dl c d'.
Proof.
  intros Hi (w & clock & ctxErr & st & Etx & Hclk & Hctx & ->).
  set (c' := cn_set_layer _ _).
  assert (Hm : moved (d_conn d) c') by now exists w.
  assert (Hsh : forall err, shaken c err (d_conn d) -> shaken c err c').
  { intros err (c1 & c2 & A & B & D). exists c1, c2. split_and!; [done|done|]. eapply moved_trans; eauto. }
  set (d' := {| d_conn := c'; d_main := _; d_watch := _; d_done := _; d_interrupt := _; d_deadline := _;
                d_clock := _; d_ctxErr := _; d_stalled := _ |}).
  assert (Hdl : forall v, deadline_for dl v d -> deadline_for dl v d').
  { intros [e|]; cbn; [|done]. intros (A & t & B & D). split; [rewrite <- A; apply Hctx; congruence|].
    exists t. split; [done|lia]. }
  assert (Hwt : watching dl d -> watching dl d').
  { unfold watching. cbn [d_watch d' d_interrupt d_deadline d_done d_ctxErr].
    destruct (d_watch d); try done.
    - intros (A & B & D). split_and!; try done. now rewrite Hctx.
    - intros (A & B & D). auto.
    - intros (v & A & B & D). exists v. auto. }
  unfold dial_inv in *. cbn [d_main d' d_conn d_watch d_done d_interrupt d_deadline d_ctxErr].
  destruct (d_main d).
  - destruct Hi as (A & B & D & E & F). split_and!; try done. eapply moved_trans; eauto.
  - destruct Hi as (A & B & D & E & F). split_and!; try done. eapply moved_trans; eauto.
  - destruct Hi as (A & B & D). split_and!; auto. eapply moved_trans; eauto.
  - destruct Hi as (A & B & D). split_and!; auto.
  - destruct Hi as (A & B & D). split_and!; auto.
  - destruct Hi as (A & B & v & err & D & E & F). split_and!; try done. exists v, err. auto.
  - destruct Hi as (A & B & v & err & D & E & F). split_and!; try done. exists v, err. split_and!; auto.
    destruct v; [|done]. rewrite <- F. apply Hctx. congruence.
Qed.

Lemma dial_inv_steps dl c d d' :
  layer_ok (cn_layer c) -> dial_inv dl c d -> rtc (dialStep dl) d d' -> dial_inv dl c d'.
Proof.
  intros Hl Hi Hr. induction Hr as [|d d1 d2 Hs _ IH]; [done|]. apply IH.
  destruct Hs as [[Hs|pick Hs]|Hs]; eauto using main_inv, watch_inv, world_inv.
Qed.

Lemma dial_inv_start dl c clock ctxErr : dial_inv dl c (dialStart c clock ctxErr).
Proof. cbn. split_and!; try done. apply moved_refl. Qed.

(** ** Both goroutines end *)

Definition mainWork (p : mainPc) : nat :=
  match p with
  | MDeadline => 6 | MGo => 5 | MHandshake => 4 | MClose _ => 3 | MRecv _ => 2 | MReturn _ => 1 | MFin _ => 0
  end.
Definition watchWork (p : watchPc) : nat :=
  match p with WOff => 4 | WSelect => 3 | WDeadline => 2 | WSend _ => 1 | WDone => 0 end.
Definition dialWork (d : dialState) : nat := mainWork (d_main d) + watchWork (d_watch d).

Lemma goStep_work dl d d' :
  goStep dl d d' -> (d_main d = MGo -> d_watch d = WOff) -> (dialWork d' < dialWork d)%nat.
Proof.
  intros Hs Hgo. unfold dialWork. destruct Hs as [Hs|pick Hs].
  - unfold mainStep in Hs. destruct (d_main d) eqn:Em;
      repeat case_match; simplify_eq; cbn; rewrite ?Hgo by done; cbn; lia.
  - unfold watchStep in Hs. destruct (d_watch d) eqn:Ew; repeat case_match; simplify_eq; cbn; lia.
Qed.

Lemma dial_moves dl c d :
  layer_ok (cn_layer c) -> dial_inv dl c d -> d_ctxErr d <> None -> ~ dialOver d ->
  exists d', goStep dl d d'.
Proof.
  intros Hl Hi Hctx Hno.
  assert (Hmain : forall d', mainStep dl d = Some d' -> exists d', goStep dl d d')
    by (intros d' H; exists d'; now left).
  assert (Hwatch : watching dl d -> d_watch d <> WDone -> exists d', goStep dl d d').
  { intros Hw Hne. unfold watching in Hw. destruct (d_ctxErr d) as [e|] eqn:Ec; [|done].
    destruct (d_watch d) eqn:Ew; try done.
    - eexists. apply (go_watch _ _ _ true). unfold watchStep. now rewrite Ew, Ec.
    - eexists. apply (go_watch _ _ _ true). unfold watchStep. now rewrite Ew.
    - eexists. apply (go_watch _ _ _ true). unfold watchStep. destruct Hw as [Hw _]. now rewrite Ew, Hw. }
  assert (Hdec : d_watch d = WDone \/ d_watch d <> WDone) by (destruct (d_watch d); auto).
  unfold dial_inv in Hi. unfold mainStep in Hmain. destruct (d_main d) eqn:Em; try (eapply Hmain; reflexivity).
  - destruct Hi as (Hw & Hd & Hm). destruct Hdec as [Ew|Ew]; [|auto]. unfold watching in Hw. rewrite Ew in Hw.
    destruct Hw as (v & _ & Hdl & Hdone). destruct v as [e|]; [|specialize (Hdone eq_refl); congruence].
    destruct Hdl as (_ & t & Ed & Ht).
    assert (Hr : dialReady d = true).
    { unfold dialReady. rewrite Ed, (proj2 (Z.leb_le _ _) Ht). apply orb_true_r. }
    rewrite Hr in Hmain. destruct (connHandshake (d_conn d)) as [[[]|e'|x] c']; eapply Hmain; reflexivity.
  - destruct Hi as (Hw & Hd & Hm). destruct Hdec as [Ew|Ew]; [|auto]. unfold watching in Hw. rewrite Ew in Hw.
    destruct Hw as (v & E & _). rewrite E in Hmain. destruct v; eapply Hmain; reflexivity.
  - exfalso. apply Hno. split; [eauto|apply Hi].
Qed.

Lemma world_steps_keep dl c d d1 :
  rtc worldStep d d1 -> dial_inv dl c d -> d_ctxErr d <> None ->
  dial_inv dl c d1 /\ d_ctxErr d1 <> None /\ d_main d1 = d_main d /\ d_watch d1 = d_watch d.
Proof.
  induction 1 as [|d d2 d3 Hs _ IH]; [done|]. intros Hi Hctx.
  pose proof (world_inv dl c d d2 Hi Hs) as Hi2.
  destruct Hs as (w & clock & ctxErr & st & _ & _ & Hc & ->). apply IH; [done|]. cbn. now rewrite Hc.
Qed.

Lemma goStep_ctx dl d d' : goStep dl d d' -> d_ctxErr d' = d_ctxErr d.
Proof.
  intros [Hs|pick Hs]; unfold mainStep, watchStep in Hs; repeat case_match; simplify_eq; done.
Qed.

Lemma dial_ends_n dl c n d :
  (dialWork d < n)%nat -> layer_ok (cn_layer c) -> dial_inv dl c d -> d_ctxErr d <> None -> dialEnds dl d.
Proof.
  revert d. induction n as [|n IH]; intros d Hn Hl Hi Hctx; [lia|].
  assert (Hdec : dialOver d \/ ~ dialOver d).
  { unfold dialOver. destruct (d_main d), (d_watch d); (left; split; eauto; fail) || (right; intros [[? ?] ?]; congruence). }
  destruct Hdec as [Hover|Hno]; [now apply ends_over|]. apply ends_step. intros d1 Hw.
  destruct (world_steps_keep dl c d d1 Hw Hi Hctx) as (Hi1 & Hctx1 & Em & Ew). split.
  - apply (dial_moves dl c); try done. unfold dialOver in *. now rewrite Em, Ew.
  - intros d' Hs. apply IH; [|done| |now rewrite (goStep_ctx dl d1 d' Hs)].
    + assert (Hlt : (dialWork d' < dialWork d1)%nat).
      { apply (goStep_work dl); [done|]. intros E. unfold dial_inv in Hi1. rewrite E in Hi1. apply Hi1. }
      unfold dialWork in *. rewrite Em, Ew in Hlt. lia.
    + destruct Hs as [Hs|pick Hs]; eauto using main_inv, watch_inv.
Qed.

End Proofs.

(** * Properties *)

Section Properties.
Context {C : Primitives} {CL : PrimitiveLaws C} {K : KexLib} {KL : KexLaws K} {X : X509}
  {PM : PEM} {PML : PEMLaws PM}.

(** C16. The race of [handshakeContext] has the outcomes of its sequential model and
    leaves nothing behind: when it returns, however the caller, the watching
    goroutine, the context and the network interleaved, its result and connection
    are those of [Conn.handshakeContext] for some value received from [interrupt];
    an error of the context is returned only if the context ended, with that error;
    the watcher has ended and nothing is left in the channel; and after a success,
    or an error that is the handshake's own, the transport has no deadline. *)
Theorem dial_race dl c clock ctxErr d r :
  layer_ok (cn_layer c) -> rtc (dialStep dl) (dialStart c clock ctxErr) d -> d_main d = MFin r ->
  d_watch d = WDone /\ d_interrupt d = None /\ safe r /\ (r = Ok tt -> d_deadline d = None) /\
  exists v c1 c2, moved c c1 /\ handshakeContext (Some v) c1 = (r, c2) /\ moved c2 (d_conn d) /\
    match v with None => d_deadline d = None | Some e => d_ctxErr d = Some e end.
Proof.
  intros Hl Hr Hm. pose proof (dial_inv_steps dl c _ d Hl (dial_inv_start dl c clock ctxErr) Hr) as Hi.
  unfold dial_inv in Hi. rewrite Hm in Hi.
  destruct Hi as (A & B & v & err & (c1 & c2 & Hm1 & Hh & Hm2) & -> & Hdl).
  split; [done|]. split; [done|]. split; [now destruct v, err|]. split; [destruct v, err; done|].
  exists v, c1, c2. split; [done|]. split; [|done].
  cbn [handshakeContext]. unfold bindM. rewrite Hh. now destruct v, err.
Qed.

(** C26. A context that ends ends the dial: from any moment after the context has
    ended, even with a peer that stalls for ever, one of the two goroutines can
    move until both have ended, and every order in which they run is finite: the
    caller returns and no goroutine is leaked. *)
Theorem dial_ends dl c clock ctxErr d :
  layer_ok (cn_layer c) -> rtc (dialStep dl) (dialStart c clock ctxErr) d -> d_ctxErr d <> None ->
  dialEnds dl d.
Proof.
  intros Hl Hr Hctx. apply (dial_ends_n dl c (S (dialWork d))); [lia|done| |done].
  exact (dial_inv_steps dl c _ d Hl (dial_inv_start dl c clock ctxErr) Hr).
Qed.

End Properties.
