(* ===== verification/DialRun.v ===== *)
(** * The dialer's goroutines in use

    Two schedules of [handshakeContext] on the connection of [ConnRun]: the
    handshake wins, and a context that ends while the peer stalls. *)

From Stdlib Require Import ZArith Lia.
From stdpp Require Import base list strings gmap relations.
From S2P Require Import Prelude Errors Messages Primitives State Layer Protectors Suites KeyExchange Certs Client ClientProofs ClientRun Conn ConnProofs ConnRun DialRace.

Open Scope Z_scope.

#[local] Existing Instance Toy.prims.
#[local] Existing Instance Toy.laws.
#[local] Existing Instance ToyKex.kex.
#[local] Existing Instance ToyKex.kexLaws.
#[local] Existing Instance toyPEM.
#[local] Existing Instance toyPEMLaws.

(** A turn of the caller, a turn of the watcher, the peer stalling, the context
    ending. *)
Inductive dialTurn := TMain | TWatch (pick : bool) | TStall | TCancel (e : error).

Definition dialTurn1 (dl : option Z) (e : dialTurn) (d : dialState) : option dialState :=
  match e with
  | TMain => mainStep dl d
  | TWatch pick => watchStep pick d
  | TStall =>
      Some {| d_conn := d_conn d; d_main := d_main d; d_watch := d_watch d; d_done := d_done d;
              d_interrupt := d_interrupt d; d_deadline := d_deadline d; d_clock := d_clock d;
              d_ctxErr := d_ctxErr d; d_stalled := true |}
  | TCancel e =>
      match d_ctxErr d with
      | Some _ => None
      | None =>
        Some {| d_conn := d_conn d; d_main := d_main d; d_watch := d_watch d; d_done := d_done d;
                d_interrupt := d_interrupt d; d_deadline := d_deadline d; d_clock := d_clock d;
                d_ctxErr := Some e; d_stalled := d_stalled d |}
      end
  end.

Fixpoint dialTurns (dl : option Z) (es : list dialTurn) (d : dialState) : option dialState :=
  match es with
  | [] => Some d
  | e :: es => match dialTurn1 dl e d with Some d => dialTurns dl es d | None => None end
  end.

Lemma dialTurn1_step dl e d d' : dialTurn1 dl e d = Some d' -> dialStep dl d d'.
Proof.
  assert (Hc : d_conn d = cn_set_layer (set_rw (rw (cn_layer (d_conn d))) (cn_layer (d_conn d))) (d_conn d))
    by (destruct (d_conn d) as [? []]; done).
  destruct e as [|pick| |e]; cbn; intros H.
  - left. now apply go_main.
  - left. now apply (go_watch _ _ _ pick).
  - injection H as <-. right. exists (rw (cn_layer (d_conn d))), (d_clock d), (d_ctxErr d), true.
    rewrite <- Hc. split_and!; done.
  - destruct (d_ctxErr d) eqn:E; [done|]. injection H as <-. right.
    exists (rw (cn_layer (d_conn d))), (d_clock d), (Some e), (d_stalled d).
    rewrite <- Hc, E. split_and!; done.
Qed.

Definition dialAfter (dl : option Z) (es : list dialTurn) (d : dialState) : dialState :=
  default d (dialTurns dl es d).

Lemma dialAfter_steps dl es d : rtc (dialStep dl) d (dialAfter dl es d).
Proof.
  unfold dialAfter. destruct (dialTurns dl es d) as [d'|] eqn:E; [|reflexivity]. cbn.
  revert d E. induction es as [|e es IH]; intros d E; cbn in E; [injection E as <-; reflexivity|].
  destruct (dialTurn1 dl e d) as [d1|] eqn:E1; [|done]. eapply rtc_l; [exact (dialTurn1_step dl e d d1 E1)|auto].
Qed.

(** ** Witnesses *)

(** The context has a deadline at 100 and the handshake is in time. *)
Definition dialWins : list dialTurn :=
  [TMain; TMain; TMain; TMain; TWatch false; TWatch false; TMain; TMain].

Lemma dial_race_witness :
  d_main (dialAfter (Some 100) dialWins (dialStart theConn 0 None)) = MFin (Ok tt) /\
  d_deadline (dialAfter (Some 100) dialWins (dialStart theConn 0 None)) = None.
Proof.
  assert (E : d_main (dialAfter (Some 100) dialWins (dialStart theConn 0 None)) = MFin (Ok tt))
    by (vm_compute; reflexivity).
  split; [exact E|].
  destruct (dial_race (Some 100) theConn 0 None _ (Ok tt) theConn_ok
    (dialAfter_steps (Some 100) dialWins (dialStart theConn 0 None)) E) as (_ & _ & _ & H & _).
  exact (H eq_refl).
Defined.

(** The peer stalls before the handshake, and the context is cancelled. *)
Definition dialStalls : list dialTurn := [TMain; TMain; TStall; TCancel (ErrTransport 9)].

Lemma dial_ends_witness :
  mainStep None (dialAfter None dialStalls (dialStart theConn 0 None)) = None /\
  dialEnds None (dialAfter None dialStalls (dialStart theConn 0 None)).
Proof.
  split; [vm_compute; reflexivity|].
  apply (dial_ends None theConn 0 None _ theConn_ok (dialAfter_steps _ _ _)).
  vm_compute. discriminate.
Defined.
